(* ===== verification/_CoqProject ===== *)
-Q . S2P
Prelude.v
Consts.v
Absl.v
Errno.v
Status.v
Machine.v
Syscalls.v
Raii.v
Fuse.v
Inode.v
Pafs.v
FuseOps.v
Sim.v
Main.v
Requests.v
Cache.v
Lookup.v
Conserve.v
Handlers.v
CacheSpec.v
ReadDir.v
Protocol.v
Errors.v
Owners.v
Ledger.v
Runs.v
