(* ===== verification/Prelude.v ===== *)
(** * Page-Aligned File System: a verification development

    pafs is a FUSE file system that mirrors a source directory: a process that
    answers the kernel's requests by making the corresponding system call on the
    mirrored file.  The sources are under src/pafs.  This library models all of
    the program's own code and proves what makes it correct: every request gets
    one reply, the inodes the kernel knows stay alive and only those, no
    descriptor leaks, and failures reach the kernel as the right number; and it
    records, as theorems, the places where the code does something else.

    ** How the program is modelled

    The program is shallowly embedded.  A function that returns [absl::Status] or
    [absl::StatusOr<T>] is a function of the monad [Machine.M]: it runs in a state
    [Machine.St] (the platform, [errno], the trace of calls, the request being
    served, the file system object and the heap) and returns, fails with a
    status, or crashes (a failed CHECK, undefined behaviour, or the fuel of the
    model).  [RETURN_IF_ERROR] and [ASSIGN_OR_RETURN] are the bind of the monad.
    The destructor of a local runs where its scope ends: [on_exit] when it runs
    on every path, [on_error] when the local has been released or moved by the
    time the function returns normally.  A move swaps with an empty object, as
    the code does, so a moved-from object owns nothing.

    Every call that leaves the program (libc and libfuse) is a constructor of
    [Machine.call]; [sys] asks the platform for the answer and appends the call to
    the trace.  The platform is a parameter ([Machine.Platform]): a theorem holds
    for every kernel, every errno and every answer, except where the documented
    behaviour in [Machine.PlatformLaws] is a hypothesis.  Abseil and libc's names
    of errors are interfaces too ([Absl.Absl] with [Absl.AbslLaws], [Errno.Libc]
    with [Errno.LibcLaws]).  [Sim] implements all of them by a small simulated
    kernel, which shows that the hypotheses can hold and on which the witnesses
    run the program.

    ** Files and sources

    - [Absl], [Consts]: Abseil's interface; the constants of the system headers.
    - [Errno], [Status]: errno.cc; status.h, status.cc and the table from status
      codes to error numbers of fuse.cc.
    - [Machine]: the C structures, the calls, the classes' data (fd.h, dir.h,
      fuse.h, inode.h, page_align_fs.h), the monad, and three ways to reason
      about it: [wp] (total correctness), [Keeps] (what a function leaves
      unchanged) and [Safe] (it does not crash), each with a tactic that follows
      the structure of the code.
    - [Syscalls]: syscalls.h, syscalls.cc, and the moves of fd.cc.
    - [Raii]: the owners of fd.cc, dir.cc, mount.cc, signal.cc.
    - [Fuse]: fuse.h, fuse.cc: requests and replies, poll handles, the builder of
      directory listings; the accounting of replies.
    - [Inode]: inode.h, inode.cc: inodes and the reference-counted cache.  The
      inode number the kernel sees is the address of the entry.
    - [Pafs]: page_align_fs.cc: one definition per handler.
    - [FuseOps]: fuse_ops.h: the concepts, the 44 wrappers with their reply
      policies, the table they fill, and the class as it instantiates them.
    - [Main]: main.cc: set-up, the loop, tear-down.
    - [Requests]: the requests libfuse makes, [serve]d through the table.

    ** What is proved

    - [Requests]: one reply per request, whatever fails.
    - [Cache], [CacheSpec]: the cache's invariant; it refines a map from (device,
      inode number) to an address and a count; its error paths.
    - [Lookup], [Conserve], [Handlers], [ReadDir]: what each handler does to the
      reference counts: those that reply with an entry add one when the reply is
      accepted and none otherwise; listings fit their buffer and end.
    - [Protocol]: a well-behaved kernel as a transition system that drives the
      table; in every reachable state each count is what the kernel was granted
      less what it forgot, and no request it may send crashes the process.
    - [Ledger], [Owners]: descriptors, streams and poll handles are conserved by
      every request and by the whole process; the exact calls of the owners, of
      the updates of [SetAttr] and of [poll].
    - [Runs]: the protocol and the ledger together: along every run, what was
      acquired is held, handed to the kernel or lost; when the kernel has given
      everything back, nothing is left open but the root.
    - [Main]: what is set up is taken down, innermost first; the exit code.
    - [Errors]: how error numbers travel from a call to the kernel, and the paths
      on which they are lost.

    ** Bounds and fuel

    Reference counts are 64-bit and wrap ([u64_add], [u64_sub]); the protocol
    assumes that no inode is ever granted 2^64 references at once.  The loop of
    [ReadDirInternal] has the fuel [readdir_fuel size]: each entry it takes needs
    at least one byte of the reply, so [size] iterations, the one whose entry
    does not fit and the one that finds the end are enough
    ([ReadDir.ReadDir_loop_terminates]).  [syscalls.umount] and the destructor
    of its parameter recurse; their fuel bounds the depth, and no fuel is enough
    for a target that stays busy ([Owners.umount_diverges]).

    ** What is not modelled

    Logging, and operator<< for [Inode], which only feeds it; the code compiled
    out by [#if 0]; the text of the usage messages.  The command line as
    Abseil parses it, the flags and libfuse's session loops are arguments of
    [Main.Main]; libfuse, libc and the kernel are the platform.  A request runs
    to its end before the next begins: the interleavings of the multi-threaded
    loop, against which the cache has no lock, are not modelled, and the
    protocol leaves out [readdirplus], whose handler is specified in [ReadDir].

    ** What comes next

    Listings with [readdirplus] in the protocol, with the kernel's reading of the
    reply; two requests interleaved at their calls. *)

From stdpp Require Export base list gmap strings.
From Stdlib Require Export ZArith Lia Ascii String.

(** ** Machine integers

    [uint64_t] and [size_t] arithmetic wraps modulo 2^64, as in C++. *)

Definition two64 : Z := 18446744073709551616.
Definition u64 (z : Z) : Z := z mod two64.
Definition u64_add (x y : Z) : Z := u64 (x + y).
Definition u64_sub (x y : Z) : Z := u64 (x - y).
Definition is_u64 (z : Z) : Prop := (0 <= z < two64)%Z.

Lemma two64_pos : (0 < two64)%Z.
Proof. reflexivity. Qed.

Lemma is_u64_u64 z : is_u64 (u64 z).
Proof. apply Z.mod_pos_bound, two64_pos. Qed.

Lemma u64_id z : is_u64 z → u64 z = z.
Proof. apply Z.mod_small. Qed.

Lemma u64_add_small x y : (0 <= x + y < two64)%Z → u64_add x y = (x + y)%Z.
Proof. intros; by apply u64_id. Qed.

Lemma u64_sub_small x y : (0 <= x - y < two64)%Z → u64_sub x y = (x - y)%Z.
Proof. intros; by apply u64_id. Qed.

Lemma is_u64_add x y : is_u64 (u64_add x y).
Proof. apply is_u64_u64. Qed.

Lemma is_u64_sub x y : is_u64 (u64_sub x y).
Proof. apply is_u64_u64. Qed.

(** ** Flag words: bit masks kept as [Z] *)

Definition has_flag (w m : Z) : bool := negb (Z.land w m =? 0)%Z.

(** ** Boolean counting: [1] when the proposition holds *)

Definition ind (P : Prop) `{Decision P} : Z := if decide P then 1%Z else 0%Z.

Lemma ind_true (P : Prop) `{Decision P} : P → ind P = 1%Z.
Proof. unfold ind. intros; by rewrite decide_True. Qed.

Lemma ind_false (P : Prop) `{Decision P} : ¬ P → ind P = 0%Z.
Proof. unfold ind. intros; by rewrite decide_False. Qed.

Lemma ind_range (P : Prop) `{Decision P} : (0 <= ind P <= 1)%Z.
Proof. unfold ind. case_decide; lia. Qed.

(** ** Sums over a finite map *)

Section MapSum.
Context {A : Type} (f : A → Z).
Local Open Scope Z_scope.

Definition map_sum (m : gmap Z A) : Z := map_fold (λ _ x acc, f x + acc) 0 m.

Lemma map_sum_insert m k x : m !! k = None → map_sum (<[k := x]> m) = f x + map_sum m.
Proof. intros H. unfold map_sum. apply (map_fold_insert_L (λ _ x acc, f x + acc)); [intros; lia|done]. Qed.

Lemma map_sum_delete m k x : m !! k = Some x → map_sum (delete k m) = map_sum m - f x.
Proof.
  intros H. unfold map_sum.
  rewrite (map_fold_delete_L (λ _ x acc, f x + acc) 0 k x m); [lia|intros; lia|done].
Qed.

Lemma map_sum_update m k x y : m !! k = Some x → map_sum (<[k := y]> m) = map_sum m - f x + f y.
Proof.
  intros H. rewrite <- insert_delete_eq, map_sum_insert by apply lookup_delete_eq.
  rewrite (map_sum_delete _ _ _ H). lia.
Qed.

Lemma map_sum_alter m k g :
  map_sum (alter g k m) = map_sum m + match m !! k with Some x => f (g x) - f x | None => 0 end.
Proof.
  destruct (m !! k) as [x|] eqn:E.
  - rewrite <- (insert_id m k x E) at 1. rewrite alter_insert_eq, (map_sum_update _ _ _ _ E). lia.
  - rewrite alter_id by (intros ? H; by rewrite E in H). lia.
Qed.

End MapSum.

(** ** Hint databases of the development *)

Create HintDb pafs discriminated.
#[export] Hint Resolve two64_pos is_u64_u64 is_u64_add is_u64_sub : pafs.
