(* ===== verification/Consts.v ===== *)
(** * Constants of the Linux and libfuse interfaces

    The flag words the program builds and tests, with the values of the Linux
    headers (x86-64, generic) and of fuse_lowlevel.h. *)

From S2P Require Import Prelude.

Open Scope Z_scope.

(** <fcntl.h> *)
Definition O_RDONLY : Z := 0.
Definition O_ACCMODE : Z := 3.
Definition O_CREAT : Z := Z.shiftl 1 6.
Definition O_DIRECTORY : Z := Z.shiftl 1 16.
Definition O_NOFOLLOW : Z := Z.shiftl 1 17.
Definition O_CLOEXEC : Z := Z.shiftl 1 19.
Definition O_PATH : Z := Z.shiftl 1 21.
Definition AT_FDCWD : Z := -100.
Definition AT_SYMLINK_NOFOLLOW : Z := 256.
Definition AT_REMOVEDIR : Z := 512.
Definition AT_EMPTY_PATH : Z := 4096.
Definition F_GETLK : Z := 5.
Definition F_SETLK : Z := 6.
Definition F_SETLKW : Z := 7.

(** <sys/stat.h>, <limits.h>, <signal.h>, <linux/fs.h> *)
Definition S_IFMT : Z := 61440.
Definition S_IFDIR : Z := 16384.
Definition S_ISDIR (mode : Z) : bool := Z.land mode S_IFMT =? S_IFDIR.
Definition UTIME_NOW : Z := Z.shiftl 1 30 - 1.
Definition UTIME_OMIT : Z := Z.shiftl 1 30 - 2.
Definition PATH_MAX : Z := 4096.
Definition INT_MAX : Z := 2147483647.
Definition INT_MIN : Z := -2147483648.
Definition SIG_SETMASK : Z := 2.
Definition FS_IOC_GETVERSION : Z := 2148038145.

(** <poll.h> *)
Definition POLLIN : Z := 1.
Definition POLLPRI : Z := 2.
Definition POLLOUT : Z := 4.
Definition POLLERR : Z := 8.
Definition POLLHUP : Z := 16.
Definition POLLNVAL : Z := 32.
Definition POLLRDHUP : Z := 8192.

(** fuse_lowlevel.h, fuse_common.h *)
Definition FUSE_ROOT_ID : Z := 1.
Definition FUSE_SET_ATTR_MODE : Z := Z.shiftl 1 0.
Definition FUSE_SET_ATTR_UID : Z := Z.shiftl 1 1.
Definition FUSE_SET_ATTR_GID : Z := Z.shiftl 1 2.
Definition FUSE_SET_ATTR_SIZE : Z := Z.shiftl 1 3.
Definition FUSE_SET_ATTR_ATIME : Z := Z.shiftl 1 4.
Definition FUSE_SET_ATTR_MTIME : Z := Z.shiftl 1 5.
Definition FUSE_SET_ATTR_ATIME_NOW : Z := Z.shiftl 1 7.
Definition FUSE_SET_ATTR_MTIME_NOW : Z := Z.shiftl 1 8.
Definition FUSE_BUF_IS_FD : Z := Z.shiftl 1 1.
Definition FUSE_BUF_FD_SEEK : Z := Z.shiftl 1 2.

(** [or_flags [a; b; c]] is [a | b | c]. *)
Definition or_flags (l : list Z) : Z := fold_right Z.lor 0 l.
