(* ===== verification/Absl.v ===== *)
(** * Abseil: the interface the program is written against

    abseil-cpp is a third-party package that is not part of the repository, so
    it is an interface here: [Absl] lists the operations the sources call, and
    [AbslLaws] states the documented behaviour the theorems rely on. *)

From S2P Require Import Prelude.

(** [absl::StatusCode], with the constructors the sources name; [kOtherCode]
    is any other value of the enumeration's underlying [int]. *)
Inductive StatusCode : Type :=
  | kOk | kCancelled | kUnknown | kInvalidArgument | kDeadlineExceeded
  | kNotFound | kAlreadyExists | kPermissionDenied | kResourceExhausted
  | kFailedPrecondition | kAborted | kOutOfRange | kUnimplemented
  | kInternal | kUnavailable | kDataLoss | kUnauthenticated
  | kOtherCode (n : Z).

#[export] Instance StatusCode_eq_dec : EqDecision StatusCode.
Proof. solve_decision. Defined.

(** An argument of [absl::StrCat]: text or an integer. *)
Inductive AlphaNum : Type :=
  | Txt (s : string)
  | Num (n : Z).

Class Absl : Type := {
  (* absl/status *)
  Status : Type;
  OkStatus : Status;
  MakeStatus : StatusCode → string → Status;
  code : Status → StatusCode;
  message : Status → string;
  GetPayload : Status → string → option string;
  SetPayload : Status → string → string → Status;
  (* the (type_url, payload) pairs [ForEachPayload] visits, in its order *)
  Payloads : Status → list (string * string);
  absl_ErrnoToStatus : Z → string → Status;
  (* the status of a [StatusOr] that was constructed from this status *)
  StatusOrStatus : Status → Status;
  (* absl/strings *)
  StrCat : list AlphaNum → string;
  StrFormatInt : string → Z → string → string;  (* prefix, %d, suffix *)
  ConsumePrefix : string → string → option string;
  ConsumeSuffix : string → string → option string;
  SimpleAtoi : string → option Z;
  (* absl/time *)
  Duration : Type;
  double : Type;
  ZeroDuration : Duration;
  Duration_eqb : Duration → Duration → bool;
  ToDoubleSeconds : Duration → double;
  ToInt64Milliseconds : Duration → Z;
  DurationStr : Duration → string
}.

Section Absl.
Context {AB : Absl}.

Definition ok (st : Status) : bool := bool_decide (code st = kOk).

(** Range of a C++ [int]. *)
Definition is_int (n : Z) : Prop := (-2147483648 <= n <= 2147483647)%Z.

(** Documented behaviour of the parts of Abseil above. *)
Class AbslLaws : Prop := {
  ok_OkStatus : ok OkStatus = true;
  code_MakeStatus : ∀ c m, code (MakeStatus c m) = c;
  GetPayload_MakeStatus : ∀ c m u, GetPayload (MakeStatus c m) u = None;
  Payloads_spec : ∀ st u, GetPayload st u = list_to_map (M := gmap string string) (Payloads st) !! u;
  code_SetPayload : ∀ st u p, code (SetPayload st u p) = code st;
  (* "This function does nothing if the Status is ok." *)
  SetPayload_ok : ∀ st u p, ok st = true → SetPayload st u p = st;
  GetPayload_SetPayload : ∀ st u p, ok st = false → GetPayload (SetPayload st u p) u = Some p;
  GetPayload_SetPayload_ne : ∀ st u u' p,
    u ≠ u' → GetPayload (SetPayload st u p) u' = GetPayload st u';
  (* [absl::ErrnoToStatus] is OK exactly for errno 0 *)
  ok_ErrnoToStatus : ∀ n m, ok (absl_ErrnoToStatus n m) = bool_decide (n = 0%Z);
  GetPayload_ErrnoToStatus : ∀ n m u, GetPayload (absl_ErrnoToStatus n m) u = None;
  (* a [StatusOr] made from an error holds that error; made from an OK status
     it holds an internal error *)
  StatusOrStatus_err : ∀ st, ok st = false → StatusOrStatus st = st;
  StatusOrStatus_not_ok : ∀ st, ok (StatusOrStatus st) = false;
  ConsumePrefix_StrFormat : ∀ p n s, ∃ rest,
    ConsumePrefix (StrFormatInt p n s) p = Some rest ∧
    ∃ digits, ConsumeSuffix rest s = Some digits ∧
              (is_int n → SimpleAtoi digits = Some n);
  ConsumePrefix_prefix : ∀ s p rest, ConsumePrefix s p = Some rest → s = String.append p rest
}.

End Absl.

Arguments AbslLaws : clear implicits.
Arguments AbslLaws AB : rename.

Create Rewrite HintDb absl.
#[export] Hint Rewrite @code_MakeStatus @code_SetPayload @ok_OkStatus
  @GetPayload_MakeStatus using typeclasses eauto : absl.
