(* ===== verification/Errno.v ===== *)
(** * errno.cc: error numbers and their names

    [ErrnoToErrorName] and [ErrorNameToErrno] translate between an error number
    and the symbolic name a status carries in its payload.  The name of a number
    comes from libc ([strerrorname_np], an interface here); the number of a name
    comes from the table of errno.cc. *)

From S2P Require Import Prelude Absl.

Open Scope string_scope.
Open Scope Z_scope.

(** ** Error numbers *)

(** The constants of <asm-generic/errno-base.h> and <asm-generic/errno.h>. *)
Definition EPERM : Z := 1.
Definition ENOENT : Z := 2.
Definition ESRCH : Z := 3.
Definition EINTR : Z := 4.
Definition EIO : Z := 5.
Definition ENXIO : Z := 6.
Definition E2BIG : Z := 7.
Definition ENOEXEC : Z := 8.
Definition EBADF : Z := 9.
Definition ECHILD : Z := 10.
Definition EAGAIN : Z := 11.
Definition ENOMEM : Z := 12.
Definition EACCES : Z := 13.
Definition EFAULT : Z := 14.
Definition ENOTBLK : Z := 15.
Definition EBUSY : Z := 16.
Definition EEXIST : Z := 17.
Definition EXDEV : Z := 18.
Definition ENODEV : Z := 19.
Definition ENOTDIR : Z := 20.
Definition EISDIR : Z := 21.
Definition EINVAL : Z := 22.
Definition ENFILE : Z := 23.
Definition EMFILE : Z := 24.
Definition ENOTTY : Z := 25.
Definition ETXTBSY : Z := 26.
Definition EFBIG : Z := 27.
Definition ENOSPC : Z := 28.
Definition ESPIPE : Z := 29.
Definition EROFS : Z := 30.
Definition EMLINK : Z := 31.
Definition EPIPE : Z := 32.
Definition EDOM : Z := 33.
Definition ERANGE : Z := 34.
Definition EDEADLK : Z := 35.
Definition ENAMETOOLONG : Z := 36.
Definition ENOLCK : Z := 37.
Definition ENOSYS : Z := 38.
Definition ENOTEMPTY : Z := 39.
Definition ELOOP : Z := 40.
Definition ENOMSG : Z := 42.
Definition EIDRM : Z := 43.
Definition ECHRNG : Z := 44.
Definition EL2NSYNC : Z := 45.
Definition EL3HLT : Z := 46.
Definition EL3RST : Z := 47.
Definition ELNRNG : Z := 48.
Definition EUNATCH : Z := 49.
Definition ENOCSI : Z := 50.
Definition EL2HLT : Z := 51.
Definition EBADE : Z := 52.
Definition EBADR : Z := 53.
Definition EXFULL : Z := 54.
Definition ENOANO : Z := 55.
Definition EBADRQC : Z := 56.
Definition EBADSLT : Z := 57.
Definition EBFONT : Z := 59.
Definition ENOSTR : Z := 60.
Definition ENODATA : Z := 61.
Definition ETIME : Z := 62.
Definition ENOSR : Z := 63.
Definition ENONET : Z := 64.
Definition ENOPKG : Z := 65.
Definition EREMOTE : Z := 66.
Definition ENOLINK : Z := 67.
Definition EADV : Z := 68.
Definition ESRMNT : Z := 69.
Definition ECOMM : Z := 70.
Definition EPROTO : Z := 71.
Definition EMULTIHOP : Z := 72.
Definition EDOTDOT : Z := 73.
Definition EBADMSG : Z := 74.
Definition EOVERFLOW : Z := 75.
Definition ENOTUNIQ : Z := 76.
Definition EBADFD : Z := 77.
Definition EREMCHG : Z := 78.
Definition ELIBACC : Z := 79.
Definition ELIBBAD : Z := 80.
Definition ELIBSCN : Z := 81.
Definition ELIBMAX : Z := 82.
Definition ELIBEXEC : Z := 83.
Definition EILSEQ : Z := 84.
Definition ERESTART : Z := 85.
Definition ESTRPIPE : Z := 86.
Definition EUSERS : Z := 87.
Definition ENOTSOCK : Z := 88.
Definition EDESTADDRREQ : Z := 89.
Definition EMSGSIZE : Z := 90.
Definition EPROTOTYPE : Z := 91.
Definition ENOPROTOOPT : Z := 92.
Definition EPROTONOSUPPORT : Z := 93.
Definition ESOCKTNOSUPPORT : Z := 94.
Definition EOPNOTSUPP : Z := 95.
Definition EPFNOSUPPORT : Z := 96.
Definition EAFNOSUPPORT : Z := 97.
Definition EADDRINUSE : Z := 98.
Definition EADDRNOTAVAIL : Z := 99.
Definition ENETDOWN : Z := 100.
Definition ENETUNREACH : Z := 101.
Definition ENETRESET : Z := 102.
Definition ECONNABORTED : Z := 103.
Definition ECONNRESET : Z := 104.
Definition ENOBUFS : Z := 105.
Definition EISCONN : Z := 106.
Definition ENOTCONN : Z := 107.
Definition ESHUTDOWN : Z := 108.
Definition ETOOMANYREFS : Z := 109.
Definition ETIMEDOUT : Z := 110.
Definition ECONNREFUSED : Z := 111.
Definition EHOSTDOWN : Z := 112.
Definition EHOSTUNREACH : Z := 113.
Definition EALREADY : Z := 114.
Definition EINPROGRESS : Z := 115.
Definition ESTALE : Z := 116.
Definition EUCLEAN : Z := 117.
Definition ENOTNAM : Z := 118.
Definition ENAVAIL : Z := 119.
Definition EISNAM : Z := 120.
Definition EREMOTEIO : Z := 121.
Definition EDQUOT : Z := 122.
Definition ENOMEDIUM : Z := 123.
Definition EMEDIUMTYPE : Z := 124.
Definition ECANCELED : Z := 125.
Definition ENOKEY : Z := 126.
Definition EKEYEXPIRED : Z := 127.
Definition EKEYREVOKED : Z := 128.
Definition EKEYREJECTED : Z := 129.
Definition EOWNERDEAD : Z := 130.
Definition ENOTRECOVERABLE : Z := 131.
Definition ERFKILL : Z := 132.
Definition EHWPOISON : Z := 133.
(** glibc's alias *)
Definition ENOTSUP : Z := EOPNOTSUPP.

(** The names libc knows: [strerrorname_np] of glibc on Linux. *)
Definition linux_errnos : list (Z * string) :=
  [
    (EPERM, "EPERM"); (ENOENT, "ENOENT"); (ESRCH, "ESRCH"); (EINTR, "EINTR"); (EIO, "EIO");
    (ENXIO, "ENXIO"); (E2BIG, "E2BIG"); (ENOEXEC, "ENOEXEC"); (EBADF, "EBADF");
    (ECHILD, "ECHILD"); (EAGAIN, "EAGAIN"); (ENOMEM, "ENOMEM"); (EACCES, "EACCES");
    (EFAULT, "EFAULT"); (ENOTBLK, "ENOTBLK"); (EBUSY, "EBUSY"); (EEXIST, "EEXIST");
    (EXDEV, "EXDEV"); (ENODEV, "ENODEV"); (ENOTDIR, "ENOTDIR"); (EISDIR, "EISDIR");
    (EINVAL, "EINVAL"); (ENFILE, "ENFILE"); (EMFILE, "EMFILE"); (ENOTTY, "ENOTTY");
    (ETXTBSY, "ETXTBSY"); (EFBIG, "EFBIG"); (ENOSPC, "ENOSPC"); (ESPIPE, "ESPIPE");
    (EROFS, "EROFS"); (EMLINK, "EMLINK"); (EPIPE, "EPIPE"); (EDOM, "EDOM");
    (ERANGE, "ERANGE"); (EDEADLK, "EDEADLK"); (ENAMETOOLONG, "ENAMETOOLONG");
    (ENOLCK, "ENOLCK"); (ENOSYS, "ENOSYS"); (ENOTEMPTY, "ENOTEMPTY"); (ELOOP, "ELOOP");
    (ENOMSG, "ENOMSG"); (EIDRM, "EIDRM"); (ECHRNG, "ECHRNG"); (EL2NSYNC, "EL2NSYNC");
    (EL3HLT, "EL3HLT"); (EL3RST, "EL3RST"); (ELNRNG, "ELNRNG"); (EUNATCH, "EUNATCH");
    (ENOCSI, "ENOCSI"); (EL2HLT, "EL2HLT"); (EBADE, "EBADE"); (EBADR, "EBADR");
    (EXFULL, "EXFULL"); (ENOANO, "ENOANO"); (EBADRQC, "EBADRQC"); (EBADSLT, "EBADSLT");
    (EBFONT, "EBFONT"); (ENOSTR, "ENOSTR"); (ENODATA, "ENODATA"); (ETIME, "ETIME");
    (ENOSR, "ENOSR"); (ENONET, "ENONET"); (ENOPKG, "ENOPKG"); (EREMOTE, "EREMOTE");
    (ENOLINK, "ENOLINK"); (EADV, "EADV"); (ESRMNT, "ESRMNT"); (ECOMM, "ECOMM");
    (EPROTO, "EPROTO"); (EMULTIHOP, "EMULTIHOP"); (EDOTDOT, "EDOTDOT"); (EBADMSG, "EBADMSG");
    (EOVERFLOW, "EOVERFLOW"); (ENOTUNIQ, "ENOTUNIQ"); (EBADFD, "EBADFD");
    (EREMCHG, "EREMCHG"); (ELIBACC, "ELIBACC"); (ELIBBAD, "ELIBBAD"); (ELIBSCN, "ELIBSCN");
    (ELIBMAX, "ELIBMAX"); (ELIBEXEC, "ELIBEXEC"); (EILSEQ, "EILSEQ"); (ERESTART, "ERESTART");
    (ESTRPIPE, "ESTRPIPE"); (EUSERS, "EUSERS"); (ENOTSOCK, "ENOTSOCK");
    (EDESTADDRREQ, "EDESTADDRREQ"); (EMSGSIZE, "EMSGSIZE"); (EPROTOTYPE, "EPROTOTYPE");
    (ENOPROTOOPT, "ENOPROTOOPT"); (EPROTONOSUPPORT, "EPROTONOSUPPORT");
    (ESOCKTNOSUPPORT, "ESOCKTNOSUPPORT"); (EOPNOTSUPP, "EOPNOTSUPP");
    (EPFNOSUPPORT, "EPFNOSUPPORT"); (EAFNOSUPPORT, "EAFNOSUPPORT");
    (EADDRINUSE, "EADDRINUSE"); (EADDRNOTAVAIL, "EADDRNOTAVAIL"); (ENETDOWN, "ENETDOWN");
    (ENETUNREACH, "ENETUNREACH"); (ENETRESET, "ENETRESET"); (ECONNABORTED, "ECONNABORTED");
    (ECONNRESET, "ECONNRESET"); (ENOBUFS, "ENOBUFS"); (EISCONN, "EISCONN");
    (ENOTCONN, "ENOTCONN"); (ESHUTDOWN, "ESHUTDOWN"); (ETOOMANYREFS, "ETOOMANYREFS");
    (ETIMEDOUT, "ETIMEDOUT"); (ECONNREFUSED, "ECONNREFUSED"); (EHOSTDOWN, "EHOSTDOWN");
    (EHOSTUNREACH, "EHOSTUNREACH"); (EALREADY, "EALREADY"); (EINPROGRESS, "EINPROGRESS");
    (ESTALE, "ESTALE"); (EUCLEAN, "EUCLEAN"); (ENOTNAM, "ENOTNAM"); (ENAVAIL, "ENAVAIL");
    (EISNAM, "EISNAM"); (EREMOTEIO, "EREMOTEIO"); (EDQUOT, "EDQUOT");
    (ENOMEDIUM, "ENOMEDIUM"); (EMEDIUMTYPE, "EMEDIUMTYPE"); (ECANCELED, "ECANCELED");
    (ENOKEY, "ENOKEY"); (EKEYEXPIRED, "EKEYEXPIRED"); (EKEYREVOKED, "EKEYREVOKED");
    (EKEYREJECTED, "EKEYREJECTED"); (EOWNERDEAD, "EOWNERDEAD");
    (ENOTRECOVERABLE, "ENOTRECOVERABLE"); (ERFKILL, "ERFKILL"); (EHWPOISON, "EHWPOISON")
  ].

Class Libc : Type := {
  strerrorname_np : Z → option string
}.

(** Documented behaviour: the name of a known error number, null otherwise. *)
Class LibcLaws (L : Libc) : Prop := {
  strerrorname_np_spec :
    ∀ n, n ≠ 0 → strerrorname_np n = list_to_map (M := gmap Z string) linux_errnos !! n
}.

(** ** The table of [ErrorNameToErrno] *)

Definition kNamesToErrors : gmap string Z :=
  list_to_map
  [
    ("OK", 0%Z); ("EINVAL", EINVAL); ("ENAMETOOLONG", ENAMETOOLONG); ("E2BIG", E2BIG);
    ("EDESTADDRREQ", EDESTADDRREQ); ("EDOM", EDOM); ("EFAULT", EFAULT); ("EILSEQ", EILSEQ);
    ("ENOPROTOOPT", ENOPROTOOPT); ("ENOSTR", ENOSTR); ("ENOTSOCK", ENOTSOCK);
    ("ENOTTY", ENOTTY); ("EPROTOTYPE", EPROTOTYPE); ("ESPIPE", ESPIPE);
    ("ETIMEDOUT", ETIMEDOUT); ("ETIME", ETIME); ("ENODEV", ENODEV); ("ENOENT", ENOENT);
    ("ENOMEDIUM", ENOMEDIUM); ("ENXIO", ENXIO); ("ESRCH", ESRCH); ("EEXIST", EEXIST);
    ("EADDRNOTAVAIL", EADDRNOTAVAIL); ("EALREADY", EALREADY); ("ENOTUNIQ", ENOTUNIQ);
    ("EPERM", EPERM); ("EACCES", EACCES); ("ENOKEY", ENOKEY); ("EROFS", EROFS);
    ("ENOTEMPTY", ENOTEMPTY); ("EISDIR", EISDIR); ("ENOTDIR", ENOTDIR);
    ("EADDRINUSE", EADDRINUSE); ("EBADF", EBADF); ("EBADFD", EBADFD); ("EBUSY", EBUSY);
    ("ECHILD", ECHILD); ("EISCONN", EISCONN); ("EISNAM", EISNAM); ("ENOTBLK", ENOTBLK);
    ("ENOTCONN", ENOTCONN); ("EPIPE", EPIPE); ("ESHUTDOWN", ESHUTDOWN); ("ETXTBSY", ETXTBSY);
    ("EUNATCH", EUNATCH); ("ENOSPC", ENOSPC); ("EDQUOT", EDQUOT); ("EMFILE", EMFILE);
    ("EMLINK", EMLINK); ("ENFILE", ENFILE); ("ENOBUFS", ENOBUFS); ("ENODATA", ENODATA);
    ("ENOMEM", ENOMEM); ("ENOSR", ENOSR); ("EUSERS", EUSERS); ("ECHRNG", ECHRNG);
    ("EFBIG", EFBIG); ("EOVERFLOW", EOVERFLOW); ("ERANGE", ERANGE); ("ENOPKG", ENOPKG);
    ("ENOSYS", ENOSYS); ("ENOTSUP", ENOTSUP); ("EAFNOSUPPORT", EAFNOSUPPORT);
    ("EPFNOSUPPORT", EPFNOSUPPORT); ("EPROTONOSUPPORT", EPROTONOSUPPORT);
    ("ESOCKTNOSUPPORT", ESOCKTNOSUPPORT); ("EXDEV", EXDEV); ("EAGAIN", EAGAIN);
    ("ECOMM", ECOMM); ("ECONNREFUSED", ECONNREFUSED); ("ECONNABORTED", ECONNABORTED);
    ("ECONNRESET", ECONNRESET); ("EINTR", EINTR); ("EHOSTDOWN", EHOSTDOWN);
    ("EHOSTUNREACH", EHOSTUNREACH); ("ENETDOWN", ENETDOWN); ("ENETRESET", ENETRESET);
    ("ENETUNREACH", ENETUNREACH); ("ENOLCK", ENOLCK); ("ENOLINK", ENOLINK);
    ("ENONET", ENONET); ("EDEADLK", EDEADLK); ("ESTALE", ESTALE); ("ECANCELED", ECANCELED)
  ].

(** [absl::StatusOr<T>] *)
Abbreviation StatusOr A := (sum Status A).

Section Errno.
Context {AB : Absl} {LC : Libc}.

Definition unknown_prefix : string := "UNKNOWN (".
Definition unknown_suffix : string := ")".

Definition ErrnoToErrorName (error_number : Z) : string :=
  if error_number =? 0 then "OK" else
  match strerrorname_np error_number with
  | Some n => n
  | None => StrFormatInt unknown_prefix error_number unknown_suffix
  end.

(** The [if] with an initialiser: the number inside an "UNKNOWN (%d)" name. *)
Definition parse_unknown (error_name : string) : option Z :=
  en ← ConsumePrefix error_name unknown_prefix;
  en ← ConsumeSuffix en unknown_suffix;
  SimpleAtoi en.

Definition ErrorNameToErrno (error_name : string) : StatusOr Z :=
  match parse_unknown error_name with
  | Some err => inr err
  | None =>
      match kNamesToErrors !! error_name with
      | None => inl (MakeStatus kNotFound
                       (StrCat [Txt "No such errno for "; Txt error_name]))
      | Some n => inr n
      end
  end.

(** ** Round trip *)

(** The numbers whose name the table of errno.cc contains. *)
Definition in_table (n : Z) : bool :=
  match (list_to_map (M := gmap Z string) linux_errnos) !! n with
  | Some name => match kNamesToErrors !! name with Some _ => true | None => false end
  | None => true
  end.

Section Laws.
Context {AL : AbslLaws AB} {LL : LibcLaws LC}.

Lemma parse_unknown_foreign (s : string) c rest :
  s = String c rest → c ≠ "U"%char → parse_unknown s = None.
Proof.
  intros -> Hc. unfold parse_unknown.
  destruct (ConsumePrefix _ _) as [r|] eqn:E; simpl; [|done].
  apply ConsumePrefix_prefix in E. unfold unknown_prefix in E.
  by injection E.
Qed.

Lemma parse_unknown_formatted n :
  is_int n → parse_unknown (StrFormatInt unknown_prefix n unknown_suffix) = Some n.
Proof.
  intros Hn. unfold parse_unknown.
  destruct (ConsumePrefix_StrFormat unknown_prefix n unknown_suffix)
    as (rest & -> & digits & Hs & Hd).
  simpl. rewrite Hs. simpl. auto.
Qed.

(** Every entry of libc's list starts with "E", so none is taken for an
    "UNKNOWN (...)" name. *)
Definition starts_with_E (s : string) : bool :=
  match s with String "E"%char _ => true | _ => false end.

Lemma linux_names_E :
  forallb (λ p, starts_with_E p.2) linux_errnos = true.
Proof. vm_compute. reflexivity. Qed.

Lemma linux_errnos_lookup n name :
  list_to_map (M := gmap Z string) linux_errnos !! n = Some name →
  (n, name) ∈ linux_errnos.
Proof. apply elem_of_list_to_map_2. Qed.

Lemma parse_unknown_linux n name :
  list_to_map (M := gmap Z string) linux_errnos !! n = Some name →
  parse_unknown name = None.
Proof.
  intros H%linux_errnos_lookup%list_elem_of_In.
  pose proof (proj1 (forallb_forall _ _) linux_names_E _ H) as Hs. simpl in Hs.
  destruct name as [|c rest]; [done|].
  eapply parse_unknown_foreign; [done|]. intros ->. done.
Qed.

(** A libc name that is in the table of errno.cc stands for its own number. *)
Lemma table_agrees_with_libc :
  forallb (λ p, match kNamesToErrors !! p.2 with
                | Some m => bool_decide (m = p.1) | None => true end) linux_errnos = true.
Proof. vm_compute. reflexivity. Qed.

Lemma kNamesToErrors_linux n name m :
  list_to_map (M := gmap Z string) linux_errnos !! n = Some name →
  kNamesToErrors !! name = Some m → m = n.
Proof.
  intros H%linux_errnos_lookup%list_elem_of_In Hm.
  pose proof (proj1 (forallb_forall _ _) table_agrees_with_libc _ H) as Hs.
  cbn beta iota delta [fst snd] in Hs. rewrite Hm in Hs.
  by apply bool_decide_eq_true in Hs.
Qed.

Lemma ErrnoToErrorName_roundtrip n :
  is_int n → in_table n = true → ErrorNameToErrno (ErrnoToErrorName n) = inr n.
Proof.
  intros Hn Ht. unfold ErrnoToErrorName.
  destruct (Z.eqb_spec n 0) as [->|Hne].
  { unfold ErrorNameToErrno. by rewrite (parse_unknown_foreign _ "O"%char "K"). }
  rewrite strerrorname_np_spec by done. unfold in_table in Ht.
  destruct (list_to_map linux_errnos !! n) as [name|] eqn:E.
  - unfold ErrorNameToErrno. rewrite (parse_unknown_linux n) by done.
    destruct (kNamesToErrors !! name) eqn:Em; [|done].
    by rewrite (kNamesToErrors_linux n name z).
  - unfold ErrorNameToErrno. by rewrite parse_unknown_formatted.
Qed.

Lemma ErrnoToErrorName_lost n :
  in_table n = false → n ≠ 0 → ∃ e, ErrorNameToErrno (ErrnoToErrorName n) = inl e
    ∧ code e = kNotFound.
Proof.
  intros Ht Hne. unfold ErrnoToErrorName.
  rewrite (proj2 (Z.eqb_neq n 0)) by done.
  rewrite strerrorname_np_spec by done. unfold in_table in Ht.
  destruct (list_to_map linux_errnos !! n) as [name|] eqn:E; [|done].
  unfold ErrorNameToErrno. rewrite (parse_unknown_linux n) by done.
  destruct (kNamesToErrors !! name); [done|].
  eexists; split; [done|]. apply code_MakeStatus.
Qed.

End Laws.
End Errno.
