(* ===== verification/Status.v ===== *)
(** * status.cc, and the status-to-errno table of fuse.cc

    A status made by [ErrnoToStatus] carries the name of its error number in a
    payload; [GetErrnoFromStatus] reads it back.  [Prepend] and [Append] rebuild
    a status with a longer message. *)

From S2P Require Import Prelude Absl Errno.

Open Scope string_scope.
Open Scope Z_scope.

Section Status.
Context {AB : Absl} {LC : Libc}.

Definition kErrnoTypeUrl : string := "rus.har.mn/pafs/status/errno".

(** [CopyPayload(from, to)]: [to] is a by-value parameter, so what the function
    returns to its caller is nothing; the result here is the final value of the
    parameter, which dies with the call. *)
Definition CopyPayload (from to : Status) : Status :=
  fold_left (λ to '(type_url, payload), SetPayload to type_url payload)
            (Payloads from) to.

Definition Prepend (st : Status) (message_ joiner : string) : Status :=
  let new_status :=
    MakeStatus (code st) (StrCat [Txt message_; Txt joiner; Txt (message st)]) in
  let _to := CopyPayload st new_status in
  new_status.

Definition Append (st : Status) (message_ joiner : string) : Status :=
  let new_status :=
    MakeStatus (code st) (StrCat [Txt (message st); Txt joiner; Txt message_]) in
  let _to := CopyPayload st new_status in
  new_status.

Definition ErrnoToStatus (error_number : Z) (msg : string) : Status :=
  let status := absl_ErrnoToStatus error_number msg in
  SetPayload status kErrnoTypeUrl (ErrnoToErrorName error_number).

Definition GetErrnoFromStatus (status : Status) : StatusOr Z :=
  match GetPayload status kErrnoTypeUrl with
  | None => inl (MakeStatus kNotFound "No payload")
  | Some payload => ErrorNameToErrno payload
  end.

(** fuse.cc: the error number of a status code. *)
Definition StatusCodeToErrno (sc : StatusCode) : Z :=
  match sc with
  | kOk => 0
  | kInvalidArgument => EINVAL
  | kDeadlineExceeded => ETIMEDOUT
  | kNotFound => ENOENT
  | kAlreadyExists => EEXIST
  | kPermissionDenied | kUnauthenticated => EPERM
  | kOutOfRange => ERANGE
  | kFailedPrecondition => EBUSY
  | kResourceExhausted => ENOSPC
  | kCancelled => ECANCELED
  | kAborted => EDEADLK
  | kUnimplemented => ENOSYS
  | kUnavailable => EAGAIN
  | kDataLoss => ENOTRECOVERABLE
  | kInternal => ELIBBAD
  | kUnknown | kOtherCode _ => EPROTO
  end.

Lemma StatusCodeToErrno_zero sc : StatusCodeToErrno sc = 0 ↔ sc = kOk.
Proof. by destruct sc; split. Qed.

Lemma StatusCodeToErrno_known sc :
  StatusCodeToErrno sc ∈ (0 :: map fst linux_errnos).
Proof.
  destruct sc; refine (proj1 (bool_decide_eq_true _) _); vm_compute; reflexivity.
Qed.

Section Laws.
Context {AL : AbslLaws AB} {LL : LibcLaws LC}.

Lemma ok_ErrnoToStatus_pafs n m : ok (ErrnoToStatus n m) = bool_decide (n = 0).
Proof.
  unfold ErrnoToStatus, ok at 1. rewrite code_SetPayload. apply ok_ErrnoToStatus.
Qed.

Lemma code_ErrnoToStatus n m :
  code (ErrnoToStatus n m) = code (absl_ErrnoToStatus n m).
Proof. apply code_SetPayload. Qed.

Lemma GetErrno_ErrnoToStatus n m :
  n ≠ 0 → GetErrnoFromStatus (ErrnoToStatus n m) = ErrorNameToErrno (ErrnoToErrorName n).
Proof.
  intros Hn. unfold GetErrnoFromStatus, ErrnoToStatus.
  rewrite GetPayload_SetPayload; [done|].
  rewrite ok_ErrnoToStatus. by rewrite bool_decide_eq_false.
Qed.

(** A status keeps the error number it was made from exactly when the number's
    name is in the table of errno.cc (or libc has no name for it). *)
Lemma GetErrno_ErrnoToStatus_iff n m :
  is_int n → n ≠ 0 →
  GetErrnoFromStatus (ErrnoToStatus n m) = inr n ↔ in_table n = true.
Proof.
  intros Hi Hn. rewrite GetErrno_ErrnoToStatus by done. split.
  - intros H. destruct (in_table n) eqn:E; [done|].
    destruct (ErrnoToErrorName_lost n E Hn) as (e & He & _). congruence.
  - intros. by apply ErrnoToErrorName_roundtrip.
Qed.

Lemma MakeStatus_no_errno c m :
  GetErrnoFromStatus (MakeStatus c m) = inl (MakeStatus kNotFound "No payload").
Proof. unfold GetErrnoFromStatus. by rewrite GetPayload_MakeStatus. Qed.

End Laws.
End Status.
