(* ===== verification/Machine.v ===== *)
(** * The machine the program runs on

    The C structures that cross the system-call and libfuse boundary, the calls
    the program makes ([call], with the type of each answer, [ret]), the
    process's memory ([St]) and the monad its functions run in ([M]). *)

From S2P Require Import Prelude Absl Errno Status.

Open Scope string_scope.
Open Scope Z_scope.

(** ** C structures *)

Abbreviation bytes := (list Byte.byte).

Record timespec : Type := { tv_sec : Z; tv_nsec : Z }.

Record stat : Type := {
  st_dev : Z; st_ino : Z; st_mode : Z; st_nlink : Z; st_uid : Z; st_gid : Z;
  st_rdev : Z; st_size : Z; st_blksize : Z; st_blocks : Z;
  st_atim : timespec; st_mtim : timespec; st_ctim : timespec
}.

Record statvfs : Type := {
  f_bsize : Z; f_frsize : Z; f_blocks : Z; f_bfree : Z; f_bavail : Z;
  f_files : Z; f_ffree : Z; f_favail : Z; f_fsid : Z; f_flag : Z; f_namemax : Z
}.

Record flock_t : Type := {
  l_type : Z; l_whence : Z; l_start : Z; l_len : Z; l_pid : Z
}.

Record pollfd : Type := { pfd_fd : Z; pfd_events : Z; pfd_revents : Z }.

Record dirent : Type := { d_ino : Z; d_off : Z; d_name : string }.

(** The members of [struct fuse_file_info] the program reads or writes. *)
Record fuse_file_info : Type := {
  fi_flags : Z; fi_fh : Z; fi_noflush : bool; fi_parallel_direct_writes : bool
}.

Record fuse_buf : Type := {
  buf_size : Z; buf_flags : Z; buf_mem : Z; buf_fd : Z; buf_pos : Z
}.

Record fuse_bufvec : Type := {
  bv_count : Z; bv_idx : Z; bv_off : Z; bv_buf : list fuse_buf
}.

Record fuse_forget_data : Type := { fg_ino : Z; fg_nlookup : Z }.

Record fuse_conn_info : Type := {
  proto_major : Z; proto_minor : Z; max_write : Z; max_read : Z;
  max_readahead : Z; max_background : Z; congestion_threshold : Z
}.

(** What [fuse_parse_cmdline] fills in; no mount point is the null pointer. *)
Record fuse_cmdline_opts : Type := {
  singlethread : Z; foreground : Z; show_version : Z; show_help : Z;
  mountpoint : option string; clone_fd : Z; max_idle_threads : Z; max_threads : Z
}.

Section Calls.
Context {AB : Absl}.

(** [param.generation] is never assigned when the entry is built without a
    generation: [None] is an indeterminate value. *)
Record fuse_entry_param : Type := {
  ep_ino : Z; ep_generation : option Z; ep_attr : stat;
  ep_attr_timeout : double; ep_entry_timeout : double
}.

(** ** Calls that leave the program: libc and libfuse *)

Inductive call : Type :=
  (* descriptors *)
  | C_close (fd : Z)
  | C_open (pathname : string) (flags mode : Z)
  | C_openat (dirfd : Z) (pathname : string) (flags mode : Z)
  | C_read (fd count : Z)
  | C_dup (oldfd : Z)
  | C_fsync (fd : Z)
  | C_fdatasync (fd : Z)
  | C_lseek (fd offset whence : Z)
  | C_flock (fd operation : Z)
  | C_fallocate (fd mode offset len : Z)
  | C_copy_file_range (fd_in off_in fd_out off_out len flags : Z)
  | C_fcntl_lock (fd cmd : Z) (lock : flock_t)
  | C_ioctl (fd request : Z)
  | C_poll (fds : list pollfd) (timeout : Z)
  (* metadata *)
  | C_stat (pathname : string)
  | C_lstat (pathname : string)
  | C_fstatat (fd : Z) (pathname : string) (flag : Z)
  | C_fstatvfs (fd : Z)
  | C_fchmod (fd mode : Z)
  | C_fchownat (fd : Z) (pathname : string) (owner group flag : Z)
  | C_ftruncate (fd length : Z)
  | C_futimens (fd : Z) (atime mtime : timespec)
  | C_access (pathname : string) (mode : Z)
  | C_faccessat (dirfd : Z) (pathname : string) (mode flags : Z)
  | C_setxattr (pathname name : string) (value : bytes) (flags : Z)
  | C_fsetxattr (fd : Z) (name : string) (value : bytes) (flags : Z)
  | C_getxattr (pathname name : string) (size : Z)
  | C_listxattr (pathname : string) (size : Z)
  | C_removexattr (pathname name : string)
  (* names *)
  | C_readlinkat (dirfd : Z) (pathname : string) (size : Z)
  | C_mknodat (dirfd : Z) (pathname : string) (mode dev : Z)
  | C_mkdirat (dirfd : Z) (pathname : string) (mode : Z)
  | C_unlinkat (dirfd : Z) (pathname : string) (flags : Z)
  | C_symlinkat (target : string) (newdirfd : Z) (linkpath : string)
  | C_renameat2 (olddirfd : Z) (oldpath : string) (newdirfd : Z) (newpath : string) (flags : Z)
  | C_linkat (olddirfd : Z) (oldpath : string) (newdirfd : Z) (newpath : string) (flags : Z)
  (* directory streams *)
  | C_fdopendir (fd : Z)
  | C_closedir (dir : Z)
  | C_readdir (dir : Z)
  | C_telldir (dir : Z)
  | C_seekdir (dir loc : Z)
  | C_dirfd (dir : Z)
  (* mounts, signals, threads *)
  | C_mount (source target filesystemtype : string) (mountflags data : Z)
  | C_umount2 (target : string) (flags : Z)
  | C_sigaction (signum act : Z)
  | C_signalfd (fd mask flags : Z)
  | C_sigprocmask (how set : Z)
  | C_pthread_sigmask (how set : Z)
  | C_pthread_setschedparam (thread policy priority : Z)
  (* libfuse *)
  | F_reply_attr (req : Z) (attr : stat) (timeout : double)
  | F_reply_open (req : Z) (fi : fuse_file_info)
  | F_reply_create (req : Z) (entry : fuse_entry_param) (fi : fuse_file_info)
  | F_reply_err (req err : Z)
  | F_reply_buf (req : Z) (buf : bytes)
  | F_reply_entry (req : Z) (entry : fuse_entry_param)
  | F_reply_readlink (req : Z) (link : bytes)
  | F_reply_none (req : Z)
  | F_reply_data (req : Z) (bufv : fuse_bufvec) (flags : Z)
  | F_reply_write (req count : Z)
  | F_reply_statfs (req : Z) (stbuf : statvfs)
  | F_reply_lock (req : Z) (lock : flock_t)
  | F_reply_lseek (req off : Z)
  | F_reply_poll (req revents : Z)
  | F_buf_copy (dst src : fuse_bufvec) (flags : Z)
  | F_pollhandle_destroy (ph : Z)
  | F_notify_poll (ph : Z)
  (* the life of a libfuse session *)
  | F_parse_cmdline (args : list string)
  | F_opt_free_args
  | F_free (p : option string)
  | F_cmdline_help
  | F_lowlevel_help
  | F_lowlevel_version
  | F_session_new
  | F_session_destroy (se : Z)
  | F_set_signal_handlers (se : Z)
  | F_remove_signal_handlers (se : Z)
  | F_session_mount (se : Z) (mountpoint : string)
  | F_session_unmount (se : Z)
  | F_daemonize (foreground : Z)
  | F_loop_cfg_create
  | F_loop_cfg_destroy (config : Z)
  | F_loop_cfg_set_clone_fd (config value : Z)
  | F_loop_cfg_set_idle_threads (config value : Z)
  | F_loop_cfg_set_max_threads (config value : Z).

(** What a call answers: the C return value, with the output parameters. *)
Definition ret (c : call) : Type :=
  match c with
  | C_read _ _ | C_getxattr _ _ _ | C_listxattr _ _ | C_readlinkat _ _ _ => (Z * bytes)%type
  | C_stat _ | C_lstat _ | C_fstatat _ _ _ => (Z * stat)%type
  | C_fstatvfs _ => (Z * statvfs)%type
  | C_fcntl_lock _ _ _ => (Z * flock_t)%type
  | C_ioctl _ _ | C_sigaction _ _ | C_sigprocmask _ _ | C_pthread_sigmask _ _ => (Z * Z)%type
  | C_poll _ _ => (Z * list pollfd)%type
  | C_readdir _ => option dirent
  | F_parse_cmdline _ => (Z * fuse_cmdline_opts)%type
  | C_seekdir _ _ | F_reply_none _ | F_pollhandle_destroy _
  | F_opt_free_args | F_free _ | F_cmdline_help | F_lowlevel_help | F_lowlevel_version
  | F_session_destroy _ | F_remove_signal_handlers _ | F_session_unmount _
  | F_loop_cfg_destroy _ | F_loop_cfg_set_clone_fd _ _ | F_loop_cfg_set_idle_threads _ _
  | F_loop_cfg_set_max_threads _ _ => unit
  | _ => Z
  end.

Record event : Type := Ev { ev_call : call; ev_ret : ret ev_call }.

(** ** The platform: kernel, libc and libfuse

    [os_step] answers a call and says what it leaves in [errno] ([None]: it does
    not touch it).  [fuse_add_direntry] and [fuse_add_direntry_plus] are
    libfuse's pure formatters: given the size of the buffer and the entry, the
    space the entry needs and the bytes written at the start of the buffer.
    [fresh] is the allocator: the address of a new object, given the live ones. *)
Class Platform : Type := {
  World : Type;
  os_step : ∀ c : call, World → ret c * option Z * World;
  fuse_add_direntry : Z → string → stat → Z → Z * bytes;
  fuse_add_direntry_plus : Z → string → fuse_entry_param → Z → Z * bytes;
  fuse_buf_size : fuse_bufvec → Z;
  fuse_req_userdata : Z → Z;
  fresh : gset Z → Z
}.

(** Documented behaviour the program relies on: an entry needs some space whatever
    the buffer, is copied when it fits and leaves the buffer alone otherwise;
    a new object's address is none of the live ones, not null, and, objects
    being aligned, not the root's inode number 1.  Two system calls return a
    count that the program checks against what it passed. *)
Class PlatformLaws (PL : Platform) : Prop := {
  direntry_size : ∀ sz name st off,
    (fuse_add_direntry sz name st off).1 = (fuse_add_direntry 0 name st off).1;
  direntry_pos : ∀ sz name st off, 0 < (fuse_add_direntry sz name st off).1;
  direntry_bytes : ∀ sz name st off,
    Z.of_nat (List.length (fuse_add_direntry sz name st off).2) =
    if (fuse_add_direntry sz name st off).1 <=? sz
    then (fuse_add_direntry sz name st off).1 else 0;
  direntry_plus_size : ∀ sz name ep off,
    (fuse_add_direntry_plus sz name ep off).1 = (fuse_add_direntry_plus 0 name ep off).1;
  direntry_plus_pos : ∀ sz name ep off, 0 < (fuse_add_direntry_plus sz name ep off).1;
  direntry_plus_bytes : ∀ sz name ep off,
    Z.of_nat (List.length (fuse_add_direntry_plus sz name ep off).2) =
    if (fuse_add_direntry_plus sz name ep off).1 <=? sz
    then (fuse_add_direntry_plus sz name ep off).1 else 0;
  (* the user data of the session is the file system object *)
  userdata_set : ∀ req, fuse_req_userdata req ≠ 0;
  (* poll(2): the number of elements whose revents is not zero *)
  poll_ready : ∀ fds t w, (os_step (C_poll fds t) w).1.1.1 <= Z.of_nat (List.length fds);
  (* getxattr(2): a value that does not fit a non-empty buffer is an error *)
  getxattr_fits : ∀ p n size w, 0 < size → (os_step (C_getxattr p n size) w).1.1.1 <= size;
  (* a name takes its length and a header of at most 152 bytes, padded to 8 *)
  direntry_bound : ∀ name st off,
    (fuse_add_direntry 0 name st off).1 <= 160 + Z.of_nat (String.length name);
  direntry_plus_bound : ∀ name ep off,
    (fuse_add_direntry_plus 0 name ep off).1 <= 160 + Z.of_nat (String.length name);
  (* readdir(3): d_name has room for 255 characters *)
  readdir_name : ∀ d w e, (os_step (C_readdir d) w).1.1 = Some e →
    Z.of_nat (String.length (d_name e)) <= 255;
  fresh_not_live : ∀ live, fresh live ∉ live;
  fresh_aligned : ∀ live, 1 < fresh live
}.

End Calls.

(** ** The program's own objects *)

(** [class FileDescriptor]: owns a descriptor; -1 owns nothing. *)
Record FileDescriptor : Type := FD { fd_ : Z }.

(** [class Directory]: owns a [DIR *]; 0 is the null pointer. *)
Record Directory : Type := Dir { dir_ : Z }.

(** [class FusePollHandle]: owns a [fuse_pollhandle *]; 0 is the null pointer. *)
Record FusePollHandle : Type := PH { handle_ : Z }.

(** [class FuseRequest]: the libfuse request still to be replied to. *)
Record FuseRequest : Type := FR { req_ : option Z }.

Section State.
Context {AB : Absl} {PL : Platform}.

(** [class Inode]. *)
Record Inode : Type := mkInode {
  inode_fd_ : FileDescriptor;
  num_ : Z;
  src_dev_num_ : Z;
  generation_ : option (StatusOr Z);
  poll_handle_ : FusePollHandle
}.

(** [PageAlignFS::Options]. *)
Record Options : Type := {
  kernel_entry_timeout : Duration;
  kernel_attribute_timeout : Duration
}.

(** [class PageAlignFS], with its [InodeCache] member: the hash map from (device,
    inode number) to the address of the entry, and the entries themselves (the
    targets of the map's [unique_ptr]s): a reference count and an [Inode]. *)
Record PageAlignFS : Type := {
  root_ : Inode;
  inodes_ : gmap (Z * Z) Z;
  entries : gmap Z (Z * Inode);
  opts_ : Options
}.

(** The state of a run: the platform and [errno]; the calls made so far, newest
    first; the [FuseRequest] of the request being served; the file system
    object; and the [Directory] objects on the heap. *)
Record St : Type := {
  world : World;
  errno : Z;
  trace : list event;
  request : FuseRequest;
  pafs : PageAlignFS;
  dirs : gmap Z Directory
}.

Definition set_errno_st (e : Z) (s : St) : St :=
  {| world := world s; errno := e; trace := trace s; request := request s;
     pafs := pafs s; dirs := dirs s |}.
Definition set_request_st (r : FuseRequest) (s : St) : St :=
  {| world := world s; errno := errno s; trace := trace s; request := r;
     pafs := pafs s; dirs := dirs s |}.
Definition set_pafs_st (p : PageAlignFS) (s : St) : St :=
  {| world := world s; errno := errno s; trace := trace s; request := request s;
     pafs := p; dirs := dirs s |}.
Definition set_dirs_st (d : gmap Z Directory) (s : St) : St :=
  {| world := world s; errno := errno s; trace := trace s; request := request s;
     pafs := pafs s; dirs := d |}.
Definition after_call (c : call) (r : ret c) (e : option Z) (w : World) (s : St) : St :=
  {| world := w; errno := default (errno s) e; trace := Ev c r :: trace s;
     request := request s; pafs := pafs s; dirs := dirs s |}.

(** ** The monad

    A function that returns [absl::Status] or [absl::StatusOr<T>] returns
    normally ([Ret]) when the status is OK and with the status ([Fail])
    otherwise.  A failed [CHECK] aborts the process; reading through a dangling
    or null pointer is undefined behaviour; [OutOfFuel] says that the
    fuel of the model cut a loop or a recursion off. *)
Inductive crash : Type := CheckFailed | UndefinedBehaviour | OutOfFuel.

Inductive Outcome (A : Type) : Type :=
  | Ret (a : A)
  | Fail (st : Status)
  | Crash (c : crash).
#[global] Arguments Ret {A} a.
#[global] Arguments Fail {A} st.
#[global] Arguments Crash {A} c.

Definition returned {A} (o : Outcome A) : bool :=
  match o with Ret _ => true | _ => false end.

Definition M (A : Type) : Type := St → Outcome A * St.

#[export] Instance M_ret : MRet M := λ A a s, (Ret a, s).
#[export] Instance M_bind : MBind M := λ A B f m s,
  match m s with
  | (Ret a, s') => f a s'
  | (Fail st, s') => (Fail st, s')
  | (Crash c, s') => (Crash c, s')
  end.

Definition fail {A} (st : Status) : M A := λ s, (Fail st, s).
Definition die {A} (c : crash) : M A := λ s, (Crash c, s).
Definition gets {A} (f : St → A) : M A := λ s, (Ret (f s), s).
Definition modify (f : St → St) : M unit := λ s, (Ret tt, f s).

(** Make a call. *)
Definition sys (c : call) : M (ret c) := λ s,
  match os_step c (world s) with
  | (r, e, w) => (Ret r, after_call c r e w s)
  end.

(** [CHECK(b)] *)
Definition check (b : bool) : M unit :=
  if b then mret tt else die CheckFailed.

(** The pointer is valid, or the behaviour is undefined. *)
Definition deref {A} (o : option A) : M A :=
  match o with Some a => mret a | None => die UndefinedBehaviour end.

(** [return st;] in a function that returns [absl::Status]. *)
Definition return_status (st : Status) : M unit :=
  if ok st then mret tt else fail st.

(** [return st;] in a function that returns [absl::StatusOr<T>]. *)
Definition return_error {A} (st : Status) : M A := fail (StatusOrStatus st).

(** Keep the status as a value, as [absl::Status st = expr;] does. *)
Definition try_ {A} (m : M A) : M (StatusOr A) := λ s,
  match m s with
  | (Ret a, s') => (Ret (inr a), s')
  | (Fail st, s') => (Ret (inl st), s')
  | (Crash c, s') => (Crash c, s')
  end.

(** [LOG_IF_ERROR(level, expr)] *)
Definition log_if_error (m : M unit) : M unit := _ ← try_ m; mret tt.

(** [fin] runs when the scope of [m] is left: the destructor of a local. *)
Definition on_exit {A} (m : M A) (fin : M unit) : M A :=
  r ← try_ m; fin;; match r with inr a => mret a | inl st => fail st end.

(** [fin] runs when [m] returns early: the destructor of a local that has been
    released, moved from or cancelled by the time [m] returns normally. *)
Definition on_error {A} (m : M A) (fin : M unit) : M A :=
  r ← try_ m; match r with inr a => mret a | inl st => fin;; fail st end.

End State.

(** ** Reasoning about runs

    [wp m Q s]: running [m] from [s] ends with an outcome and a state that
    satisfy [Q].  Every function of the model terminates, so this is total
    correctness. *)
Section Wp.
Context {AB : Absl} {PL : Platform}.

Definition wp {A} (m : M A) (Q : Outcome A → St → Prop) (s : St) : Prop :=
  Q (m s).1 (m s).2.

Lemma returned_unit (m : M unit) s : returned (m s).1 = true → m s = (Ret tt, (m s).2).
Proof. by destruct (m s) as [[[]|?|?] ?]. Qed.

Lemma returned_not_crash {A} (o : Outcome A) x : returned o = true → o ≠ Crash x.
Proof. by destruct o. Qed.

(** Continue with [k] after a normal return, otherwise stop with [Q]. *)
Definition cont {A B} (k : A → St → Prop) (Q : Outcome B → St → Prop)
    (o : Outcome A) (s : St) : Prop :=
  match o with
  | Ret a => k a s
  | Fail st => Q (Fail st) s
  | Crash c => Q (Crash c) s
  end.

Lemma wp_mono {A} (m : M A) (Q Q' : Outcome A → St → Prop) s :
  wp m Q s → (∀ o s', Q o s' → Q' o s') → wp m Q' s.
Proof. unfold wp. auto. Qed.

Lemma wp_elim {A} (m : M A) (Q : Outcome A → St → Prop) s o s' :
  wp m Q s → m s = (o, s') → Q o s'.
Proof. unfold wp. intros H E. by rewrite E in H. Qed.

Lemma wp_intro {A} (m : M A) (Q : Outcome A → St → Prop) s :
  (∀ o s', m s = (o, s') → Q o s') → wp m Q s.
Proof. unfold wp. intros H. apply H. by destruct (m s). Qed.

Lemma wp_ret {A} (a : A) Q s : wp (mret a) Q s ↔ Q (Ret a) s.
Proof. done. Qed.

Lemma wp_fail {A} st (Q : Outcome A → St → Prop) s : wp (fail st) Q s ↔ Q (Fail st) s.
Proof. done. Qed.

Lemma wp_die {A} c (Q : Outcome A → St → Prop) s : wp (die c) Q s ↔ Q (Crash c) s.
Proof. done. Qed.

Lemma wp_gets {A} (f : St → A) Q s : wp (gets f) Q s ↔ Q (Ret (f s)) s.
Proof. done. Qed.

Lemma wp_modify f Q s : wp (modify f) Q s ↔ Q (Ret tt) (f s).
Proof. done. Qed.

Lemma wp_bind {A B} (m : M A) (f : A → M B) Q s :
  wp (m ≫= f) Q s ↔ wp m (cont (λ a s', wp (f a) Q s') Q) s.
Proof. unfold wp, mbind, M_bind. by destruct (m s) as [[] ?]. Qed.

Lemma wp_assoc {A B C} (m : M A) (f : A → M B) (g : B → M C) Q s :
  wp (x ← m; y ← f x; g y) Q s ↔ wp (y ← (x ← m; f x); g y) Q s.
Proof. unfold wp, mbind, M_bind. by destruct (m s) as [[] ?]. Qed.

Lemma wp_sys c Q s :
  wp (sys c) Q s ↔
  Q (Ret (os_step c (world s)).1.1)
    (after_call c (os_step c (world s)).1.1 (os_step c (world s)).1.2
                  (os_step c (world s)).2 s).
Proof. unfold wp, sys. by destruct (os_step c (world s)) as [[??]?]. Qed.

Lemma wp_sys_all c Q s :
  (∀ r e w, os_step c (world s) = (r, e, w) → Q (Ret r) (after_call c r e w s)) →
  wp (sys c) Q s.
Proof.
  intros H. apply wp_sys. apply H. by destruct (os_step c (world s)) as [[??]?].
Qed.

Lemma wp_check b Q s :
  wp (check b) Q s ↔ if b then Q (Ret tt) s else Q (Crash CheckFailed) s.
Proof. by destruct b. Qed.

Lemma wp_deref {A} (o : option A) Q s :
  wp (deref o) Q s ↔
  match o with Some a => Q (Ret a) s | None => Q (Crash UndefinedBehaviour) s end.
Proof. by destruct o. Qed.

Lemma wp_return_status st Q s :
  wp (return_status st) Q s ↔ if ok st then Q (Ret tt) s else Q (Fail st) s.
Proof. unfold return_status. by destruct (ok st). Qed.

Lemma wp_return_error {A} st (Q : Outcome A → St → Prop) s :
  wp (return_error st) Q s ↔ Q (Fail (StatusOrStatus st)) s.
Proof. done. Qed.

(** A normal or failed run, as [try_] reports it. *)
Definition reify {A} (Q : Outcome (StatusOr A) → St → Prop)
    (o : Outcome A) (s : St) : Prop :=
  match o with
  | Ret a => Q (Ret (inr a)) s
  | Fail st => Q (Ret (inl st)) s
  | Crash c => Q (Crash c) s
  end.

Lemma wp_try {A} (m : M A) Q s : wp (try_ m) Q s ↔ wp m (reify Q) s.
Proof. unfold wp, try_. by destruct (m s) as [[] ?]. Qed.

Lemma wp_log_if_error m Q s :
  wp (log_if_error m) Q s ↔
  wp m (λ o s', match o with Crash c => Q (Crash c) s' | _ => Q (Ret tt) s' end) s.
Proof. unfold log_if_error. rewrite wp_bind, wp_try. unfold wp. by destruct (m s) as [[] ?]. Qed.

Lemma wp_on_error {A} (m : M A) fin (Q : Outcome A → St → Prop) s :
  wp (on_error m fin) Q s ↔
  wp m (λ o s', match o with
                | Ret a => Q (Ret a) s'
                | Fail st => wp fin (cont (λ _ s'', Q (Fail st) s'') Q) s'
                | Crash c => Q (Crash c) s'
                end) s.
Proof.
  unfold on_error, wp, mbind, M_bind, try_.
  destruct (m s) as [[a|st|c] s']; simpl; [done| |done].
  by destruct (fin s') as [[] ?].
Qed.

Lemma wp_on_exit {A} (m : M A) fin (Q : Outcome A → St → Prop) s :
  wp (on_exit m fin) Q s ↔
  wp m (λ o s', match o with
                | Ret a => wp fin (cont (λ _ s'', Q (Ret a) s'') Q) s'
                | Fail st => wp fin (cont (λ _ s'', Q (Fail st) s'') Q) s'
                | Crash c => Q (Crash c) s'
                end) s.
Proof.
  unfold on_exit, wp, mbind, M_bind, try_.
  destruct (m s) as [[a|st|c] s']; simpl; [| |done]; by destruct (fin s') as [[] ?].
Qed.

End Wp.

(** ** What a function leaves unchanged

    [Keeps f m]: no run of [m], whatever its outcome, changes the observation
    [f] of the state.  The instances follow the structure of the code, so that
    [keeps] proves most of these goals. *)
Class Keeps `{AB : Absl} {PL : Platform} {B} (f : St → B) {A} (m : M A) : Prop :=
  keeps : ∀ s, f (m s).2 = f s.

Create HintDb keeps discriminated.

Section Keeps.
Context {AB : Absl} {PL : Platform} {B : Type} (f : St → B).

Lemma keeps_ret {A} (a : A) : Keeps f (mret a : M A).
Proof. done. Qed.
Lemma keeps_fail {A} st : Keeps f (fail st : M A).
Proof. done. Qed.
Lemma keeps_die {A} c : Keeps f (die c : M A).
Proof. done. Qed.
Lemma keeps_gets {A} (g : St → A) : Keeps f (gets g).
Proof. done. Qed.
Lemma keeps_modify g : (∀ s, f (g s) = f s) → Keeps f (modify g).
Proof. intros H s. apply H. Qed.
Lemma keeps_check b : Keeps f (check b).
Proof. by destruct b. Qed.
Lemma keeps_deref {A} (o : option A) : Keeps f (deref o).
Proof. by destruct o. Qed.
Lemma keeps_return_status st : Keeps f (return_status st).
Proof. intros s. unfold return_status. by destruct (ok st). Qed.
Lemma keeps_return_error {A} st : Keeps f (return_error st : M A).
Proof. done. Qed.

Lemma keeps_bind {A A'} (m : M A) (k : A → M A') :
  Keeps f m → (∀ a, Keeps f (k a)) → Keeps f (m ≫= k).
Proof.
  intros Hm Hk s. unfold mbind, M_bind. specialize (Hm s).
  destruct (m s) as [[a|st|c] s']; simpl in *; [|done|done].
  rewrite <- Hm. apply Hk.
Qed.

Lemma keeps_try {A} (m : M A) : Keeps f m → Keeps f (try_ m).
Proof. intros Hm s. unfold try_. specialize (Hm s). by destruct (m s) as [[] ?]. Qed.

Lemma keeps_log_if_error m : Keeps f m → Keeps f (log_if_error m).
Proof. intros. apply keeps_bind; [by apply keeps_try|intros; apply keeps_ret]. Qed.

Lemma keeps_on_exit {A} (m : M A) fin : Keeps f m → Keeps f fin → Keeps f (on_exit m fin).
Proof.
  intros. apply keeps_bind; [by apply keeps_try|]. intros r.
  apply keeps_bind; [done|]. intros _. destruct r; done.
Qed.

Lemma keeps_on_error {A} (m : M A) fin : Keeps f m → Keeps f fin → Keeps f (on_error m fin).
Proof.
  intros. apply keeps_bind; [by apply keeps_try|]. intros r.
  destruct r; [|done]. by apply keeps_bind.
Qed.

Lemma keeps_wp {A} (m : M A) Q s :
  Keeps f m → wp m (λ o s', f s' = f s → Q o s') s → wp m Q s.
Proof. intros Hm H. unfold wp in *. apply H, Hm. Qed.

End Keeps.

#[export] Hint Resolve keeps_ret keeps_fail keeps_die keeps_gets keeps_check
  keeps_deref keeps_return_status keeps_return_error : keeps.

(** The function a term applies. *)
Ltac head_of t :=
  lazymatch t with
  | ?f _ => head_of f
  | _ => t
  end.

(** One structural step, then the hint database, then the definition of the
    function called. *)
Ltac keeps_step :=
  lazymatch goal with
  | |- Keeps _ (mbind _ _) => apply keeps_bind; [|intros ?]
  | |- Keeps _ (try_ _) => apply keeps_try
  | |- Keeps _ (log_if_error _) => apply keeps_log_if_error
  | |- Keeps _ (on_exit _ _) => apply keeps_on_exit
  | |- Keeps _ (on_error _ _) => apply keeps_on_error
  | |- Keeps _ (match ?x with _ => _ end) => destruct x
  | |- Keeps _ (let _ := _ in _) => intros ?
  | |- Keeps _ (sys _) => solve [auto 3 with keeps nocore]
  | |- Keeps _ (modify _) => solve [auto 3 with keeps nocore]
  | |- Keeps _ ?m =>
      first [ solve [auto 3 with keeps nocore]
            | let h := head_of m in unfold h; cbv beta zeta ]
  end.
Ltac solve_keeps := intros; repeat keeps_step.

(** ** Runs that do not end in a crash

    [Safe P m]: from a state that satisfies [P], [m] returns, or fails with a
    status that is not OK, in a state that satisfies [P] again.  [P] is the part
    of the state the pointers [m] dereferences point into. *)
Section Safe.
Context {AB : Absl} {PL : Platform} (P : St → Prop).

Definition no_crash {A} (o : Outcome A) : Prop :=
  match o with
  | Ret _ => True
  | Fail st => ok st = false
  | Crash _ => False
  end.

Definition Safe {A} (m : M A) : Prop :=
  ∀ s, P s → wp m (λ o s', no_crash o ∧ P s') s.

Lemma safe_ret {A} (a : A) : Safe (mret a : M A).
Proof. done. Qed.
Lemma safe_fail {A} st : ok st = false → Safe (fail st : M A).
Proof. done. Qed.
Lemma safe_MakeStatus {A} `{!AbslLaws AB} c m : c ≠ kOk → Safe (fail (MakeStatus c m) : M A).
Proof.
  intros Hc. apply safe_fail. unfold ok. rewrite code_MakeStatus. by apply bool_decide_eq_false.
Qed.
Lemma safe_gets {A} (g : St → A) : Safe (gets g).
Proof. done. Qed.
Lemma safe_check b : b = true → Safe (check b).
Proof. by intros ->. Qed.
Lemma safe_return_status st : Safe (return_status st).
Proof. intros s Hs. apply wp_return_status. by destruct (ok st) eqn:E. Qed.
Lemma safe_return_error {A} `{!AbslLaws AB} st : Safe (return_error st : M A).
Proof. intros s Hs. split; [apply StatusOrStatus_not_ok|done]. Qed.
Lemma safe_modify g : (∀ s, P s → P (g s)) → Safe (modify g).
Proof. intros H s Hs. split; [done|]. by apply H. Qed.

Lemma safe_bind {A A'} (m : M A) (k : A → M A') :
  Safe m → (∀ a, Safe (k a)) → Safe (m ≫= k).
Proof.
  intros Hm Hk s Hs. rewrite wp_bind. apply (wp_mono _ _ _ _ (Hm s Hs)).
  intros [a|st|c] s' [Hc Hs']; simpl in *; [by apply Hk|done|done].
Qed.

(** A status that was caught is not OK. *)
Definition caught {A} (r : StatusOr A) : Prop := ∀ st, r = inl st → ok st = false.

Lemma safe_bind_try {A A'} (m : M A) (k : StatusOr A → M A') :
  Safe m → (∀ r, caught r → Safe (k r)) → Safe (try_ m ≫= k).
Proof.
  intros Hm Hk s Hs. rewrite wp_bind, wp_try. apply (wp_mono _ _ _ _ (Hm s Hs)).
  intros [a|st|c] s' [Hc Hs']; simpl in *; [| |done].
  - by apply Hk.
  - apply Hk; [|done]. by intros ? [= <-].
Qed.

Lemma safe_caught {A} st : caught (inl st : StatusOr A) → ok st = false.
Proof. intros H. by apply H. Qed.

Lemma safe_try {A} (m : M A) : Safe m → Safe (try_ m).
Proof.
  intros Hm s Hs. rewrite wp_try. apply (wp_mono _ _ _ _ (Hm s Hs)). by intros [] ? [? ?].
Qed.

Lemma safe_log_if_error m : Safe m → Safe (log_if_error m).
Proof. intros. apply safe_bind; [by apply safe_try|intros; apply safe_ret]. Qed.

Lemma safe_on_exit {A} (m : M A) fin : Safe m → Safe fin → Safe (on_exit m fin).
Proof.
  intros. apply safe_bind_try; [done|]. intros r Hr.
  apply safe_bind; [done|]. intros _. destruct r; [|done]. by apply safe_fail, Hr.
Qed.

Lemma safe_on_error {A} (m : M A) fin : Safe m → Safe fin → Safe (on_error m fin).
Proof.
  intros. apply safe_bind_try; [done|]. intros r Hr.
  destruct r; [|done]. apply safe_bind; [done|]. intros _. by apply safe_fail, Hr.
Qed.

(** A property of what the calls do not touch. *)
Class Stable : Prop := {
  stable_errno : ∀ e s, P s → P (set_errno_st e s);
  stable_sys : ∀ c r e w s, P s → P (after_call c r e w s);
  stable_req : ∀ r s, P s → P (set_request_st r s)
}.

Lemma safe_sys `{!Stable} c : Safe (sys c).
Proof. intros s Hs. apply wp_sys_all. intros. split; [done|]. by apply stable_sys. Qed.
Lemma safe_errno `{!Stable} e : Safe (modify (set_errno_st e)).
Proof. apply safe_modify. intros. by apply stable_errno. Qed.
Lemma safe_req `{!Stable} r : Safe (modify (set_request_st r)).
Proof. apply safe_modify. intros. by apply stable_req. Qed.

End Safe.

Create HintDb safe discriminated.
#[export] Hint Resolve safe_ret safe_gets safe_return_status safe_return_error
  safe_errno safe_req : safe.
#[export] Hint Extern 1 (Safe _ (fail (MakeStatus _ _))) =>
  apply safe_MakeStatus; discriminate : safe.
#[export] Hint Extern 1 (Safe _ (fail ?st)) =>
  apply safe_fail; eapply safe_caught; eassumption : safe.
#[export] Hint Extern 2 (AbslLaws _) => assumption : safe.
#[export] Hint Extern 1 (Safe ?P (sys ?c)) => refine (safe_sys P c) : safe.
#[export] Hint Extern 1 (Stable _) => typeclasses eauto : safe.

Ltac safe_step :=
  lazymatch goal with
  | |- Safe _ (mbind _ (try_ _)) => apply safe_bind_try; [|intros ? ?]
  | |- Safe _ (mbind _ _) => apply safe_bind; [|intros ?]
  | |- Safe _ (try_ _) => apply safe_try
  | |- Safe _ (log_if_error _) => apply safe_log_if_error
  | |- Safe _ (on_exit _ _) => apply safe_on_exit
  | |- Safe _ (on_error _ _) => apply safe_on_error
  | |- Safe _ (match ?x with _ => _ end) => destruct x
  | |- Safe _ (let _ := _ in _) => intros ?
  | |- Safe ?P (sys ?c) => refine (safe_sys P c)
  | |- Safe _ (check _) => apply safe_check
  | |- Safe _ ?m =>
      first [ solve [auto 3 with safe nocore]
            | let h := head_of m in unfold h; cbv beta zeta ]
  end.
Ltac solve_safe := intros; repeat safe_step.

(** ** The memory of the program

    A libc or libfuse call changes the world, [errno] and the trace, never the
    program's own objects. *)
Section Memory.
Context {AB : Absl} {PL : Platform}.

Definition mem (s : St) : FuseRequest * PageAlignFS * gmap Z Directory :=
  (request s, pafs s, dirs s).

(** The request a call replies to. *)
Definition reply_target (c : call) : option Z :=
  match c with
  | F_reply_attr r _ _ | F_reply_open r _ | F_reply_create r _ _ | F_reply_err r _
  | F_reply_buf r _ | F_reply_entry r _ | F_reply_readlink r _ | F_reply_none r
  | F_reply_data r _ _ | F_reply_write r _ | F_reply_statfs r _ | F_reply_lock r _
  | F_reply_lseek r _ | F_reply_poll r _ => Some r
  | _ => None
  end.

(** An observation that no call other than a reply changes. *)
Class Quiet {B} (f : St → B) : Prop := {
  quiet_errno : ∀ e, Keeps f (modify (set_errno_st e));
  quiet_sys : ∀ c, reply_target c = None → Keeps f (sys c)
}.

Lemma quiet_intro {B} (f : St → B) :
  (∀ e s, f (set_errno_st e s) = f s) →
  (∀ c r e w s, reply_target c = None → f (after_call c r e w s) = f s) →
  Quiet f.
Proof.
  intros He Hc. split; [intros e s; apply He|]. intros c H s. unfold sys.
  destruct (os_step c (world s)) as [[r e] w]. by apply Hc.
Qed.

#[export] Instance quiet_mem : Quiet mem.
Proof. by apply quiet_intro. Qed.

#[export] Instance quiet_of_mem {B} (g : _ → B) : Quiet (λ s, g (mem s)).
Proof. by apply quiet_intro. Qed.

Lemma keeps_mem_sys c : Keeps mem (sys c).
Proof. intros s. unfold sys. by destruct (os_step c (world s)) as [[??]?]. Qed.

Lemma keeps_quiet_errno {B} (f : St → B) `{!Quiet f} e : Keeps f (modify (set_errno_st e)).
Proof. apply quiet_errno. Qed.

Lemma keeps_quiet_sys {B} (f : St → B) `{!Quiet f} c :
  reply_target c = None → Keeps f (sys c).
Proof. apply quiet_sys. Qed.

End Memory.

#[export] Hint Resolve keeps_quiet_errno : keeps.
#[export] Hint Extern 1 (Keeps mem (sys ?c)) => exact (keeps_mem_sys c) : keeps.
#[export] Hint Extern 2 (Keeps ?f (sys ?c)) => refine (keeps_quiet_sys f c _) : keeps.
#[export] Hint Extern 1 (reply_target _ = None) => reflexivity : keeps.
#[export] Hint Extern 1 (Quiet _) => typeclasses eauto : keeps.
