(* ===== verification/Syscalls.v ===== *)
(** * syscalls.h, syscalls.cc: system calls as functions returning a status

    Module [syscalls] mirrors the namespace: one definition per wrapper, each
    making one libc call and turning -1 (or [errno]) into a status.  A
    [StatusOr<T>] function returns [M T], a [Status] function [M unit]. *)

From S2P Require Import Prelude Consts Absl Errno Status Machine.

Open Scope string_scope.
Open Scope Z_scope.

(** fd.h: moving out of and releasing a descriptor. *)
Module FileDescriptor.

Definition empty : FileDescriptor := FD (-1).

(** [Release() &&]: the number, and the object left empty. *)
Definition Release (fd : FileDescriptor) : Z * FileDescriptor := (fd_ fd, FD (-1)).

(** [operator=(FileDescriptor &&o)] swaps: (this, o) afterwards. *)
Definition assign (this o : FileDescriptor) : FileDescriptor * FileDescriptor := (o, this).

(** [FileDescriptor(FileDescriptor &&o)]: (this, o) afterwards. *)
Definition move (o : FileDescriptor) : FileDescriptor * FileDescriptor := assign empty o.

End FileDescriptor.

(** mount.h: a mount point; the empty string owns nothing. *)
Record Mount : Type := mkMount { target_ : string }.

Module syscalls.
Section Syscalls.
Context {AB : Absl} {LC : Libc} {PL : Platform}.

Definition set_errno (e : Z) : M unit := modify (set_errno_st e).
Definition get_errno : M Z := gets errno.

(** [return ErrnoToStatus(errno, msg);] in a [Status] function... *)
Definition return_errno (msg : string) : M unit :=
  e ← get_errno; return_status (ErrnoToStatus e msg).

(** ... and in a [StatusOr<T>] function. *)
Definition fail_errno {A} (msg : string) : M A :=
  e ← get_errno; return_error (ErrnoToStatus e msg).

(** The common shapes: [if (rc == -1) return ErrnoToStatus(errno, msg);] and then
    OK, or the value. *)
Definition status_call (c : call) (rc : ret c → Z) (msg : string) : M unit :=
  r ← sys c;
  if rc r =? -1 then return_errno msg else mret tt.

Definition value_call {A} (c : call) (rc : ret c → Z) (val : ret c → A) (msg : string) : M A :=
  r ← sys c;
  if rc r =? -1 then fail_errno msg else mret (val r).

(** The parameter [fd] is empty once released, so its destructor does nothing. *)
Definition close (fd : FileDescriptor) : M unit :=
  let '(fd_i, fd) := FileDescriptor.Release fd in
  set_errno 0;;
  _ ← sys (C_close fd_i);
  return_errno (StrCat [Txt "close("; Num fd_i; Txt ")"]).

Definition open (pathname : string) (flags mode : Z) : M FileDescriptor :=
  fd ← sys (C_open pathname flags mode);
  if fd =? -1 then fail_errno (StrCat [Txt "open('"; Txt pathname; Txt "')"])
  else mret (FD fd).

Definition openat (dirfd : Z) (pathname : string) (flags mode : Z) : M FileDescriptor :=
  fd ← sys (C_openat dirfd pathname flags mode);
  if fd =? -1 then
    fail_errno (StrCat [Txt "openat("; Num dirfd; Txt ", '"; Txt pathname; Txt "')"])
  else mret (FD fd).

Definition read (fd count : Z) : M (Z * bytes) :=
  nb ← sys (C_read fd count);
  if nb.1 =? -1 then fail_errno (StrCat [Txt "read("; Num fd; Txt ")"])
  else mret nb.

Definition mount (source target filesystemtype : string) (mountflags data : Z) : M Mount :=
  rc ← sys (C_mount source target filesystemtype mountflags data);
  if rc =? -1 then fail_errno "mount" else mret (mkMount target).

Definition stat (pathname : string) : M Machine.stat :=
  r ← sys (C_stat pathname);
  if r.1 =? -1 then fail_errno (StrCat [Txt "stat("; Txt pathname; Txt ")"])
  else mret r.2.

Definition lstat (pathname : string) : M Machine.stat :=
  r ← sys (C_lstat pathname);
  if r.1 =? -1 then fail_errno (StrCat [Txt "lstat("; Txt pathname; Txt ")"])
  else mret r.2.

Definition fstatat (fd : Z) (path : string) (flag : Z) : M Machine.stat :=
  r ← sys (C_fstatat fd path flag);
  if r.1 =? -1 then
    fail_errno (StrCat [Txt "fstatat("; Num fd; Txt ", "; Txt path; Txt ")"])
  else mret r.2.

(** [umount] takes the [Mount] by value and its destructor calls [umount] again:
    on failure the parameter still owns the target when the function returns.
    The fuel bounds the depth of that recursion. *)
Fixpoint umount (fuel : nat) (m : Mount) (flags : Z) : M unit :=
  match fuel with
  | O => die OutOfFuel
  | S fuel =>
      rc ← sys (C_umount2 (target_ m) flags);
      if rc =? -1 then
        e ← get_errno;
        (* ~Mount() of the parameter *)
        (if bool_decide (target_ m = EmptyString) then mret tt
         else log_if_error (umount fuel m 0));;
        return_status (ErrnoToStatus e (StrCat [Txt "umount2("; Txt (target_ m); Txt ")"]))
      else mret tt
  end.

Definition sigaction (signum act : Z) : M Z :=
  r ← sys (C_sigaction signum act);
  if r.1 =? 0 then mret r.2 else
    e ← get_errno; return_status (ErrnoToStatus e "sigaction");; mret r.2.

Definition signalfd_create (mask flags : Z) : M FileDescriptor :=
  fd ← sys (C_signalfd (-1) mask flags);
  if fd =? -1 then fail_errno "signalfd" else mret (FD fd).

Definition signalfd (fd mask flags : Z) : M unit :=
  set_errno 0;;
  _ ← sys (C_signalfd fd mask flags);
  return_errno "signalfd".

Definition sigprocmask (how set : Z) : M Z :=
  set_errno 0;;
  r ← sys (C_sigprocmask how set);
  return_errno "sigprocmask";; mret r.2.

(** The result is [oldset], which the C function writes through its pointer. *)
Definition pthread_sigmask (how set : Z) : M Z :=
  r ← sys (C_pthread_sigmask how set);
  return_status (ErrnoToStatus r.1 "pthread_sigmask");; mret r.2.

Definition pthread_setschedparam (thread policy priority : Z) : M unit :=
  r ← sys (C_pthread_setschedparam thread policy priority);
  return_status (ErrnoToStatus r "pthread_setschedparam").

(** [ioctl] with one output argument: (return value, what it points to).  Unlike
    the others it uses [absl::ErrnoToStatus], which attaches no payload. *)
Definition ioctl (fd request : Z) : M (Z * Z) :=
  set_errno 0;;
  r ← sys (C_ioctl fd request);
  e ← get_errno;
  if e =? 0 then mret r else
    return_error (absl_ErrnoToStatus e
      (StrCat [Txt "ioctl("; Num fd; Txt ", "; Num request; Txt ")"])).

(** The descriptor is released before the call, whatever the call answers. *)
Definition fdopendir (fd : FileDescriptor) : M Z :=
  let '(fd_i, fd) := FileDescriptor.Release fd in
  dir ← sys (C_fdopendir fd_i);
  if dir =? 0 then fail_errno "fdopendir" else mret dir.

Definition closedir (dir : Z) : M unit :=
  set_errno 0;;
  _ ← sys (C_closedir dir);
  return_errno "closedir".

Definition readdir (dir : Z) : M (option dirent) :=
  set_errno 0;;
  ent ← sys (C_readdir dir);
  e ← get_errno;
  match ent with
  | None => if e =? 0 then mret None else return_error (ErrnoToStatus e "readdir")
  | Some _ => mret ent
  end.

Definition telldir (dir : Z) : M Z :=
  loc ← sys (C_telldir dir);
  if loc =? -1 then fail_errno "telldir" else mret loc.

Definition seekdir (dir loc : Z) : M unit :=
  _ ← sys (C_seekdir dir loc); mret tt.

Definition fchmod (fd mode : Z) : M unit :=
  status_call (C_fchmod fd mode) (λ rc, rc) "fchmod".

Definition fchownat (fd : Z) (path : string) (owner group flag : Z) : M unit :=
  status_call (C_fchownat fd path owner group flag) (λ rc, rc) "fchownat".

Definition ftruncate (fd length : Z) : M unit :=
  status_call (C_ftruncate fd length) (λ rc, rc) "ftruncate".

Definition futimens (fd : Z) (atime mtime : timespec) : M unit :=
  status_call (C_futimens fd atime mtime) (λ rc, rc) "futimens".

Definition readlinkat (dirfd : Z) (pathname : string) (size : Z) : M (Z * bytes) :=
  value_call (C_readlinkat dirfd pathname size) fst (λ r, r) "readlinkat".

Definition mknodat (dirfd : Z) (pathname : string) (mode dev : Z) : M unit :=
  status_call (C_mknodat dirfd pathname mode dev) (λ rc, rc) "mknodat".

Definition mkdirat (dirfd : Z) (pathname : string) (mode : Z) : M unit :=
  status_call (C_mkdirat dirfd pathname mode) (λ rc, rc) "mkdirat".

Definition unlinkat (dirfd : Z) (pathname : string) (flags : Z) : M unit :=
  status_call (C_unlinkat dirfd pathname flags) (λ rc, rc) "unlinkat".

Definition symlinkat (target : string) (newdirfd : Z) (linkpath : string) : M unit :=
  status_call (C_symlinkat target newdirfd linkpath) (λ rc, rc) "symlinkat".

Definition renameat2 (olddirfd : Z) (oldpath : string) (newdirfd : Z) (newpath : string) (flags : Z) : M unit :=
  status_call (C_renameat2 olddirfd oldpath newdirfd newpath flags) (λ rc, rc) "renameat2".

Definition renameat (olddirfd : Z) (oldpath : string) (newdirfd : Z) (newpath : string) : M unit :=
  renameat2 olddirfd oldpath newdirfd newpath 0.

Definition linkat (olddirfd : Z) (oldpath : string) (newdirfd : Z) (newpath : string) (flags : Z) : M unit :=
  status_call (C_linkat olddirfd oldpath newdirfd newpath flags) (λ rc, rc) "linkat".

Definition dup (oldfd : Z) : M FileDescriptor :=
  value_call (C_dup oldfd) (λ fd, fd) FD "dup".

Definition fsync (fd : Z) : M unit :=
  status_call (C_fsync fd) (λ rc, rc) "fsync".

Definition fdatasync (fd : Z) : M unit :=
  status_call (C_fdatasync fd) (λ rc, rc) "fdatasync".

Definition dirfd (dir : Z) : M Z :=
  value_call (C_dirfd dir) (λ fd, fd) (λ fd, fd) "dirfd".

Definition fstatvfs (fd : Z) : M statvfs :=
  value_call (C_fstatvfs fd) fst snd "fstatvfs".

Definition fsetxattr (fd : Z) (name : string) (value : bytes) (flags : Z) : M unit :=
  status_call (C_fsetxattr fd name value flags) (λ rc, rc) "fsetxattr".

Definition setxattr (path name : string) (value : bytes) (flags : Z) : M unit :=
  status_call (C_setxattr path name value flags) (λ rc, rc) "setxattr".

(** The overload on a span: the number of bytes and the contents of the span. *)
Definition getxattr_span (path name : string) (size : Z) : M (Z * bytes) :=
  value_call (C_getxattr path name size) fst (λ r, r) "getxattr".

Definition zero_bytes (n : Z) : bytes := replicate (Z.to_nat n) Byte.x00.

(** What [val.resize(nb)] makes of a vector: cut, or padded with zeros. *)
Definition resize (val : bytes) (nb : Z) : bytes :=
  (take (Z.to_nat nb) val ++ zero_bytes (nb - Z.of_nat (List.length val)))%list.

(** The vector after the call wrote into it: its size does not change. *)
Definition overwrite (size : Z) (written : bytes) : bytes :=
  take (Z.to_nat size) (written ++ zero_bytes size)%list.

(** The overload that allocates a vector of [maxsize] bytes. *)
Definition getxattr (path name : string) (maxsize : Z) : M bytes :=
  r ← getxattr_span path name maxsize;
  let nb := r.1 in
  let val := overwrite maxsize r.2 in
  check (nb <=? maxsize);;
  mret (resize val nb).

Definition listxattr (path : string) (size : Z) : M (Z * bytes) :=
  value_call (C_listxattr path size) fst (λ r, r) "listxattr".

Definition removexattr (path name : string) : M unit :=
  status_call (C_removexattr path name) (λ rc, rc) "removexattr".

Definition access (pathname : string) (mode : Z) : M unit :=
  status_call (C_access pathname mode) (λ rc, rc) "access".

Definition faccessat (dirfd : Z) (pathname : string) (mode flags : Z) : M unit :=
  status_call (C_faccessat dirfd pathname mode flags) (λ rc, rc) "faccessat".

Definition flock (fd operation : Z) : M unit :=
  status_call (C_flock fd operation) (λ rc, rc) "flock".

Definition fallocate (fd mode offset len : Z) : M unit :=
  status_call (C_fallocate fd mode offset len) (λ rc, rc) "fallocate".

Definition copy_file_range (fd_in off_in fd_out off_out len flags : Z) : M Z :=
  value_call (C_copy_file_range fd_in off_in fd_out off_out len flags) (λ nb, nb) (λ nb, nb) "copy_file_range".

Definition lseek (fd offset whence : Z) : M Z :=
  value_call (C_lseek fd offset whence) (λ rc, rc) (λ rc, rc) "lseek".

(** The answer is the number of ready descriptors and the updated [fds]. *)
Definition poll (fds : list pollfd) (timeout : Duration) : M (Z * list pollfd) :=
  let timeout_ms64 := ToInt64Milliseconds timeout in
  if (INT_MAX <? timeout_ms64) || (timeout_ms64 <? INT_MIN)
     || ((timeout_ms64 =? 0) && negb (Duration_eqb timeout ZeroDuration))
  then return_error (ErrnoToStatus EINVAL
         (StrCat [Txt "Tried to convert "; Txt (DurationStr timeout);
                  Txt " to nonzero int milliseconds"]))
  else
    r ← sys (C_poll fds timeout_ms64);
    if r.1 =? -1 then fail_errno "poll" else mret r.

Definition fcntl (fd cmd : Z) (lock : flock_t) : M flock_t :=
  value_call (C_fcntl_lock fd cmd lock) fst snd "fcntl".

End Syscalls.
End syscalls.
