(* ===== verification/Raii.v ===== *)
(** * fd.cc, dir.cc, mount.cc, signal.cc: objects that own a kernel resource

    Moves swap the object with an empty one, so a moved-from object owns
    nothing; destructors release what is owned and only log a failure. *)

From S2P Require Import Prelude Consts Absl Errno Status Machine Syscalls.

Open Scope string_scope.
Open Scope Z_scope.

Section Raii.
Context {AB : Absl} {LC : Libc} {PL : Platform}.

(** ** FileDescriptor *)

(** [~FileDescriptor()] *)
Definition FileDescriptor_dtor (fd : FileDescriptor) : M unit :=
  if fd_ fd =? -1 then mret tt
  else
    let '(arg, _) := FileDescriptor.move fd in
    log_if_error (syscalls.close arg).

(** ** Directory *)

Definition Directory_null : Directory := Dir 0.

Definition Directory_Release (d : Directory) : Z * Directory := (dir_ d, Dir 0).

(** [operator=(Directory &&o)] and [Directory(Directory &&o)]: (this, o). *)
Definition Directory_assign (this o : Directory) : Directory * Directory := (o, this).
Definition Directory_move (o : Directory) : Directory * Directory :=
  Directory_assign Directory_null o.

(** [operator*() const] of a null stream is undefined. *)
Definition Directory_deref (d : Directory) : M Z :=
  if dir_ d =? 0 then die UndefinedBehaviour else mret (dir_ d).

(** [~Directory()] *)
Definition Directory_dtor (d : Directory) : M unit :=
  if dir_ d =? 0 then mret tt else log_if_error (syscalls.closedir (dir_ d)).

(** [Directory::Create]: the parameter is moved into [fdopendir]. *)
Definition Directory_Create (dirfd : FileDescriptor) : M Directory :=
  let '(arg, dirfd) := FileDescriptor.move dirfd in
  on_exit (dir ← syscalls.fdopendir arg; mret (Dir dir))
          (FileDescriptor_dtor dirfd).

(** ** Mount *)

Definition Mount_default : Mount := mkMount EmptyString.
Definition Mount_assign (this o : Mount) : Mount * Mount := (o, this).
Definition Mount_move (o : Mount) : Mount * Mount := Mount_assign Mount_default o.
Definition Mount_GetTarget (m : Mount) : string := target_ m.
Definition Mount_Release (m : Mount) : string * Mount := (target_ m, mkMount EmptyString).

(** [~Mount()]; the fuel is that of [syscalls.umount]. *)
Definition Mount_dtor (fuel : nat) (m : Mount) : M unit :=
  if bool_decide (target_ m = EmptyString) then mret tt
  else
    let '(arg, _) := Mount_move m in
    log_if_error (syscalls.umount fuel arg 0).

(** ** ScopedSignalMask *)

Record ScopedSignalMask : Type := mkMask { valid_ : bool; oldset_ : Z }.

Definition ScopedSignalMask_default : ScopedSignalMask := mkMask false 0.

Definition ScopedSignalMask_Create (how set : Z) : M ScopedSignalMask :=
  oldset ← syscalls.pthread_sigmask how set;
  mret (mkMask true oldset).

Definition ScopedSignalMask_assign (this o : ScopedSignalMask)
  : ScopedSignalMask * ScopedSignalMask :=
  (mkMask (valid_ o) (oldset_ o), mkMask (valid_ this) (oldset_ this)).

Definition ScopedSignalMask_move (o : ScopedSignalMask) : ScopedSignalMask * ScopedSignalMask :=
  ScopedSignalMask_assign ScopedSignalMask_default o.

(** [~ScopedSignalMask()] *)
Definition ScopedSignalMask_dtor (m : ScopedSignalMask) : M unit :=
  if negb (valid_ m) then mret tt
  else log_if_error (_ ← syscalls.pthread_sigmask SIG_SETMASK (oldset_ m); mret tt).

End Raii.
