(* ===== verification/Fuse.v ===== *)
(** * fuse.h, fuse.cc: requests, poll handles and directory buffers

    [FuseRequest] owns the obligation to reply: every [Reply...] function sends
    at most one reply and drops the request, and the destructor replies if
    nothing else did.  The object lives in the [request] field of the state. *)

From S2P Require Import Prelude Consts Absl Errno Status Machine Syscalls Raii.

Open Scope string_scope.
Open Scope Z_scope.

Section Fuse.
Context {AB : Absl} {LC : Libc} {PL : Platform}.

(** ** FuseRequest *)

Definition FuseRequest_assign (this o : FuseRequest) : FuseRequest * FuseRequest := (o, this).
Definition FuseRequest_move (o : FuseRequest) : FuseRequest * FuseRequest :=
  FuseRequest_assign (FR None) o.

Definition get_req : M (option Z) := gets (λ s, req_ (request s)).
Definition set_req (r : option Z) : M unit := modify (set_request_st (FR r)).

(** [*req_] of an empty optional is undefined. *)
Definition Get : M Z := r ← get_req; deref r.

(** The body the [Reply...] functions share: nothing if the request is gone;
    otherwise the libfuse call, whose negated result is the error number. *)
Definition reply (c : Z → call) (rc : ∀ req, ret (c req) → Z) (name : string) : M unit :=
  r ← get_req;
  match r with
  | None => mret tt
  | Some req =>
      a ← sys (c req);
      set_req None;;
      return_status (ErrnoToStatus (- rc req a) name)
  end.

Definition ReplyAttr (attr : stat) (attr_timeout : Duration) : M unit :=
  reply (λ r, F_reply_attr r attr (ToDoubleSeconds attr_timeout)) (λ _ a, a) "fuse_reply_attr".

Definition ReplyOpen (fi : fuse_file_info) : M unit :=
  reply (λ r, F_reply_open r fi) (λ _ a, a) "fuse_reply_open".

Definition ReplyCreate (entry : fuse_entry_param) (fi : fuse_file_info) : M unit :=
  reply (λ r, F_reply_create r entry fi) (λ _ a, a) "fuse_reply_create".

Definition ReplyErrno (errnum : Z) : M unit :=
  reply (λ r, F_reply_err r errnum) (λ _ a, a) "fuse_reply_err".

Definition ReplyBuf (buf : bytes) : M unit :=
  reply (λ r, F_reply_buf r buf) (λ _ a, a) "fuse_reply_buf".

Definition ReplyEntry (param : fuse_entry_param) : M unit :=
  reply (λ r, F_reply_entry r param) (λ _ a, a) "fuse_reply_entry".

Definition ReplyReadLink (link : bytes) : M unit :=
  reply (λ r, F_reply_readlink r link) (λ _ a, a) "fuse_reply_readlink".

Definition ReplyData (bufv : fuse_bufvec) (flags : Z) : M unit :=
  reply (λ r, F_reply_data r bufv flags) (λ _ a, a) "fuse_reply_data".

Definition ReplyWrite (bytes_written : Z) : M unit :=
  reply (λ r, F_reply_write r bytes_written) (λ _ a, a) "fuse_reply_write".

Definition ReplyStatFS (stbuf : statvfs) : M unit :=
  reply (λ r, F_reply_statfs r stbuf) (λ _ a, a) "fuse_reply_statfs".

Definition ReplyLock (lock : flock_t) : M unit :=
  reply (λ r, F_reply_lock r lock) (λ _ a, a) "fuse_reply_lock".

Definition ReplyLSeek (off : Z) : M unit :=
  reply (λ r, F_reply_lseek r off) (λ _ a, a) "fuse_reply_lseek".

Definition ReplyPoll (revents : Z) : M unit :=
  reply (λ r, F_reply_poll r revents) (λ _ a, a) "fuse_reply_poll".

Definition ReplyNone : M unit :=
  r ← get_req;
  match r with
  | None => mret tt
  | Some req => _ ← sys (F_reply_none req); set_req None
  end.

(** The error number a failure is reported with. *)
Definition failure_errno (status : Status) : Z :=
  match GetErrnoFromStatus status with
  | inr n => n
  | inl _ => StatusCodeToErrno (code status)
  end.

Definition ReplyFailure (status : Status) : M unit :=
  check (negb (ok status));;
  r ← get_req;
  match r with
  | None => mret tt
  | Some _ =>
      st ← try_ (ReplyErrno (failure_errno status));
      set_req None;;
      match st with inr _ => mret tt | inl st => fail st end
  end.

(** The argument is the status a handler returned: [inr tt] when it is OK. *)
Definition ReplyAlwaysAndLogIfNotOk (status : StatusOr unit) : M unit :=
  log_if_error
    match status with
    | inr _ => ReplyErrno 0
    | inl st => ReplyFailure st
    end.

Definition ReplyFailureAndLogIfNotOk (status : StatusOr unit) : M unit :=
  match status with
  | inr _ => mret tt
  | inl st => log_if_error (ReplyFailure st)
  end.

(** [~FuseRequest()] *)
Definition FuseRequest_dtor : M unit :=
  r ← get_req;
  match r with
  | None => mret tt
  | Some _ => log_if_error (ReplyErrno ECOMM)
  end.

(** ** FuseBufCopy *)

Definition FuseBufCopy (dst src : fuse_bufvec) (flags : Z) : M Z :=
  nb ← sys (F_buf_copy dst src flags);
  if nb <? 0 then return_error (ErrnoToStatus (- nb) "fuse_buf_copy") else mret nb.

(** ** FusePollHandle *)

Definition FusePollHandle_null : FusePollHandle := PH 0.
Definition FusePollHandle_assign (this o : FusePollHandle) : FusePollHandle * FusePollHandle :=
  (o, this).
Definition FusePollHandle_move (o : FusePollHandle) : FusePollHandle * FusePollHandle :=
  FusePollHandle_assign FusePollHandle_null o.

(** [operator bool() const] *)
Definition FusePollHandle_bool (ph : FusePollHandle) : bool := negb (handle_ ph =? 0).

(** [~FusePollHandle()] *)
Definition FusePollHandle_dtor (ph : FusePollHandle) : M unit :=
  if handle_ ph =? 0 then mret tt
  else _ ← sys (F_pollhandle_destroy (handle_ ph)); mret tt.

Definition Notify (ph : FusePollHandle) : M unit :=
  a ← sys (F_notify_poll (handle_ ph));
  return_status (ErrnoToStatus (- a) "fuse_lowlevel_notify_poll").

(** ** FuseDirsBuilder *)

Record FuseDirsBuilder : Type := mkDirs { plus_ : bool; maxsize_ : Z; buf_ : bytes }.

Definition FuseDirsBuilder_new (plus : bool) (maxsize : Z) : FuseDirsBuilder :=
  mkDirs plus maxsize [].

(** The lambda [add_direntry]: size needed and bytes written, for a span of
    [sz] bytes. *)
Definition add_direntry (plus : bool) (name : string) (param : fuse_entry_param)
    (offset : Z) (sz : Z) : Z * bytes :=
  if plus then fuse_add_direntry_plus sz name param offset
  else fuse_add_direntry sz name (ep_attr param) offset.

(** The result is the returned flag and the builder afterwards. *)
Definition AddDirEntry (b : FuseDirsBuilder) (name : string) (param : fuse_entry_param)
    (offset : Z) : M (bool * FuseDirsBuilder) :=
  _ ← Get;
  let next_entry_size := (add_direntry (plus_ b) name param offset 0).1 in
  let oldsize := Z.of_nat (List.length (buf_ b)) in
  if maxsize_ b <? u64_add next_entry_size oldsize then mret (false, b)
  else
    let r := add_direntry (plus_ b) name param offset next_entry_size in
    let buf := (buf_ b ++ syscalls.overwrite next_entry_size r.2)%list in
    check (r.1 =? next_entry_size);;
    mret (true, mkDirs (plus_ b) (maxsize_ b) buf).

Definition FuseDirsBuilder_Reply (b : FuseDirsBuilder) : M unit :=
  check (Z.of_nat (List.length (buf_ b)) <=? maxsize_ b);;
  ReplyBuf (buf_ b).

End Fuse.

(** ** Accounting for replies

    [replies r tr]: how many replies to request [r] a trace contains.
    [reply_balance r s] adds the reply that is still owed: it is the quantity
    every function below preserves. *)
Section Replies.
Context {AB : Absl} {LC : Libc} {PL : Platform}.

Definition replies_to (r : Z) (e : event) : bool := bool_decide (reply_target (ev_call e) = Some r).
Definition replies (r : Z) (tr : list event) : nat := List.length (List.filter (replies_to r) tr).
Definition owed (r : Z) (q : FuseRequest) : nat := if decide (req_ q = Some r) then 1 else 0.
Definition reply_balance (r : Z) (s : St) : nat := replies r (trace s) + owed r (request s).

#[export] Instance quiet_reply_balance r : Quiet (reply_balance r).
Proof.
  apply quiet_intro; [done|]. intros c a e w s H. unfold reply_balance. f_equal.
  unfold replies, after_call; simpl. unfold replies_to at 1; simpl. by rewrite H.
Qed.

Lemma reply_balance_modify_pafs r p : Keeps (reply_balance r) (modify (λ s, set_pafs_st (p s) s)).
Proof. done. Qed.
Lemma reply_balance_modify_dirs r d : Keeps (reply_balance r) (modify (λ s, set_dirs_st (d s) s)).
Proof. done. Qed.

(** A reply to the pending request pays exactly what was owed. *)
Lemma keeps_reply r c rc name :
  (∀ req, reply_target (c req) = Some req) → Keeps (reply_balance r) (reply c rc name).
Proof.
  intros Hc s. unfold reply, get_req, gets, mbind, M_bind. simpl.
  destruct (req_ (request s)) as [q|] eqn:E; [|done].
  unfold sys. destruct (os_step (c q) (world s)) as [[a e] w]. simpl.
  unfold set_req, modify, return_status. destruct (ok _); simpl;
    unfold reply_balance, replies, owed; simpl; unfold replies_to at 1; simpl;
    rewrite Hc, E; do 2 case_decide; simplify_eq;
    rewrite ?bool_decide_eq_true_2, ?bool_decide_eq_false_2 by congruence; simpl; lia.
Qed.

Lemma request_after_reply c rc name s : req_ (request (reply c rc name s).2) = None.
Proof.
  unfold reply, get_req, gets, mbind, M_bind. simpl.
  destruct (req_ (request s)) as [q|] eqn:E; [|done].
  unfold sys. destruct (os_step (c q) (world s)) as [[a e] w]. simpl.
  unfold set_req, modify, return_status. by destruct (ok _).
Qed.

End Replies.

#[export] Hint Resolve reply_balance_modify_pafs reply_balance_modify_dirs : keeps.
#[export] Hint Extern 1 (Keeps (reply_balance _) (reply _ _ _)) =>
  apply keeps_reply; intros; reflexivity : keeps.
