(* ===== verification/Inode.v ===== *)
(** * inode.h, inode.cc: inodes and the reference-counted inode cache

    [InodeCache] is the map from (device, inode number) to the heap address of a
    counted [Inode].  The address is what the kernel is given as inode number.
    The cache's invariant and what each operation does to the reference counts
    are in file Cache. *)

From S2P Require Import Prelude Consts Absl Errno Status Machine Syscalls Raii Fuse.

Open Scope string_scope.
Open Scope Z_scope.

Section Inode.
Context {AB : Absl} {LC : Libc} {PL : Platform}.

(** ** Inode *)

(** [Inode &] or [Inode *]: the root, a member of [PageAlignFS], or an entry of
    the cache by its address. *)
Inductive InodeRef : Type := IRoot | IEntry (a : Z).

Definition lookup_inode (p : PageAlignFS) (i : InodeRef) : option Inode :=
  match i with
  | IRoot => Some (root_ p)
  | IEntry a => snd <$> entries p !! a
  end.

Definition read_inode (i : InodeRef) : M Inode :=
  p ← gets pafs; deref (lookup_inode p i).

Definition set_entries (e : gmap Z (Z * Inode)) (p : PageAlignFS) : PageAlignFS :=
  {| root_ := root_ p; inodes_ := inodes_ p; entries := e; opts_ := opts_ p |}.
Definition set_inodes (m : gmap (Z * Z) Z) (p : PageAlignFS) : PageAlignFS :=
  {| root_ := root_ p; inodes_ := m; entries := entries p; opts_ := opts_ p |}.
Definition set_root (i : Inode) (p : PageAlignFS) : PageAlignFS :=
  {| root_ := i; inodes_ := inodes_ p; entries := entries p; opts_ := opts_ p |}.
Definition modify_pafs (f : PageAlignFS → PageAlignFS) : M unit :=
  modify (λ s, set_pafs_st (f (pafs s)) s).

Definition update_inode (i : InodeRef) (f : Inode → Inode) (p : PageAlignFS) : PageAlignFS :=
  match i with
  | IRoot => set_root (f (root_ p)) p
  | IEntry a => set_entries (alter (λ e, (e.1, f e.2)) a (entries p)) p
  end.

Definition GetNumber (i : Inode) : Z := num_ i.
Definition GetSourceDevice (i : Inode) : Z := src_dev_num_ i.
Definition GetFD (i : Inode) : Z := fd_ (inode_fd_ i).

Definition proc_self_fd (fd : Z) : string := StrCat [Txt "/proc/self/fd/"; Num fd].

Definition GetFileVersionFromPathFD (fd : Z) : M Z :=
  myfd ← syscalls.open (proc_self_fd fd) (or_flags [O_RDONLY; O_CLOEXEC]) 0;
  on_exit (r ← syscalls.ioctl (fd_ myfd) FS_IOC_GETVERSION; mret r.2)
          (FileDescriptor_dtor myfd).

Definition StatFD (fd : Z) : M stat :=
  syscalls.fstatat fd EmptyString (or_flags [AT_EMPTY_PATH; AT_SYMLINK_NOFOLLOW]).

Definition Inode_Stat (i : Inode) : M stat := StatFD (GetFD i).

(** The private constructor: [fd] is moved into the member. *)
Definition Inode_new (fd : FileDescriptor) (num src_dev_num : Z) : Inode :=
  mkInode (FileDescriptor.move fd).1 num src_dev_num None FusePollHandle_null.

Definition Inode_Create (path : string) (parent_fd : Z) : M Inode :=
  fd ← syscalls.openat parent_fd path (or_flags [O_PATH; O_NOFOLLOW; O_CLOEXEC]) 0;
  st ← on_error (StatFD (fd_ fd)) (FileDescriptor_dtor fd);
  mret (Inode_new fd (st_ino st) (st_dev st)).

(** The implicit move constructor: the object that was moved from. *)
Definition Inode_moved_from (i : Inode) : Inode :=
  mkInode (FileDescriptor.move (inode_fd_ i)).2 (num_ i) (src_dev_num_ i)
          (generation_ i) (FusePollHandle_move (poll_handle_ i)).2.

(** [~Inode()]: members in reverse order of declaration. *)
Definition Inode_dtor (i : Inode) : M unit :=
  FusePollHandle_dtor (poll_handle_ i);;
  FileDescriptor_dtor (inode_fd_ i).

Definition set_generation (g : StatusOr Z) (i : Inode) : Inode :=
  mkInode (inode_fd_ i) (num_ i) (src_dev_num_ i) (Some g) (poll_handle_ i).
Definition set_poll_handle (h : FusePollHandle) (i : Inode) : Inode :=
  mkInode (inode_fd_ i) (num_ i) (src_dev_num_ i) (generation_ i) h.

(** [generation_] is a cache: filled at the first call, errors included.  The
    result is a copy of the [StatusOr], which never holds an OK status. *)
Definition GetGeneration (i : InodeRef) : M Z :=
  inode ← read_inode i;
  g ← match generation_ inode with
      | Some g => mret g
      | None =>
          g ← try_ (GetFileVersionFromPathFD (GetFD inode));
          modify_pafs (update_inode i (set_generation g));;
          mret g
      end;
  match g with inr v => mret v | inl st => return_error st end.

(** The old handle ends up in the by-value parameter, whose destructor runs. *)
Definition AddPollHandle (i : InodeRef) (handle : FusePollHandle) : M unit :=
  inode ← read_inode i;
  if negb (FusePollHandle_bool handle) then FusePollHandle_dtor handle
  else
    let '(h, handle) := FusePollHandle_assign (poll_handle_ inode) handle in
    modify_pafs (update_inode i (set_poll_handle h));;
    FusePollHandle_dtor handle.

Definition NotifyPollEvent (i : InodeRef) : M unit :=
  inode ← read_inode i;
  if negb (FusePollHandle_bool (poll_handle_ inode)) then mret tt
  else Notify (poll_handle_ inode).

(** ** InodeCache *)

Definition inode_key (i : Inode) : Z * Z := (GetSourceDevice i, GetNumber i).

Definition live (s : St) : gset Z := dom (entries (pafs s)) ∪ dom (dirs s).

Definition no_entry (verb : string) (i : Inode) : Status :=
  MakeStatus kInternal
    (StrCat [Txt verb; Num (GetNumber i); Txt " tracking src device ";
             Num (GetSourceDevice i); Txt " which we don't have an entry for"]).

(** The result is the address held by the returned [shared_ptr]. *)
Definition Insert (inode : Inode) : M Z :=
  s ← gets id;
  let p := pafs s in
  let key := inode_key inode in
  r ← match inodes_ p !! key with
      | None =>
          let a := fresh (live s) in
          modify_pafs (λ p, set_inodes (<[key := a]> (inodes_ p))
                              (set_entries (<[a := (0, inode)]> (entries p)) p));;
          mret (a, Inode_moved_from inode)
      | Some a => mret (a, inode)
      end;
  let '(a, inode) := r in
  p ← gets pafs;
  e ← deref (entries p !! a);
  modify_pafs (λ p, set_entries (<[a := (u64_add e.1 1, e.2)]> (entries p)) p);;
  Inode_dtor inode;;
  mret a.

Definition Ref (i : InodeRef) (ntimes : Z) : M unit :=
  inode ← read_inode i;
  p ← gets pafs;
  match inodes_ p !! inode_key inode with
  | None => fail (no_entry "Was asked to ref inode " inode)
  | Some a =>
      e ← deref (entries p !! a);
      modify_pafs (λ p, set_entries (<[a := (u64_add e.1 ntimes, e.2)]> (entries p)) p)
  end.

(** [erase(iter)] destroys the entry, and with it the [Inode]. *)
Definition Unref (i : InodeRef) (ntimes : Z) : M unit :=
  inode ← read_inode i;
  p ← gets pafs;
  match inodes_ p !! inode_key inode with
  | None => fail (no_entry "Was asked to unref inode " inode)
  | Some a =>
      e ← deref (entries p !! a);
      check (ntimes <=? e.1);;
      let refcnt := u64_sub e.1 ntimes in
      modify_pafs (λ p, set_entries (<[a := (refcnt, e.2)]> (entries p)) p);;
      if refcnt =? 0 then
        modify_pafs (λ p, set_inodes (delete (inode_key inode) (inodes_ p))
                            (set_entries (delete a (entries p)) p));;
        Inode_dtor e.2
      else mret tt
  end.

(** The deleter of the [shared_ptr] that [Insert] returns. *)
Definition shared_ptr_dtor (a : Z) : M unit :=
  log_if_error (Unref (IEntry a) 1).

End Inode.
