(* ===== verification/Pafs.v ===== *)
(** * page_align_fs.cc: the file system's request handlers

    Module [PageAlignFS] has one definition per member function.  A handler
    replies through the request in the state and returns a status; the wrappers
    of fuse_ops.h (file FuseOps) reply for it when it did not. *)

From S2P Require Import Prelude Consts Absl Errno Status Machine Syscalls Raii Fuse Inode.

Open Scope string_scope.
Open Scope Z_scope.

(** Conversion of a 64-bit value to [int]. *)
Definition to_int (z : Z) : Z := (z + 2147483648) mod 4294967296 - 2147483648.

(** [static_cast<uid_t>(-1)] *)
Definition minus_one_u32 : Z := 4294967295.

Definition FUSE_BUFVEC_INIT (size : Z) : fuse_bufvec :=
  {| bv_count := 1; bv_idx := 0; bv_off := 0;
     bv_buf := [{| buf_size := size; buf_flags := 0; buf_mem := 0; buf_fd := -1; buf_pos := 0 |}] |}.

(** [bufv.buf[0]] made to stand for [size] bytes of a descriptor at an offset. *)
Definition fd_bufvec (size fd pos : Z) : fuse_bufvec :=
  {| bv_count := 1; bv_idx := 0; bv_off := 0;
     bv_buf := [{| buf_size := size; buf_flags := or_flags [FUSE_BUF_IS_FD; FUSE_BUF_FD_SEEK];
                   buf_mem := 0; buf_fd := fd; buf_pos := pos |}] |}.

Module PageAlignFS.
Section PageAlignFS.
Context {AB : Absl} {LC : Libc} {PL : Platform}.

(** ** Private helpers *)

Definition GetInode (ino : Z) : InodeRef :=
  if ino =? FUSE_ROOT_ID then IRoot else IEntry ino.

Definition FindOrCreateInode (parent : InodeRef) (path : string) : M Z :=
  p ← read_inode parent;
  inode ← Inode_Create path (GetFD p);
  Insert inode.

Definition CreateFuseEntryParam (a : Z) (with_generation : bool) : M fuse_entry_param :=
  inode ← read_inode (IEntry a);
  attr ← Inode_Stat inode;
  generation ← (if with_generation : bool then g ← GetGeneration (IEntry a); mret (Some g)
                else mret None);
  opts ← gets (λ s, opts_ (pafs s));
  mret {| ep_ino := a; ep_generation := generation; ep_attr := attr;
          ep_attr_timeout := ToDoubleSeconds (kernel_attribute_timeout opts);
          ep_entry_timeout := ToDoubleSeconds (kernel_entry_timeout opts) |}.

Definition cannot_span : Status :=
  MakeStatus kFailedPrecondition "PageAlignFS cannot span multiple source mounts".

(** The part [ReplyWithLookup] and [ReplyWithCreate] share, for the reply they
    send: the [shared_ptr] is dropped on every path, the kernel's reference only
    when the reply fails. *)
Definition reply_with (send : fuse_entry_param → M unit)
    (parent : InodeRef) (name : string) : M unit :=
  a ← FindOrCreateInode parent name;
  on_exit
    (p ← read_inode parent;
     inode ← read_inode (IEntry a);
     if negb (GetSourceDevice p =? GetSourceDevice inode) then fail cannot_span
     else
       param ← CreateFuseEntryParam a true;
       Ref (IEntry a) 1;;
       on_error (send param) (log_if_error (Unref (IEntry a) 1)))
    (shared_ptr_dtor a).

Definition ReplyWithCreate (parent : InodeRef) (name : string) (fi : fuse_file_info) : M unit :=
  reply_with (λ param, ReplyCreate param fi) parent name.

Definition ReplyWithLookup (parent : InodeRef) (name : string) : M unit :=
  reply_with ReplyEntry parent name.

Definition ReplyWithAttrs (i : InodeRef) : M unit :=
  inode ← read_inode i;
  attrs ← Inode_Stat inode;
  opts ← gets (λ s, opts_ (pafs s));
  ReplyAttr attrs (kernel_entry_timeout opts).

(** One iteration of the loop of [ReadDirInternal] for the entry just read: (go
    on?, builder, inodes).  The local [shared_ptr] lives on in [inodes] when it
    was pushed there, and is dropped at the end of the iteration otherwise. *)
Definition ReadDir_entry (dir_inode : InodeRef) (plus : bool) (b : FuseDirsBuilder)
    (inodes : list Z) (entry : dirent) : M (bool * FuseDirsBuilder * list Z) :=
  a ← FindOrCreateInode dir_inode (d_name entry);
  r ← on_error
        (param ← CreateFuseEntryParam a plus;
         r ← AddDirEntry b (d_name entry) param (d_off entry);
         if r.1 && plus then Ref (IEntry a) 1;; mret r else mret r)
        (shared_ptr_dtor a);
  if r.1 && plus then mret (true, r.2, (inodes ++ [a])%list)
  else shared_ptr_dtor a;; mret (r.1, r.2, inodes).

(** The loop: how it ended ([None]: normally) with the locals at that point. *)
Fixpoint ReadDir_loop (fuel : nat) (dir : Z) (dir_inode : InodeRef) (plus : bool)
    (b : FuseDirsBuilder) (inodes : list Z)
    : M (option Status * FuseDirsBuilder * list Z) :=
  match fuel with
  | O => die OutOfFuel
  | S fuel =>
      entry ← try_ (syscalls.readdir dir);
      match entry with
      | inl st => mret (Some st, b, inodes)
      | inr None => mret (None, b, inodes)
      | inr (Some entry) =>
          r ← try_ (ReadDir_entry dir_inode plus b inodes entry);
          match r with
          | inl st => mret (Some st, b, inodes)
          | inr (true, b, inodes) => ReadDir_loop fuel dir dir_inode plus b inodes
          | inr (false, b, inodes) => mret (None, b, inodes)
          end
      end
  end.

(** [for (inode : inodes) f(inode);] *)
Fixpoint for_each {A} (l : list A) (f : A → M unit) : M unit :=
  match l with
  | [] => mret tt
  | a :: l => f a;; for_each l f
  end.

(** Every entry takes at least one byte of the reply, so [size] entries and the
    one that does not fit bound the iterations. *)
Definition readdir_fuel (size : Z) : nat := S (S (Z.to_nat size)).

Definition ReadDirInternal (dir_inode : InodeRef) (size off : Z) (fi : fuse_file_info)
    (plus : bool) : M unit :=
  ds ← gets dirs;
  d ← deref (ds !! fi_fh fi);
  dir ← Directory_deref d;
  syscalls.seekdir dir off;;
  r ← ReadDir_loop (readdir_fuel size) dir dir_inode plus (FuseDirsBuilder_new plus size) [];
  let '(st, b, inodes) := r in
  ret ← (match st with
         | Some st => mret (inl st)
         | None => try_ (FuseDirsBuilder_Reply b)
         end : M (StatusOr unit));
  (* the Cleanup, unless it was cancelled *)
  match ret with
  | inl _ => for_each inodes (λ a, log_if_error (Unref (IEntry a) 1))
  | inr _ => mret tt
  end;;
  (* ~vector() *)
  for_each inodes shared_ptr_dtor;;
  match ret with inl st => fail st | inr _ => mret tt end.

(** ** Handlers *)

Definition Init (conn : fuse_conn_info) : M unit := mret tt.

Definition Destroy : M unit := mret tt.

Definition Forget (ino nlookup : Z) : M unit :=
  _ ← read_inode (GetInode ino);
  Unref (GetInode ino) nlookup.

Definition Lookup (parent : Z) (name : string) : M unit :=
  _ ← read_inode (GetInode parent);
  ReplyWithLookup (GetInode parent) name.

Definition GetAttr (ino : Z) : M unit :=
  _ ← read_inode (GetInode ino);
  ReplyWithAttrs (GetInode ino).

(** The two [timespec]s of [SetAttr]. *)
Definition SetAttr_atime (attr : stat) (to_set : Z) : timespec :=
  if has_flag to_set FUSE_SET_ATTR_ATIME_NOW then {| tv_sec := 0; tv_nsec := UTIME_NOW |}
  else if has_flag to_set FUSE_SET_ATTR_ATIME then st_atim attr
  else {| tv_sec := 0; tv_nsec := UTIME_OMIT |}.

Definition SetAttr_mtime (attr : stat) (to_set : Z) : timespec :=
  if has_flag to_set FUSE_SET_ATTR_MTIME_NOW then {| tv_sec := 0; tv_nsec := UTIME_NOW |}
  else if has_flag to_set FUSE_SET_ATTR_MTIME then st_mtim attr
  else {| tv_sec := 0; tv_nsec := UTIME_OMIT |}.

(** The updates, in order, each returning early on failure. *)
Definition SetAttr_body (fd : Z) (attr : stat) (to_set : Z) : M unit :=
  (if has_flag to_set FUSE_SET_ATTR_MODE then syscalls.fchmod fd (st_mode attr)
   else mret tt);;
  (if has_flag to_set (or_flags [FUSE_SET_ATTR_UID; FUSE_SET_ATTR_GID]) then
     let uid := if has_flag to_set FUSE_SET_ATTR_UID then st_uid attr else minus_one_u32 in
     let gid := if has_flag to_set FUSE_SET_ATTR_GID then st_gid attr else minus_one_u32 in
     syscalls.fchownat fd EmptyString uid gid (or_flags [AT_EMPTY_PATH; AT_SYMLINK_NOFOLLOW])
   else mret tt);;
  (if has_flag to_set FUSE_SET_ATTR_SIZE then syscalls.ftruncate fd (st_size attr)
   else mret tt);;
  (if has_flag to_set (or_flags [FUSE_SET_ATTR_ATIME; FUSE_SET_ATTR_MTIME]) then
     syscalls.futimens fd (SetAttr_atime attr to_set) (SetAttr_mtime attr to_set)
   else mret tt).

Definition SetAttr (ino : Z) (attr : stat) (to_set : Z) (fi : fuse_file_info) : M unit :=
  inode ← read_inode (GetInode ino);
  let fd := to_int (fi_fh fi) in
  myfd ← (if fd =? 0 then
            f ← syscalls.open (proc_self_fd (GetFD inode)) (or_flags [O_RDONLY; O_CLOEXEC]) 0;
            mret (Some f)
          else mret None);
  let fd := match myfd with Some f => fd_ f | None => fd end in
  on_exit (SetAttr_body fd attr to_set;; ReplyWithAttrs (GetInode ino))
          (match myfd with Some f => FileDescriptor_dtor f | None => mret tt end).

Definition ReadLink (ino : Z) : M unit :=
  inode ← read_inode (GetInode ino);
  let sizeof_buf := PATH_MAX + 1 in
  r ← syscalls.readlinkat (GetFD inode) EmptyString sizeof_buf;
  let nb := r.1 in
  if nb =? sizeof_buf then return_status (ErrnoToStatus ENAMETOOLONG "Path too long")
  else ReplyReadLink (take (Z.to_nat nb) r.2).

Definition with_fh (fi : fuse_file_info) (fh : Z) : fuse_file_info :=
  {| fi_flags := fi_flags fi; fi_fh := fh; fi_noflush := fi_noflush fi;
     fi_parallel_direct_writes := fi_parallel_direct_writes fi |}.

(** [new Directory(std::move(d))] *)
Definition new_Directory (d : Directory) : M Z :=
  s ← gets id;
  let a := fresh (live s) in
  modify (λ s, set_dirs_st (<[a := (Directory_move d).1]> (dirs s)) s);;
  mret a.

Definition OpenDir (ino : Z) (fi : fuse_file_info) : M unit :=
  inode ← read_inode (GetInode ino);
  dirfd ← syscalls.openat (GetFD inode) "." (or_flags [O_DIRECTORY; O_NOFOLLOW; O_CLOEXEC]) 0;
  d ← Directory_Create dirfd;
  dir ← new_Directory d;
  ReplyOpen (with_fh fi dir).

(** [delete] of a null pointer does nothing. *)
Definition ReleaseDir (ino : Z) (fi : fuse_file_info) : M unit :=
  _ ← read_inode (GetInode ino);
  if fi_fh fi =? 0 then mret tt
  else
    ds ← gets dirs;
    d ← deref (ds !! fi_fh fi);
    modify (λ s, set_dirs_st (delete (fi_fh fi) (dirs s)) s);;
    Directory_dtor d.

Definition ReadDir (ino size off : Z) (fi : fuse_file_info) : M unit :=
  _ ← read_inode (GetInode ino);
  ReadDirInternal (GetInode ino) size off fi false.

Definition ReadDirPlus (ino size off : Z) (fi : fuse_file_info) : M unit :=
  _ ← read_inode (GetInode ino);
  ReadDirInternal (GetInode ino) size off fi true.

Definition ForgetMulti (forgets : list fuse_forget_data) : M unit :=
  for_each forgets (λ forget, Unref (GetInode (fg_ino forget)) (fg_nlookup forget)).

Definition Mknod (parent : Z) (name : string) (mode rdev : Z) : M unit :=
  p ← read_inode (GetInode parent);
  syscalls.mknodat (GetFD p) name mode rdev;;
  ReplyWithLookup (GetInode parent) name.

Definition Mkdir (parent : Z) (name : string) (mode : Z) : M unit :=
  p ← read_inode (GetInode parent);
  syscalls.mkdirat (GetFD p) name mode;;
  ReplyWithLookup (GetInode parent) name.

Definition Unlink (ino : Z) (name : string) : M unit :=
  inode ← read_inode (GetInode ino);
  syscalls.unlinkat (GetFD inode) name 0.

Definition Rmdir (ino : Z) (name : string) : M unit :=
  inode ← read_inode (GetInode ino);
  syscalls.unlinkat (GetFD inode) name AT_REMOVEDIR.

Definition Symlink (link : string) (parent : Z) (name : string) : M unit :=
  p ← read_inode (GetInode parent);
  syscalls.symlinkat link (GetFD p) name;;
  ReplyWithLookup (GetInode parent) name.

Definition Rename (parent : Z) (name : string) (newparent : Z) (newname : string)
    (flags : Z) : M unit :=
  p ← read_inode (GetInode parent);
  np ← read_inode (GetInode newparent);
  syscalls.renameat2 (GetFD p) name (GetFD np) newname flags.

Definition Link (ino newparent : Z) (newname : string) : M unit :=
  inode ← read_inode (GetInode ino);
  np ← read_inode (GetInode newparent);
  syscalls.linkat (GetFD inode) EmptyString (GetFD np) newname AT_EMPTY_PATH;;
  ReplyWithLookup (GetInode newparent) newname.

Definition opened (fi : fuse_file_info) (fh : Z) : fuse_file_info :=
  {| fi_flags := fi_flags fi; fi_fh := fh;
     fi_noflush := Z.land (fi_flags fi) O_ACCMODE =? O_RDONLY;
     fi_parallel_direct_writes := true |}.

Definition Open (ino : Z) (fi : fuse_file_info) : M unit :=
  inode ← read_inode (GetInode ino);
  fd ← syscalls.open (proc_self_fd (GetFD inode))
         (Z.land (Z.lor (fi_flags fi) O_CLOEXEC) (Z.lnot O_NOFOLLOW)) 0;
  on_error (ReplyOpen (opened fi (fd_ fd))) (FileDescriptor_dtor fd);;
  FileDescriptor_dtor (FileDescriptor.Release fd).2.

Definition Release (ino : Z) (fi : fuse_file_info) : M unit :=
  _ ← read_inode (GetInode ino);
  syscalls.close (FD (to_int (fi_fh fi))).

Definition Read (ino size off : Z) (fi : fuse_file_info) : M unit :=
  _ ← read_inode (GetInode ino);
  ReplyData (fd_bufvec size (to_int (fi_fh fi)) off) 0.

Definition WriteBuf (ino : Z) (in_buf : fuse_bufvec) (off : Z) (fi : fuse_file_info) : M unit :=
  _ ← read_inode (GetInode ino);
  let bufsiz := fuse_buf_size in_buf in
  nb ← FuseBufCopy (fd_bufvec bufsiz (to_int (fi_fh fi)) off) in_buf 0;
  ret ← try_ (ReplyWrite nb);
  log_if_error (NotifyPollEvent (GetInode ino));;
  match ret with inr _ => mret tt | inl st => fail st end.

Definition Flush (ino : Z) (fi : fuse_file_info) : M unit :=
  _ ← read_inode (GetInode ino);
  fd ← syscalls.dup (to_int (fi_fh fi));
  let '(arg, fd) := FileDescriptor.move fd in
  on_exit (syscalls.close arg) (FileDescriptor_dtor fd).

Definition FSync (ino : Z) (datasync : bool) (fi : fuse_file_info) : M unit :=
  _ ← read_inode (GetInode ino);
  if datasync then syscalls.fdatasync (to_int (fi_fh fi))
  else syscalls.fsync (to_int (fi_fh fi)).

Definition FSyncDir (ino : Z) (datasync : bool) (fi : fuse_file_info) : M unit :=
  _ ← read_inode (GetInode ino);
  ds ← gets dirs;
  d ← deref (ds !! fi_fh fi);
  dir ← Directory_deref d;
  dfd ← syscalls.dirfd dir;
  if datasync then syscalls.fdatasync dfd else syscalls.fsync dfd.

Definition StatFS (ino : Z) : M unit :=
  inode ← read_inode (GetInode ino);
  stbuf ← syscalls.fstatvfs (GetFD inode);
  ReplyStatFS stbuf.

Definition SetXAttr (ino : Z) (name : string) (value : bytes) (flags : Z) : M unit :=
  inode ← read_inode (GetInode ino);
  syscalls.setxattr (proc_self_fd (GetFD inode)) name value flags.

Definition GetXAttr (ino : Z) (name : string) (size : Z) : M unit :=
  inode ← read_inode (GetInode ino);
  buf ← syscalls.getxattr (proc_self_fd (GetFD inode)) name size;
  check (Z.of_nat (List.length buf) <=? size);;
  ReplyBuf buf.

Definition ListXAttr (ino size : Z) : M unit :=
  inode ← read_inode (GetInode ino);
  r ← syscalls.listxattr (proc_self_fd (GetFD inode)) size;
  let buf := syscalls.overwrite size r.2 in
  check (Z.of_nat (List.length buf) <=? size);;
  ReplyBuf (syscalls.resize buf r.1).

Definition RemoveXAttr (ino : Z) (name : string) : M unit :=
  inode ← read_inode (GetInode ino);
  syscalls.removexattr (proc_self_fd (GetFD inode)) name.

Definition Access (ino mask : Z) : M unit :=
  inode ← read_inode (GetInode ino);
  syscalls.access (proc_self_fd (GetFD inode)) mask.

Definition Create (ino : Z) (name : string) (mode : Z) (fi : fuse_file_info) : M unit :=
  inode ← read_inode (GetInode ino);
  fd ← syscalls.openat (GetFD inode) name
         (Z.land (or_flags [fi_flags fi; O_CLOEXEC; O_CREAT]) (Z.lnot O_NOFOLLOW)) mode;
  on_error (ReplyWithCreate (GetInode ino) name (opened fi (fd_ fd))) (FileDescriptor_dtor fd);;
  FileDescriptor_dtor (FileDescriptor.Release fd).2.

Definition GetLk (ino : Z) (fi : fuse_file_info) (lock : flock_t) : M unit :=
  inode ← read_inode (GetInode ino);
  lock ← syscalls.fcntl (GetFD inode) F_GETLK lock;
  ReplyLock lock.

Definition SetLk (ino : Z) (fi : fuse_file_info) (lock : flock_t) (sleep : bool) : M unit :=
  inode ← read_inode (GetInode ino);
  let cmd := if sleep then F_SETLKW else F_SETLK in
  _ ← syscalls.fcntl (GetFD inode) cmd lock;
  mret tt.

Definition FLock (ino : Z) (fi : fuse_file_info) (op : Z) : M unit :=
  inode ← read_inode (GetInode ino);
  syscalls.flock (GetFD inode) op.

Definition FAllocate (ino mode offset length : Z) (fi : fuse_file_info) : M unit :=
  inode ← read_inode (GetInode ino);
  syscalls.fallocate (GetFD inode) mode offset length.

Definition CopyFileRange (ino_in off_in : Z) (fi_in : fuse_file_info)
    (ino_out off_out : Z) (fi_out : fuse_file_info) (len flags : Z) : M unit :=
  inode_in ← read_inode (GetInode ino_in);
  inode_out ← read_inode (GetInode ino_out);
  nb ← syscalls.copy_file_range (GetFD inode_in) off_in (GetFD inode_out) off_out len flags;
  ReplyWrite nb.

Definition LSeek (ino off whence : Z) (fi : fuse_file_info) : M unit :=
  inode ← read_inode (GetInode ino);
  next_off ← syscalls.lseek (GetFD inode) off whence;
  ReplyLSeek next_off.

Definition poll_events : Z :=
  or_flags [POLLIN; POLLPRI; POLLOUT; POLLRDHUP; POLLERR; POLLHUP; POLLNVAL].

Definition Poll (ino : Z) (fi : fuse_file_info) (ph : FusePollHandle) : M unit :=
  _ ← read_inode (GetInode ino);
  let '(arg, ph) := FusePollHandle_move ph in
  AddPollHandle (GetInode ino) arg;;
  inode ← read_inode (GetInode ino);
  let pfd := {| pfd_fd := GetFD inode; pfd_events := poll_events; pfd_revents := 0 |} in
  r ← syscalls.poll [pfd] ZeroDuration;
  check (r.1 <=? 1);;
  let pfd := match r.2 with pfd :: _ => pfd | [] => pfd end in
  on_exit (ReplyPoll (pfd_revents pfd)) (FusePollHandle_dtor ph).

(** ** Construction *)

Definition new (root : Inode) (opts : Options) : PageAlignFS :=
  {| root_ := root; inodes_ := ∅; entries := ∅; opts_ := opts |}.

(** [PageAlignFS::Create(srcdir, opts)] *)
Definition CreateFS (srcdir : string) (opts : Options) : M PageAlignFS :=
  root ← Inode_Create srcdir AT_FDCWD;
  on_error
    (st ← Inode_Stat root;
     if negb (S_ISDIR (st_mode st)) then
       fail (MakeStatus kFailedPrecondition "Mountpoint is not a directory")
     else mret (new root opts))
    (Inode_dtor root).

End PageAlignFS.
End PageAlignFS.
