(* ===== verification/FuseOps.v ===== *)
(** * fuse_ops.h: from a class to a table of libfuse callbacks

    A class is seen through the concepts of fuse_ops.h: for each operation it
    either has the method or not ([FileSystem]).  [AsFuseLowLevelOps] fills the
    callback table of libfuse with a wrapper for each method the class has and
    with a null pointer otherwise; a wrapper owns the request, calls the method
    and replies as the operation's policy says. *)

From S2P Require Import Prelude Consts Absl Errno Status Machine Syscalls Raii Fuse Inode Pafs.

Open Scope string_scope.
Open Scope Z_scope.

Section FuseOps.
Context {AB : Absl} {LC : Libc} {PL : Platform}.

(** ** What a class offers

    [None]: the class does not satisfy the operation's concept. *)
Record FileSystem : Type := {
  fs_Init : option (fuse_conn_info → M unit);
  fs_Destroy : option (M unit);
  fs_Lookup : option (Z → string → M unit);
  fs_Forget : option (Z → Z → M unit);
  fs_GetAttr : option (Z → M unit);
  fs_SetAttr : option (Z → stat → Z → fuse_file_info → M unit);
  fs_ReadLink : option (Z → M unit);
  fs_Mknod : option (Z → string → Z → Z → M unit);
  fs_Mkdir : option (Z → string → Z → M unit);
  fs_Unlink : option (Z → string → M unit);
  fs_Rmdir : option (Z → string → M unit);
  fs_Symlink : option (string → Z → string → M unit);
  fs_Rename : option (Z → string → Z → string → Z → M unit);
  fs_Link : option (Z → Z → string → M unit);
  fs_Open : option (Z → fuse_file_info → M unit);
  fs_Read : option (Z → Z → Z → fuse_file_info → M unit);
  fs_Write : option (Z → bytes → Z → fuse_file_info → M unit);
  fs_Flush : option (Z → fuse_file_info → M unit);
  fs_Release : option (Z → fuse_file_info → M unit);
  fs_FSync : option (Z → bool → fuse_file_info → M unit);
  fs_OpenDir : option (Z → fuse_file_info → M unit);
  fs_ReadDir : option (Z → Z → Z → fuse_file_info → M unit);
  fs_ReleaseDir : option (Z → fuse_file_info → M unit);
  fs_FSyncDir : option (Z → bool → fuse_file_info → M unit);
  fs_StatFS : option (Z → M unit);
  fs_SetXAttr : option (Z → string → bytes → Z → M unit);
  fs_GetXAttr : option (Z → string → Z → M unit);
  fs_ListXAttr : option (Z → Z → M unit);
  fs_RemoveXAttr : option (Z → string → M unit);
  fs_Access : option (Z → Z → M unit);
  fs_Create : option (Z → string → Z → fuse_file_info → M unit);
  fs_GetLk : option (Z → fuse_file_info → flock_t → M unit);
  fs_SetLk : option (Z → fuse_file_info → flock_t → bool → M unit);
  fs_BMap : option (Z → Z → Z → M unit);
  fs_IOCtl : option (Z → Z → Z → fuse_file_info → Z → bytes → Z → M unit);
  fs_Poll : option (Z → fuse_file_info → FusePollHandle → M unit);
  fs_WriteBuf : option (Z → fuse_bufvec → Z → fuse_file_info → M unit);
  fs_RetrieveReply : option (Z → Z → Z → fuse_bufvec → M unit);
  fs_ForgetMulti : option (list fuse_forget_data → M unit);
  fs_FLock : option (Z → fuse_file_info → Z → M unit);
  fs_FAllocate : option (Z → Z → Z → Z → fuse_file_info → M unit);
  fs_ReadDirPlus : option (Z → Z → Z → fuse_file_info → M unit);
  fs_CopyFileRange : option (Z → Z → fuse_file_info → Z → Z → fuse_file_info → Z → Z → M unit);
  fs_LSeek : option (Z → Z → Z → fuse_file_info → M unit)
}.

(** ** The concepts

    [FuseXOp<T>]: [T] has a method [X] with the arguments of the operation,
    which returns an [absl::Status].  The signature is the type of the field. *)
Definition has {A} (o : option A) : bool :=
  match o with Some _ => true | None => false end.

Definition FuseInitOp (T : FileSystem) : bool := has (fs_Init T).
Definition FuseDestroyOp (T : FileSystem) : bool := has (fs_Destroy T).
Definition FuseLookupOp (T : FileSystem) : bool := has (fs_Lookup T).
Definition FuseForgetOp (T : FileSystem) : bool := has (fs_Forget T).
Definition FuseGetAttrOp (T : FileSystem) : bool := has (fs_GetAttr T).
Definition FuseSetAttrOp (T : FileSystem) : bool := has (fs_SetAttr T).
Definition FuseReadLinkOp (T : FileSystem) : bool := has (fs_ReadLink T).
Definition FuseMknodOp (T : FileSystem) : bool := has (fs_Mknod T).
Definition FuseMkdirOp (T : FileSystem) : bool := has (fs_Mkdir T).
Definition FuseUnlinkOp (T : FileSystem) : bool := has (fs_Unlink T).
Definition FuseRmdirOp (T : FileSystem) : bool := has (fs_Rmdir T).
Definition FuseSymlinkOp (T : FileSystem) : bool := has (fs_Symlink T).
Definition FuseRenameOp (T : FileSystem) : bool := has (fs_Rename T).
Definition FuseLinkOp (T : FileSystem) : bool := has (fs_Link T).
Definition FuseOpenOp (T : FileSystem) : bool := has (fs_Open T).
Definition FuseReadOp (T : FileSystem) : bool := has (fs_Read T).
Definition FuseWriteOp (T : FileSystem) : bool := has (fs_Write T).
Definition FuseFlushOp (T : FileSystem) : bool := has (fs_Flush T).
Definition FuseReleaseOp (T : FileSystem) : bool := has (fs_Release T).
Definition FuseFSyncOp (T : FileSystem) : bool := has (fs_FSync T).
Definition FuseOpenDirOp (T : FileSystem) : bool := has (fs_OpenDir T).
Definition FuseReadDirOp (T : FileSystem) : bool := has (fs_ReadDir T).
Definition FuseReleaseDirOp (T : FileSystem) : bool := has (fs_ReleaseDir T).
Definition FuseFSyncDirOp (T : FileSystem) : bool := has (fs_FSyncDir T).
Definition FuseStatFSOp (T : FileSystem) : bool := has (fs_StatFS T).
Definition FuseSetXAttrOp (T : FileSystem) : bool := has (fs_SetXAttr T).
Definition FuseGetXAttrOp (T : FileSystem) : bool := has (fs_GetXAttr T).
Definition FuseListXAttrOp (T : FileSystem) : bool := has (fs_ListXAttr T).
Definition FuseRemoveXAttrOp (T : FileSystem) : bool := has (fs_RemoveXAttr T).
Definition FuseAccessOp (T : FileSystem) : bool := has (fs_Access T).
Definition FuseCreateOp (T : FileSystem) : bool := has (fs_Create T).
Definition FuseGetLkOp (T : FileSystem) : bool := has (fs_GetLk T).
Definition FuseSetLkOp (T : FileSystem) : bool := has (fs_SetLk T).
Definition FuseBMapOp (T : FileSystem) : bool := has (fs_BMap T).
Definition FuseIOCtlOp (T : FileSystem) : bool := has (fs_IOCtl T).
Definition FusePollOp (T : FileSystem) : bool := has (fs_Poll T).
Definition FuseWriteBufOp (T : FileSystem) : bool := has (fs_WriteBuf T).
Definition FuseRetrieveReplyOp (T : FileSystem) : bool := has (fs_RetrieveReply T).
Definition FuseForgetMultiOp (T : FileSystem) : bool := has (fs_ForgetMulti T).
Definition FuseFLockOp (T : FileSystem) : bool := has (fs_FLock T).
Definition FuseFAllocateOp (T : FileSystem) : bool := has (fs_FAllocate T).
Definition FuseReadDirPlusOp (T : FileSystem) : bool := has (fs_ReadDirPlus T).
Definition FuseCopyFileRangeOp (T : FileSystem) : bool := has (fs_CopyFileRange T).
Definition FuseLSeekOp (T : FileSystem) : bool := has (fs_LSeek T).

(** ** The table of callbacks

    The arguments of a callback are those of the C function pointer: a
    [fuse_file_info *] may be null ([None]), an [int] stands for a [bool]. *)
Record fuse_lowlevel_ops : Type := {
  op_init : option (Z → option fuse_conn_info → M unit);
  op_destroy : option (Z → M unit);
  op_lookup : option (Z → Z → string → M unit);
  op_forget : option (Z → Z → Z → M unit);
  op_getattr : option (Z → Z → option fuse_file_info → M unit);
  op_setattr : option (Z → Z → stat → Z → option fuse_file_info → M unit);
  op_readlink : option (Z → Z → M unit);
  op_mknod : option (Z → Z → string → Z → Z → M unit);
  op_mkdir : option (Z → Z → string → Z → M unit);
  op_unlink : option (Z → Z → string → M unit);
  op_rmdir : option (Z → Z → string → M unit);
  op_symlink : option (Z → string → Z → string → M unit);
  op_rename : option (Z → Z → string → Z → string → Z → M unit);
  op_link : option (Z → Z → Z → string → M unit);
  op_open : option (Z → Z → option fuse_file_info → M unit);
  op_read : option (Z → Z → Z → Z → option fuse_file_info → M unit);
  op_write : option (Z → Z → bytes → Z → option fuse_file_info → M unit);
  op_flush : option (Z → Z → option fuse_file_info → M unit);
  op_release : option (Z → Z → option fuse_file_info → M unit);
  op_fsync : option (Z → Z → Z → option fuse_file_info → M unit);
  op_opendir : option (Z → Z → option fuse_file_info → M unit);
  op_readdir : option (Z → Z → Z → Z → option fuse_file_info → M unit);
  op_releasedir : option (Z → Z → option fuse_file_info → M unit);
  op_fsyncdir : option (Z → Z → Z → option fuse_file_info → M unit);
  op_statfs : option (Z → Z → M unit);
  op_setxattr : option (Z → Z → string → bytes → Z → M unit);
  op_getxattr : option (Z → Z → string → Z → M unit);
  op_listxattr : option (Z → Z → Z → M unit);
  op_removexattr : option (Z → Z → string → M unit);
  op_access : option (Z → Z → Z → M unit);
  op_create : option (Z → Z → string → Z → option fuse_file_info → M unit);
  op_getlk : option (Z → Z → option fuse_file_info → flock_t → M unit);
  op_setlk : option (Z → Z → option fuse_file_info → flock_t → Z → M unit);
  op_bmap : option (Z → Z → Z → Z → M unit);
  op_ioctl : option (Z → Z → Z → Z → option fuse_file_info → Z → bytes → Z → M unit);
  op_poll : option (Z → Z → option fuse_file_info → Z → M unit);
  op_write_buf : option (Z → Z → fuse_bufvec → Z → option fuse_file_info → M unit);
  op_retrieve_reply : option (Z → Z → Z → Z → fuse_bufvec → M unit);
  op_forget_multi : option (Z → list fuse_forget_data → M unit);
  op_flock : option (Z → Z → option fuse_file_info → Z → M unit);
  op_fallocate : option (Z → Z → Z → Z → Z → option fuse_file_info → M unit);
  op_readdirplus : option (Z → Z → Z → Z → option fuse_file_info → M unit);
  op_copy_file_range : option (Z → Z → Z → option fuse_file_info → Z → Z → option fuse_file_info → Z → Z → M unit);
  op_lseek : option (Z → Z → Z → Z → option fuse_file_info → M unit)
}.

(** ** Reply policies *)

(** [CHECK_NE(p, nullptr)] *)
Definition check_ptr {A} (p : option A) : M A :=
  match p with Some a => mret a | None => die CheckFailed end.

(** [t = fuse_req_userdata(req); CHECK_NE(t, nullptr); FuseRequest fr(req); ...]
    and the destructor of [fr] at the end. *)
Definition with_request (req : Z) (body : M unit) : M unit :=
  check (negb (fuse_req_userdata req =? 0));;
  set_req (Some req);;
  on_exit body FuseRequest_dtor.

(** [fr.ReplyFailureAndLogIfNotOk(h)] *)
Definition reply_failure (h : M unit) : M unit :=
  st ← try_ h; ReplyFailureAndLogIfNotOk st.

(** [fr.ReplyAlwaysAndLogIfNotOk(h)] *)
Definition reply_always (h : M unit) : M unit :=
  st ← try_ h; ReplyAlwaysAndLogIfNotOk st.

(** [LOG_IF_ERROR(ERROR, h); fr.ReplyNone();] *)
Definition reply_none (h : M unit) : M unit :=
  log_if_error h;; ReplyNone.

(** An [int] as a [bool]. *)
Definition to_bool (n : Z) : bool := negb (n =? 0).

(** ** The wrappers, one per operation *)

Definition GetFuseInitOp (T : FileSystem) :=
  (λ Init (userdata : Z) (conn : option fuse_conn_info),
     check (negb (userdata =? 0));;
     conn ← check_ptr conn;
     log_if_error (Init conn)) <$> fs_Init T.

Definition GetFuseDestroyOp (T : FileSystem) :=
  (λ Destroy (userdata : Z),
     check (negb (userdata =? 0));;
     log_if_error Destroy) <$> fs_Destroy T.

Definition GetFuseLookupOp (T : FileSystem) :=
  (λ Lookup (req : Z) (parent : Z) (name : string),
     with_request req (reply_failure (Lookup parent name))) <$> fs_Lookup T.

Definition GetFuseForgetOp (T : FileSystem) :=
  (λ Forget (req : Z) (ino : Z) (nlookup : Z),
     with_request req (reply_none (Forget ino nlookup))) <$> fs_Forget T.

Definition GetFuseGetAttrOp (T : FileSystem) :=
  (λ GetAttr (req : Z) (ino : Z) (_ : option fuse_file_info),
     with_request req (reply_failure (GetAttr ino))) <$> fs_GetAttr T.

Definition GetFuseSetAttrOp (T : FileSystem) :=
  (λ SetAttr (req : Z) (ino : Z) (attr : stat) (to_set : Z) (fi : option fuse_file_info),
     fi ← check_ptr fi;
     with_request req (reply_failure (SetAttr ino attr to_set fi))) <$> fs_SetAttr T.

Definition GetFuseReadLinkOp (T : FileSystem) :=
  (λ ReadLink (req : Z) (ino : Z),
     with_request req (reply_failure (ReadLink ino))) <$> fs_ReadLink T.

Definition GetFuseMknodOp (T : FileSystem) :=
  (λ Mknod (req : Z) (parent : Z) (name : string) (mode : Z) (rdev : Z),
     with_request req (reply_failure (Mknod parent name mode rdev))) <$> fs_Mknod T.

Definition GetFuseMkdirOp (T : FileSystem) :=
  (λ Mkdir (req : Z) (parent : Z) (name : string) (mode : Z),
     with_request req (reply_failure (Mkdir parent name mode))) <$> fs_Mkdir T.

Definition GetFuseUnlinkOp (T : FileSystem) :=
  (λ Unlink (req : Z) (parent : Z) (name : string),
     with_request req (reply_always (Unlink parent name))) <$> fs_Unlink T.

Definition GetFuseRmdirOp (T : FileSystem) :=
  (λ Rmdir (req : Z) (parent : Z) (name : string),
     with_request req (reply_always (Rmdir parent name))) <$> fs_Rmdir T.

Definition GetFuseSymlinkOp (T : FileSystem) :=
  (λ Symlink (req : Z) (link : string) (parent : Z) (name : string),
     with_request req (reply_failure (Symlink link parent name))) <$> fs_Symlink T.

Definition GetFuseRenameOp (T : FileSystem) :=
  (λ Rename (req : Z) (parent : Z) (name : string) (newparent : Z) (newname : string) (flags : Z),
     with_request req (reply_always (Rename parent name newparent newname flags))) <$> fs_Rename T.

Definition GetFuseLinkOp (T : FileSystem) :=
  (λ Link (req : Z) (ino : Z) (parent : Z) (newname : string),
     with_request req (reply_failure (Link ino parent newname))) <$> fs_Link T.

Definition GetFuseOpenOp (T : FileSystem) :=
  (λ Open (req : Z) (ino : Z) (fi : option fuse_file_info),
     fi ← check_ptr fi;
     with_request req (reply_failure (Open ino fi))) <$> fs_Open T.

Definition GetFuseReadOp (T : FileSystem) :=
  (λ Read (req : Z) (ino : Z) (size : Z) (off : Z) (fi : option fuse_file_info),
     fi ← check_ptr fi;
     with_request req (reply_always (Read ino size off fi))) <$> fs_Read T.

Definition GetFuseWriteOp (T : FileSystem) :=
  (λ Write (req : Z) (ino : Z) (buf : bytes) (off : Z) (fi : option fuse_file_info),
     fi ← check_ptr fi;
     with_request req (reply_always (Write ino buf off fi))) <$> fs_Write T.

Definition GetFuseFlushOp (T : FileSystem) :=
  (λ Flush (req : Z) (ino : Z) (fi : option fuse_file_info),
     fi ← check_ptr fi;
     with_request req (reply_always (Flush ino fi))) <$> fs_Flush T.

Definition GetFuseReleaseOp (T : FileSystem) :=
  (λ Release (req : Z) (ino : Z) (fi : option fuse_file_info),
     fi ← check_ptr fi;
     with_request req (reply_always (Release ino fi))) <$> fs_Release T.

Definition GetFuseFSyncOp (T : FileSystem) :=
  (λ FSync (req : Z) (ino : Z) (datasync : Z) (fi : option fuse_file_info),
     fi ← check_ptr fi;
     with_request req (reply_always (FSync ino (to_bool datasync) fi))) <$> fs_FSync T.

Definition GetFuseOpenDirOp (T : FileSystem) :=
  (λ OpenDir (req : Z) (ino : Z) (fi : option fuse_file_info),
     fi ← check_ptr fi;
     with_request req (reply_failure (OpenDir ino fi))) <$> fs_OpenDir T.

Definition GetFuseReadDirOp (T : FileSystem) :=
  (λ ReadDir (req : Z) (ino : Z) (size : Z) (off : Z) (fi : option fuse_file_info),
     fi ← check_ptr fi;
     with_request req (reply_always (ReadDir ino size off fi))) <$> fs_ReadDir T.

Definition GetFuseReleaseDirOp (T : FileSystem) :=
  (λ ReleaseDir (req : Z) (ino : Z) (fi : option fuse_file_info),
     fi ← check_ptr fi;
     with_request req (reply_always (ReleaseDir ino fi))) <$> fs_ReleaseDir T.

Definition GetFuseFSyncDirOp (T : FileSystem) :=
  (λ FSyncDir (req : Z) (ino : Z) (datasync : Z) (fi : option fuse_file_info),
     fi ← check_ptr fi;
     with_request req (reply_always (FSyncDir ino (to_bool datasync) fi))) <$> fs_FSyncDir T.

Definition GetFuseStatFSOp (T : FileSystem) :=
  (λ StatFS (req : Z) (ino : Z),
     with_request req (reply_failure (StatFS ino))) <$> fs_StatFS T.

Definition GetFuseSetXAttrOp (T : FileSystem) :=
  (λ SetXAttr (req : Z) (ino : Z) (name : string) (value : bytes) (flags : Z),
     with_request req (reply_always (SetXAttr ino name value flags))) <$> fs_SetXAttr T.

Definition GetFuseGetXAttrOp (T : FileSystem) :=
  (λ GetXAttr (req : Z) (ino : Z) (name : string) (size : Z),
     with_request req (reply_failure (GetXAttr ino name size))) <$> fs_GetXAttr T.

Definition GetFuseListXAttrOp (T : FileSystem) :=
  (λ ListXAttr (req : Z) (ino : Z) (size : Z),
     with_request req (reply_failure (ListXAttr ino size))) <$> fs_ListXAttr T.

Definition GetFuseRemoveXAttrOp (T : FileSystem) :=
  (λ RemoveXAttr (req : Z) (ino : Z) (name : string),
     with_request req (reply_always (RemoveXAttr ino name))) <$> fs_RemoveXAttr T.

Definition GetFuseAccessOp (T : FileSystem) :=
  (λ Access (req : Z) (ino : Z) (mask : Z),
     with_request req (reply_always (Access ino mask))) <$> fs_Access T.

Definition GetFuseCreateOp (T : FileSystem) :=
  (λ Create (req : Z) (parent : Z) (name : string) (mode : Z) (fi : option fuse_file_info),
     fi ← check_ptr fi;
     with_request req (reply_failure (Create parent name mode fi))) <$> fs_Create T.

Definition GetFuseGetLkOp (T : FileSystem) :=
  (λ GetLk (req : Z) (ino : Z) (fi : option fuse_file_info) (lock : flock_t),
     fi ← check_ptr fi;
     with_request req (reply_failure (GetLk ino fi lock))) <$> fs_GetLk T.

Definition GetFuseSetLkOp (T : FileSystem) :=
  (λ SetLk (req : Z) (ino : Z) (fi : option fuse_file_info) (lock : flock_t) (sleep : Z),
     fi ← check_ptr fi;
     with_request req (reply_failure (SetLk ino fi lock (to_bool sleep)))) <$> fs_SetLk T.

Definition GetFuseBMapOp (T : FileSystem) :=
  (λ BMap (req : Z) (ino : Z) (blocksize : Z) (idx : Z),
     with_request req (reply_failure (BMap ino blocksize idx))) <$> fs_BMap T.

Definition GetFuseIOCtlOp (T : FileSystem) :=
  (λ IOCtl (req : Z) (ino : Z) (cmd : Z) (arg : Z) (fi : option fuse_file_info) (flags : Z) (in_buf : bytes) (out_bufsz : Z),
     fi ← check_ptr fi;
     with_request req (reply_failure (IOCtl ino cmd arg fi flags in_buf out_bufsz))) <$> fs_IOCtl T.

Definition GetFusePollOp (T : FileSystem) :=
  (λ Poll (req : Z) (ino : Z) (fi : option fuse_file_info) (ph : Z),
     fi ← check_ptr fi;
     with_request req (reply_failure (Poll ino fi (PH ph)))) <$> fs_Poll T.

Definition GetFuseWriteBufOp (T : FileSystem) :=
  (λ WriteBuf (req : Z) (ino : Z) (in_buf : fuse_bufvec) (off : Z) (fi : option fuse_file_info),
     with_request req (reply_none (fi ← deref fi; WriteBuf ino in_buf off fi))) <$> fs_WriteBuf T.

Definition GetFuseRetrieveReplyOp (T : FileSystem) :=
  (λ RetrieveReply (req : Z) (cookie : Z) (ino : Z) (offset : Z) (bufv : fuse_bufvec),
     with_request req (reply_none (RetrieveReply cookie ino offset bufv))) <$> fs_RetrieveReply T.

Definition GetFuseForgetMultiOp (T : FileSystem) :=
  (λ ForgetMulti (req : Z) (forgets : list fuse_forget_data),
     with_request req (reply_none (ForgetMulti forgets))) <$> fs_ForgetMulti T.

Definition GetFuseFLockOp (T : FileSystem) :=
  (λ FLock (req : Z) (ino : Z) (fi : option fuse_file_info) (op : Z),
     fi ← check_ptr fi;
     with_request req (reply_always (FLock ino fi op))) <$> fs_FLock T.

Definition GetFuseFAllocateOp (T : FileSystem) :=
  (λ FAllocate (req : Z) (ino : Z) (mode : Z) (offset : Z) (length : Z) (fi : option fuse_file_info),
     fi ← check_ptr fi;
     with_request req (reply_always (FAllocate ino mode offset length fi))) <$> fs_FAllocate T.

Definition GetFuseReadDirPlusOp (T : FileSystem) :=
  (λ ReadDirPlus (req : Z) (ino : Z) (size : Z) (off : Z) (fi : option fuse_file_info),
     fi ← check_ptr fi;
     with_request req (reply_always (ReadDirPlus ino size off fi))) <$> fs_ReadDirPlus T.

Definition GetFuseCopyFileRangeOp (T : FileSystem) :=
  (λ CopyFileRange (req : Z) (ino_in : Z) (off_in : Z) (fi_in : option fuse_file_info) (ino_out : Z) (off_out : Z) (fi_out : option fuse_file_info) (len : Z) (flags : Z),
     fi_in ← check_ptr fi_in;
     fi_out ← check_ptr fi_out;
     with_request req (reply_failure (CopyFileRange ino_in off_in fi_in ino_out off_out fi_out len flags))) <$> fs_CopyFileRange T.

Definition GetFuseLSeekOp (T : FileSystem) :=
  (λ LSeek (req : Z) (ino : Z) (off : Z) (whence : Z) (fi : option fuse_file_info),
     fi ← check_ptr fi;
     with_request req (reply_failure (LSeek ino off whence fi))) <$> fs_LSeek T.

Definition AsFuseLowLevelOps (T : FileSystem) : fuse_lowlevel_ops := {|
  op_init := GetFuseInitOp T;
  op_destroy := GetFuseDestroyOp T;
  op_lookup := GetFuseLookupOp T;
  op_forget := GetFuseForgetOp T;
  op_getattr := GetFuseGetAttrOp T;
  op_setattr := GetFuseSetAttrOp T;
  op_readlink := GetFuseReadLinkOp T;
  op_mknod := GetFuseMknodOp T;
  op_mkdir := GetFuseMkdirOp T;
  op_unlink := GetFuseUnlinkOp T;
  op_rmdir := GetFuseRmdirOp T;
  op_symlink := GetFuseSymlinkOp T;
  op_rename := GetFuseRenameOp T;
  op_link := GetFuseLinkOp T;
  op_open := GetFuseOpenOp T;
  op_read := GetFuseReadOp T;
  op_write := GetFuseWriteOp T;
  op_flush := GetFuseFlushOp T;
  op_release := GetFuseReleaseOp T;
  op_fsync := GetFuseFSyncOp T;
  op_opendir := GetFuseOpenDirOp T;
  op_readdir := GetFuseReadDirOp T;
  op_releasedir := GetFuseReleaseDirOp T;
  op_fsyncdir := GetFuseFSyncDirOp T;
  op_statfs := GetFuseStatFSOp T;
  op_setxattr := GetFuseSetXAttrOp T;
  op_getxattr := GetFuseGetXAttrOp T;
  op_listxattr := GetFuseListXAttrOp T;
  op_removexattr := GetFuseRemoveXAttrOp T;
  op_access := GetFuseAccessOp T;
  op_create := GetFuseCreateOp T;
  op_getlk := GetFuseGetLkOp T;
  op_setlk := GetFuseSetLkOp T;
  op_bmap := GetFuseBMapOp T;
  op_ioctl := GetFuseIOCtlOp T;
  op_poll := GetFusePollOp T;
  op_write_buf := GetFuseWriteBufOp T;
  op_retrieve_reply := GetFuseRetrieveReplyOp T;
  op_forget_multi := GetFuseForgetMultiOp T;
  op_flock := GetFuseFLockOp T;
  op_fallocate := GetFuseFAllocateOp T;
  op_readdirplus := GetFuseReadDirPlusOp T;
  op_copy_file_range := GetFuseCopyFileRangeOp T;
  op_lseek := GetFuseLSeekOp T
|}.

(** ** The class [PageAlignFS] (page_align_fs.h)

    It declares no [Write], [BMap], [IOCtl] or [RetrieveReply]. *)
Definition PageAlignFS_class : FileSystem := {|
  fs_Init := Some PageAlignFS.Init;
  fs_Destroy := Some PageAlignFS.Destroy;
  fs_Lookup := Some PageAlignFS.Lookup;
  fs_Forget := Some PageAlignFS.Forget;
  fs_GetAttr := Some PageAlignFS.GetAttr;
  fs_SetAttr := Some PageAlignFS.SetAttr;
  fs_ReadLink := Some PageAlignFS.ReadLink;
  fs_Mknod := Some PageAlignFS.Mknod;
  fs_Mkdir := Some PageAlignFS.Mkdir;
  fs_Unlink := Some PageAlignFS.Unlink;
  fs_Rmdir := Some PageAlignFS.Rmdir;
  fs_Symlink := Some PageAlignFS.Symlink;
  fs_Rename := Some PageAlignFS.Rename;
  fs_Link := Some PageAlignFS.Link;
  fs_Open := Some PageAlignFS.Open;
  fs_Read := Some PageAlignFS.Read;
  fs_Write := None;
  fs_Flush := Some PageAlignFS.Flush;
  fs_Release := Some PageAlignFS.Release;
  fs_FSync := Some PageAlignFS.FSync;
  fs_OpenDir := Some PageAlignFS.OpenDir;
  fs_ReadDir := Some PageAlignFS.ReadDir;
  fs_ReleaseDir := Some PageAlignFS.ReleaseDir;
  fs_FSyncDir := Some PageAlignFS.FSyncDir;
  fs_StatFS := Some PageAlignFS.StatFS;
  fs_SetXAttr := Some PageAlignFS.SetXAttr;
  fs_GetXAttr := Some PageAlignFS.GetXAttr;
  fs_ListXAttr := Some PageAlignFS.ListXAttr;
  fs_RemoveXAttr := Some PageAlignFS.RemoveXAttr;
  fs_Access := Some PageAlignFS.Access;
  fs_Create := Some PageAlignFS.Create;
  fs_GetLk := Some PageAlignFS.GetLk;
  fs_SetLk := Some PageAlignFS.SetLk;
  fs_BMap := None;
  fs_IOCtl := None;
  fs_Poll := Some PageAlignFS.Poll;
  fs_WriteBuf := Some PageAlignFS.WriteBuf;
  fs_RetrieveReply := None;
  fs_ForgetMulti := Some PageAlignFS.ForgetMulti;
  fs_FLock := Some PageAlignFS.FLock;
  fs_FAllocate := Some PageAlignFS.FAllocate;
  fs_ReadDirPlus := Some PageAlignFS.ReadDirPlus;
  fs_CopyFileRange := Some PageAlignFS.CopyFileRange;
  fs_LSeek := Some PageAlignFS.LSeek
|}.

Definition pafs_ops : fuse_lowlevel_ops := AsFuseLowLevelOps PageAlignFS_class.

(** ** Which callbacks there are *)

(** The callbacks of a table that are not null, in the order of libfuse's
    structure, and the concepts of a class in the same order. *)
Definition callbacks (t : fuse_lowlevel_ops) : list bool := [
  has (op_init t);
  has (op_destroy t);
  has (op_lookup t);
  has (op_forget t);
  has (op_getattr t);
  has (op_setattr t);
  has (op_readlink t);
  has (op_mknod t);
  has (op_mkdir t);
  has (op_unlink t);
  has (op_rmdir t);
  has (op_symlink t);
  has (op_rename t);
  has (op_link t);
  has (op_open t);
  has (op_read t);
  has (op_write t);
  has (op_flush t);
  has (op_release t);
  has (op_fsync t);
  has (op_opendir t);
  has (op_readdir t);
  has (op_releasedir t);
  has (op_fsyncdir t);
  has (op_statfs t);
  has (op_setxattr t);
  has (op_getxattr t);
  has (op_listxattr t);
  has (op_removexattr t);
  has (op_access t);
  has (op_create t);
  has (op_getlk t);
  has (op_setlk t);
  has (op_bmap t);
  has (op_ioctl t);
  has (op_poll t);
  has (op_write_buf t);
  has (op_retrieve_reply t);
  has (op_forget_multi t);
  has (op_flock t);
  has (op_fallocate t);
  has (op_readdirplus t);
  has (op_copy_file_range t);
  has (op_lseek t)
].

Definition concepts (T : FileSystem) : list bool := [
  FuseInitOp T;
  FuseDestroyOp T;
  FuseLookupOp T;
  FuseForgetOp T;
  FuseGetAttrOp T;
  FuseSetAttrOp T;
  FuseReadLinkOp T;
  FuseMknodOp T;
  FuseMkdirOp T;
  FuseUnlinkOp T;
  FuseRmdirOp T;
  FuseSymlinkOp T;
  FuseRenameOp T;
  FuseLinkOp T;
  FuseOpenOp T;
  FuseReadOp T;
  FuseWriteOp T;
  FuseFlushOp T;
  FuseReleaseOp T;
  FuseFSyncOp T;
  FuseOpenDirOp T;
  FuseReadDirOp T;
  FuseReleaseDirOp T;
  FuseFSyncDirOp T;
  FuseStatFSOp T;
  FuseSetXAttrOp T;
  FuseGetXAttrOp T;
  FuseListXAttrOp T;
  FuseRemoveXAttrOp T;
  FuseAccessOp T;
  FuseCreateOp T;
  FuseGetLkOp T;
  FuseSetLkOp T;
  FuseBMapOp T;
  FuseIOCtlOp T;
  FusePollOp T;
  FuseWriteBufOp T;
  FuseRetrieveReplyOp T;
  FuseForgetMultiOp T;
  FuseFLockOp T;
  FuseFAllocateOp T;
  FuseReadDirPlusOp T;
  FuseCopyFileRangeOp T;
  FuseLSeekOp T
].

Lemma has_fmap {A B} (f : A → B) o : has (f <$> o) = has o.
Proof. by destruct o. Qed.


End FuseOps.
