(* ===== verification/Sim.v ===== *)
(** * A concrete platform

    An implementation of the interfaces of Absl, Errno and Machine that computes:
    a decimal printer and parser, statuses as records, and a small simulated
    kernel.  The theorems hold for every implementation; their witnesses run the
    program on this one.  [fails n c] makes the [n]-th call fail with an error
    number. *)

From Stdlib Require Import DecimalString DecimalZ.
From S2P Require Import Prelude Consts Absl Errno Status Machine.

Open Scope string_scope.
Open Scope Z_scope.

(** ** Strings *)

Definition print_Z (n : Z) : string := NilZero.string_of_int (Z.to_int n).
Definition parse_Z (s : string) : option Z := Z.of_int <$> NilZero.int_of_string s.

Lemma parse_print_Z n : parse_Z (print_Z n) = Some n.
Proof.
  unfold parse_Z, print_Z.
  assert (Z.to_int n ≠ Decimal.Pos Decimal.Nil ∧ Z.to_int n ≠ Decimal.Neg Decimal.Nil) as [H1 H2].
  { destruct n as [|p|p]; simpl; [done|split..]; try done;
      intros H; injection H as H; by apply (DecimalPos.Unsigned.to_uint_nonnil p). }
  rewrite NilZero.isi by done. simpl. by rewrite DecimalZ.of_to.
Qed.

Fixpoint strip_prefix (p s : string) : option string :=
  match p, s with
  | EmptyString, _ => Some s
  | String a p, String b s => if Ascii.eqb a b then strip_prefix p s else None
  | String _ _, EmptyString => None
  end.

Lemma strip_prefix_app p s : strip_prefix p (String.append p s) = Some s.
Proof. induction p as [|a p IH]; simpl; [done|]. by rewrite Ascii.eqb_refl. Qed.

Lemma strip_prefix_Some p s r : strip_prefix p s = Some r → s = String.append p r.
Proof.
  revert s. induction p as [|a p IH]; intros s H; [by injection H|].
  destruct s as [|b s]; [done|]. simpl in H.
  destruct (Ascii.eqb_spec a b) as [E|]; [subst b|done]. by rewrite (IH s H).
Qed.

Definition strip_suffix (x s : string) : option string :=
  let l := list_ascii_of_string s in
  let lx := list_ascii_of_string x in
  let k := (List.length l - List.length lx)%nat in
  if decide (drop k l = lx) then Some (string_of_list_ascii (take k l)) else None.

Lemma list_ascii_app s1 s2 :
  list_ascii_of_string (String.append s1 s2) =
  (list_ascii_of_string s1 ++ list_ascii_of_string s2)%list.
Proof. induction s1 as [|a s1 IH]; [done|]. change (a :: list_ascii_of_string (String.append s1 s2) = (a :: list_ascii_of_string s1 ++ list_ascii_of_string s2)%list). by rewrite IH. Qed.

Lemma strip_suffix_app s x : strip_suffix x (String.append s x) = Some s.
Proof.
  unfold strip_suffix. rewrite list_ascii_app, length_app.
  replace (_ + _ - _)%nat with (List.length (list_ascii_of_string s)) by lia.
  rewrite drop_app_length, take_app_length, decide_True by done.
  by rewrite string_of_list_ascii_of_string.
Qed.

Definition str_cat (l : list AlphaNum) : string :=
  fold_right (λ x acc, String.append (match x with Txt s => s | Num n => print_Z n end) acc)
    EmptyString l.

(** ** Statuses *)

Record sstatus : Type := mkS {
  s_code : StatusCode; s_message : string; s_payloads : list (string * string)
}.

Definition s_set_payload (st : sstatus) (u p : string) : sstatus :=
  if decide (s_code st = kOk) then st
  else mkS (s_code st) (s_message st) ((u, p) :: s_payloads st).

(** The codes of a few error numbers, as [absl::ErrnoToStatusCode] gives them. *)
Definition s_errno_code (n : Z) : StatusCode :=
  if n =? 0 then kOk
  else if n =? EINVAL then kInvalidArgument
  else if n =? ENOTTY then kInvalidArgument
  else if n =? ENOENT then kNotFound
  else if n =? EEXIST then kAlreadyExists
  else if n =? EACCES then kPermissionDenied
  else if n =? EOPNOTSUPP then kUnimplemented
  else if n =? EBADF then kFailedPrecondition
  else kUnknown.

Definition sim_absl : Absl := {|
  Status := sstatus;
  OkStatus := mkS kOk EmptyString [];
  MakeStatus c m := mkS c m [];
  code := s_code;
  message := s_message;
  GetPayload st u := list_to_map (M := gmap string string) (s_payloads st) !! u;
  SetPayload := s_set_payload;
  Payloads := s_payloads;
  absl_ErrnoToStatus n m := mkS (s_errno_code n) m [];
  StatusOrStatus st := if decide (s_code st = kOk) then mkS kInternal EmptyString [] else st;
  StrCat := str_cat;
  StrFormatInt p n s := String.append p (String.append (print_Z n) s);
  ConsumePrefix s p := strip_prefix p s;
  ConsumeSuffix s x := strip_suffix x s;
  SimpleAtoi := parse_Z;
  Duration := Z;
  double := Z;
  ZeroDuration := 0;
  Duration_eqb := Z.eqb;
  ToDoubleSeconds d := d;
  ToInt64Milliseconds d := d / 1000000;
  DurationStr := print_Z
|}.

#[export] Instance sim_absl_laws : AbslLaws sim_absl.
Proof.
  split; unfold ok; simpl; try done.
  - intros [c m l] u p. unfold s_set_payload. simpl. by case_decide.
  - intros [c m l] u p H%bool_decide_eq_true. unfold s_set_payload. simpl in *.
    by rewrite decide_True.
  - intros [c m l] u p H%bool_decide_eq_false. unfold s_set_payload. simpl in *.
    rewrite decide_False by done. simpl. by rewrite lookup_insert_eq.
  - intros [c m l] u u' p H. unfold s_set_payload. simpl. case_decide; [done|].
    simpl. by rewrite lookup_insert_ne.
  - intros n _. apply bool_decide_ext. unfold s_errno_code.
    destruct (Z.eqb_spec n 0) as [?|?]; [done|].
    by repeat match goal with |- context [if ?b then _ else _] => destruct b end.
  - intros [c m l] H%bool_decide_eq_false. simpl in *. by rewrite decide_False.
  - intros [c m l]. simpl. by case_decide; apply bool_decide_eq_false.
  - intros p n s. exists (String.append (print_Z n) s). split; [apply strip_prefix_app|].
    exists (print_Z n). split; [apply strip_suffix_app|]. intros _. apply parse_print_Z.
  - intros s p rest H. by apply strip_prefix_Some.
Qed.

Definition sim_libc : Libc := {|
  strerrorname_np n :=
    if n =? 0 then Some "0" else list_to_map (M := gmap Z string) linux_errnos !! n
|}.

#[export] Instance sim_libc_laws : LibcLaws sim_libc.
Proof.
  split. intros n H. cbv beta iota delta [strerrorname_np sim_libc].
  by rewrite (proj2 (Z.eqb_neq n 0) H).
Qed.

(** ** The simulated kernel *)

(** A file tree: the inode number, mode and device of each path component. *)
Record node : Type := mkNode { n_ino : Z; n_mode : Z; n_dev : Z }.

Record sworld : Type := mkW {
  w_calls : nat;                 (* calls so far *)
  w_fds : gmap Z string;         (* what each descriptor was opened on *)
  w_dir : list dirent;           (* what the directory stream still holds *)
  w_xattr : bytes                (* the value of every extended attribute *)
}.

Section Kernel.
Variable fails : nat → @call sim_absl → option Z.
Variable tree : string → option node.

Definition zero_time : timespec := {| tv_sec := 0; tv_nsec := 0 |}.
Definition mk_stat (n : node) : stat := {|
  st_dev := n_dev n; st_ino := n_ino n; st_mode := n_mode n; st_nlink := 1; st_uid := 0;
  st_gid := 0; st_rdev := 0; st_size := 0; st_blksize := 4096; st_blocks := 0;
  st_atim := zero_time; st_mtim := zero_time; st_ctim := zero_time |}.
Definition zero_stat : stat := mk_stat (mkNode 0 0 0).
(** The command line: a mount point and the defaults otherwise. *)
Definition sim_opts : fuse_cmdline_opts := {|
  singlethread := 1; foreground := 1; show_version := 0; show_help := 0;
  mountpoint := Some "/src"; clone_fd := 0; max_idle_threads := 10; max_threads := 10 |}.
Definition zero_statvfs : statvfs := {|
  f_bsize := 4096; f_frsize := 4096; f_blocks := 0; f_bfree := 0; f_bavail := 0; f_files := 0;
  f_ffree := 0; f_favail := 0; f_fsid := 0; f_flag := 0; f_namemax := 255 |}.

(** What a call answers when it succeeds, by default and when it fails. *)
Definition success (c : @call sim_absl) : ret c :=
  match c as c0 return ret c0 with
  | C_read _ _ | C_getxattr _ _ _ | C_listxattr _ _ | C_readlinkat _ _ _ => (0, [])
  | C_stat _ | C_lstat _ | C_fstatat _ _ _ => (0, zero_stat)
  | C_fstatvfs _ => (0, zero_statvfs)
  | C_fcntl_lock _ _ l => (0, l)
  | C_ioctl _ _ | C_sigaction _ _ | C_sigprocmask _ _ | C_pthread_sigmask _ _ => (0, 7)
  | C_poll fds _ => (0, fds)
  | C_readdir _ => None
  | F_parse_cmdline _ => (0, sim_opts)
  | C_seekdir _ _ | F_reply_none _ | F_pollhandle_destroy _
  | F_opt_free_args | F_free _ | F_cmdline_help | F_lowlevel_help | F_lowlevel_version
  | F_session_destroy _ | F_remove_signal_handlers _ | F_session_unmount _
  | F_loop_cfg_destroy _ | F_loop_cfg_set_clone_fd _ _ | F_loop_cfg_set_idle_threads _ _
  | F_loop_cfg_set_max_threads _ _ => tt
  | F_session_new => 600
  | F_loop_cfg_create => 700
  | _ => 0
  end.

Definition failure (e : Z) (c : @call sim_absl) : ret c :=
  match c as c0 return ret c0 with
  | C_read _ _ | C_getxattr _ _ _ | C_listxattr _ _ | C_readlinkat _ _ _ => (-1, [])
  | C_stat _ | C_lstat _ | C_fstatat _ _ _ => (-1, zero_stat)
  | C_fstatvfs _ => (-1, zero_statvfs)
  | C_fcntl_lock _ _ l => (-1, l)
  | C_ioctl _ _ | C_sigaction _ _ | C_sigprocmask _ _ | C_pthread_sigmask _ _ => (-1, 0)
  | C_poll fds _ => (-1, fds)
  | C_readdir _ => None
  | F_parse_cmdline _ => (-1, sim_opts)
  | C_seekdir _ _ | F_reply_none _ | F_pollhandle_destroy _
  | F_opt_free_args | F_free _ | F_cmdline_help | F_lowlevel_help | F_lowlevel_version
  | F_session_destroy _ | F_remove_signal_handlers _ | F_session_unmount _
  | F_loop_cfg_destroy _ | F_loop_cfg_set_clone_fd _ _ | F_loop_cfg_set_idle_threads _ _
  | F_loop_cfg_set_max_threads _ _ => tt
  | C_fdopendir _ | F_session_new | F_loop_cfg_create => 0
  | F_reply_attr _ _ _ | F_reply_open _ _ | F_reply_create _ _ _ | F_reply_err _ _
  | F_reply_buf _ _ | F_reply_entry _ _ | F_reply_readlink _ _ | F_reply_data _ _ _
  | F_reply_write _ _ | F_reply_statfs _ _ | F_reply_lock _ _ | F_reply_lseek _ _
  | F_reply_poll _ _ | F_buf_copy _ _ _ | F_notify_poll _ => - e
  | _ => -1
  end.

(** The room [d_name] has. *)
Fixpoint cut (n : nat) (s : string) : string :=
  match n, s with
  | S n, String a s => String a (cut n s)
  | _, _ => EmptyString
  end.

Lemma length_cut n s : (String.length (cut n s) <= n)%nat.
Proof. revert s. induction n as [|n IH]; intros [|a s]; simpl; [lia..|]. specialize (IH s). lia. Qed.

Definition cut_entry (e : dirent) : dirent :=
  {| d_ino := d_ino e; d_off := d_off e; d_name := cut 255 (d_name e) |}.

Definition tick (w : sworld) : sworld := mkW (S (w_calls w)) (w_fds w) (w_dir w) (w_xattr w).

Definition open_fd (w : sworld) (path : string) : Z * option Z * sworld :=
  match tree path with
  | None => (-1, Some ENOENT, tick w)
  | Some _ =>
      let fd := 3 + Z.of_nat (w_calls w) in
      (fd, None, mkW (S (w_calls w)) (<[fd := path]> (w_fds w)) (w_dir w) (w_xattr w))
  end.

Definition stat_fd (w : sworld) (fd : Z) : Z * stat :=
  match w_fds w !! fd with
  | Some path => match tree path with Some n => (0, mk_stat n) | None => (-1, zero_stat) end
  | None => (-1, zero_stat)
  end.

Definition sim_step (c : @call sim_absl) (w : sworld) : ret c * option Z * sworld :=
  match fails (w_calls w) c with
  | Some e => (failure e c, Some e, tick w)
  | None =>
      match c as c0 return ret c0 * option Z * sworld with
      | C_openat _ path _ _ => open_fd w path
      | C_open _ _ _ =>
          (3 + Z.of_nat (w_calls w), None, tick w)
      | C_dup _ => (3 + Z.of_nat (w_calls w), None, tick w)
      | C_fdopendir fd => (1000 + fd, None, tick w)
      | C_fstatat fd _ _ => (stat_fd w fd, None, tick w)
      | C_readdir _ =>
          match w_dir w with
          | [] => (None, None, tick w)
          | e :: l => (Some (cut_entry e), None, mkW (S (w_calls w)) (w_fds w) l (w_xattr w))
          end
      | C_getxattr _ _ size =>
          if (0 <? size) && (size <? Z.of_nat (List.length (w_xattr w)))
          then ((-1, []), Some ERANGE, tick w)
          else
          ((Z.of_nat (List.length (w_xattr w)), take (Z.to_nat size) (w_xattr w)), None, tick w)
      | C_listxattr _ size =>
          if (0 <? size) && (size <? Z.of_nat (List.length (w_xattr w)))
          then ((-1, []), Some ERANGE, tick w)
          else
          ((Z.of_nat (List.length (w_xattr w)), take (Z.to_nat size) (w_xattr w)), None, tick w)
      | c' => (success c', None, tick w)
      end
  end.

(** Directory entries take 24 bytes and their name, rounded up to 8. *)
Definition sim_entry_size (name : string) : Z :=
  (24 + Z.of_nat (String.length name) + 7) / 8 * 8.
Definition sim_entry (sz : Z) (name : string) : Z * bytes :=
  let n := sim_entry_size name in
  (n, if n <=? sz then replicate (Z.to_nat n) Byte.x01 else []).

(** The lowest multiple of 16 above every live address. *)
Definition sim_fresh (live : gset Z) : Z := 16 + 16 * set_fold Z.max 0 live.

Definition sim_platform : @Platform sim_absl := {|
  World := sworld;
  os_step := sim_step;
  fuse_add_direntry sz name _ _ := sim_entry sz name;
  fuse_add_direntry_plus sz name _ _ := sim_entry sz name;
  fuse_buf_size b := fold_right Z.add 0 (buf_size <$> bv_buf b);
  fuse_req_userdata _ := 4096;
  fresh := sim_fresh
|}.

Lemma set_fold_max_le (l : gset Z) : ∀ x, x ∈ l → x ≤ set_fold Z.max 0 l.
Proof.
  apply (set_fold_ind_L (λ m X, ∀ x, x ∈ X → x ≤ m)); [set_solver|].
  intros x X m _ IH y. rewrite elem_of_union, elem_of_singleton.
  intros [->|H%IH]; lia.
Qed.

Lemma set_fold_max_nonneg (l : gset Z) : 0 ≤ set_fold Z.max 0 l.
Proof. apply (set_fold_ind_L (λ m _, 0 ≤ m)); lia. Qed.

#[export] Instance sim_platform_laws : PlatformLaws sim_platform.
Proof.
  assert (∀ name, 0 < sim_entry_size name) as Hpos.
  { intros name. unfold sim_entry_size.
    pose proof (Z.div_le_lower_bound (24 + Z.of_nat (String.length name) + 7) 8 1); lia. }
  assert (∀ sz name, Z.of_nat (List.length (sim_entry sz name).2) =
     if (sim_entry sz name).1 <=? sz then (sim_entry sz name).1 else 0) as Hlen.
  { intros sz name. unfold sim_entry. simpl. destruct (_ <=? _); [|done].
    rewrite length_replicate. specialize (Hpos name). lia. }
  split; simpl; try done.
  all: try (intros; apply Hpos || apply Hlen).
  - intros fds t w. unfold sim_step. destruct (fails _ _); simpl; lia.
  - intros p n size w Hs. unfold sim_step. destruct (fails _ _); [simpl; lia|].
    destruct ((0 <? size) && (size <? Z.of_nat (List.length (w_xattr w)))) eqn:E; simpl; [lia|].
    apply andb_false_iff in E as [?%Z.ltb_ge|?%Z.ltb_ge]; lia.
  - intros name _ _. cbn [fst sim_entry]. unfold sim_entry_size. pose proof (Z.mul_div_le
      (24 + Z.of_nat (String.length name) + 7) 8). simpl. lia.
  - intros name _ _. cbn [fst sim_entry]. unfold sim_entry_size. pose proof (Z.mul_div_le
      (24 + Z.of_nat (String.length name) + 7) 8). simpl. lia.
  - intros d w e. unfold sim_step. destruct (fails _ _); [done|].
    destruct (w_dir w) as [|e' l]; [done|]. intros [= <-]. cbn [d_name cut_entry].
    pose proof (length_cut 255 (d_name e')). lia.
  - intros l H%set_fold_max_le. unfold sim_fresh in H. pose proof (set_fold_max_nonneg l). lia.
  - intros l. unfold sim_fresh. pose proof (set_fold_max_nonneg l). lia.
Qed.

End Kernel.

(** No call fails. *)
Definition no_failure : nat → @call sim_absl → option Z := λ _ _, None.

(** ** A sample run's initial state *)

(** A source directory [/src] with a file [a], a subdirectory [d] and a mount
    point [m] of another device. *)
Definition sample_tree (path : string) : option node :=
  if decide (path = "/src") then Some (mkNode 2 16877 64)
  else if decide (path = ".") then Some (mkNode 2 16877 64)
  else if decide (path = "a") then Some (mkNode 11 33188 64)
  else if decide (path = "d") then Some (mkNode 12 16877 64)
  else if decide (path = "m") then Some (mkNode 1 16877 65)
  else None.

Definition sample_world : sworld :=
  mkW 10 {[ 3 := "/src" ]}
    [ {| d_ino := 2; d_off := 1; d_name := "." |};
      {| d_ino := 11; d_off := 2; d_name := "a" |};
      {| d_ino := 12; d_off := 3; d_name := "d" |} ]
    [Byte.x61; Byte.x62; Byte.x63].

Definition sample_root : @Inode sim_absl := @mkInode sim_absl (FD 3) 2 64 None (PH 0).

Definition sample_fs : @PageAlignFS sim_absl :=
  {| root_ := sample_root; inodes_ := ∅; entries := ∅;
     opts_ := @Build_Options sim_absl 1 2 |}.

(** The state when the request numbered 77 has just arrived; [w] is the world. *)
Definition sample_state fails (w : sworld) : @St sim_absl (sim_platform fails sample_tree) :=
  @Build_St sim_absl (sim_platform fails sample_tree) w 0 [] (FR (Some 77)) sample_fs ∅.
