(* ===== verification/Main.v ===== *)
(** * main.cc: the life of the process

    [Main] sets the session up, lets libfuse's loop serve requests and takes
    everything down again: each [absl::Cleanup] is the second argument of the
    [on_exit] its scope ends with.  The loops are libfuse's and call back into the
    table of callbacks, so they are arguments of [Main], as are the command line
    and the values of the flags. *)

From S2P Require Import Prelude Consts Absl Errno Status Machine Syscalls Raii Fuse Inode Pafs FuseOps Sim.

Open Scope string_scope.
Open Scope Z_scope.

Definition EXIT_SUCCESS : Z := 0.
Definition EXIT_FAILURE : Z := 1.

Section Main.
Context {AB : Absl} {LC : Libc} {PL : Platform}.

(** The implicit [~PageAlignFS()]: the members in reverse order of declaration.
    A hash map destroys its elements in no particular order; here it is that of
    [map_to_list].  What remains owns nothing. *)
Definition PageAlignFS_dtor : M unit :=
  p ← gets pafs;
  modify_pafs (λ p, set_root (Inode_moved_from (root_ p)) (set_inodes ∅ (set_entries ∅ p)));;
  PageAlignFS.for_each (map_to_list (entries p)) (λ e, Inode_dtor e.2.2);;
  Inode_dtor (root_ p).

(** A cleanup that makes one call. *)
Definition cleanup (c : call) : M unit := _ ← sys c; mret tt.

Definition Main (args : list string) (entry_timeout_flag attribute_timeout_flag : Duration)
    (session_loop : fuse_lowlevel_ops → Z → M Z)
    (session_loop_mt : fuse_lowlevel_ops → Z → Z → M Z) : M Z :=
  on_exit
    (parsed ← sys (F_parse_cmdline args);
     if negb (parsed.1 =? 0) then mret EXIT_FAILURE else
     let fuse_opts := parsed.2 in
     on_exit
       (if negb (show_help fuse_opts =? 0) then
          cleanup F_cmdline_help;; cleanup F_lowlevel_help;; mret EXIT_SUCCESS
        else if negb (show_version fuse_opts =? 0) then
          cleanup F_lowlevel_version;; mret EXIT_SUCCESS
        else match mountpoint fuse_opts with
        | None => mret EXIT_FAILURE
        | Some mp =>
            fs ← PageAlignFS.CreateFS mp
                   {| kernel_entry_timeout := entry_timeout_flag;
                      kernel_attribute_timeout := attribute_timeout_flag |};
            modify_pafs (λ _, fs);;
            on_exit
              (let ops := AsFuseLowLevelOps PageAlignFS_class in
               se ← sys F_session_new;
               if se =? 0 then mret EXIT_FAILURE else
               on_exit
                 (rc ← sys (F_set_signal_handlers se);
                  if negb (rc =? 0) then mret EXIT_FAILURE else
                  on_exit
                    (rc ← sys (F_session_mount se mp);
                     if negb (rc =? 0) then mret EXIT_FAILURE else
                     on_exit
                       (_ ← sys (F_daemonize (foreground fuse_opts));
                        if negb (singlethread fuse_opts =? 0) then session_loop ops se
                        else
                          config ← sys F_loop_cfg_create;
                          check (negb (config =? 0));;
                          on_exit
                            (_ ← sys (F_loop_cfg_set_clone_fd config (clone_fd fuse_opts));
                             _ ← sys (F_loop_cfg_set_idle_threads config (max_idle_threads fuse_opts));
                             _ ← sys (F_loop_cfg_set_max_threads config (max_threads fuse_opts));
                             session_loop_mt ops se config)
                            (cleanup (F_loop_cfg_destroy config)))
                       (cleanup (F_session_unmount se)))
                    (cleanup (F_remove_signal_handlers se)))
                 (cleanup (F_session_destroy se)))
              PageAlignFS_dtor
        end)
       (cleanup (F_free (mountpoint fuse_opts))))
    (cleanup F_opt_free_args).

(** [main] itself: a status becomes a failure code. *)
Definition main (args : list string) (entry_timeout_flag attribute_timeout_flag : Duration)
    (session_loop : fuse_lowlevel_ops → Z → M Z)
    (session_loop_mt : fuse_lowlevel_ops → Z → Z → M Z) : M Z :=
  ret ← try_ (Main args entry_timeout_flag attribute_timeout_flag session_loop session_loop_mt);
  match ret with inl _ => mret EXIT_FAILURE | inr n => mret n end.

(** ** Set-up and tear-down nest

    The stack of what is set up, read off the trace: a release must be of the
    resource acquired last. *)
Inductive resource : Type :=
  | R_args
  | R_mountpoint (p : option string)
  | R_session (se : Z)
  | R_handlers (se : Z)
  | R_mount (se : Z)
  | R_config (config : Z).

#[export] Instance resource_eq_dec : EqDecision resource.
Proof. solve_decision. Defined.

Definition pop (r : resource) (st : list resource) : option (list resource) :=
  match st with
  | r' :: st => if decide (r = r') then Some st else None
  | [] => None
  end.

Definition stack_step (c : call) : ret c → list resource → option (list resource) :=
  match c as c0 return ret c0 → list resource → option (list resource) with
  | F_parse_cmdline _ => λ r st, Some (if r.1 =? 0 then R_mountpoint (mountpoint r.2) :: st else st)
  | F_session_new => λ se st, Some (if se =? 0 then st else R_session se :: st)
  | F_set_signal_handlers se => λ rc st, Some (if rc =? 0 then R_handlers se :: st else st)
  | F_session_mount se _ => λ rc st, Some (if rc =? 0 then R_mount se :: st else st)
  | F_loop_cfg_create => λ cfg st, Some (if cfg =? 0 then st else R_config cfg :: st)
  | F_opt_free_args => λ _, pop R_args
  | F_free p => λ _, pop (R_mountpoint p)
  | F_session_destroy se => λ _, pop (R_session se)
  | F_remove_signal_handlers se => λ _, pop (R_handlers se)
  | F_session_unmount se => λ _, pop (R_mount se)
  | F_loop_cfg_destroy cfg => λ _, pop (R_config cfg)
  | _ => λ _ st, Some st
  end.

Fixpoint stack (tr : list event) : option (list resource) :=
  match tr with
  | [] => Some [R_args]
  | Ev c r :: tr => stack tr ≫= stack_step c r
  end.

Definition set_up (s : St) : option (list resource) := stack (trace s).

(** [Nests st st' m]: from the stack [st], [m] ends with [st'] unless the process
    dies. *)
Definition Nests {A} (st : list resource) (st' : Outcome A → list resource) (m : M A) : Prop :=
  ∀ s, set_up s = Some st →
  wp m (λ o s', match o with Crash _ => True | _ => set_up s' = Some (st' o) end) s.

Lemma nests_keeps {A} st (m : M A) : Keeps set_up m → Nests st (λ _, st) m.
Proof. intros H s Hs. specialize (H s). unfold wp. destruct (m s) as [[]?]; simpl in *; [congruence..|done]. Qed.

Lemma nests_ret {A} st (a : A) : Nests st (λ _, st) (mret a).
Proof. by apply nests_keeps. Qed.

Lemma nests_die {A} st x (st' : Outcome A → list resource) : Nests st st' (die x).
Proof. done. Qed.

Lemma nests_bind {A B} st st1 st2 (m : M A) (k : A → M B) :
  Nests st (λ o, match o with Ret a => st1 a | _ => st2 end) m →
  (∀ a, Nests (st1 a) (λ _, st2) (k a)) → Nests st (λ _, st2) (m ≫= k).
Proof.
  intros Hm Hk s Hs. rewrite wp_bind. apply (wp_mono _ _ _ _ (Hm s Hs)).
  intros [a|e|x] s1 H; simpl; [by apply Hk|done|done].
Qed.

Lemma nests_seq {A B} st (m : M A) (k : A → M B) :
  Keeps set_up m → (∀ a, Nests st (λ _, st) (k a)) → Nests st (λ _, st) (m ≫= k).
Proof.
  intros Hm Hk. apply (nests_bind st (λ _, st)); [|done]. intros s Hs.
  apply (wp_mono _ _ _ _ (nests_keeps st m Hm s Hs)). by intros [].
Qed.

(** A call that may set something up. *)
Lemma nests_call {B} st c (st1 : ret c → list resource) (k : ret c → M B) :
  (∀ r, stack_step c r st = Some (st1 r)) →
  (∀ r, Nests (st1 r) (λ _, st) (k r)) → Nests st (λ _, st) (sys c ≫= k).
Proof.
  intros Hc Hk s Hs. rewrite wp_bind. apply wp_sys_all. intros r e w _. simpl. apply Hk.
  unfold set_up in *. simpl. rewrite Hs. apply Hc.
Qed.

(** The scope of what is on top of the stack. *)
Lemma nests_on_exit {A} r st (m : M A) c :
  (∀ a, stack_step c a = pop r) →
  Nests (r :: st) (λ _, r :: st) m → Nests (r :: st) (λ _, st) (on_exit m (cleanup c)).
Proof.
  intros Hc Hm s Hs. rewrite wp_on_exit.
  assert (∀ s1, set_up s1 = Some (r :: st) →
    ∃ s2, cleanup c s1 = (Ret tt, s2) ∧ set_up s2 = Some st) as Hf.
  { intros s1 H1. unfold cleanup, mbind, M_bind, sys.
    destruct (os_step c (world s1)) as [[a e] w]. eexists. split; [done|].
    unfold set_up in *. simpl. rewrite H1. simpl. rewrite Hc. simpl. by rewrite decide_True. }
  apply (wp_mono _ _ _ _ (Hm s Hs)).
  intros [a|e|x] s1 H; [| |done]; destruct (Hf s1 H) as (s2 & E & H2); unfold wp; by rewrite E.
Qed.

Lemma nests_inner {A} st (m : M A) fin :
  Nests st (λ _, st) m → Keeps set_up fin → Nests st (λ _, st) (on_exit m fin).
Proof.
  intros Hm Hf s Hs. rewrite wp_on_exit. apply (wp_mono _ _ _ _ (Hm s Hs)).
  intros [a|e|x] s1 H; [| |done]; specialize (Hf s1); unfold wp;
    destruct (fin s1) as [[]?]; simpl in *; first [done|congruence].
Qed.

(** Everything the program does between set-up and tear-down leaves the stack
    alone. *)
Lemma keeps_set_up_sys c : (∀ r st, stack_step c r st = Some st) → Keeps set_up (sys c).
Proof.
  intros H s. unfold sys. destruct (os_step c (world s)) as [[r e] w]. unfold set_up; simpl.
  destruct (stack (trace s)); simpl; [apply H|done].
Qed.

Lemma keeps_set_up_modify g : (∀ s, trace (g s) = trace s) → Keeps set_up (modify g).
Proof. intros H s. unfold set_up, modify. simpl. by rewrite H. Qed.

Hint Extern 1 (Keeps set_up (sys ?c)) => refine (keeps_set_up_sys c _); reflexivity : keeps.
Hint Extern 1 (Keeps set_up (modify _)) => apply keeps_set_up_modify; reflexivity : keeps.

Lemma keeps_set_up_for_each {A} (l : list A) f :
  (∀ a, Keeps set_up (f a)) → Keeps set_up (PageAlignFS.for_each l f).
Proof. intros. induction l; simpl; solve_keeps. Qed.

Hint Resolve keeps_set_up_for_each : keeps.
Hint Extern 1 (∀ _, Keeps _ _) => intros; solve_keeps : keeps.

Lemma keeps_set_up_PageAlignFS_dtor : Keeps set_up PageAlignFS_dtor.
Proof. solve_keeps. Qed.

(** C12: [Main] takes down exactly what it set up, innermost first, on every path
    that does not end in the death of the process: the parsed arguments, the
    mount point's name, the session, its signal handlers, the mount and the
    loop's configuration, provided that the loop itself leaves them alone. *)
Theorem Main_takes_down_what_it_set_up args te ta session_loop session_loop_mt s :
  (∀ ops se, Keeps set_up (session_loop ops se)) →
  (∀ ops se config, Keeps set_up (session_loop_mt ops se config)) →
  set_up s = Some [R_args] →
  wp (Main args te ta session_loop session_loop_mt) (λ o s',
    match o with Crash _ => True | _ => set_up s' = Some [] end) s.
Proof.
  intros H1 H2 Hs. unfold Main. revert s Hs. refine (nests_on_exit R_args _ _ F_opt_free_args _ _); [done|].
  refine (nests_call _ (F_parse_cmdline args) _ _ (λ r, eq_refl) _).
  intros [rc opts]. cbn [fst snd stack_step]. destruct (rc =? 0); [|apply nests_ret]. cbn [negb].
  refine (nests_on_exit (R_mountpoint _) _ _ (F_free _) (λ _, eq_refl) _).
  destruct (negb _); [by repeat (apply nests_seq; [solve_keeps|intros _]); apply nests_ret|].
  destruct (negb _); [by repeat (apply nests_seq; [solve_keeps|intros _]); apply nests_ret|].
  destruct (mountpoint opts) as [mp|]; [|apply nests_ret].
  apply nests_seq; [solve_keeps|]. intros fs. apply nests_seq; [solve_keeps|]. intros _.
  apply nests_inner; [|apply keeps_set_up_PageAlignFS_dtor]. cbv zeta.
  refine (nests_call _ F_session_new _ _ (λ r, eq_refl) _).
  intros se. cbn [stack_step]. destruct (Z.eqb_spec se 0); [apply nests_ret|].
  refine (nests_on_exit (R_session se) _ _ (F_session_destroy _) (λ _, eq_refl) _).
  refine (nests_call _ (F_set_signal_handlers se) _ _ (λ r, eq_refl) _).
  intros rc1. cbn [stack_step]. destruct (rc1 =? 0); [|apply nests_ret]. cbn [negb].
  refine (nests_on_exit (R_handlers se) _ _ (F_remove_signal_handlers _) (λ _, eq_refl) _).
  refine (nests_call _ (F_session_mount se mp) _ _ (λ r, eq_refl) _).
  intros rc2. cbn [stack_step]. destruct (rc2 =? 0); [|apply nests_ret]. cbn [negb].
  refine (nests_on_exit (R_mount se) _ _ (F_session_unmount _) (λ _, eq_refl) _).
  apply nests_seq; [solve_keeps|]. intros _.
  destruct (negb _); [apply nests_keeps, H1|].
  refine (nests_call _ F_loop_cfg_create _ _ (λ r, eq_refl) _).
  intros config. cbn [stack_step]. destruct (config =? 0); [done|]. cbn [negb check].
  match goal with |- Nests ?a ?b (mret tt ≫= ?k) => change (Nests a b (k tt)) end. cbv beta.
  refine (nests_on_exit (R_config config) _ _ (F_loop_cfg_destroy _) (λ _, eq_refl) _).
  apply nests_keeps. do 3 (apply keeps_bind; [solve_keeps|intros _]). apply H2.
Qed.

(** Every normal result of [m] satisfies [P]. *)
Definition Yields {A} (P : A → Prop) (m : M A) : Prop :=
  ∀ s, wp m (λ o _, match o with Ret a => P a | _ => True end) s.

Lemma yields_ret {A} (P : A → Prop) a : P a → Yields P (mret a).
Proof. intros H s. exact H. Qed.
Lemma yields_bind {A B} (P : B → Prop) (m : M A) (k : A → M B) :
  (∀ a, Yields P (k a)) → Yields P (m ≫= k).
Proof. intros H s. rewrite wp_bind. apply wp_intro. intros [a|e|x] s1 _; simpl; [apply H|done..]. Qed.
Lemma yields_on_exit {A} (P : A → Prop) (m : M A) fin : Yields P m → Yields P (on_exit m fin).
Proof.
  intros H s. rewrite wp_on_exit. apply (wp_mono _ _ _ _ (H s)).
  intros [a|e|x] s1 Ha; [| |done]; apply wp_intro; by intros [[]|?|?] s2 _.
Qed.

Ltac yields_step :=
  lazymatch goal with
  | |- Yields _ (mbind _ _) => apply yields_bind; intros ?
  | |- Yields _ (on_exit _ _) => apply yields_on_exit
  | |- Yields _ (match ?x with _ => _ end) => destruct x
  | |- Yields _ (mret _) => apply yields_ret; auto
  | |- Yields _ (let _ := _ in _) => cbv zeta
  end.


End Main.

(** ** Runs *)

Module MainRun.

#[local] Existing Instance sim_absl.
#[local] Existing Instance sim_libc.

(** The mount fails. *)
Definition cannot_mount (n : nat) (c : call) : option Z :=
  match c with F_session_mount _ _ => Some 1 | _ => None end.

Definition demo_platform : @Platform sim_absl := sim_platform cannot_mount sample_tree.
#[local] Existing Instance demo_platform.
Definition start : St := sample_state cannot_mount sample_world.
Definition no_loop (ops : fuse_lowlevel_ops) (se : Z) : M Z := mret 0.
Definition no_loop_mt (ops : fuse_lowlevel_ops) (se config : Z) : M Z := mret 0.

Lemma Main_takes_down_what_it_set_up_witness :
  match (Main ["pafs"] 1 2 no_loop no_loop_mt start).1 with Ret n => n =? EXIT_FAILURE | _ => false end = true ∧
  set_up (Main ["pafs"] 1 2 no_loop no_loop_mt start).2 = Some [].
Proof.
  assert (returned (Main ["pafs"] 1 2 no_loop no_loop_mt start).1 = true) as Hr by (vm_compute; reflexivity).
  pose proof (Main_takes_down_what_it_set_up ["pafs"] 1 2 no_loop no_loop_mt start
    ltac:(done) ltac:(done) eq_refl) as H.
  unfold wp in H. split; [vm_compute; reflexivity|].
  destruct (Main _ _ _ _ _ start) as [[n|st|x] s1]; [exact H|discriminate Hr..].
Defined.

End MainRun.
