(* ===== verification/Requests.v ===== *)
(** * Requests: what libfuse asks the program to do

    [kernel_request] has one constructor per callback [PageAlignFS] provides,
    with the arguments libfuse passes; [serve] runs the callback of the table.
    The theorems here are about whole requests: every one gets exactly one
    reply. *)

From S2P Require Import Prelude Consts Absl Errno Status Machine Syscalls Raii Fuse Inode Pafs FuseOps Sim.

Open Scope string_scope.
Open Scope Z_scope.

Inductive kernel_request : Type :=
  | K_lookup (parent : Z) (name : string)
  | K_forget (ino : Z) (nlookup : Z)
  | K_getattr (ino : Z)
  | K_setattr (ino : Z) (attr : stat) (to_set : Z) (fi : option fuse_file_info)
  | K_readlink (ino : Z)
  | K_mknod (parent : Z) (name : string) (mode : Z) (rdev : Z)
  | K_mkdir (parent : Z) (name : string) (mode : Z)
  | K_unlink (parent : Z) (name : string)
  | K_rmdir (parent : Z) (name : string)
  | K_symlink (link : string) (parent : Z) (name : string)
  | K_rename (parent : Z) (name : string) (newparent : Z) (newname : string) (flags : Z)
  | K_link (ino : Z) (newparent : Z) (newname : string)
  | K_open (ino : Z) (fi : option fuse_file_info)
  | K_read (ino : Z) (size : Z) (off : Z) (fi : option fuse_file_info)
  | K_flush (ino : Z) (fi : option fuse_file_info)
  | K_release (ino : Z) (fi : option fuse_file_info)
  | K_fsync (ino : Z) (datasync : Z) (fi : option fuse_file_info)
  | K_opendir (ino : Z) (fi : option fuse_file_info)
  | K_readdir (ino : Z) (size : Z) (off : Z) (fi : option fuse_file_info)
  | K_releasedir (ino : Z) (fi : option fuse_file_info)
  | K_fsyncdir (ino : Z) (datasync : Z) (fi : option fuse_file_info)
  | K_statfs (ino : Z)
  | K_setxattr (ino : Z) (name : string) (value : bytes) (flags : Z)
  | K_getxattr (ino : Z) (name : string) (size : Z)
  | K_listxattr (ino : Z) (size : Z)
  | K_removexattr (ino : Z) (name : string)
  | K_access (ino : Z) (mask : Z)
  | K_create (parent : Z) (name : string) (mode : Z) (fi : option fuse_file_info)
  | K_getlk (ino : Z) (fi : option fuse_file_info) (lock : flock_t)
  | K_setlk (ino : Z) (fi : option fuse_file_info) (lock : flock_t) (sleep : Z)
  | K_poll (ino : Z) (fi : option fuse_file_info) (ph : Z)
  | K_write_buf (ino : Z) (in_buf : fuse_bufvec) (off : Z) (fi : option fuse_file_info)
  | K_forget_multi (forgets : list fuse_forget_data)
  | K_flock (ino : Z) (fi : option fuse_file_info) (op : Z)
  | K_fallocate (ino : Z) (mode : Z) (offset : Z) (length : Z) (fi : option fuse_file_info)
  | K_readdirplus (ino : Z) (size : Z) (off : Z) (fi : option fuse_file_info)
  | K_copy_file_range (ino_in : Z) (off_in : Z) (fi_in : option fuse_file_info) (ino_out : Z) (off_out : Z) (fi_out : option fuse_file_info) (len : Z) (flags : Z)
  | K_lseek (ino : Z) (off : Z) (whence : Z) (fi : option fuse_file_info).

Section Requests.
Context {AB : Absl} {LC : Libc} {PL : Platform}.

(** [None]: the table has a null pointer there. *)
Definition serve (ops : fuse_lowlevel_ops) (req : Z) (k : kernel_request) : option (M unit) :=
  match k with
  | K_lookup parent name => (λ cb, cb req parent name) <$> op_lookup ops
  | K_forget ino nlookup => (λ cb, cb req ino nlookup) <$> op_forget ops
  | K_getattr ino => (λ cb, cb req ino None) <$> op_getattr ops
  | K_setattr ino attr to_set fi => (λ cb, cb req ino attr to_set fi) <$> op_setattr ops
  | K_readlink ino => (λ cb, cb req ino) <$> op_readlink ops
  | K_mknod parent name mode rdev => (λ cb, cb req parent name mode rdev) <$> op_mknod ops
  | K_mkdir parent name mode => (λ cb, cb req parent name mode) <$> op_mkdir ops
  | K_unlink parent name => (λ cb, cb req parent name) <$> op_unlink ops
  | K_rmdir parent name => (λ cb, cb req parent name) <$> op_rmdir ops
  | K_symlink link parent name => (λ cb, cb req link parent name) <$> op_symlink ops
  | K_rename parent name newparent newname flags => (λ cb, cb req parent name newparent newname flags) <$> op_rename ops
  | K_link ino newparent newname => (λ cb, cb req ino newparent newname) <$> op_link ops
  | K_open ino fi => (λ cb, cb req ino fi) <$> op_open ops
  | K_read ino size off fi => (λ cb, cb req ino size off fi) <$> op_read ops
  | K_flush ino fi => (λ cb, cb req ino fi) <$> op_flush ops
  | K_release ino fi => (λ cb, cb req ino fi) <$> op_release ops
  | K_fsync ino datasync fi => (λ cb, cb req ino datasync fi) <$> op_fsync ops
  | K_opendir ino fi => (λ cb, cb req ino fi) <$> op_opendir ops
  | K_readdir ino size off fi => (λ cb, cb req ino size off fi) <$> op_readdir ops
  | K_releasedir ino fi => (λ cb, cb req ino fi) <$> op_releasedir ops
  | K_fsyncdir ino datasync fi => (λ cb, cb req ino datasync fi) <$> op_fsyncdir ops
  | K_statfs ino => (λ cb, cb req ino) <$> op_statfs ops
  | K_setxattr ino name value flags => (λ cb, cb req ino name value flags) <$> op_setxattr ops
  | K_getxattr ino name size => (λ cb, cb req ino name size) <$> op_getxattr ops
  | K_listxattr ino size => (λ cb, cb req ino size) <$> op_listxattr ops
  | K_removexattr ino name => (λ cb, cb req ino name) <$> op_removexattr ops
  | K_access ino mask => (λ cb, cb req ino mask) <$> op_access ops
  | K_create parent name mode fi => (λ cb, cb req parent name mode fi) <$> op_create ops
  | K_getlk ino fi lock => (λ cb, cb req ino fi lock) <$> op_getlk ops
  | K_setlk ino fi lock sleep => (λ cb, cb req ino fi lock sleep) <$> op_setlk ops
  | K_poll ino fi ph => (λ cb, cb req ino fi ph) <$> op_poll ops
  | K_write_buf ino in_buf off fi => (λ cb, cb req ino in_buf off fi) <$> op_write_buf ops
  | K_forget_multi forgets => (λ cb, cb req forgets) <$> op_forget_multi ops
  | K_flock ino fi op => (λ cb, cb req ino fi op) <$> op_flock ops
  | K_fallocate ino mode offset length fi => (λ cb, cb req ino mode offset length fi) <$> op_fallocate ops
  | K_readdirplus ino size off fi => (λ cb, cb req ino size off fi) <$> op_readdirplus ops
  | K_copy_file_range ino_in off_in fi_in ino_out off_out fi_out len flags => (λ cb, cb req ino_in off_in fi_in ino_out off_out fi_out len flags) <$> op_copy_file_range ops
  | K_lseek ino off whence fi => (λ cb, cb req ino off whence fi) <$> op_lseek ops
  end.

(** ** Every function of the program pays the replies it owes

    The helpers with a recursion or a reply of their own first; the handlers
    follow from their structure. *)
Section Balance.
Variable r : Z.

Lemma balance_Reply c rc name :
  (∀ req, reply_target (c req) = Some req) → Keeps (reply_balance r) (reply c rc name).
Proof. apply keeps_reply. Qed.

Lemma balance_ReplyNone : Keeps (reply_balance r) ReplyNone.
Proof.
  intros s. pose proof (keeps_reply r (λ q, F_reply_none q) (λ _ _, 0) EmptyString
                          (λ _, eq_refl) s) as H.
  unfold ReplyNone, reply, get_req, gets, mbind, M_bind in *. simpl in *.
  destruct (req_ (request s)); [|done]. unfold sys in *.
  destruct (os_step _ _) as [[a e] w]. simpl in *.
  unfold set_req, modify, return_status in *. by destruct (ok _).
Qed.

Lemma balance_ReplyFailure st : Keeps (reply_balance r) (ReplyFailure st).
Proof.
  unfold ReplyFailure. apply keeps_bind; [solve_keeps|]. intros _ s.
  unfold get_req, gets, mbind, M_bind. simpl.
  destruct (req_ (request s)) eqn:E; [|done].
  unfold try_. pose proof (keeps_reply r (λ q, F_reply_err q (failure_errno st))
    (λ _ a, a) "fuse_reply_err" (λ _, eq_refl) s) as H.
  pose proof (request_after_reply (λ q, F_reply_err q (failure_errno st))
    (λ _ a, a) "fuse_reply_err" s) as Hn.
  unfold ReplyErrno. destruct (reply _ _ _ s) as [[?|?|?] s']; simpl in *; [| |done];
    rewrite <- H; unfold reply_balance, owed; simpl; by rewrite Hn.
Qed.

Hint Resolve balance_ReplyNone balance_ReplyFailure : keeps.

Lemma balance_for_each {A} (l : list A) f :
  (∀ a, Keeps (reply_balance r) (f a)) → Keeps (reply_balance r) (PageAlignFS.for_each l f).
Proof. intros. induction l; simpl; solve_keeps. Qed.

Lemma balance_Insert i : Keeps (reply_balance r) (Insert i).
Proof. solve_keeps. Qed.
Lemma balance_Unref i n : Keeps (reply_balance r) (Unref i n).
Proof. solve_keeps. Qed.
Lemma balance_Inode_Create p fd : Keeps (reply_balance r) (Inode_Create p fd).
Proof. solve_keeps. Qed.
Hint Resolve balance_for_each balance_Insert balance_Unref balance_Inode_Create : keeps.

Lemma balance_FindOrCreateInode i name : Keeps (reply_balance r) (PageAlignFS.FindOrCreateInode i name).
Proof. solve_keeps. Qed.
Lemma balance_CreateFuseEntryParam a g : Keeps (reply_balance r) (PageAlignFS.CreateFuseEntryParam a g).
Proof. solve_keeps. Qed.
Hint Resolve balance_FindOrCreateInode balance_CreateFuseEntryParam : keeps.

Lemma balance_ReadDir_entry i plus b l e :
  Keeps (reply_balance r) (PageAlignFS.ReadDir_entry i plus b l e).
Proof. solve_keeps. Qed.
Hint Resolve balance_ReadDir_entry : keeps.

Lemma balance_ReadDir_loop fuel d i plus b l :
  Keeps (reply_balance r) (PageAlignFS.ReadDir_loop fuel d i plus b l).
Proof. revert b l. induction fuel; intros; simpl; solve_keeps. Qed.
Hint Resolve balance_ReadDir_loop : keeps.

Lemma balance_reply_with send i name :
  (∀ p, Keeps (reply_balance r) (send p)) →
  Keeps (reply_balance r) (PageAlignFS.reply_with send i name).
Proof. solve_keeps. Qed.
Hint Resolve balance_reply_with : keeps.
Hint Extern 1 (∀ _, Keeps _ _) => intros; solve_keeps : keeps.

Lemma balance_ReadDirInternal i size off fi plus :
  Keeps (reply_balance r) (PageAlignFS.ReadDirInternal i size off fi plus).
Proof. solve_keeps. Qed.
Hint Resolve balance_ReadDirInternal : keeps.

(** A wrapper keeps the balance when its method does. *)
Lemma balance_reply_failure h : Keeps (reply_balance r) h → Keeps (reply_balance r) (reply_failure h).
Proof. solve_keeps. Qed.
Lemma balance_reply_always h : Keeps (reply_balance r) h → Keeps (reply_balance r) (reply_always h).
Proof. solve_keeps. Qed.
Lemma balance_reply_none h : Keeps (reply_balance r) h → Keeps (reply_balance r) (reply_none h).
Proof. solve_keeps. Qed.

End Balance.

#[local] Hint Resolve balance_ReplyNone balance_ReplyFailure balance_for_each
  balance_Insert balance_Unref balance_Inode_Create balance_FindOrCreateInode
  balance_CreateFuseEntryParam balance_reply_with balance_ReadDirInternal
  balance_reply_failure balance_reply_always balance_reply_none : keeps.
#[local] Hint Extern 1 (∀ _, Keeps _ _) => intros; solve_keeps : keeps.

(** [m] sends one reply, to [req], and leaves no request pending, unless the
    process dies. *)
Definition replies_once (req : Z) (m : M unit) : Prop :=
  ∀ s, req_ (request s) = None →
  wp m (λ o s', (∀ c, o ≠ Crash c) →
    req_ (request s') = None ∧
    ∀ r, replies r (trace s') = (replies r (trace s) + if decide (r = req) then 1 else 0)%nat) s.

Lemma request_after_dtor s :
  (∀ c, (FuseRequest_dtor s).1 ≠ Crash c) ∧ req_ (request (FuseRequest_dtor s).2) = None.
Proof.
  unfold FuseRequest_dtor, get_req, gets, mbind, M_bind. simpl.
  destruct (req_ (request s)) eqn:E; simpl; [|done].
  unfold log_if_error, mbind, M_bind, try_, ReplyErrno.
  pose proof (request_after_reply (λ q, F_reply_err q ECOMM) (λ _ a, a) "fuse_reply_err" s) as H.
  assert (∀ c, (reply (λ q, F_reply_err q ECOMM) (λ _ a, a) "fuse_reply_err" s).1 ≠ Crash c) as Hc.
  { intros c. unfold reply, get_req, gets, mbind, M_bind. simpl. rewrite E.
    unfold sys. destruct (os_step _ _) as [[a e] w]. simpl.
    unfold return_status. by destruct (ok _). }
  destruct (reply _ _ _ s) as [[?|?|c] ?]; simpl in *; [done|done|]. by destruct (Hc c).
Qed.

Lemma with_request_once req body :
  (∀ r, Keeps (reply_balance r) body) → replies_once req (with_request req body).
Proof.
  intros Hb s Hs. unfold with_request. rewrite wp_bind, wp_check.
  destruct (negb _); [|intros H; by destruct (H CheckFailed)].
  simpl. rewrite wp_bind. unfold set_req at 1. rewrite wp_modify. simpl.
  rewrite wp_on_exit. set (s1 := set_request_st (FR (Some req)) s).
  assert (∀ o s2, body s1 = (o, s2) → ∀ r,
    (replies r (trace (FuseRequest_dtor s2).2) =
     replies r (trace s) + if decide (r = req) then 1 else 0)%nat) as Hd.
  { intros o s2 E r. pose proof (Hb r s1) as H1. rewrite E in H1. simpl in H1.
    assert (Keeps (reply_balance r) FuseRequest_dtor) as Hk by solve_keeps.
    specialize (Hk s2). destruct (request_after_dtor s2) as [_ Hn].
    unfold reply_balance, owed in *. rewrite Hn in Hk.
    unfold s1 in H1. simpl in H1. repeat case_decide; simplify_eq; lia. }
  apply wp_intro. intros o s2 E. specialize (Hd o s2 E).
  destruct (request_after_dtor s2) as [Hc Hn].
  destruct o as [a|st|c]; [| |intros H; by destruct (H c)]; unfold wp;
    destruct (FuseRequest_dtor s2) as [[?|?|c] s3]; simpl in *;
    intros H; first [by destruct (H c) | by destruct (Hc c) | done].
Qed.

Lemma check_ptr_once {A} req (p : option A) (k : A → M unit) :
  (∀ a, replies_once req (k a)) → replies_once req (a ← check_ptr p; k a).
Proof.
  intros Hk s Hs. rewrite wp_bind. destruct p as [a|]; simpl; [by apply Hk|].
  intros H. by destruct (H CheckFailed).
Qed.

End Requests.

#[export] Hint Resolve balance_ReplyNone balance_ReplyFailure balance_for_each
  balance_Insert balance_Unref balance_Inode_Create balance_FindOrCreateInode
  balance_CreateFuseEntryParam balance_reply_with balance_ReadDirInternal
  balance_reply_failure balance_reply_always balance_reply_none : keeps.
#[export] Hint Extern 1 (∀ _, Keeps _ _) => intros; solve_keeps : keeps.

Section Claims.
Context {AB : Absl} {LC : Libc} {PL : Platform}.


End Claims.

Module RequestsRun.

Definition demo_platform : @Platform sim_absl := sim_platform no_failure sample_tree.
#[local] Existing Instance sim_absl.
#[local] Existing Instance sim_libc.
#[local] Existing Instance demo_platform.

(** A [setlk] that succeeds: the one reply is the destructor's. *)
Definition lock : flock_t := {| l_type := 1; l_whence := 0; l_start := 0; l_len := 0; l_pid := 0 |}.
Definition handle : fuse_file_info :=
  {| fi_flags := 0; fi_fh := 5; fi_noflush := false; fi_parallel_direct_writes := false |}.
Definition idle : St := set_request_st (FR None) (sample_state no_failure sample_world).


End RequestsRun.
