(* ===== verification/Cache.v ===== *)
(** * The inode cache: invariant and refinement

    The cache of inode.cc (a map of pointers to counted inodes) implements a map
    from (device, inode number) to an address and a count, [alpha].  [cache_wf]
    is its invariant.  [Insert], [Ref] and [Unref] are shown to preserve the
    invariant and to act on [alpha] as the abstract operations [a_insert],
    [a_ref] and [a_unref]; everything else in the program leaves [shape], and so
    [alpha], alone. *)

From S2P Require Import Prelude Consts Absl Errno Status Machine Syscalls Raii Fuse Inode Sim.

Open Scope string_scope.
Open Scope Z_scope.

(** ** The abstract cache *)

Abbreviation Counts := (gmap (Z * Z) (Z * Z)).   (* key ↦ (address, count) *)

Definition count_of (A : Counts) (k : Z * Z) : Z := default 0 (snd <$> A !! k).

Definition a_ref (k : Z * Z) (n : Z) (A : Counts) : Counts :=
  alter (λ e, (e.1, e.2 + n)) k A.

Definition a_insert (k : Z * Z) (a : Z) (A : Counts) : Counts :=
  match A !! k with
  | Some e => <[k := (e.1, e.2 + 1)]> A
  | None => <[k := (a, 1)]> A
  end.

Definition a_unref (k : Z * Z) (n : Z) (A : Counts) : Counts :=
  match A !! k with
  | Some e => if decide (e.2 = n) then delete k A else <[k := (e.1, e.2 - n)]> A
  | None => A
  end.

Lemma count_of_Some A k a n : A !! k = Some (a, n) → count_of A k = n.
Proof. unfold count_of. by intros ->. Qed.

Lemma a_ref_unref k n A :
  0 < count_of A k → a_unref k n (a_ref k n A) = A.
Proof.
  unfold count_of, a_unref, a_ref. intros H. rewrite lookup_alter_eq.
  destruct (A !! k) as [[a c]|] eqn:E; simpl in *; [|lia].
  rewrite decide_False by lia. apply map_eq. intros k'.
  destruct (decide (k = k')) as [<-|]; rewrite ?lookup_insert_eq, ?lookup_insert_ne,
    ?lookup_alter_ne by done; [|done]. rewrite E. repeat f_equal. lia.
Qed.

Lemma a_insert_unref k a A :
  (∀ e, A !! k = Some e → 0 < e.2) → a_unref k 1 (a_insert k a A) = A.
Proof.
  unfold a_unref, a_insert. intros H. destruct (A !! k) as [[a' c]|] eqn:E; simpl.
  - rewrite lookup_insert_eq. specialize (H _ eq_refl). simpl in *.
    rewrite decide_False by lia. rewrite insert_insert_eq.
    rewrite insert_id; [done|]. rewrite E. repeat f_equal. lia.
  - rewrite lookup_insert_eq. simpl. by rewrite delete_insert_id.
Qed.

Lemma count_a_insert A k a :
  count_of (a_insert k a A) k = count_of A k + 1.
Proof.
  unfold count_of, a_insert. destruct (A !! k); simpl; by rewrite lookup_insert_eq.
Qed.

Lemma count_a_insert_ne A k k' a :
  k ≠ k' → count_of (a_insert k a A) k' = count_of A k'.
Proof.
  intros. unfold count_of, a_insert. destruct (A !! k); simpl; by rewrite lookup_insert_ne.
Qed.

Section Cache.
Context {AB : Absl} {LC : Libc} {PL : Platform}.

(** ** What the cache is about: descriptor, device and number of each inode *)

Definition core (i : Inode) : Z * Z * Z := (fd_ (inode_fd_ i), src_dev_num_ i, num_ i).

Definition shape (s : St) :=
  (inodes_ (pafs s), (λ e, (e.1, core e.2)) <$> entries (pafs s), core (root_ (pafs s)),
   opts_ (pafs s), dirs s).

Definition alpha (p : PageAlignFS) : Counts :=
  omap (λ a, (λ e, (a, e.1)) <$> entries p !! a) (inodes_ p).

Record cache_wf (p : PageAlignFS) : Prop := {
  wf_key : ∀ k a, inodes_ p !! k = Some a →
    ∃ e, entries p !! a = Some e ∧ inode_key e.2 = k ∧ 0 < e.1 < two64;
  wf_entry : ∀ a e, entries p !! a = Some e → inodes_ p !! inode_key e.2 = Some a;
  wf_addr : ∀ a e, entries p !! a = Some e → FUSE_ROOT_ID < a
}.

Lemma cache_wf_empty p : inodes_ p = ∅ → entries p = ∅ → cache_wf p.
Proof. intros Hi He. split; intros *; rewrite ?Hi, ?He; by rewrite lookup_empty. Qed.

Lemma alpha_lookup p k :
  alpha p !! k = a ← inodes_ p !! k; e ← entries p !! a; Some (a, e.1).
Proof.
  unfold alpha. rewrite lookup_omap. destruct (inodes_ p !! k) as [a|]; simpl; [|done].
  by destruct (entries p !! a).
Qed.

Lemma alpha_Some p k a n :
  alpha p !! k = Some (a, n) ↔ inodes_ p !! k = Some a ∧ ∃ i, entries p !! a = Some (n, i).
Proof.
  rewrite alpha_lookup. destruct (inodes_ p !! k) as [b|]; simpl.
  - destruct (entries p !! b) as [[m j]|] eqn:E; simpl; split.
    + intros [= -> ->]. eauto.
    + intros [[= ->] [i Hi]]. congruence.
    + done.
    + intros [[= ->] [i Hi]]. congruence.
  - split; [done|]. by intros [? _].
Qed.

Lemma alpha_positive p k e : cache_wf p → alpha p !! k = Some e → 0 < e.2 < two64.
Proof.
  destruct e as [a n]. intros Hwf [Hk [i Hi]]%alpha_Some.
  destruct (wf_key p Hwf k a Hk) as (e & He & _ & Hr). by simplify_eq/=.
Qed.

(** An entry of the heap is found under its own key. *)
Lemma wf_alpha_entry p a n i :
  cache_wf p → entries p !! a = Some (n, i) → alpha p !! inode_key i = Some (a, n).
Proof. intros Hwf He. apply alpha_Some. split; [by apply (wf_entry p Hwf a _ He)|eauto]. Qed.

(** The invariant and [alpha] depend on the shape only. *)
Lemma shape_entries s s' a :
  shape s = shape s' →
  (λ e, (e.1, core e.2)) <$> entries (pafs s) !! a =
  (λ e, (e.1, core e.2)) <$> entries (pafs s') !! a.
Proof.
  intros H. rewrite <- !lookup_fmap. f_equal. exact (f_equal (λ x, x.1.1.1.2) H).
Qed.

Lemma core_key i j : core i = core j → inode_key i = inode_key j ∧ GetFD i = GetFD j.
Proof.
  unfold core, inode_key, GetFD, GetSourceDevice, GetNumber.
  intros [= H1 H2 H3]. split; congruence.
Qed.

Lemma shape_entry s s' a n i :
  shape s = shape s' → entries (pafs s) !! a = Some (n, i) →
  ∃ j, entries (pafs s') !! a = Some (n, j) ∧ core j = core i.
Proof.
  intros Hs He. pose proof (shape_entries s s' a Hs) as H. rewrite He in H. simpl in H.
  destruct (entries (pafs s') !! a) as [[m j]|]; simpl in H; [|done].
  apply (inj Some) in H. pose proof (f_equal fst H) as Hn. pose proof (f_equal snd H) as Hc.
  simpl in Hn, Hc. exists j. split; congruence.
Qed.

Lemma shape_inodes s s' : shape s = shape s' → inodes_ (pafs s) = inodes_ (pafs s').
Proof. intros H. exact (f_equal (λ x, x.1.1.1.1) H). Qed.

Lemma shape_alpha s s' : shape s = shape s' → alpha (pafs s) = alpha (pafs s').
Proof.
  intros Hs. apply map_eq. intros k. rewrite !alpha_lookup, (shape_inodes s s' Hs).
  destruct (inodes_ (pafs s') !! k) as [a|]; simpl; [|done].
  pose proof (shape_entries s s' a Hs) as H.
  destruct (entries (pafs s) !! a) as [[]|], (entries (pafs s') !! a) as [[]|];
    simpl in *; by simplify_eq.
Qed.

Lemma shape_wf s s' : shape s = shape s' → cache_wf (pafs s) → cache_wf (pafs s').
Proof.
  intros Hs Hwf. pose proof (shape_inodes s s' Hs) as Hi. split.
  - intros k a Hk. rewrite <- Hi in Hk. destruct (wf_key _ Hwf k a Hk) as ([n i] & He & Hkey & Hn).
    destruct (shape_entry s s' a n i Hs He) as (j & Hj & Hc).
    exists (n, j). simpl in *. split; [done|]. split; [|done].
    by rewrite (proj1 (core_key j i Hc)).
  - intros a [n j] Hj. destruct (shape_entry s' s a n j (eq_sym Hs) Hj) as (i & He & Hc).
    rewrite <- Hi. simpl. rewrite <- (proj1 (core_key i j Hc)). by apply (wf_entry _ Hwf a _ He).
  - intros a [n j] Hj. destruct (shape_entry s' s a n j (eq_sym Hs) Hj) as (i & He & _).
    by apply (wf_addr _ Hwf a _ He).
Qed.

(** ** Destructors run to the end and touch no object *)

Lemma FileDescriptor_dtor_ok fd s :
  ∃ s', FileDescriptor_dtor fd s = (Ret tt, s') ∧ mem s' = mem s.
Proof.
  unfold FileDescriptor_dtor. destruct (fd_ fd =? -1); [eauto|].
  cbn. unfold log_if_error, syscalls.close, syscalls.set_errno, syscalls.return_errno,
    syscalls.get_errno, mbind, M_bind, try_, gets, modify, sys; cbn.
  destruct (os_step _ _) as [[r e] w]. cbn. unfold return_status. destruct (ok _); eauto.
Qed.

Lemma FusePollHandle_dtor_ok h s :
  ∃ s', FusePollHandle_dtor h s = (Ret tt, s') ∧ mem s' = mem s.
Proof.
  unfold FusePollHandle_dtor. destruct (handle_ h =? 0); [eauto|].
  unfold mbind, M_bind, sys; cbn. destruct (os_step _ _) as [[r e] w]. eauto.
Qed.

Lemma Inode_dtor_ok i s : ∃ s', Inode_dtor i s = (Ret tt, s') ∧ mem s' = mem s.
Proof.
  unfold Inode_dtor, mbind, M_bind.
  destruct (FusePollHandle_dtor_ok (poll_handle_ i) s) as (s1 & -> & H1).
  destruct (FileDescriptor_dtor_ok (inode_fd_ i) s1) as (s2 & -> & H2).
  eexists; split; [done|congruence].
Qed.

(** ** Updating one entry's count *)

Definition set_count (a n : Z) (i : Inode) (p : PageAlignFS) : PageAlignFS :=
  set_entries (<[a := (n, i)]> (entries p)) p.

Lemma set_count_wf p a n i m :
  cache_wf p → entries p !! a = Some (m, i) → 0 < n < two64 → cache_wf (set_count a n i p).
Proof.
  intros Hwf He Hn. split; simpl.
  - intros k b Hk. destruct (wf_key p Hwf k b Hk) as (e & Hb & Hkey & Hr).
    destruct (decide (a = b)) as [<-|].
    + rewrite lookup_insert_eq. eexists; split; [done|]. by simplify_eq/=.
    + rewrite lookup_insert_ne by done. eauto.
  - intros b e. destruct (decide (a = b)) as [<-|].
    + rewrite lookup_insert_eq. intros [= <-]. by apply (wf_entry p Hwf a (m, i)).
    + rewrite lookup_insert_ne by done. apply (wf_entry p Hwf).
  - intros b e. destruct (decide (a = b)) as [<-|].
    + intros _. by apply (wf_addr p Hwf a _ He).
    + rewrite lookup_insert_ne by done. apply (wf_addr p Hwf).
Qed.

(** Two keys never share an address. *)
Lemma wf_injective p k k' a :
  cache_wf p → inodes_ p !! k = Some a → inodes_ p !! k' = Some a → k = k'.
Proof.
  intros Hwf H H'. destruct (wf_key p Hwf k a H) as (e & He & <- & _).
  destruct (wf_key p Hwf k' a H') as (e' & He' & <- & _). congruence.
Qed.

Lemma set_count_alpha p a n i m :
  cache_wf p → entries p !! a = Some (m, i) →
  alpha (set_count a n i p) = <[inode_key i := (a, n)]> (alpha p).
Proof.
  intros Hwf He. pose proof (wf_entry p Hwf a _ He) as Hk. simpl in Hk.
  apply map_eq. intros k. rewrite alpha_lookup. simpl.
  destruct (decide (inode_key i = k)) as [<-|Hne].
  - rewrite Hk, lookup_insert_eq. simpl. by rewrite lookup_insert_eq.
  - rewrite (lookup_insert_ne (alpha p)), alpha_lookup by done.
    destruct (inodes_ p !! k) as [b|] eqn:Hb; simpl; [|done].
    rewrite lookup_insert_ne; [done|]. intros <-. apply Hne.
    by apply (wf_injective p _ _ a Hwf).
Qed.

(** ** Ref *)

Lemma Ref_eq i n s inode a m j :
  lookup_inode (pafs s) i = Some inode → inodes_ (pafs s) !! inode_key inode = Some a →
  entries (pafs s) !! a = Some (m, j) →
  Ref i n s = (Ret tt, set_pafs_st (set_count a (u64_add m n) j (pafs s)) s).
Proof.
  intros Hi Hk He. unfold Ref, read_inode, mbind, M_bind, gets. rewrite Hi. simpl.
  rewrite Hk, He. done.
Qed.

(** [Ref] through the reference an entry has to itself. *)
Lemma Ref_spec a n s m j :
  cache_wf (pafs s) → entries (pafs s) !! a = Some (m, j) → 0 <= n → m + n < two64 →
  ∃ p', Ref (IEntry a) n s = (Ret tt, set_pafs_st p' s) ∧ cache_wf p' ∧
    alpha p' = a_ref (inode_key j) n (alpha (pafs s)) ∧
    p' = set_count a (m + n) j (pafs s).
Proof.
  intros Hwf He Hn Hlt. pose proof (wf_entry _ Hwf a _ He) as Hk. simpl in Hk.
  destruct (wf_key _ Hwf _ a Hk) as (e & He' & _ & Hr). simplify_eq.
  rewrite (Ref_eq (IEntry a) n s j a m j); simpl; rewrite ?He; [|done..].
  simpl in Hr. rewrite u64_add_small by lia. eexists; split; [done|]. split_and!; [| |done].
  - apply (set_count_wf _ _ _ _ m); [done..|lia].
  - rewrite (set_count_alpha _ _ _ _ m) by done. apply map_eq. intros k.
    pose proof (wf_alpha_entry _ a m j Hwf He) as Ha. unfold a_ref.
    destruct (decide (inode_key j = k)) as [<-|].
    + by rewrite lookup_insert_eq, lookup_alter_eq, Ha.
    + by rewrite lookup_insert_ne, lookup_alter_ne.
Qed.

(** ** Unref *)

Definition remove_entry (k : Z * Z) (a : Z) (p : PageAlignFS) : PageAlignFS :=
  set_inodes (delete k (inodes_ p)) (set_entries (delete a (entries p)) p).

Lemma remove_entry_wf p a e :
  cache_wf p → entries p !! a = Some e → cache_wf (remove_entry (inode_key e.2) a p).
Proof.
  intros Hwf He. pose proof (wf_entry p Hwf a _ He) as Hk. split; simpl.
  - intros k b [Hne Hb]%lookup_delete_Some.
    destruct (wf_key p Hwf k b Hb) as (e' & Hb' & ? & ?). exists e'.
    rewrite lookup_delete_ne; [done|]. intros <-. apply Hne.
    by apply (wf_injective p _ _ a Hwf).
  - intros b e' [Hne Hb]%lookup_delete_Some. pose proof (wf_entry p Hwf b _ Hb).
    rewrite lookup_delete_ne; [done|]. intros Heq. apply Hne. congruence.
  - intros b e' [_ Hb]%lookup_delete_Some. by apply (wf_addr p Hwf b _ Hb).
Qed.

Lemma remove_entry_alpha p a e :
  cache_wf p → entries p !! a = Some e →
  alpha (remove_entry (inode_key e.2) a p) = delete (inode_key e.2) (alpha p).
Proof.
  intros Hwf He. pose proof (wf_entry p Hwf a _ He) as Hk. apply map_eq. intros k.
  rewrite alpha_lookup. simpl. destruct (decide (inode_key e.2 = k)) as [<-|Hne].
  - by rewrite !lookup_delete_eq.
  - rewrite !lookup_delete_ne, alpha_lookup by done.
    destruct (inodes_ p !! k) as [b|] eqn:Hb; simpl; [|done].
    rewrite lookup_delete_ne; [done|]. intros <-. apply Hne.
    by apply (wf_injective p _ _ a Hwf).
Qed.

(** What [Unref] does to the cache when it finds an entry with a large enough
    count; the destructor of an erased inode only makes system calls. *)
Lemma Unref_spec i inode n s a m j :
  cache_wf (pafs s) → lookup_inode (pafs s) i = Some inode →
  inodes_ (pafs s) !! inode_key inode = Some a → entries (pafs s) !! a = Some (m, j) →
  0 <= n <= m →
  ∃ s' p', Unref i n s = (Ret tt, s') ∧ mem s' = (request s, p', dirs s) ∧ cache_wf p' ∧
    alpha p' = a_unref (inode_key inode) n (alpha (pafs s)) ∧
    p' = (if decide (m = n) then remove_entry (inode_key inode) a (pafs s)
          else set_count a (m - n) j (pafs s)).
Proof.
  intros Hwf Hi Hk He Hn.
  destruct (wf_key _ Hwf _ a Hk) as (e & He' & Hj & Hr).
  rewrite He in He'. injection He' as <-. cbn [fst snd] in Hj, Hr.
  unfold Unref, read_inode, mbind, M_bind, gets. rewrite Hi. simpl. rewrite Hk, He. simpl.
  rewrite (proj2 (Z.leb_le n m)) by lia. simpl. rewrite u64_sub_small by lia.
  assert (alpha (pafs s) !! inode_key inode = Some (a, m)) as Ha
    by (apply alpha_Some; eauto).
  unfold a_unref. rewrite Ha. simpl.
  destruct (decide (m = n)) as [->|Hne].
  - replace (n - n =? 0) with true by lia. simpl.
    rewrite !delete_insert_eq. rewrite <- Hj.
    match goal with |- context [Inode_dtor j ?s1] => destruct (Inode_dtor_ok j s1) as (s2 & -> & Hm) end.
    exists s2, (remove_entry (inode_key j) a (pafs s)). split; [done|].
    split; [rewrite Hm; done|].
    split; [by apply (remove_entry_wf _ a (n, j))|].
    split; [by apply (remove_entry_alpha _ a (n, j))|done].
  - replace (m - n =? 0) with false by lia.
    eexists _, (set_count a (m - n) j (pafs s)); split; [done|]. split; [done|].
    split; [apply (set_count_wf _ _ _ _ m); [done..|lia]|].
    split; [|done]. rewrite <- Hj. by apply (set_count_alpha _ _ _ _ m).
Qed.

(** Without an entry, or with a count that is too small, the cache is untouched. *)
Lemma Unref_missing i inode n s :
  lookup_inode (pafs s) i = Some inode → inodes_ (pafs s) !! inode_key inode = None →
  Unref i n s = (Fail (no_entry "Was asked to unref inode " inode), s).
Proof.
  intros Hi Hk. unfold Unref, read_inode, mbind, M_bind, gets. rewrite Hi. simpl. by rewrite Hk.
Qed.

Lemma Unref_underflow i inode n s a m j :
  lookup_inode (pafs s) i = Some inode → inodes_ (pafs s) !! inode_key inode = Some a →
  entries (pafs s) !! a = Some (m, j) → m < n →
  Unref i n s = (Crash CheckFailed, s).
Proof.
  intros Hi Hk He Hn. unfold Unref, read_inode, mbind, M_bind, gets. rewrite Hi. simpl.
  rewrite Hk, He. simpl. by rewrite (proj2 (Z.leb_gt n m)) by lia.
Qed.

(** ** Insert *)

Definition add_entry (i : Inode) (a n : Z) (p : PageAlignFS) : PageAlignFS :=
  set_inodes (<[inode_key i := a]> (inodes_ p)) (set_entries (<[a := (n, i)]> (entries p)) p).

Lemma add_entry_wf p i a n :
  cache_wf p → entries p !! a = None → inodes_ p !! inode_key i = None →
  FUSE_ROOT_ID < a → 0 < n < two64 → cache_wf (add_entry i a n p).
Proof.
  intros Hwf Ha Hk Hr Hn. split; simpl.
  - intros k b [[<- <-]|[Hne Hb]]%lookup_insert_Some.
    + exists (n, i). by rewrite lookup_insert_eq.
    + destruct (wf_key p Hwf k b Hb) as (e & He & ? & ?). exists e.
      rewrite lookup_insert_ne; [done|]. intros <-. congruence.
  - intros b e [[<- <-]|[Hne Hb]]%lookup_insert_Some; simpl.
    + by rewrite lookup_insert_eq.
    + pose proof (wf_entry p Hwf b e Hb). rewrite lookup_insert_ne; [done|]. intros Heq. congruence.
  - intros b e [[<- <-]|[Hne Hb]]%lookup_insert_Some; [done|]. by apply (wf_addr p Hwf b e).
Qed.

Lemma add_entry_alpha p i a n :
  cache_wf p → entries p !! a = None →
  alpha (add_entry i a n p) = <[inode_key i := (a, n)]> (alpha p).
Proof.
  intros Hwf Ha. apply map_eq. intros k. rewrite alpha_lookup. simpl.
  destruct (decide (inode_key i = k)) as [<-|Hne].
  - rewrite !lookup_insert_eq. simpl. by rewrite lookup_insert_eq.
  - rewrite !lookup_insert_ne, alpha_lookup by done.
    destruct (inodes_ p !! k) as [b|] eqn:Hb; simpl; [|done].
    destruct (wf_key p Hwf k b Hb) as (e & He & _).
    rewrite lookup_insert_ne; [done|]. intros <-. congruence.
Qed.

Lemma alpha_None p k : cache_wf p → alpha p !! k = None ↔ inodes_ p !! k = None.
Proof.
  intros Hwf. rewrite alpha_lookup. destruct (inodes_ p !! k) as [a|] eqn:E; simpl; [|done].
  destruct (wf_key p Hwf k a E) as (e & -> & _). done.
Qed.

(** Whether the inode is new or known, exactly one entry answers for its key. *)
Lemma Insert_spec `{!PlatformLaws PL} i s :
  cache_wf (pafs s) → count_of (alpha (pafs s)) (inode_key i) + 1 < two64 →
  ∃ a s' p' m j, Insert i s = (Ret a, s') ∧ mem s' = (request s, p', dirs s) ∧ cache_wf p' ∧
    alpha p' = a_insert (inode_key i) (fresh (live s)) (alpha (pafs s)) ∧
    entries p' !! a = Some (m, j) ∧ inode_key j = inode_key i ∧
    root_ p' = root_ (pafs s) ∧ opts_ p' = opts_ (pafs s).
Proof.
  intros Hwf Hlt. unfold Insert, mbind, M_bind, gets. cbn [fst snd id].
  destruct (inodes_ (pafs s) !! inode_key i) as [a|] eqn:Hk; simpl.
  - destruct (wf_key _ Hwf _ a Hk) as ([m j] & He & Hj & Hr). rewrite He. simpl in *.
    assert (alpha (pafs s) !! inode_key i = Some (a, m)) as Ha by (apply alpha_Some; eauto).
    rewrite (count_of_Some _ _ _ _ Ha) in Hlt. rewrite u64_add_small by lia.
    match goal with |- context [Inode_dtor i ?s1] => destruct (Inode_dtor_ok i s1) as (s2 & -> & Hm) end.
    exists a, s2, (set_count a (m + 1) j (pafs s)), (m + 1), j.
    split; [done|]. split; [rewrite Hm; done|].
    split; [apply (set_count_wf _ _ _ _ m); [done..|lia]|].
    rewrite (set_count_alpha _ _ _ _ m) by done. unfold a_insert. rewrite Ha, Hj. simpl.
    by rewrite lookup_insert_eq.
  - assert (fresh (live s) ∉ live s) as Hf by apply fresh_not_live. set (a := fresh (live s)) in *.
    assert (entries (pafs s) !! a = None) as He.
    { apply not_elem_of_dom. unfold live in Hf. set_solver. }
    (* the destructor of the moved-from inode does nothing *)
    rewrite lookup_insert_eq. simpl.
    eexists a, _, (add_entry i a 1 (pafs s)), 1, i.
    split; [done|]. split.
    { unfold mem, add_entry, set_entries, set_inodes. simpl. by rewrite insert_insert_eq. }
    split. { apply add_entry_wf; [done..| |done]. apply fresh_aligned. }
    rewrite add_entry_alpha by done. unfold a_insert.
    rewrite (proj2 (alpha_None _ _ Hwf)) by done. simpl. by rewrite lookup_insert_eq.
Qed.

End Cache.
