(* ===== verification/Lookup.v ===== *)
(** * Lookups: what a request does to the reference counts

    Everything but [Insert], [Ref] and [Unref] leaves [shape] alone.  The replies
    that carry an entry ([reply_with]: lookup, mknod, mkdir, symlink, link,
    create) add exactly one reference to the entry they hand to the kernel when
    they succeed, and none when they fail. *)

From S2P Require Import Prelude Consts Absl Errno Status Machine Syscalls Raii Fuse Inode Pafs Sim Cache.

Open Scope string_scope.
Open Scope Z_scope.

Section Shape.
Context {AB : Absl} {LC : Libc} {PL : Platform}.

#[export] Instance quiet_shape : Quiet shape.
Proof. by apply quiet_intro. Qed.

Lemma keeps_shape_sys c : Keeps shape (sys c).
Proof. intros s. unfold sys. by destruct (os_step c (world s)) as [[??]?]. Qed.

Lemma keeps_shape_req r : Keeps shape (modify (set_request_st r)).
Proof. done. Qed.

(** An update that does not change what the cache is about. *)
Lemma shape_update_inode i f s :
  (∀ j, core (f j) = core j) → shape (set_pafs_st (update_inode i f (pafs s)) s) = shape s.
Proof.
  intros Hf. destruct i as [|a]; unfold shape, update_inode; simpl; [by rewrite Hf|].
  do 3 f_equal. f_equal. apply map_eq. intros b.
  rewrite !lookup_fmap. destruct (decide (a = b)) as [<-|].
  - rewrite lookup_alter_eq. destruct (entries (pafs s) !! a) as [[n j]|]; simpl; [|done].
    by rewrite Hf.
  - by rewrite lookup_alter_ne.
Qed.

Lemma keeps_shape_update i f :
  (∀ j, core (f j) = core j) → Keeps shape (modify_pafs (update_inode i f)).
Proof. intros Hf s. apply shape_update_inode, Hf. Qed.

(** The states of a given shape. *)
Definition at_shape (sh : _) (s : St) : Prop := shape s = sh.

#[export] Instance stable_at_shape sh : Stable (at_shape sh).
Proof. by split. Qed.

Lemma safe_update sh i f :
  (∀ j, core (f j) = core j) → Safe (at_shape sh) (modify_pafs (update_inode i f)).
Proof. intros Hf. apply safe_modify. intros s <-. apply shape_update_inode, Hf. Qed.

(** A pointer to an inode that exists. *)
Definition valid (i : InodeRef) (s : St) : Prop := is_Some (lookup_inode (pafs s) i).

Lemma valid_shape i s s' : shape s = shape s' → valid i s → valid i s'.
Proof.
  intros Hs. destruct i as [|a]; [intros; by eexists|]. intros [j Hj]. simpl in Hj.
  destruct (entries (pafs s) !! a) as [[n i]|] eqn:E; [|done].
  destruct (shape_entry s s' a n i Hs E) as (k & Hk & _). unfold valid. simpl. rewrite Hk. by eexists.
Qed.

Lemma safe_read_inode i s : valid i s → Safe (at_shape (shape s)) (read_inode i).
Proof.
  intros Hv s' Hs'. unfold read_inode. rewrite wp_bind, wp_gets. simpl. apply wp_deref.
  destruct (valid_shape i s s' (eq_sym Hs') Hv) as [j ->]. done.
Qed.

Lemma live_shape s s' : shape s = shape s' → live s = live s'.
Proof.
  intros Hs. unfold live. f_equal.
  - rewrite <- (dom_fmap_L (λ e, (e.1, core e.2)) (entries (pafs s))),
      <- (dom_fmap_L (λ e, (e.1, core e.2)) (entries (pafs s'))).
    f_equal. exact (f_equal (λ x, x.1.1.1.2) Hs).
  - f_equal. exact (f_equal snd Hs).
Qed.

End Shape.

#[export] Hint Extern 1 (Keeps shape (sys ?c)) => exact (keeps_shape_sys c) : keeps.
#[export] Hint Resolve keeps_shape_req : keeps.
#[export] Hint Extern 1 (Keeps shape (modify_pafs (update_inode _ _))) =>
  apply keeps_shape_update; reflexivity : keeps.
#[export] Hint Extern 1 (Safe (at_shape _) (modify_pafs (update_inode _ _))) =>
  apply safe_update; reflexivity : safe.
#[export] Hint Extern 1 (Safe (at_shape _) (read_inode _)) =>
  apply safe_read_inode; assumption : safe.

(** ** Entries handed to the kernel *)

Section Grants.
Context {AB : Absl} {LC : Libc} {PL : Platform} {AL : AbslLaws AB}.

(** The entry a call hands to the kernel: one that was accepted, in a reply that
    carries an entry. *)
Definition grant (e : event) : option Z :=
  match e with
  | Ev c r =>
      match c as c0 return ret c0 → option Z with
      | F_reply_entry _ p => λ r, if r =? 0 then Some (ep_ino p) else None
      | F_reply_create _ p _ => λ r, if r =? 0 then Some (ep_ino p) else None
      | _ => λ _, None
      end r
  end.

Fixpoint grant_log (tr : list event) : list Z :=
  match tr with
  | [] => []
  | e :: tr => match grant e with Some a => a :: grant_log tr | None => grant_log tr end
  end.

(** How many lookups the kernel has been granted on an inode number. *)
Fixpoint occurrences (a : Z) (l : list Z) : Z :=
  match l with
  | [] => 0
  | b :: l => ind (b = a) + occurrences a l
  end.

Definition granted (s : St) (a : Z) : Z := occurrences a (grant_log (trace s)).

(** The pending request and what was granted so far. *)
Definition handed (s : St) : FuseRequest * list Z := (request s, grant_log (trace s)).

#[export] Instance quiet_handed : Quiet handed.
Proof. apply quiet_intro; [done|]. intros c r e w s H. unfold handed. simpl. by destruct c. Qed.

Lemma keeps_handed_pafs p : Keeps handed (modify (λ s, set_pafs_st (p s) s)).
Proof. done. Qed.
Lemma keeps_handed_dirs p : Keeps handed (modify (λ s, set_dirs_st (p s) s)).
Proof. done. Qed.

(** A reply that carries no entry grants nothing. *)
Lemma keeps_grants_reply c rc name :
  (∀ req r, grant (Ev (c req) r) = None) →
  Keeps (λ s, grant_log (trace s)) (reply c rc name).
Proof.
  intros Hg s. unfold reply, get_req, gets, mbind, M_bind. simpl.
  destruct (req_ (request s)) as [q|]; [|done].
  unfold sys. destruct (os_step _ _) as [[r e] w]. simpl. unfold return_status.
  specialize (Hg q r). destruct (ok _); unfold after_call; cbn [fst snd trace grant_log set_request_st set_req modify mret M_ret fail];
    by rewrite Hg.
Qed.

(** How a function that replies with an entry behaves: it keeps the cache, and
    when it returns normally the kernel was granted the entry. *)
Record sends_entry (send : fuse_entry_param → M unit) : Prop := {
  sends_safe : ∀ sh p, Safe (at_shape sh) (send p);
  sends_grant : ∀ p s, is_Some (req_ (request s)) →
    wp (send p) (λ o s',
      grant_log (trace s') =
        match o with
        | Ret _ => ep_ino p :: grant_log (trace s)
        | _ => grant_log (trace s)
        end) s
}.

Lemma safe_reply sh c rc name : Safe (at_shape sh) (reply c rc name).
Proof. unfold reply. solve_safe. Qed.

Lemma sends_entry_reply c rc name :
  (∀ p req r, grant (Ev (c p req) r) = if rc p req r =? 0 then Some (ep_ino p) else None) →
  sends_entry (λ p, reply (c p) (rc p) name).
Proof.
  intros Hg. split; [intros; apply safe_reply|]. intros p s [q Hq].
  unfold wp, reply, get_req, gets, mbind, M_bind. simpl. rewrite Hq.
  unfold sys. destruct (os_step _ _) as [[r e] w]. simpl. unfold return_status.
  rewrite ok_ErrnoToStatus_pafs. specialize (Hg p q r).
  destruct (Z.eqb_spec (rc p q r) 0) as [E|E];
    [rewrite bool_decide_eq_true_2 by lia|rewrite bool_decide_eq_false_2 by lia];
    unfold after_call; cbn [fst snd trace grant_log set_request_st set_req modify mret M_ret fail]; by rewrite Hg.
Qed.

Lemma sends_ReplyEntry : sends_entry ReplyEntry.
Proof. by apply (sends_entry_reply (λ p r, F_reply_entry r p) (λ _ _ a, a)). Qed.

Lemma sends_ReplyCreate fi : sends_entry (λ p, ReplyCreate p fi).
Proof. by apply (sends_entry_reply (λ p r, F_reply_create r p fi) (λ _ _ a, a)). Qed.

End Grants.

#[export] Hint Resolve keeps_handed_pafs keeps_handed_dirs : keeps.
#[export] Hint Resolve safe_reply : safe.

(** ** Counts by address *)

Section Refs.
Context {AB : Absl} {LC : Libc} {PL : Platform}.

(** The reference count of the inode the kernel knows by number [a]. *)
Definition refs (p : PageAlignFS) (a : Z) : Z := default 0 (fst <$> entries p !! a).

Lemma refs_Some p a n k : cache_wf p → alpha p !! k = Some (a, n) → refs p a = n.
Proof. intros Hwf [_ [i Hi]]%alpha_Some. unfold refs. by rewrite Hi. Qed.

Lemma refs_None p a : cache_wf p → (∀ k n, alpha p !! k ≠ Some (a, n)) → refs p a = 0.
Proof.
  intros Hwf H. unfold refs. destruct (entries p !! a) as [[n i]|] eqn:E; [|done].
  by destruct (H _ _ (wf_alpha_entry p a n i Hwf E)).
Qed.

Lemma refs_cases p a :
  cache_wf p → (∃ k, alpha p !! k = Some (a, refs p a)) ∨
               (∀ k n, alpha p !! k ≠ Some (a, n)) ∧ refs p a = 0.
Proof.
  intros Hwf. destruct (entries p !! a) as [[n i]|] eqn:E.
  - left. exists (inode_key i). unfold refs. rewrite E. by apply wf_alpha_entry.
  - right. split; [|unfold refs; by rewrite E]. intros k n [_ [i Hi]]%alpha_Some. congruence.
Qed.

(** The abstract cache determines the counts. *)
Lemma refs_alpha p p' :
  cache_wf p → cache_wf p' → alpha p = alpha p' → ∀ b, refs p b = refs p' b.
Proof.
  intros Hwf Hwf' He b. destruct (refs_cases p b Hwf) as [[k Hk]|[Hn ->]].
  - rewrite He in Hk. symmetry. by apply (refs_Some p' b _ k).
  - symmetry. apply refs_None; [done|]. by rewrite <- He.
Qed.

Lemma refs_shape s s' b : shape s = shape s' → refs (pafs s) b = refs (pafs s') b.
Proof.
  intros Hs. pose proof (shape_entries s s' b Hs) as H. unfold refs.
  destruct (entries (pafs s) !! b) as [[]|], (entries (pafs s') !! b) as [[]|];
    simpl in *; by simplify_eq.
Qed.

(** An address is the abstract address of one key only. *)
Lemma alpha_injective p k k' a n n' :
  cache_wf p → alpha p !! k = Some (a, n) → alpha p !! k' = Some (a, n') → k = k'.
Proof. intros Hwf [H _]%alpha_Some [H' _]%alpha_Some. by apply (wf_injective p _ _ a). Qed.

(** Changing the count of one key changes the count of its address. *)
Lemma refs_set p p' k a n :
  cache_wf p → cache_wf p' → (∀ k' m, alpha p !! k' = Some (a, m) → k' = k) →
  (∀ b m, alpha p !! k = Some (b, m) → b = a) →
  alpha p' = <[k := (a, n)]> (alpha p) → ∀ b, refs p' b = if decide (a = b) then n else refs p b.
Proof.
  intros Hwf Hwf' Ha Hk He b. case_decide as Hab; [subst b|].
  - apply (refs_Some p' a n k); [done|]. by rewrite He, lookup_insert_eq.
  - destruct (refs_cases p b Hwf) as [[k' Hk']|[Hn ->]].
    + apply (refs_Some p' b _ k'); [done|]. rewrite He, lookup_insert_ne; [done|].
      intros <-. by destruct Hab, (Hk _ _ Hk').
    + apply refs_None; [done|]. intros k' m. rewrite He.
      intros [[? [=]]|[_ H]]%lookup_insert_Some; [done|]. by apply (Hn k' m).
Qed.

Lemma refs_insert p p' k a :
  cache_wf p → cache_wf p' → alpha p' = a_insert k a (alpha p) →
  (∃ n, alpha p' !! k = Some (a, n)) → ∀ b, refs p' b = refs p b + ind (a = b).
Proof.
  intros Hwf Hwf' He [n Hn] b. unfold a_insert in He.
  destruct (alpha p !! k) as [[a' c]|] eqn:Hk; simpl in He.
  - assert (a' = a) as ->. { rewrite He, lookup_insert_eq in Hn. congruence. }
    rewrite (refs_set p p' k a (c + 1)); [|done|done| |congruence|done].
    + unfold ind. case_decide as Hab; [|lia]. subst b. by rewrite (refs_Some p a c k).
    + intros k' m H. by apply (alpha_injective p k' k a m c).
  - assert (∀ k' m, alpha p !! k' ≠ Some (a, m)) as Hno.
    { intros k' m H. destruct (decide (k = k')) as [<-|Hne]; [congruence|].
      apply Hne. apply (alpha_injective p' k k' a 1 m Hwf');
        rewrite He; [by rewrite lookup_insert_eq|by rewrite lookup_insert_ne]. }
    rewrite (refs_set p p' k a 1); [|done|done| |congruence|done].
    + unfold ind. case_decide as Hab; [|lia]. subst b. by rewrite (refs_None p a Hwf).
    + intros k' m H. by destruct (Hno k' m).
Qed.

Lemma refs_unref p p' k a n m :
  cache_wf p → cache_wf p' → alpha p !! k = Some (a, m) → alpha p' = a_unref k n (alpha p) →
  ∀ b, refs p' b = refs p b - (if decide (a = b) then n else 0).
Proof.
  intros Hwf Hwf' Hk He b. unfold a_unref in He. rewrite Hk in He. simpl in He.
  destruct (decide (m = n)) as [<-|Hne].
  - case_decide as Hab; [subst b|].
    + rewrite (refs_Some p a m k) by done. rewrite refs_None; [lia|done|].
      intros k' c. rewrite He. intros [Hn H]%lookup_delete_Some.
      apply Hn. by apply (alpha_injective p k k' a m c).
    + rewrite Z.sub_0_r. destruct (refs_cases p b Hwf) as [[k' Hk']|[Hn ->]].
      * apply (refs_Some p' b _ k'); [done|]. rewrite He, lookup_delete_ne; [done|].
        intros <-. congruence.
      * apply refs_None; [done|]. intros k' c. rewrite He.
        intros [_ H]%lookup_delete_Some. by apply (Hn k' c).
  - rewrite (refs_set p p' k a (m - n)); [|done|done| |congruence|done].
    + case_decide as Hab; [|lia]. subst b. by rewrite (refs_Some p a m k).
    + intros k' c H. by apply (alpha_injective p k' k a c m).
Qed.

End Refs.

(** ** The effect of a lookup *)

Section Effects.
Context {AB : Absl} {LC : Libc} {PL : Platform} {AL : AbslLaws AB}.

(** What neither the counts nor the replies are about. *)
Definition rest (s : St) := (core (root_ (pafs s)), opts_ (pafs s), dirs s).

Lemma rest_shape s s' : shape s = shape s' → rest s = rest s'.
Proof.
  intros H. exact (f_equal (λ x, (x.1.1.2, x.1.2, x.2)) H).
Qed.

Lemma same_cache s s' :
  shape s' = shape s → cache_wf (pafs s) →
  rest s' = rest s ∧ cache_wf (pafs s') ∧ alpha (pafs s') = alpha (pafs s).
Proof.
  intros H Hwf. split; [by apply rest_shape|].
  split; [by apply (shape_wf s s')|by apply (shape_alpha s' s)].
Qed.

(** [m] runs to its end, touches no count and grants nothing. *)
Lemma wp_quietly {A} (m : M A) (Q : Outcome A → St → Prop) s :
  Safe (at_shape (shape s)) m → Keeps handed m →
  (∀ o s', no_crash o → shape s' = shape s → handed s' = handed s → Q o s') →
  wp m Q s.
Proof.
  intros Hs Hk H. apply wp_intro. intros o s' E. specialize (Hs s eq_refl). specialize (Hk s).
  unfold wp in Hs. rewrite E in Hs, Hk. destruct Hs. by apply H.
Qed.

(** One quiet step; its failure is a failure of the whole. *)
Lemma wp_bind_quietly {A C} (m : M A) (f : A → M C) (Q : Outcome C → St → Prop) s0 s :
  shape s = shape s0 → handed s = handed s0 →
  Safe (at_shape (shape s0)) m → Keeps handed m →
  (∀ st s', ok st = false → shape s' = shape s0 → handed s' = handed s0 → Q (Fail st) s') →
  (∀ a s', m s = (Ret a, s') → shape s' = shape s0 → handed s' = handed s0 → wp (f a) Q s') →
  wp (m ≫= f) Q s.
Proof.
  intros Hs Hh Hsafe Hk HF HR. rewrite wp_bind. apply wp_intro. intros o s' E.
  specialize (Hsafe s Hs). specialize (Hk s). unfold wp in Hsafe. rewrite E in Hsafe, Hk.
  destruct Hsafe as [Hc Hs']. simpl in *. destruct o as [a|st|c]; simpl; [| |done].
  - apply HR; [done..|congruence].
  - apply HF; [done..|congruence].
Qed.

Lemma safe_Inode_Create sh path fd : Safe (at_shape sh) (Inode_Create path fd).
Proof. solve_safe. Qed.
Lemma keeps_Inode_Create path fd : Keeps handed (Inode_Create path fd).
Proof. solve_keeps. Qed.

Lemma safe_CreateFuseEntryParam a g s :
  valid (IEntry a) s → Safe (at_shape (shape s)) (PageAlignFS.CreateFuseEntryParam a g).
Proof.
  intros Hv. pose proof (safe_read_inode (IEntry a) s Hv) as Hr.
  unfold PageAlignFS.CreateFuseEntryParam. apply safe_bind; [done|]. intros inode.
  apply safe_bind; [solve_safe|]. intros attr.
  apply safe_bind; [|solve_safe]. destruct g; [|solve_safe].
  apply safe_bind; [|solve_safe]. unfold GetGeneration. apply safe_bind; [done|]. solve_safe.
Qed.

Lemma keeps_CreateFuseEntryParam a g : Keeps handed (PageAlignFS.CreateFuseEntryParam a g).
Proof. solve_keeps. Qed.

(** The entry carries the inode it was made for. *)
Lemma CreateFuseEntryParam_ino a g s :
  wp (PageAlignFS.CreateFuseEntryParam a g)
     (λ o _, match o with Ret p => ep_ino p = a | _ => True end) s.
Proof.
  unfold PageAlignFS.CreateFuseEntryParam.
  repeat (rewrite wp_bind; apply wp_intro; intros [?|?|?] ? _; simpl; [|done..]). done.
Qed.

Lemma keeps_handed_Insert i : Keeps handed (Insert i).
Proof. solve_keeps. Qed.
Lemma keeps_handed_Ref i n : Keeps handed (Ref i n).
Proof. solve_keeps. Qed.
Lemma keeps_handed_Unref i n : Keeps handed (Unref i n).
Proof. solve_keeps. Qed.

(** A larger cache: the keys of the smaller one are at the same addresses. *)
Definition extends (A A' : Counts) : Prop :=
  ∀ k a n, A !! k = Some (a, n) → ∃ n', A' !! k = Some (a, n').

Lemma extends_insert k a A : extends A (a_insert k a A).
Proof.
  intros k' a' n H. unfold a_insert. destruct (A !! k) as [[b c]|] eqn:E.
  - destruct (decide (k = k')) as [<-|]; [|rewrite lookup_insert_ne by done; eauto].
    rewrite lookup_insert_eq. simplify_eq/=. eauto.
  - rewrite lookup_insert_ne; [eauto|congruence].
Qed.

Lemma extends_ref k m A : extends A (a_ref k m A).
Proof.
  intros k' a n H. unfold a_ref. destruct (decide (k = k')) as [<-|].
  - rewrite lookup_alter_eq, H. simpl. eauto.
  - rewrite lookup_alter_ne by done. eauto.
Qed.

Lemma valid_extends i s s' :
  cache_wf (pafs s) → extends (alpha (pafs s)) (alpha (pafs s')) → valid i s → valid i s'.
Proof.
  intros Hwf He. destruct i as [|a]; [intros; by eexists|]. unfold valid; simpl.
  intros [j Hj]. destruct (entries (pafs s) !! a) as [[n i]|] eqn:E; [|done].
  destruct (He _ _ _ (wf_alpha_entry _ a n i Hwf E)) as (n' & [_ [k Hk]]%alpha_Some).
  rewrite Hk. by eexists.
Qed.

Lemma valid_alpha a k n s : alpha (pafs s) !! k = Some (a, n) → valid (IEntry a) s.
Proof. intros [_ [i Hi]]%alpha_Some. unfold valid; simpl. rewrite Hi. by eexists. Qed.

(** No count is within [n] of overflowing. *)
Definition bounded (n : Z) (s : St) : Prop := ∀ k, count_of (alpha (pafs s)) k + n < two64.

Lemma a_insert_address k a b A n :
  a_insert k b A !! k = Some (a, n) → a_insert k b A = a_insert k a A.
Proof.
  unfold a_insert. destruct (A !! k); [done|]. rewrite lookup_insert_eq. by intros [= -> _].
Qed.

Lemma FindOrCreateInode_spec `{!PlatformLaws PL} parent path s :
  cache_wf (pafs s) → valid parent s → bounded 1 s →
  wp (PageAlignFS.FindOrCreateInode parent path) (λ o s',
    handed s' = handed s ∧ rest s' = rest s ∧ cache_wf (pafs s') ∧
    match o with
    | Ret a => ∃ k n, alpha (pafs s') = a_insert k a (alpha (pafs s)) ∧
                      alpha (pafs s') !! k = Some (a, n)
    | Fail st => ok st = false ∧ alpha (pafs s') = alpha (pafs s)
    | Crash _ => False
    end) s.
Proof.
  intros Hwf Hv Hb. unfold PageAlignFS.FindOrCreateInode. rewrite wp_bind.
  apply wp_quietly; [by apply safe_read_inode|solve_keeps|].
  intros [p|st|c] s1 Hc Hs Hh; simpl; [| |done].
  2: { destruct (same_cache s s1 Hs Hwf) as (? & ? & ?). by split_and!. }
  rewrite wp_bind. apply wp_quietly; [apply safe_Inode_Create|apply keeps_Inode_Create|].
  intros [i|st|c] s2 Hc2 Hs2 Hh2; simpl; [| |done].
  2: { destruct (same_cache s s2 ltac:(congruence) Hwf) as (? & ? & ?). split_and!; congruence. }
  assert (shape s2 = shape s) as Hs' by congruence.
  destruct (same_cache s s2 Hs' Hwf) as (Hrs & Hwf2 & Ha).
  destruct (Insert_spec i s2 Hwf2) as (a & s3 & p' & m & j & E & Hm & Hwf3 & Ha3 & He & Hk & Hr & Ho).
  { rewrite Ha. apply Hb. }
  unfold wp. pose proof (keeps_handed_Insert i s2) as Hh3. rewrite E in *. simpl in *.
  assert (pafs s3 = p') as <- by exact (f_equal (λ x, x.1.2) Hm).
  split_and!; [congruence| |done|].
  - rewrite <- Hrs. unfold rest. rewrite Hr, Ho. by rewrite (f_equal snd Hm : dirs s3 = dirs s2).
  - exists (inode_key i), m.
    assert (alpha (pafs s3) !! inode_key i = Some (a, m)) as Hl
      by (rewrite <- Hk; by apply wf_alpha_entry).
    split; [|done]. rewrite Ha3, Ha in *. by apply (a_insert_address _ _ _ _ m).
Qed.

End Effects.

(** ** Replies that carry an entry *)

Section Replies.
Context {AB : Absl} {LC : Libc} {PL : Platform} {AL : AbslLaws AB}.

(** [Ref] and [Unref] on a live entry, in terms of the abstract cache. *)
Lemma wp_Ref_alpha a k n m s :
  cache_wf (pafs s) → alpha (pafs s) !! k = Some (a, m) → 0 <= n → m + n < two64 →
  wp (Ref (IEntry a) n) (λ o s',
    o = Ret tt ∧ cache_wf (pafs s') ∧ alpha (pafs s') = a_ref k n (alpha (pafs s)) ∧
    rest s' = rest s ∧ handed s' = handed s) s.
Proof.
  intros Hwf Hk Hn Hlt. pose proof Hk as [Hi [j Hj]]%alpha_Some.
  destruct (Ref_spec a n s m j Hwf Hj Hn Hlt) as (p' & E & Hwf' & Ha & Hp).
  assert (inode_key j = k) as <-.
  { apply (alpha_injective (pafs s) _ _ a m m); [done|by apply wf_alpha_entry|done]. }
  unfold wp. rewrite E. simpl. split_and!; [done..| |done]. subst p'. done.
Qed.

Lemma wp_Unref_alpha a k n m s :
  cache_wf (pafs s) → alpha (pafs s) !! k = Some (a, m) → 0 <= n <= m →
  wp (Unref (IEntry a) n) (λ o s',
    o = Ret tt ∧ cache_wf (pafs s') ∧ alpha (pafs s') = a_unref k n (alpha (pafs s)) ∧
    rest s' = rest s ∧ handed s' = handed s) s.
Proof.
  intros Hwf Hk Hn. pose proof Hk as [Hi [j Hj]]%alpha_Some.
  assert (inode_key j = k) as <-.
  { apply (alpha_injective (pafs s) _ _ a m m); [done|by apply wf_alpha_entry|done]. }
  destruct (Unref_spec (IEntry a) j n s a m j Hwf) as (s' & p' & E & Hm & Hwf' & Ha & Hp);
    [by simpl; rewrite Hj|done..|].
  unfold wp. pose proof (keeps_handed_Unref (IEntry a) n s) as Hh. rewrite E in *. simpl in *.
  assert (pafs s' = p') as Hp' by exact (f_equal (λ x, x.1.2) Hm).
  rewrite Hp'. split_and!; [done..| |done].
  unfold rest. rewrite Hp', Hp, (f_equal snd Hm : dirs s' = dirs s).
  by case_decide.
Qed.

Lemma wp_shared_ptr_dtor a k m s :
  cache_wf (pafs s) → alpha (pafs s) !! k = Some (a, m) →
  wp (shared_ptr_dtor a) (λ o s',
    o = Ret tt ∧ cache_wf (pafs s') ∧ alpha (pafs s') = a_unref k 1 (alpha (pafs s)) ∧
    rest s' = rest s ∧ handed s' = handed s) s.
Proof.
  intros Hwf Hk. unfold shared_ptr_dtor. rewrite wp_log_if_error.
  pose proof (alpha_positive _ _ _ Hwf Hk). simpl in *.
  apply (wp_mono _ _ _ _ (wp_Unref_alpha a k 1 m s Hwf Hk ltac:(lia))).
  by intros o s' (-> & ?).
Qed.

(** Counting a reference for the kernel and replying: the reference stays when
    the reply was accepted and is taken back otherwise. *)
Lemma wp_ref_and_send send param k m s :
  sends_entry send → cache_wf (pafs s) → alpha (pafs s) !! k = Some (ep_ino param, m) →
  m + 1 < two64 → is_Some (req_ (request s)) →
  wp (Ref (IEntry (ep_ino param)) 1;;
      on_error (send param) (log_if_error (Unref (IEntry (ep_ino param)) 1)))
    (λ o s', cache_wf (pafs s') ∧ rest s' = rest s ∧
      match o with
      | Ret _ => alpha (pafs s') = a_ref k 1 (alpha (pafs s)) ∧
                 grant_log (trace s') = ep_ino param :: grant_log (trace s)
      | Fail st => ok st = false ∧ alpha (pafs s') = alpha (pafs s) ∧ grant_log (trace s') = grant_log (trace s)
      | Crash _ => False
      end) s.
Proof.
  intros Hsend Hwf Hk Hlt Hreq. set (a := ep_ino param) in *. rewrite wp_bind.
  apply (wp_mono _ _ _ _ (wp_Ref_alpha a k 1 m s Hwf Hk ltac:(lia) Hlt)).
  intros o s1 (-> & Hwf1 & Ha1 & Hr1 & Hh1). simpl. rewrite wp_on_error.
  pose proof (f_equal fst Hh1 : request s1 = request s) as Hq1.
  pose proof (f_equal snd Hh1 : grant_log (trace s1) = grant_log (trace s)) as Hg1.
  pose proof (sends_grant send Hsend param s1 ltac:(by rewrite Hq1)) as Hg.
  pose proof (sends_safe send Hsend (shape s1) param s1 eq_refl) as Hs.
  apply wp_intro. intros o s2 E. apply (wp_elim _ _ _ _ _ Hg) in E as Hg2.
  apply (wp_elim _ _ _ _ _ Hs) in E as [Hc Hs2].
  destruct (same_cache s1 s2 Hs2 Hwf1) as (Hr2 & Hwf2 & Ha2).
  destruct o as [[]|st|]; [| |done].
  - split_and!; [done|congruence|congruence|by rewrite Hg2, Hg1].
  - rewrite wp_log_if_error.
    assert (alpha (pafs s2) !! k = Some (a, m + 1)) as Hk2.
    { rewrite Ha2, Ha1. unfold a_ref. by rewrite lookup_alter_eq, Hk. }
    pose proof (alpha_positive _ _ _ Hwf Hk). simpl in *.
    apply (wp_mono _ _ _ _ (wp_Unref_alpha a k 1 (m + 1) s2 Hwf2 Hk2 ltac:(lia))).
    intros o s3 (-> & Hwf3 & Ha3 & Hr3 & Hh3). simpl.
    split_and!; [done|congruence|done| |].
    + rewrite Ha3, Ha2, Ha1. apply a_ref_unref. rewrite (count_of_Some _ _ _ _ Hk). lia.
    + rewrite (f_equal snd Hh3 : grant_log (trace s3) = grant_log (trace s2)). congruence.
Qed.

Lemma ok_cannot_span : ok PageAlignFS.cannot_span = false.
Proof. unfold ok, PageAlignFS.cannot_span. by rewrite code_MakeStatus. Qed.

(** What [reply_with] does while it holds the [shared_ptr] to the inode it found:
    the kernel's reference is there exactly when the reply was accepted. *)
Definition sent_entry (k : Z * Z) (a : Z) {A} (s1 : St) (o : Outcome A) (s2 : St) : Prop :=
  cache_wf (pafs s2) ∧ rest s2 = rest s1 ∧
  match o with
  | Ret _ => alpha (pafs s2) = a_ref k 1 (alpha (pafs s1)) ∧
             grant_log (trace s2) = a :: grant_log (trace s1)
  | Fail st => ok st = false ∧ alpha (pafs s2) = alpha (pafs s1) ∧ grant_log (trace s2) = grant_log (trace s1)
  | Crash _ => False
  end.

Lemma reply_with_body `{!PlatformLaws PL} send parent k a n s1 :
  sends_entry send → cache_wf (pafs s1) → alpha (pafs s1) !! k = Some (a, n) →
  n + 1 < two64 → valid parent s1 → is_Some (req_ (request s1)) →
  wp (p ← read_inode parent;
      inode ← read_inode (IEntry a);
      if negb (GetSourceDevice p =? GetSourceDevice inode) then fail PageAlignFS.cannot_span
      else
        param ← PageAlignFS.CreateFuseEntryParam a true;
        Ref (IEntry a) 1;;
        on_error (send param) (log_if_error (Unref (IEntry a) 1)))
    (sent_entry k a s1) s1.
Proof.
  intros Hsend Hwf1 Hk1 Hlt Hvp Hreq.
  assert (valid (IEntry a) s1) as Hva by by apply (valid_alpha a k n).
  assert (∀ (st : Status) s', ok st = false → shape s' = shape s1 → handed s' = handed s1 →
    sent_entry k a s1 (Fail st : Outcome unit) s') as HF.
  { intros st s' Hok Hs Hh. destruct (same_cache s1 s' Hs Hwf1) as (? & ? & ?).
    unfold sent_entry. split_and!; [done..|]. exact (f_equal snd Hh). }
  apply (wp_bind_quietly _ _ _ s1); [done..|by apply safe_read_inode|solve_keeps|done|].
  intros p s2 _ Hs2 Hh2.
  apply (wp_bind_quietly _ _ _ s1); [done..|by apply safe_read_inode|solve_keeps|done|].
  intros i s3 _ Hs3 Hh3. destruct (negb _); [exact (HF _ s3 ok_cannot_span Hs3 Hh3)|].
  apply (wp_bind_quietly _ _ _ s1); [done..|by apply safe_CreateFuseEntryParam|
    apply keeps_CreateFuseEntryParam|done|].
  intros param s4 Hp Hs4 Hh4.
  pose proof (wp_elim _ _ _ _ _ (CreateFuseEntryParam_ino a true s3) Hp) as Hino. simpl in Hino.
  destruct (same_cache s1 s4 Hs4 Hwf1) as (Hr4 & Hwf4 & Ha4).
  pose proof (f_equal fst Hh4 : request s4 = request s1) as Hq4.
  pose proof (f_equal snd Hh4 : grant_log (trace s4) = grant_log (trace s1)) as Hg4.
  unfold sent_entry. rewrite <- Hino. eapply wp_mono; [apply (wp_ref_and_send send param k n)|];
    [done..|congruence|done|congruence|].
  intros [] s5 (? & ? & H5); [destruct H5 as [? ?]|destruct H5 as (? & ? & ?)|done]; split_and!; congruence.
Qed.

(** The result of [reply_with]. *)
Definition replied_entry (s : St) (o : Outcome unit) (s' : St) : Prop :=
  cache_wf (pafs s') ∧ rest s' = rest s ∧
  match o with
  | Ret _ => ∃ k a n, alpha (pafs s') = a_insert k a (alpha (pafs s)) ∧
               alpha (pafs s') !! k = Some (a, n) ∧
               grant_log (trace s') = a :: grant_log (trace s)
  | Fail st => ok st = false ∧ alpha (pafs s') = alpha (pafs s) ∧ grant_log (trace s') = grant_log (trace s)
  | Crash _ => False
  end.

(** The deleter of the [shared_ptr] takes its own reference away again. *)
Lemma reply_with_deleter k a n s s1 o s2 :
  cache_wf (pafs s) → cache_wf (pafs s1) → rest s1 = rest s →
  grant_log (trace s1) = grant_log (trace s) →
  alpha (pafs s1) = a_insert k a (alpha (pafs s)) → alpha (pafs s1) !! k = Some (a, n) →
  sent_entry k a s1 o s2 →
  wp (shared_ptr_dtor a) (λ o' s3, o' = Ret tt ∧ replied_entry s o s3) s2.
Proof.
  intros Hwf Hwf1 Hr1 Hg1 Ha1 Hk1 (Hwf2 & Hr2 & H2).
  assert (∀ e, alpha (pafs s) !! k = Some e → 0 < e.2) as Hpos
    by (intros e He; apply (alpha_positive _ _ _ Hwf He)).
  destruct o as [[]|st|]; [destruct H2 as [Ha2 Hg2]|destruct H2 as (Hok & Ha2 & Hg2)|done].
  - assert (alpha (pafs s2) !! k = Some (a, n + 1)) as Hk2.
    { rewrite Ha2. unfold a_ref. by rewrite lookup_alter_eq, Hk1. }
    apply (wp_mono _ _ _ _ (wp_shared_ptr_dtor a k (n + 1) s2 Hwf2 Hk2)).
    intros o s3 (-> & Hwf3 & Ha3 & Hr3 & Hh3). split; [done|].
    assert (alpha (pafs s3) = alpha (pafs s1)) as Ha31.
    { rewrite Ha3, Ha2. apply a_ref_unref. rewrite (count_of_Some _ _ _ _ Hk1).
      by apply (alpha_positive _ _ _ Hwf1 Hk1). }
    unfold replied_entry. split_and!; [done|congruence|]. exists k, a, n. split_and!; [congruence..|].
    rewrite (f_equal snd Hh3 : grant_log (trace s3) = grant_log (trace s2)). congruence.
  - apply (wp_mono _ _ _ _ (wp_shared_ptr_dtor a k n s2 Hwf2 ltac:(congruence))).
    intros o s3 (-> & Hwf3 & Ha3 & Hr3 & Hh3). split; [done|].
    unfold replied_entry. split_and!; [done|congruence|done| |].
    + rewrite Ha3, Ha2, Ha1. by apply a_insert_unref.
    + rewrite (f_equal snd Hh3 : grant_log (trace s3) = grant_log (trace s2)). congruence.
Qed.

(** The whole of [ReplyWithLookup] and [ReplyWithCreate]. *)
Lemma reply_with_spec `{!PlatformLaws PL} send parent name s :
  sends_entry send → cache_wf (pafs s) → valid parent s → bounded 2 s →
  is_Some (req_ (request s)) →
  wp (PageAlignFS.reply_with send parent name) (replied_entry s) s.
Proof.
  intros Hsend Hwf Hv Hb Hreq. unfold PageAlignFS.reply_with. rewrite wp_bind.
  eapply wp_mono; [apply FindOrCreateInode_spec; [done..|intros k; specialize (Hb k); lia]|].
  intros [a|st|c] s1 (Hh1 & Hr1 & Hwf1 & H1); simpl; [| |done].
  2: { destruct H1. unfold replied_entry. split_and!; [done..|]. exact (f_equal snd Hh1). }
  destruct H1 as (k & n & Ha1 & Hk1). rewrite wp_on_exit.
  pose proof (f_equal fst Hh1 : request s1 = request s) as Hq1.
  pose proof (f_equal snd Hh1 : grant_log (trace s1) = grant_log (trace s)) as Hg1.
  assert (n + 1 < two64) as Hlt.
  { pose proof (count_a_insert (alpha (pafs s)) k a) as Hc. rewrite <- Ha1 in Hc.
    rewrite (count_of_Some _ _ _ _ Hk1) in Hc. specialize (Hb k). lia. }
  assert (valid parent s1) as Hvp.
  { apply (valid_extends parent s); [done| |done]. rewrite Ha1. apply extends_insert. }
  eapply wp_mono; [apply (reply_with_body send parent k a n s1); [done..|congruence]|].
  intros o s2 H2. pose proof (reply_with_deleter k a n s s1 o s2 Hwf Hwf1 Hr1 Hg1 Ha1 Hk1 H2) as H3.
  destruct o as [[]|st|]; [| |by destruct H2 as (_ & _ & [])];
    apply (wp_mono _ _ _ _ H3); by intros o' s3 [-> ?].
Qed.

End Replies.
