(* ===== verification/Conserve.v ===== *)
(** * Conservation of references

    [balanced s s']: between [s] and [s'] the reference count of every inode
    changed by exactly what was granted to the kernel in replies.  Every handler
    but [Forget], [ForgetMulti] and [ReadDirPlus] conserves references in this
    sense, and none of them crashes when the inode numbers it is given are those
    of live inodes. *)

From S2P Require Import Prelude Consts Absl Errno Status Machine Syscalls Raii Fuse Inode Pafs FuseOps Sim Cache Lookup.

Open Scope string_scope.
Open Scope Z_scope.

Section Conserve.
Context {AB : Absl} {LC : Libc} {PL : Platform} {AL : AbslLaws AB} {PWL : PlatformLaws PL}.

Definition glog (s : St) : list Z := grant_log (trace s).

#[export] Instance quiet_glog : Quiet glog.
Proof. apply quiet_intro; [done|]. intros c r e w s H. unfold glog. simpl. by destruct c. Qed.

#[export] Instance quiet_request : Quiet request.
Proof. by apply quiet_intro. Qed.

Lemma keeps_glog_reply c rc name :
  (∀ req r, grant (Ev (c req) r) = None) → Keeps glog (reply c rc name).
Proof. apply keeps_grants_reply. Qed.

Lemma keeps_glog_sys c : (∀ r, grant (Ev c r) = None) → Keeps glog (sys c).
Proof.
  intros Hg s. unfold sys. destruct (os_step _ _) as [[r e] w].
  unfold glog, after_call; cbn [snd trace grant_log]. by rewrite Hg.
Qed.

Lemma keeps_glog_modify g : (∀ s, trace (g s) = trace s) → Keeps glog (modify g).
Proof. intros H s. unfold glog, modify. simpl. by rewrite H. Qed.

Record balanced (s s' : St) : Prop := {
  bal_wf : cache_wf (pafs s) → cache_wf (pafs s');
  bal_refs : cache_wf (pafs s) →
    ∀ a, refs (pafs s') a - granted s' a = refs (pafs s) a - granted s a;
}.

Lemma balanced_refl s : balanced s s.
Proof. by split. Qed.

Lemma balanced_trans s1 s2 s3 : balanced s1 s2 → balanced s2 s3 → balanced s1 s3.
Proof.
  intros [H1 R1] [H2 R2]. split; [auto|]. intros Hwf a. rewrite R2 by auto. by apply R1.
Qed.

Lemma balanced_same s s' : pafs s' = pafs s → glog s' = glog s → balanced s s'.
Proof.
  intros Hp Hg. split; rewrite Hp; [done|]. intros _ a. unfold granted.
  by rewrite (Hg : grant_log (trace s') = grant_log (trace s)).
Qed.

Lemma balanced_quiet s s' : shape s' = shape s → glog s' = glog s → balanced s s'.
Proof.
  intros Hs Hg. split; [by apply (shape_wf s s')|]. intros Hwf a.
  rewrite (refs_shape s' s a Hs). unfold granted.
  by rewrite (Hg : grant_log (trace s') = grant_log (trace s)).
Qed.

(** [m] run from [s] does not crash and conserves references. *)
Definition Conserves {A} (m : M A) (s : St) : Prop :=
  wp m (λ o s', no_crash o ∧ balanced s s') s.

Lemma conserves_elim {A} (m : M A) s o s' :
  Conserves m s → m s = (o, s') → no_crash o ∧ balanced s s'.
Proof. unfold Conserves, wp. intros H E. by rewrite E in H. Qed.

Lemma conserves_wp {A} (m : M A) (Q : Outcome A → St → Prop) s :
  Conserves m s → (∀ o s', m s = (o, s') → no_crash o → balanced s s' → Q o s') → wp m Q s.
Proof. intros H HQ. apply wp_intro. intros o s' E. destruct (conserves_elim m s o s' H E). eauto. Qed.

Lemma conserves_quiet {A} (m : M A) s :
  Safe (at_shape (shape s)) m → Keeps glog m → Conserves m s.
Proof.
  intros Hs Hk. apply wp_intro. intros o s' E. specialize (Hs s eq_refl). specialize (Hk s).
  unfold wp in Hs. rewrite E in Hs, Hk. destruct Hs. split; [done|]. by apply balanced_quiet.
Qed.

Lemma conserves_bind {A B} (m : M A) (f : A → M B) s :
  Conserves m s →
  (∀ a s', m s = (Ret a, s') → balanced s s' → Conserves (f a) s') →
  Conserves (m ≫= f) s.
Proof.
  intros Hm Hf. unfold Conserves. rewrite wp_bind. apply (conserves_wp _ _ _ Hm). intros o s' E Hc Hb.
  destruct o as [a|st|c]; simpl; [|done..].
  apply (conserves_wp _ _ _ (Hf a s' E Hb)). intros o s'' _ ? ?.
  split; [done|]. by apply (balanced_trans _ s').
Qed.

(** A quiet step in front. *)
Lemma conserves_bind_quiet {A B} (m : M A) (f : A → M B) s :
  Safe (at_shape (shape s)) m → Keeps glog m → Keeps request m →
  (∀ a s', m s = (Ret a, s') → shape s' = shape s → request s' = request s → Conserves (f a) s') →
  Conserves (m ≫= f) s.
Proof.
  intros Hs Hk Hr Hf. apply conserves_bind; [by apply conserves_quiet|].
  intros a s' E _. apply Hf; [done|..].
  - specialize (Hs s eq_refl). unfold wp in Hs. rewrite E in Hs. apply Hs.
  - specialize (Hr s). by rewrite E in Hr.
Qed.

(** Destructors and early returns. *)
Lemma conserves_on_error {A} (m : M A) fin s :
  Conserves m s → (∀ s', Conserves fin s') → Conserves (on_error m fin) s.
Proof.
  intros Hm Hf. unfold Conserves. rewrite wp_on_error. apply (conserves_wp _ _ _ Hm).
  intros [a|st|c] s' _ Hc Hb; [done| |done]. apply (conserves_wp _ _ _ (Hf s')).
  intros [[]|?|?] s'' _ ? Hb'; simpl; split; try done; by apply (balanced_trans _ s').
Qed.

Lemma conserves_on_exit {A} (m : M A) fin s :
  Conserves m s → (∀ s', Conserves fin s') → Conserves (on_exit m fin) s.
Proof.
  intros Hm Hf. unfold Conserves. rewrite wp_on_exit. apply (conserves_wp _ _ _ Hm).
  intros [a|st|c] s' _ Hc Hb; [| |done]; apply (conserves_wp _ _ _ (Hf s'));
  intros [[]|?|?] s'' _ ? Hb'; simpl; split; try done; by apply (balanced_trans _ s').
Qed.

Lemma conserves_reply_with send parent name s :
  sends_entry send → cache_wf (pafs s) → valid parent s → bounded 2 s →
  is_Some (req_ (request s)) → Conserves (PageAlignFS.reply_with send parent name) s.
Proof.
  intros Hsend Hwf Hv Hb Hreq.
  apply (wp_mono _ _ _ _ (reply_with_spec send parent name s Hsend Hwf Hv Hb Hreq)).
  intros [[]|st|] s' (Hwf' & Hr & H); [| |done].
  - split; [done|]. split; [done|]. intros _ x. destruct H as (k & a & n & Ha & Hk & Hg).
    rewrite (refs_insert (pafs s) (pafs s') k a) by eauto.
    unfold granted. rewrite Hg. simpl. lia.
  - destruct H as (Hok & Ha & Hg). split; [done|]. split; [done|]. intros _ x.
    rewrite (refs_alpha (pafs s') (pafs s)) by done. unfold granted. by rewrite Hg.
Qed.

End Conserve.

#[export] Hint Extern 1 (Keeps glog (reply _ _ _)) =>
  apply keeps_glog_reply; intros; reflexivity : keeps.
#[export] Hint Extern 3 (Keeps glog (sys ?c)) =>
  refine (keeps_glog_sys c _); intros; reflexivity : keeps.
#[export] Hint Extern 1 (Keeps glog (modify _)) =>
  apply keeps_glog_modify; reflexivity : keeps.
#[export] Hint Extern 1 (Keeps request (modify _)) =>
  apply keeps_modify; reflexivity : keeps.
