(* ===== verification/Handlers.v ===== *)
(** * What each handler does to the reference counts

    One lemma per handler of [PageAlignFS]: given pointers to live inodes it does
    not crash and conserves references ([Conserve.Conserves]); [Forget] takes
    references away. *)

From S2P Require Import Prelude Consts Absl Errno Status Machine Syscalls Raii Fuse Inode Pafs FuseOps Sim Cache Lookup Conserve.

Open Scope string_scope.
Open Scope Z_scope.

Section Handlers.
Context {AB : Absl} {LC : Libc} {PL : Platform} {AL : AbslLaws AB} {PWL : PlatformLaws PL}.
Import PageAlignFS.

(** A handler that touches no count. *)
Local Ltac quiet := intros; apply conserves_quiet; [solve_safe|solve_keeps].

(** ** Handlers that reply with no entry *)

Lemma conserves_GetAttr ino s : valid (GetInode ino) s → Conserves (GetAttr ino) s.
Proof. quiet. Qed.

Lemma conserves_ReadLink ino s : valid (GetInode ino) s → Conserves (ReadLink ino) s.
Proof. quiet. Qed.

Lemma conserves_SetAttr ino attr to_set fi s : valid (GetInode ino) s → Conserves (SetAttr ino attr to_set fi) s.
Proof. quiet. Qed.

Lemma conserves_Unlink ino name s : valid (GetInode ino) s → Conserves (Unlink ino name) s.
Proof. quiet. Qed.

Lemma conserves_Rmdir ino name s : valid (GetInode ino) s → Conserves (Rmdir ino name) s.
Proof. quiet. Qed.

Lemma conserves_Open ino fi s : valid (GetInode ino) s → Conserves (Open ino fi) s.
Proof. quiet. Qed.

Lemma conserves_Release ino fi s : valid (GetInode ino) s → Conserves (Release ino fi) s.
Proof. quiet. Qed.

Lemma conserves_Read ino size off fi s : valid (GetInode ino) s → Conserves (Read ino size off fi) s.
Proof. quiet. Qed.

Lemma conserves_WriteBuf ino b off fi s : valid (GetInode ino) s → Conserves (WriteBuf ino b off fi) s.
Proof. quiet. Qed.

Lemma conserves_Flush ino fi s : valid (GetInode ino) s → Conserves (Flush ino fi) s.
Proof. quiet. Qed.

Lemma conserves_FSync ino d fi s : valid (GetInode ino) s → Conserves (FSync ino d fi) s.
Proof. quiet. Qed.

Lemma conserves_StatFS ino s : valid (GetInode ino) s → Conserves (StatFS ino) s.
Proof. quiet. Qed.

Lemma conserves_SetXAttr ino name v flags s : valid (GetInode ino) s → Conserves (SetXAttr ino name v flags) s.
Proof. quiet. Qed.

Lemma conserves_RemoveXAttr ino name s : valid (GetInode ino) s → Conserves (RemoveXAttr ino name) s.
Proof. quiet. Qed.

Lemma conserves_Access ino mask s : valid (GetInode ino) s → Conserves (Access ino mask) s.
Proof. quiet. Qed.

Lemma conserves_GetLk ino fi lock s : valid (GetInode ino) s → Conserves (GetLk ino fi lock) s.
Proof. quiet. Qed.

Lemma conserves_SetLk ino fi lock sleep s : valid (GetInode ino) s → Conserves (SetLk ino fi lock sleep) s.
Proof. quiet. Qed.

Lemma conserves_FLock ino fi op s : valid (GetInode ino) s → Conserves (FLock ino fi op) s.
Proof. quiet. Qed.

Lemma conserves_FAllocate ino mode off len fi s : valid (GetInode ino) s → Conserves (FAllocate ino mode off len fi) s.
Proof. quiet. Qed.

Lemma conserves_LSeek ino off whence fi s : valid (GetInode ino) s → Conserves (LSeek ino off whence fi) s.
Proof. quiet. Qed.


Lemma conserves_Rename parent name np nn flags s :
  valid (GetInode parent) s → valid (GetInode np) s →
  Conserves (Rename parent name np nn flags) s.
Proof. quiet. Qed.

Lemma conserves_CopyFileRange i1 o1 f1 i2 o2 f2 len flags s :
  valid (GetInode i1) s → valid (GetInode i2) s →
  Conserves (CopyFileRange i1 o1 f1 i2 o2 f2 len flags) s.
Proof. quiet. Qed.

(** The vector that is replied keeps the size it was allocated with. *)
Lemma length_overwrite size w :
  0 <= size → Z.of_nat (List.length (syscalls.overwrite size w)) = size.
Proof.
  intros H. unfold syscalls.overwrite, syscalls.zero_bytes.
  rewrite length_take, length_app, length_replicate. lia.
Qed.

Lemma conserves_ListXAttr ino size s :
  valid (GetInode ino) s → 0 <= size → Conserves (ListXAttr ino size) s.
Proof.
  intros Hv Hn. apply conserves_quiet; [|solve_keeps]. solve_safe.
  rewrite length_overwrite; lia.
Qed.

(** A probe with size 0 is excluded: see [GetXAttr_probe_crashes]. *)
Lemma wp_getxattr_fits path name size s :
  0 < size →
  wp (syscalls.getxattr path name size) (λ o s',
    no_crash o ∧ shape s' = shape s ∧ glog s' = glog s ∧
    match o with Ret buf => Z.of_nat (List.length buf) <= size | _ => True end) s.
Proof.
  intros Hs. unfold syscalls.getxattr, syscalls.getxattr_span, syscalls.value_call.
  rewrite !wp_bind. apply wp_sys_all. intros r e w E. simpl.
  pose proof (getxattr_fits path name size (world s) Hs) as Hr. rewrite E in Hr. simpl in Hr.
  case_match eqn:Hm.
  - split_and!; [|done..]. apply StatusOrStatus_not_ok.
  - unfold wp at 1; simpl. rewrite wp_bind, wp_check. destruct (Z.leb_spec r.1 size); [|lia].
    simpl. unfold wp; simpl. split_and!; [done..|].
    unfold syscalls.resize, syscalls.zero_bytes. rewrite length_app, length_take, length_replicate.
    rewrite length_overwrite by lia. pose proof (length_overwrite size r.2 ltac:(lia)). lia.
Qed.

Lemma conserves_GetXAttr ino name size s :
  valid (GetInode ino) s → 0 < size → Conserves (GetXAttr ino name size) s.
Proof.
  intros Hv Hn. unfold GetXAttr.
  apply conserves_bind_quiet; [solve_safe|solve_keeps|solve_keeps|].
  intros inode s1 _ _ _. unfold Conserves. rewrite wp_bind.
  eapply wp_mono; [by apply wp_getxattr_fits|].
  intros [buf|st|c] s2 (Hc & Hs & Hg & Hl); simpl; [| |done].
  2: { split; [done|]. by apply balanced_quiet. }
  rewrite wp_bind, wp_check. rewrite (proj2 (Z.leb_le _ _) Hl). simpl.
  eapply conserves_wp; [apply (conserves_quiet _ s2); [solve_safe|solve_keeps]|].
  intros o s3 _ Ho Hb. split; [done|]. apply (balanced_trans _ s2); [|done].
  by apply balanced_quiet.
Qed.

Lemma wp_poll_ready fds t s :
  wp (syscalls.poll fds t) (λ o s',
    no_crash o ∧ shape s' = shape s ∧ glog s' = glog s ∧
    match o with Ret r => r.1 <= Z.of_nat (List.length fds) | _ => True end) s.
Proof.
  unfold syscalls.poll. case_match; [split_and!; [apply StatusOrStatus_not_ok|done..]|].
  rewrite wp_bind. refine (wp_sys_all (C_poll fds _) _ s _). intros r e w E. simpl.
  pose proof (poll_ready fds (ToInt64Milliseconds t) (world s)) as Hr. rewrite E in Hr.
  case_match; [split_and!; [apply StatusOrStatus_not_ok|done..]|done].
Qed.

Lemma conserves_Poll ino fi ph s : valid (GetInode ino) s → Conserves (Poll ino fi ph) s.
Proof.
  intros Hv. unfold Poll.
  apply conserves_bind_quiet; [solve_safe|solve_keeps|solve_keeps|].
  intros i0 s0 _ Hs0 _. apply (valid_shape _ s s0) in Hv; [|done]. cbn [FusePollHandle_move].
  destruct (FusePollHandle_move ph) as [arg ph'].
  apply conserves_bind_quiet; [solve_safe|solve_keeps|solve_keeps|].
  intros _ s1 _ Hs1 _. apply (valid_shape _ s0 s1) in Hv; [|done].
  apply conserves_bind_quiet; [solve_safe|solve_keeps|solve_keeps|].
  intros i2 s2 _ _ _. unfold Conserves. rewrite wp_bind.
  eapply wp_mono; [apply wp_poll_ready|].
  intros [r|st|c] s3 (Hc & Hs & Hg & Hl); simpl; [| |done].
  2: { split; [done|]. by apply balanced_quiet. }
  rewrite wp_bind, wp_check. change (r.1 <= 1) in Hl. rewrite (proj2 (Z.leb_le _ _) Hl). simpl.
  eapply conserves_wp; [apply (conserves_quiet _ s3); [solve_safe|solve_keeps]|].
  intros o s4 _ Ho Hb. split; [done|]. apply (balanced_trans _ s3); [|done].
  by apply balanced_quiet.
Qed.

(** ** Handlers that reply with an entry *)

(** What a request finds when a handler starts. *)
Record ready (s : St) : Prop := {
  ready_wf : cache_wf (pafs s);
  ready_bounded : bounded 2 s;
  ready_req : is_Some (req_ (request s))
}.

Lemma ready_same s s' : shape s' = shape s → request s' = request s → ready s → ready s'.
Proof.
  intros Hs Hr [Hwf Hb Hq]. destruct (same_cache s s' Hs Hwf) as (_ & Hwf' & Ha).
  split; [done| |by rewrite Hr]. intros k. rewrite Ha. apply Hb.
Qed.

Lemma conserves_ReplyWithLookup i name s :
  ready s → valid i s → Conserves (ReplyWithLookup i name) s.
Proof. intros [] Hv. by apply conserves_reply_with; [apply sends_ReplyEntry|..]. Qed.

Lemma conserves_ReplyWithCreate i name fi s :
  ready s → valid i s → Conserves (ReplyWithCreate i name fi) s.
Proof. intros [] Hv. by apply conserves_reply_with; [apply sends_ReplyCreate|..]. Qed.

(** One quiet step in front of the reply. *)
Local Ltac step :=
  apply conserves_bind_quiet; [solve_safe|solve_keeps|solve_keeps|];
  let s' := fresh "s" in let Hs := fresh "Hs" in let Hr := fresh "Hr" in
  intros ? s' _ Hs Hr;
  repeat match goal with
  | H : valid _ ?s0 |- Conserves _ s' =>
      lazymatch s0 with s' => fail | _ => apply (valid_shape _ s0 s' (eq_sym Hs)) in H end
  end;
  match goal with H : ready ?s0 |- _ => apply (ready_same s0 s' Hs Hr) in H end;
  clear Hs Hr.

Lemma conserves_Lookup parent name s :
  ready s → valid (GetInode parent) s → Conserves (Lookup parent name) s.
Proof. intros. unfold Lookup. step. by apply conserves_ReplyWithLookup. Qed.

Lemma conserves_Mknod parent name mode rdev s :
  ready s → valid (GetInode parent) s → Conserves (Mknod parent name mode rdev) s.
Proof. intros. unfold Mknod. do 2 step. by apply conserves_ReplyWithLookup. Qed.

Lemma conserves_Mkdir parent name mode s :
  ready s → valid (GetInode parent) s → Conserves (Mkdir parent name mode) s.
Proof. intros. unfold Mkdir. do 2 step. by apply conserves_ReplyWithLookup. Qed.

Lemma conserves_Symlink link parent name s :
  ready s → valid (GetInode parent) s → Conserves (Symlink link parent name) s.
Proof. intros. unfold Symlink. do 2 step. by apply conserves_ReplyWithLookup. Qed.

Lemma conserves_Link ino newparent newname s :
  ready s → valid (GetInode ino) s → valid (GetInode newparent) s →
  Conserves (Link ino newparent newname) s.
Proof. intros. unfold Link. do 3 step. by apply conserves_ReplyWithLookup. Qed.

Lemma conserves_Create ino name mode fi s :
  ready s → valid (GetInode ino) s → Conserves (Create ino name mode fi) s.
Proof.
  intros. unfold Create. do 2 step. apply conserves_bind.
  - apply conserves_on_error; [by apply conserves_ReplyWithCreate|]. intros s'.
    apply conserves_quiet; [solve_safe|solve_keeps].
  - intros _ s' _ _. apply conserves_quiet; [solve_safe|solve_keeps].
Qed.

(** ** Directory handles *)

(** The [Directory] a handle points to. *)
Lemma conserves_deref_dir {A} (k : Directory → M A) fh d s :
  dirs s !! fh = Some d → Conserves (k d) s → Conserves (ds ← gets dirs; d ← deref (ds !! fh); k d) s.
Proof. intros Hd. unfold Conserves, wp, mbind, M_bind, gets. simpl. by rewrite Hd. Qed.

Lemma conserves_modify g s :
  pafs (g s) = pafs s → trace (g s) = trace s → Conserves (modify g) s.
Proof. intros Hp Ht. split; [done|]. apply balanced_same; [done|]. unfold glog. simpl. by rewrite Ht. Qed.

Lemma conserves_OpenDir ino fi s : valid (GetInode ino) s → Conserves (OpenDir ino fi) s.
Proof.
  intros Hv. unfold OpenDir.
  do 3 (apply conserves_bind_quiet; [solve_safe|solve_keeps|solve_keeps|];
        intros ? ?s _ Hs _; apply (valid_shape _ _ _ (eq_sym Hs)) in Hv; clear Hs).
  apply conserves_bind; [|intros; apply conserves_quiet; [solve_safe|solve_keeps]].
  unfold new_Directory. apply conserves_bind; [apply conserves_quiet; [solve_safe|solve_keeps]|].
  intros st s3 _ _. apply conserves_bind; [by apply conserves_modify|].
  intros; apply conserves_quiet; [solve_safe|solve_keeps].
Qed.

Lemma conserves_ReleaseDir ino fi s :
  valid (GetInode ino) s → fi_fh fi = 0 ∨ is_Some (dirs s !! fi_fh fi) →
  Conserves (ReleaseDir ino fi) s.
Proof.
  intros Hv Hd. unfold ReleaseDir.
  apply conserves_bind_quiet; [solve_safe|solve_keeps|solve_keeps|]. intros ? s' _ Hs _.
  destruct (Z.eqb_spec (fi_fh fi) 0) as [|Hne]; [by apply conserves_quiet; [solve_safe|solve_keeps]|].
  destruct Hd as [|[d Hd]]; [done|].
  apply (conserves_deref_dir _ _ d).
  { by rewrite (f_equal snd Hs : dirs s' = dirs s). }
  apply conserves_bind; [by apply conserves_modify|].
  intros; apply conserves_quiet; [solve_safe|solve_keeps].
Qed.

Lemma conserves_FSyncDir ino datasync fi d s :
  valid (GetInode ino) s → dirs s !! fi_fh fi = Some d → dir_ d ≠ 0 →
  Conserves (FSyncDir ino datasync fi) s.
Proof.
  intros Hv Hd Hnz. unfold FSyncDir.
  apply conserves_bind_quiet; [solve_safe|solve_keeps|solve_keeps|]. intros ? s' _ Hs _.
  apply (conserves_deref_dir _ _ d).
  { by rewrite (f_equal snd Hs : dirs s' = dirs s). }
  unfold Directory_deref. rewrite (proj2 (Z.eqb_neq _ _) Hnz).
  apply conserves_quiet; [solve_safe|solve_keeps].
Qed.

(** ** Forgetting *)

(** The counts changed by [d]; no reply was sent and nothing else changed. *)
Record shifted (d : Z → Z) (s s' : St) : Prop := {
  shifted_wf : cache_wf (pafs s');
  shifted_handed : handed s' = handed s;
  shifted_rest : rest s' = rest s;
  shifted_refs : ∀ a, refs (pafs s') a = refs (pafs s) a + d a
}.

Lemma shifted_trans d1 d2 d s1 s2 s3 :
  shifted d1 s1 s2 → shifted d2 s2 s3 → (∀ a, d a = d1 a + d2 a) → shifted d s1 s3.
Proof.
  intros [W1 H1 R1 E1] [W2 H2 R2 E2] Hd. split; [done|congruence..|].
  intros a. rewrite E2, E1, Hd. lia.
Qed.

Lemma shifted_quiet s s' :
  cache_wf (pafs s) → shape s' = shape s → handed s' = handed s → shifted (λ _, 0) s s'.
Proof.
  intros Hwf Hs Hh. destruct (same_cache s s' Hs Hwf) as (Hr & Hwf' & _).
  split; [done..|]. intros a. rewrite (refs_shape s' s a Hs). lia.
Qed.

Lemma refs_live p a :
  cache_wf p → 0 < refs p a → ∃ k, alpha p !! k = Some (a, refs p a) ∧ a ≠ FUSE_ROOT_ID.
Proof.
  intros Hwf Hr. destruct (refs_cases p a Hwf) as [[k Hk]|[_ E]]; [|lia].
  exists k. split; [done|]. apply alpha_Some in Hk as [_ [i Hi]].
  pose proof (wf_addr p Hwf a _ Hi). lia.
Qed.

Lemma GetInode_entry a : a ≠ FUSE_ROOT_ID → GetInode a = IEntry a.
Proof. unfold GetInode. intros H. by rewrite (proj2 (Z.eqb_neq _ _) H). Qed.

Lemma Unref_forgets a n s :
  cache_wf (pafs s) → 0 < n <= refs (pafs s) a →
  wp (Unref (GetInode a) n) (λ o s',
    o = Ret tt ∧ shifted (λ b, if decide (a = b) then - n else 0) s s') s.
Proof.
  intros Hwf Hn. destruct (refs_live (pafs s) a Hwf ltac:(lia)) as (k & Hk & Hne).
  rewrite GetInode_entry by done.
  eapply wp_mono; [by apply (wp_Unref_alpha a k n (refs (pafs s) a)); [..|lia]|].
  intros o s' (-> & Hwf' & Ha & Hr & Hh). split; [done|]. split; [done..|].
  intros b. rewrite (refs_unref (pafs s) _ k a n (refs (pafs s) a)) by done. case_decide; lia.
Qed.

Lemma Forget_forgets a n s :
  cache_wf (pafs s) → 0 < n <= refs (pafs s) a →
  wp (Forget a n) (λ o s',
    o = Ret tt ∧ shifted (λ b, if decide (a = b) then - n else 0) s s') s.
Proof.
  intros Hwf Hn. destruct (refs_live (pafs s) a Hwf ltac:(lia)) as (k & Hk & Hne).
  destruct (valid_alpha a k _ s Hk) as [i Hi].
  pose proof (Unref_forgets a n s Hwf Hn) as H. rewrite GetInode_entry in H by done.
  unfold Forget. rewrite GetInode_entry by done.
  unfold wp, read_inode, mbind, M_bind, gets in *. simpl. simpl in Hi. by rewrite Hi.
Qed.

(** What a batch takes from one inode. *)
Fixpoint batch (l : list fuse_forget_data) (a : Z) : Z :=
  match l with
  | [] => 0
  | f :: l => (if decide (fg_ino f = a) then fg_nlookup f else 0) + batch l a
  end.

Lemma batch_nonneg l a : Forall (λ f, 0 < fg_nlookup f) l → 0 <= batch l a.
Proof. induction 1; simpl; [done|]. case_decide; lia. Qed.

Lemma ForgetMulti_forgets l s :
  cache_wf (pafs s) → Forall (λ f, 0 < fg_nlookup f) l → (∀ a, batch l a <= refs (pafs s) a) →
  wp (ForgetMulti l) (λ o s', o = Ret tt ∧ shifted (λ a, - batch l a) s s') s.
Proof.
  unfold ForgetMulti. revert s. induction l as [|f l IH]; intros s Hwf Hpos Hle; simpl.
  { split; [done|]. split; [done..|]. intros a. simpl. lia. }
  apply Forall_cons in Hpos as [Hf Hpos]. rewrite wp_bind.
  eapply wp_mono; [apply Unref_forgets; [done|]|].
  { specialize (Hle (fg_ino f)). simpl in Hle. rewrite decide_True in Hle by done.
    pose proof (batch_nonneg l (fg_ino f) Hpos). lia. }
  intros o s1 (-> & H1). simpl.
  eapply wp_mono; [apply IH; [apply H1|done|]|].
  { intros a. rewrite (shifted_refs _ _ _ H1). specialize (Hle a). simpl in Hle.
    case_decide; lia. }
  intros o s2 (-> & H2). split; [done|]. apply (shifted_trans _ _ _ _ _ _ H1 H2).
  intros a. simpl. case_decide; lia.
Qed.

End Handlers.

Create HintDb handlers discriminated.
#[export] Hint Resolve conserves_GetAttr conserves_ReadLink conserves_SetAttr conserves_Unlink conserves_Rmdir conserves_Open conserves_Release conserves_Read conserves_WriteBuf conserves_Flush conserves_FSync conserves_StatFS conserves_SetXAttr conserves_RemoveXAttr conserves_Access conserves_GetLk conserves_SetLk conserves_FLock conserves_FAllocate conserves_LSeek conserves_Rename conserves_CopyFileRange conserves_ListXAttr conserves_GetXAttr conserves_Poll conserves_Lookup conserves_Mknod conserves_Mkdir conserves_Symlink conserves_Link conserves_Create conserves_OpenDir conserves_ReleaseDir conserves_FSyncDir : handlers.
