(* ===== verification/CacheSpec.v ===== *)
(** * The abstract specification of the inode cache

    To its clients the cache is a finite map from (device, inode number) to the
    address of an inode and a count.  [a_step] says what each operation does to
    that map, without the heap, the two-level map or the inodes themselves;
    [cache_refines] shows that the code's operations are such steps. *)

From S2P Require Import Prelude Consts Absl Errno Status Machine Syscalls Raii Fuse Inode Pafs Sim Cache Lookup Conserve Handlers.

Open Scope string_scope.
Open Scope Z_scope.

Section CacheSpec.
Context {AB : Absl} {LC : Libc} {PL : Platform} {AL : AbslLaws AB} {PWL : PlatformLaws PL}.

Inductive cache_op : Type :=
  | OpInsert (i : Inode)
  | OpRef (a n : Z)
  | OpUnref (a n : Z).

Definition run_op (o : cache_op) : M unit :=
  match o with
  | OpInsert i => _ ← Insert i; mret tt
  | OpRef a n => Ref (IEntry a) n
  | OpUnref a n => Unref (IEntry a) n
  end.

Fixpoint run_ops (l : list cache_op) : M unit :=
  match l with
  | [] => mret tt
  | o :: l => run_op o;; run_ops l
  end.

(** A new key gets an address no other key has; references are only counted up
    or down on a key that is there, and not below zero. *)
Inductive a_step : cache_op → Counts → Counts → Prop :=
  | a_step_insert i a A :
      (A !! inode_key i = None → ∀ k n, A !! k ≠ Some (a, n)) →
      a_step (OpInsert i) A (a_insert (inode_key i) a A)
  | a_step_ref a n k m A :
      A !! k = Some (a, m) → a_step (OpRef a n) A (a_ref k n A)
  | a_step_unref a n k m A :
      A !! k = Some (a, m) → n <= m → a_step (OpUnref a n) A (a_unref k n A).

Inductive a_steps : list cache_op → Counts → Counts → Prop :=
  | a_steps_nil A : a_steps [] A A
  | a_steps_cons o l A1 A2 A3 : a_step o A1 A2 → a_steps l A2 A3 → a_steps (o :: l) A1 A3.

(** How much an operation may add to a count. *)
Definition adds (o : cache_op) : Z :=
  match o with OpInsert _ => 1 | OpRef _ n => n | OpUnref _ _ => 0 end.
Definition total (l : list cache_op) : Z := fold_right Z.add 0 (map adds l).
Definition not_negative (o : cache_op) : Prop :=
  match o with OpInsert _ => True | OpRef _ n | OpUnref _ n => 0 <= n end.

Lemma count_ref k k' n A : 0 <= n → count_of (a_ref k n A) k' <= count_of A k' + n.
Proof.
  intros Hn. unfold count_of, a_ref. destruct (decide (k = k')) as [<-|].
  - rewrite lookup_alter_eq. destruct (A !! k) as [[]|]; simpl; lia.
  - rewrite lookup_alter_ne by done. lia.
Qed.

Lemma count_insert k k' a A : count_of (a_insert k a A) k' <= count_of A k' + 1.
Proof.
  destruct (decide (k = k')) as [<-|]; [rewrite count_a_insert; lia|].
  rewrite count_a_insert_ne by done. lia.
Qed.

Lemma count_unref k k' n A :
  0 <= n → (∀ k e, A !! k = Some e → 0 <= e.2) → count_of (a_unref k n A) k' <= count_of A k'.
Proof.
  intros Hn HA. unfold count_of, a_unref. destruct (A !! k) as [[a m]|] eqn:E; [|lia]. simpl.
  pose proof (HA k _ E) as Hm. simpl in Hm.
  destruct (decide (k = k')) as [<-|].
  - rewrite E. case_decide; rewrite ?lookup_delete_eq, ?lookup_insert_eq; simpl; lia.
  - case_decide; rewrite ?lookup_delete_ne, ?lookup_insert_ne by done; lia.
Qed.

(** A run of [Ref] or [Unref] that returns found the entry it was given. *)
Lemma read_inode_ret i (k : Inode → M unit) s x s' :
  (inode ← read_inode i; k inode) s = (Ret x, s') →
  ∃ inode, lookup_inode (pafs s) i = Some inode ∧ k inode s = (Ret x, s').
Proof.
  unfold read_inode, mbind, M_bind, gets. simpl.
  destruct (lookup_inode (pafs s) i) as [inode|]; simpl; [|done]. eauto.
Qed.

Lemma lookup_entry s a inode :
  lookup_inode (pafs s) (IEntry a) = Some inode → ∃ n, entries (pafs s) !! a = Some (n, inode).
Proof. simpl. destruct (entries (pafs s) !! a) as [[n i]|]; [intros [= ->]; eauto|done]. Qed.

Lemma run_op_refines o s s' :
  cache_wf (pafs s) → not_negative o → (∀ k, count_of (alpha (pafs s)) k + adds o < two64) →
  run_op o s = (Ret tt, s') →
  cache_wf (pafs s') ∧ a_step o (alpha (pafs s)) (alpha (pafs s')).
Proof.
  intros Hwf Hn Hlt E. destruct o as [i|a n|a n]; simpl in *.
  - destruct (Insert_spec i s Hwf) as (a & s1 & p & m & j & E1 & Hm & Hwf1 & Ha & He & Hk & _);
      [apply Hlt|].
    unfold mbind, M_bind in E. rewrite E1 in E. injection E as <-.
    assert (pafs s1 = p) as -> by exact (f_equal (λ x, x.1.2) Hm).
    split; [done|]. rewrite Ha. apply a_step_insert. intros Hnone k' n [_ [i' Hi']]%alpha_Some.
    apply (fresh_not_live (live s)). unfold live. apply elem_of_union_l, elem_of_dom. eauto.
  - unfold Ref in E. apply read_inode_ret in E as E'. destruct E' as (inode & Hi & _).
    destruct (lookup_entry _ _ _ Hi) as [m He].
    destruct (Ref_spec a n s m inode Hwf He Hn) as (p & E1 & Hwf1 & Ha & _).
    { pose proof (wf_alpha_entry _ _ _ _ Hwf He) as Hk. specialize (Hlt (inode_key inode)).
      by rewrite (count_of_Some _ _ _ _ Hk) in Hlt. }
    unfold Ref in E1. rewrite E1 in E. injection E as <-. simpl. split; [done|].
    rewrite Ha. apply (a_step_ref _ _ _ m). by apply wf_alpha_entry.
  - unfold Unref in E. apply read_inode_ret in E as E'. destruct E' as (inode & Hi & _).
    destruct (lookup_entry _ _ _ Hi) as [m He].
    pose proof (wf_entry _ Hwf a _ He) as Hk. simpl in Hk.
    destruct (Z_lt_le_dec m n) as [Hlt'|Hle].
    { pose proof (Unref_underflow (IEntry a) inode n s a m inode Hi Hk He Hlt') as E1.
      unfold Unref in E1. congruence. }
    destruct (Unref_spec (IEntry a) inode n s a m inode Hwf Hi Hk He) as (s1 & p & E1 & Hm & Hwf1 & Ha & _);
      [done|].
    unfold Unref in E1. rewrite E1 in E. injection E as <-.
    assert (pafs s1 = p) as -> by exact (f_equal (λ x, x.1.2) Hm).
    split; [done|]. rewrite Ha. apply (a_step_unref _ _ _ m); [by apply wf_alpha_entry|done].
Qed.

Lemma a_step_count o A A' k :
  not_negative o → (∀ k e, A !! k = Some e → 0 <= e.2) → a_step o A A' →
  count_of A' k <= count_of A k + adds o.
Proof.
  intros Hn HA H. destruct H; simpl in *.
  - apply count_insert.
  - by apply count_ref.
  - rewrite Z.add_0_r. by apply count_unref.
Qed.

(** C8: refinement: any sequence of cache operations that the code runs to its
    end, from a well-formed cache and short of 2^64 references, is a run of the
    abstract cache from the abstraction of the first state to that of the last,
    and ends in a well-formed cache. *)
Theorem cache_refines l s s' :
  cache_wf (pafs s) → Forall not_negative l →
  (∀ k, count_of (alpha (pafs s)) k + total l < two64) →
  run_ops l s = (Ret tt, s') →
  cache_wf (pafs s') ∧ a_steps l (alpha (pafs s)) (alpha (pafs s')).
Proof.
  revert s. induction l as [|o l IH]; intros s Hwf Hn Hlt E; simpl in E.
  { injection E as <-. split; [done|constructor]. }
  apply Forall_cons in Hn as [Ho Hn]. unfold mbind, M_bind in E.
  destruct (run_op o s) as [[[]|st|c] s1] eqn:E1; [|done..].
  assert (0 <= total l) as Ht.
  { clear -Hn. unfold total. induction Hn as [|x l Hx _ IHl]; simpl; [done|].
    destruct x; simpl in *; lia. }
  destruct (run_op_refines o s s1 Hwf Ho) as [Hwf1 Hs1]; [|done|].
  { intros k. specialize (Hlt k). unfold total in *. simpl in Hlt. lia. }
  destruct (IH s1 Hwf1 Hn) as [Hwf' Hs]; [|done|].
  - intros k. specialize (Hlt k).
    pose proof (a_step_count o _ _ k Ho (λ k e H, Z.lt_le_incl _ _ (proj1 (alpha_positive _ k e Hwf H))) Hs1).
    unfold total in *. simpl in Hlt. lia.
  - split; [done|]. by apply (a_steps_cons _ _ _ (alpha (pafs s1))).
Qed.

(** C20: what the code does with a reference it cannot take or give back: an
    inode whose key is not in the map is reported as an internal error and
    nothing changes; taking away more references than there are aborts the
    process.  Neither happens silently. *)
Theorem Unref_errors i inode n s :
  lookup_inode (pafs s) i = Some inode →
  (alpha (pafs s) !! inode_key inode = None → cache_wf (pafs s) →
     ∃ st, code st = kInternal ∧ Unref i n s = (Fail st, s) ∧ ∃ st', code st' = kInternal ∧ Ref i n s = (Fail st', s)) ∧
  (∀ a m, alpha (pafs s) !! inode_key inode = Some (a, m) → m < n → Unref i n s = (Crash CheckFailed, s)).
Proof.
  intros Hi. split.
  - intros Hk Hwf. apply (alpha_None _ _ Hwf) in Hk. exists (no_entry "Was asked to unref inode " inode).
    split; [apply code_MakeStatus|]. split; [by apply Unref_missing|].
    exists (no_entry "Was asked to ref inode " inode). split; [apply code_MakeStatus|].
    unfold Ref, read_inode, mbind, M_bind, gets. rewrite Hi. simpl. by rewrite Hk.
  - intros a m [Hk [j He]]%alpha_Some Hlt. by apply (Unref_underflow i inode n s a m j).
Qed.

End CacheSpec.

(** ** A run: the same inode twice, more references, and all given back *)

Module CacheSpecRun.

Definition demo_platform : @Platform sim_absl := sim_platform no_failure sample_tree.
#[local] Existing Instance sim_absl.
#[local] Existing Instance sim_libc.
#[local] Existing Instance demo_platform.
Definition laws : PlatformLaws demo_platform := sim_platform_laws no_failure sample_tree.
#[local] Existing Instance laws.

Definition start : St := sample_state no_failure sample_world.
Definition file (fd : Z) : Inode := mkInode (FD fd) 11 64 None (PH 0).
Definition script : list cache_op :=
  [OpInsert (file 8); OpInsert (file 9); OpRef 16 2; OpUnref 16 4].

Lemma cache_refines_witness :
  a_steps script ∅ (alpha (pafs (run_ops script start).2)) ∧
  returned (run_ops script start).1 = true.
Proof.
  assert (returned (run_ops script start).1 = true) as E by (vm_compute; reflexivity).
  split; [|exact E].
  refine (proj2 (cache_refines script start (run_ops script start).2 _ _ _ (returned_unit _ _ E))).
  - by apply cache_wf_empty.
  - unfold script. repeat constructor; simpl; lia.
  - intros k. unfold count_of. replace (alpha (pafs start)) with (∅ : Counts) by reflexivity.
    rewrite lookup_empty. simpl. reflexivity.
Defined.

Lemma Unref_errors_witness :
  lookup_inode (pafs start) IRoot = Some sample_root ∧
  ∃ st, code st = kInternal ∧ Unref IRoot 1 start = (Fail st, start).
Proof.
  split; [reflexivity|].
  destruct (Unref_errors IRoot sample_root 1 start eq_refl) as [H _].
  destruct H as (st & Hc & E & _); [reflexivity|by apply cache_wf_empty|]. by exists st.
Defined.

End CacheSpecRun.
