(* ===== verification/ReadDir.v ===== *)
(** * Listing directories

    The buffer of [FuseDirsBuilder] never outgrows the size the kernel asked for,
    the loop of [ReadDirInternal] ends, and the reference counts are those of
    the entries replied: [ReadDir] changes none, [ReadDirPlus] adds one per entry
    when its reply is accepted and none when anything fails. *)

From S2P Require Import Prelude Consts Absl Errno Status Machine Syscalls Raii Fuse Inode Pafs FuseOps Sim Cache Lookup Conserve Handlers.

Open Scope string_scope.
Open Scope Z_scope.

Section ReadDir.
Context {AB : Absl} {LC : Libc} {PL : Platform} {AL : AbslLaws AB} {PWL : PlatformLaws PL}.
Import PageAlignFS.

(** ** The buffer *)

Record listed : Type := { le_name : string; le_param : fuse_entry_param; le_off : Z }.

Definition entry_size (plus : bool) (e : listed) : Z :=
  (add_direntry plus (le_name e) (le_param e) (le_off e) 0).1.

(** What an entry adds to the buffer. *)
Definition entry_bytes (plus : bool) (e : listed) : bytes :=
  syscalls.overwrite (entry_size plus e)
    (add_direntry plus (le_name e) (le_param e) (le_off e) (entry_size plus e)).2.

Definition listing (plus : bool) (l : list listed) : bytes :=
  List.concat (map (entry_bytes plus) l).

Lemma entry_size_pos plus e : 0 < entry_size plus e.
Proof. unfold entry_size, add_direntry. destruct plus; [apply direntry_plus_pos|apply direntry_pos]. Qed.

Lemma entry_size_bound plus e :
  Z.of_nat (String.length (le_name e)) <= 255 → entry_size plus e <= 415.
Proof.
  intros H. unfold entry_size, add_direntry. destruct plus.
  - pose proof (direntry_plus_bound (le_name e) (le_param e) (le_off e)). lia.
  - pose proof (direntry_bound (le_name e) (ep_attr (le_param e)) (le_off e)). lia.
Qed.

(** libfuse's formatter fills exactly the bytes it asked for. *)
Lemma entry_bytes_eq plus e :
  entry_bytes plus e =
  (add_direntry plus (le_name e) (le_param e) (le_off e) (entry_size plus e)).2.
Proof.
  unfold entry_bytes, syscalls.overwrite. pose proof (entry_size_pos plus e) as Hp.
  apply take_app_length'. apply Nat2Z.inj. rewrite Z2Nat.id by lia.
  unfold entry_size, add_direntry in *. destruct plus.
  - rewrite direntry_plus_bytes, (direntry_plus_size (_.1)). by rewrite Z.leb_refl.
  - rewrite direntry_bytes, (direntry_size (_.1)). by rewrite Z.leb_refl.
Qed.

Lemma length_entry_bytes plus e : Z.of_nat (List.length (entry_bytes plus e)) = entry_size plus e.
Proof. apply length_overwrite. pose proof (entry_size_pos plus e). lia. Qed.

Lemma length_listing_snoc plus l e :
  Z.of_nat (List.length (listing plus (l ++ [e])%list)) =
  Z.of_nat (List.length (listing plus l)) + entry_size plus e.
Proof.
  unfold listing. rewrite map_app, concat_app, length_app. simpl. rewrite app_nil_r.
  rewrite Nat2Z.inj_add, length_entry_bytes. lia.
Qed.

(** A builder that holds the entries [l] and has kept to its size. *)
Record holds (plus : bool) (size : Z) (l : list listed) (b : FuseDirsBuilder) : Prop := {
  holds_plus : plus_ b = plus;
  holds_size : maxsize_ b = size;
  holds_buf : buf_ b = listing plus l;
  holds_fits : Z.of_nat (List.length (buf_ b)) <= size
}.

(** [AddDirEntry]: the entry is appended if it fits and the builder is unchanged
    if it does not; nothing else happens and the [CHECK] never fails. *)
Lemma AddDirEntry_eq plus size l b e s :
  holds plus size l b → is_Some (req_ (request s)) →
  Z.of_nat (String.length (le_name e)) <= 255 → size + 415 < two64 →
  AddDirEntry b (le_name e) (le_param e) (le_off e) s =
    (Ret (if size <? entry_size plus e + Z.of_nat (List.length (buf_ b))
          then (false, b)
          else (true, mkDirs plus size (buf_ b ++ entry_bytes plus e)%list)), s).
Proof.
  intros [Hp Hz Hb Hf] [q Hq] Hn Hlt. pose proof (entry_size_pos plus e) as Hpos.
  pose proof (entry_size_bound plus e Hn).
  unfold AddDirEntry, Get, get_req, mbind, M_bind, gets. simpl. rewrite Hq, Hp, Hz. simpl.
  change (add_direntry plus (le_name e) (le_param e) (le_off e) 0).1 with (entry_size plus e).
  rewrite u64_add_small by lia. destruct (_ <? _); [done|].
  assert ((add_direntry plus (le_name e) (le_param e) (le_off e) (entry_size plus e)).1
          = entry_size plus e) as ->.
  { unfold entry_size, add_direntry. destruct plus; [apply direntry_plus_size|apply direntry_size]. }
  unfold check. by rewrite Z.eqb_refl.
Qed.

Lemma holds_snoc plus size l b e :
  holds plus size l b → entry_size plus e + Z.of_nat (List.length (buf_ b)) <= size →
  holds plus size (l ++ [e])%list (mkDirs plus size (buf_ b ++ entry_bytes plus e)%list).
Proof.
  intros [Hp Hz Hb Hf] Hle. split; simpl; [done|done| |].
  - rewrite Hb. unfold listing. rewrite map_app, concat_app. simpl. by rewrite app_nil_r.
  - rewrite length_app, Nat2Z.inj_add, length_entry_bytes. lia.
Qed.

Lemma holds_nil plus size : 0 <= size → holds plus size [] (FuseDirsBuilder_new plus size).
Proof. by split. Qed.

(** ** The loop *)

(** The references of the entries listed so far: with [plus] the vector's
    pointer and the kernel's reference each hold one. *)
Definition inos (l : list listed) : list Z := map (λ e, ep_ino (le_param e)) l.

Lemma occurrences_app a l l' : occurrences a (l ++ l')%list = occurrences a l + occurrences a l'.
Proof. induction l; simpl; lia. Qed.

Lemma occurrences_nonneg a l : 0 <= occurrences a l.
Proof. induction l as [|b l IH]; simpl; [done|]. pose proof (ind_range (b = a)). lia. Qed.

Lemma occurrences_length a l : occurrences a l <= Z.of_nat (List.length l).
Proof. induction l as [|b l IH]; simpl; [done|]. pose proof (ind_range (b = a)). lia. Qed.

(** No count is within [n] of overflowing, by address. *)
Definition room (n : Z) (s : St) : Prop := ∀ a, refs (pafs s) a + n < two64.

Lemma bounded_room n s : cache_wf (pafs s) → n < two64 → room n s → bounded n s.
Proof.
  intros Hwf Hn Hr k. unfold count_of. destruct (alpha (pafs s) !! k) as [[a m]|] eqn:E; simpl; [|lia].
  specialize (Hr a). by rewrite (refs_Some _ _ _ _ Hwf E) in Hr.
Qed.

Lemma room_shifted d n m s s' :
  shifted d s s' → (∀ a, d a <= m) → room (n + m) s → room n s'.
Proof. intros Hd Hm Hr a. rewrite (shifted_refs _ _ _ Hd). specialize (Hm a). specialize (Hr a). lia. Qed.

(** Looking an entry up, taking a reference and dropping one, in terms of
    [shifted]. *)
Lemma FindOrCreateInode_shifted parent path s :
  cache_wf (pafs s) → valid parent s → room 1 s →
  wp (FindOrCreateInode parent path) (λ o s', no_crash o ∧
    match o with
    | Ret a => shifted (λ b, ind (a = b)) s s' ∧ 0 < refs (pafs s') a
    | _ => shifted (λ _, 0) s s'
    end) s.
Proof.
  intros Hwf Hv Hr. eapply wp_mono; [by apply FindOrCreateInode_spec; [..|by apply bounded_room]|].
  intros [a|st|c] s' (Hh & Hrs & Hwf' & H); simpl; [| |done].
  - destruct H as (k & n & Ha & Hk). split; [done|]. split.
    + split; [done..|]. intros b. apply (refs_insert _ _ k a); eauto.
    + rewrite (refs_Some _ _ _ _ Hwf' Hk). apply (alpha_positive _ _ _ Hwf' Hk).
  - destruct H as [Hok Ha]. split; [done|]. split; [done..|]. intros b.
    rewrite (refs_alpha (pafs s') (pafs s)) by done. lia.
Qed.

Lemma Ref_shifted a s :
  cache_wf (pafs s) → 0 < refs (pafs s) a → room 1 s →
  wp (Ref (IEntry a) 1) (λ o s', o = Ret tt ∧ shifted (λ b, ind (a = b)) s s') s.
Proof.
  intros Hwf Ha Hr. destruct (refs_live _ _ Hwf Ha) as (k & Hk & _).
  eapply wp_mono; [by apply (wp_Ref_alpha a k 1 (refs (pafs s) a)); [..|apply Hr]|].
  intros o s' (-> & Hwf' & He & Hrs & Hh). split; [done|]. split; [done..|].
  apply (refs_insert _ _ k a); [done..| |].
  - rewrite He. unfold a_insert, a_ref. rewrite Hk. simpl. apply map_eq. intros k'.
    destruct (decide (k = k')) as [<-|];
      [by rewrite lookup_alter_eq, lookup_insert_eq, Hk|by rewrite lookup_alter_ne, lookup_insert_ne].
  - rewrite He. unfold a_ref. rewrite lookup_alter_eq, Hk. simpl. eauto.
Qed.

Lemma drop_shifted a s :
  cache_wf (pafs s) → 0 < refs (pafs s) a →
  wp (log_if_error (Unref (IEntry a) 1)) (λ o s',
    o = Ret tt ∧ shifted (λ b, - ind (a = b)) s s') s.
Proof.
  intros Hwf Ha. destruct (refs_live _ _ Hwf Ha) as (k & Hk & Hne). rewrite wp_log_if_error.
  pose proof (Unref_forgets a 1 s Hwf ltac:(lia)) as H. rewrite GetInode_entry in H by done.
  apply (wp_mono _ _ _ _ H). intros o s' (-> & Hd). split; [done|].
  destruct Hd as [W Hh R E]. split; [done..|]. intros b. rewrite E. unfold ind. case_decide; lia.
Qed.

Lemma drops_shifted l s :
  cache_wf (pafs s) → (∀ a, occurrences a l <= refs (pafs s) a) →
  wp (for_each l (λ a, log_if_error (Unref (IEntry a) 1))) (λ o s',
    o = Ret tt ∧ shifted (λ a, - occurrences a l) s s') s.
Proof.
  revert s. induction l as [|a l IH]; intros s Hwf Hle; simpl.
  { split; [done|]. by apply shifted_quiet. }
  rewrite wp_bind. eapply wp_mono; [apply drop_shifted; [done|]|].
  { specialize (Hle a). simpl in Hle. rewrite ind_true in Hle by done.
    pose proof (occurrences_nonneg a l). lia. }
  intros o s1 (-> & H1). simpl. eapply wp_mono; [apply IH; [apply H1|]|].
  { intros b. rewrite (shifted_refs _ _ _ H1). specialize (Hle b). simpl in Hle. lia. }
  intros o s2 (-> & H2). split; [done|]. apply (shifted_trans _ _ _ _ _ _ H1 H2).
  intros b. simpl. lia.
Qed.

(** The part of an iteration that a failure leaves early: making the entry and
    adding it; [s1] is the state when the [shared_ptr] was obtained. *)
Lemma ReadDir_add_spec plus size l b e a s1 :
  cache_wf (pafs s1) → 0 < refs (pafs s1) a → room 1 s1 → is_Some (req_ (request s1)) →
  holds plus size l b → size + 415 < two64 → Z.of_nat (String.length (d_name e)) <= 255 →
  wp (param ← CreateFuseEntryParam a plus;
      r ← AddDirEntry b (d_name e) param (d_off e);
      if r.1 && plus then Ref (IEntry a) 1;; mret r else mret r)
    (λ o s2, no_crash o ∧
    match o with
    | Ret (true, b') => ∃ x, ep_ino (le_param x) = a ∧ holds plus size (l ++ [x])%list b' ∧
        shifted (λ c, if plus then ind (a = c) else 0) s1 s2
    | Ret (false, b') => b' = b ∧ shifted (λ _, 0) s1 s2
    | _ => shifted (λ _, 0) s1 s2
    end) s1.
Proof.
  intros Hwf Ha Hr Hq Hb Hz Hn. destruct (refs_live _ _ Hwf Ha) as (k & Hk & _).
  apply (wp_bind_quietly _ _ _ s1); [done..|apply safe_CreateFuseEntryParam, (valid_alpha a k _ _ Hk)|
    apply keeps_CreateFuseEntryParam| |].
  { intros st s' Hok Hs Hh. split; [done|]. by apply shifted_quiet. }
  intros param s2 Hp Hs2 Hh2.
  pose proof (wp_elim _ _ _ _ _ (CreateFuseEntryParam_ino a plus s1) Hp) as Hino. simpl in Hino.
  pose proof (shifted_quiet s1 s2 Hwf Hs2 Hh2) as Hd.
  set (x := {| le_name := d_name e; le_param := param; le_off := d_off e |}).
  assert (is_Some (req_ (request s2))) as Hq2.
  { by rewrite (f_equal fst Hh2 : request s2 = request s1). }
  pose proof (AddDirEntry_eq plus size l b x s2 Hb Hq2 Hn Hz) as E. cbn [le_name le_param le_off x] in E.
  rewrite wp_bind. unfold wp at 1. rewrite E. simpl.
  destruct (Z.ltb_spec size (entry_size plus x + Z.of_nat (List.length (buf_ b)))) as [Hlt|Hle].
  { by split. }
  pose proof (holds_snoc plus size l b x Hb Hle) as Hx. destruct plus; simpl.
  - rewrite wp_bind. eapply wp_mono; [apply (Ref_shifted a s2)|].
    { apply Hd. } { rewrite (shifted_refs _ _ _ Hd). lia. }
    { by apply (room_shifted (λ _, 0) 1 0 s1). }
    intros o s3 (-> & H3). simpl. split; [done|]. exists x. split; [done|]. split; [done|].
    apply (shifted_trans _ _ _ _ _ _ Hd H3). intros c. lia.
  - split; [done|]. by exists x.
Qed.

(** One iteration. *)
Lemma ReadDir_entry_spec dir_inode plus size l b inodes e s :
  cache_wf (pafs s) → valid dir_inode s → room 2 s → is_Some (req_ (request s)) →
  holds plus size l b → size + 415 < two64 → Z.of_nat (String.length (d_name e)) <= 255 →
  wp (ReadDir_entry dir_inode plus b inodes e) (λ o s', no_crash o ∧
    match o with
    | Ret (true, b', inodes') => ∃ x, holds plus size (l ++ [x])%list b' ∧
        inodes' = (inodes ++ if plus then [ep_ino (le_param x)] else [])%list ∧
        shifted (λ a, if plus then 2 * ind (ep_ino (le_param x) = a) else 0) s s'
    | Ret (false, b', inodes') => b' = b ∧ inodes' = inodes ∧ shifted (λ _, 0) s s'
    | _ => shifted (λ _, 0) s s'
    end) s.
Proof.
  intros Hwf Hv Hr Hq Hb Hz Hn. unfold ReadDir_entry. rewrite wp_bind.
  eapply wp_mono; [apply FindOrCreateInode_shifted; [done..|]|].
  { intros a. specialize (Hr a). lia. }
  intros [a|st|c] s1 [Hc H1]; simpl; [| |done]; [|by split]. destruct H1 as [H1 Ha].
  (* dropping the shared_ptr undoes the insertion *)
  assert (∀ d s2, shifted d s1 s2 → (∀ c, 0 <= d c) →
    wp (shared_ptr_dtor a) (λ o s3, o = Ret tt ∧ shifted d s s3) s2) as Hdrop.
  { intros d s2 H2 Hd. eapply wp_mono; [apply drop_shifted; [apply H2|]|].
    { rewrite (shifted_refs _ _ _ H2). specialize (Hd a). lia. }
    intros o s3 (-> & H3). split; [done|].
    apply (shifted_trans _ _ _ _ _ _ (shifted_trans _ _ _ _ _ _ H1 H2 (λ _, eq_refl)) H3).
    intros x. simpl. lia. }
  assert (room 1 s1) as Hr1.
  { apply (room_shifted (λ b, ind (a = b)) 1 1 s); [done| |done].
    intros x. pose proof (ind_range (a = x)). lia. }
  assert (is_Some (req_ (request s1))) as Hq1.
  { by rewrite (f_equal fst (shifted_handed _ _ _ H1) : request s1 = request s). }
  rewrite wp_bind, wp_on_error.
  eapply wp_mono; [apply (ReadDir_add_spec plus size l b e a s1 (shifted_wf _ _ _ H1)); done|].
  intros [[[] b']|st|c] s2 [Hc2 H2]; simpl; [| | |done].
  - destruct H2 as (x & Hx & Hbx & H2). destruct plus; simpl.
    + split; [done|]. exists x. split; [done|]. split; [by rewrite Hx|].
      apply (shifted_trans _ _ _ _ _ _ H1 H2). intros c. rewrite Hx. lia.
    + rewrite wp_bind. eapply wp_mono; [by apply (Hdrop (λ _, 0))|].
      intros o s3 (-> & H3). simpl. split; [done|]. exists x. by rewrite app_nil_r.
  - destruct H2 as [-> H2]. rewrite wp_bind. eapply wp_mono; [by apply (Hdrop (λ _, 0))|].
    intros o s3 (-> & H3). by simpl.
  - eapply wp_mono; [by apply (Hdrop (λ _, 0))|]. intros o s3 (-> & H3). by simpl.
Qed.

Lemma valid_refs i s :
  cache_wf (pafs s) → valid i s ↔ match i with IRoot => True | IEntry a => 0 < refs (pafs s) a end.
Proof.
  intros Hwf. destruct i as [|a]; [split; [done|by eexists]|]. unfold valid, refs; simpl.
  destruct (entries (pafs s) !! a) as [[n j]|] eqn:E; simpl; split; intros H; try lia.
  - destruct (wf_key _ Hwf _ _ (wf_entry _ Hwf a _ E)) as (e & He & _ & Hn). simplify_eq/=. lia.
  - by eexists.
  - by destruct H.
Qed.

Lemma valid_shifted d i s s' :
  cache_wf (pafs s) → shifted d s s' → (∀ a, 0 <= d a) → valid i s → valid i s'.
Proof.
  intros Hwf Hd Hn. rewrite !valid_refs by (done || apply Hd). destruct i as [|a]; [done|].
  rewrite (shifted_refs _ _ _ Hd). specialize (Hn a). lia.
Qed.

Lemma readdir_spec dir s :
  wp (syscalls.readdir dir) (λ o s', no_crash o ∧ shape s' = shape s ∧ handed s' = handed s ∧
    match o with
    | Ret (Some e) => Z.of_nat (String.length (d_name e)) <= 255
    | _ => True
    end) s.
Proof.
  unfold syscalls.readdir, syscalls.set_errno. rewrite wp_bind, wp_modify. simpl. rewrite wp_bind.
  refine (wp_sys_all (C_readdir dir) _ _ _). intros r e w E. simpl.
  pose proof (readdir_name dir (world (set_errno_st 0 s))) as Hn. rewrite E in Hn. simpl in Hn.
  unfold syscalls.get_errno. rewrite wp_bind, wp_gets. simpl. destruct r as [ent|].
  - unfold wp; simpl. split_and!; [done..|by apply Hn].
  - case_match; [done|]. unfold wp; simpl. split_and!; [apply StatusOrStatus_not_ok|done..].
Qed.

(** What the entries listed so far weigh on the counts. *)
Definition weight (plus : bool) (l : list listed) (a : Z) : Z :=
  if plus then 2 * occurrences a (inos l) else 0.

Lemma weight_nonneg plus l a : 0 <= weight plus l a.
Proof. unfold weight. destruct plus; [|done]. pose proof (occurrences_nonneg a (inos l)). lia. Qed.

(** The state of the loop: the entries listed, the builder and the vector. *)
Record loop_state plus size (l : list listed) b inodes (s0 s : St) : Prop := {
  loop_holds : holds plus size l b;
  loop_inodes : inodes = if plus then inos l else [];
  loop_shifted : shifted (weight plus l) s0 s
}.

(** With more fuel than the buffer has bytes left, the loop ends: every entry
    added takes at least one byte. *)
Lemma ReadDir_loop_spec fuel dir i plus size l b inodes s0 s :
  cache_wf (pafs s0) → valid i s0 → is_Some (req_ (request s0)) → size + 415 < two64 →
  loop_state plus size l b inodes s0 s → size - Z.of_nat (List.length (buf_ b)) + 1 < Z.of_nat fuel →
  room (2 * Z.of_nat fuel) s →
  wp (ReadDir_loop fuel dir i plus b inodes) (λ o s', ∃ st l' b' inodes',
    o = Ret (st, b', inodes') ∧ (∀ e, st = Some e → ok e = false) ∧
    loop_state plus size l' b' inodes' s0 s') s.
Proof.
  intros Hwf0 Hv0 Hq0 Hz. revert l b inodes s.
  induction fuel as [|fuel IH]; intros l b inodes s HL Hfuel Hroom.
  { destruct HL as [[_ _ _ ?] _ _]. lia. }
  destruct HL as [Hb Hi Hd]. simpl. rewrite wp_bind, wp_try.
  eapply wp_mono; [apply readdir_spec|].
  intros [[e|]|st|c] s1 (Hc & Hs1 & Hh1 & Hn); simpl; [| | |done].
  2: { exists None, l, b, inodes. split; [done|]. split; [done|]. split; [done..|].
       apply (shifted_trans _ _ _ _ _ _ Hd (shifted_quiet s s1 (shifted_wf _ _ _ Hd) Hs1 Hh1)).
       intros; lia. }
  2: { exists (Some st), l, b, inodes. split; [done|]. split; [by intros ? [= <-]|]. split; [done..|].
       apply (shifted_trans _ _ _ _ _ _ Hd (shifted_quiet s s1 (shifted_wf _ _ _ Hd) Hs1 Hh1)).
       intros; lia. }
  assert (shifted (weight plus l) s0 s1) as H1.
  { apply (shifted_trans _ _ _ _ _ _ Hd (shifted_quiet s s1 (shifted_wf _ _ _ Hd) Hs1 Hh1)).
    intros; lia. }
  assert (room (2 * Z.of_nat (S fuel)) s1) as Hr1.
  { intros a. rewrite (refs_shape s1 s a Hs1). apply Hroom. }
  rewrite wp_bind, wp_try.
  eapply wp_mono; [apply (ReadDir_entry_spec i plus size l b inodes e s1)|].
  { apply H1. } { apply (valid_shifted _ i s0 s1 Hwf0 H1 (weight_nonneg plus l) Hv0). }
  { intros a. specialize (Hr1 a). lia. }
  { by rewrite (f_equal fst (shifted_handed _ _ _ H1) : request s1 = request s0). }
  { done. } { done. } { done. }
  intros [[[[] b'] inodes']|st|c] s2 [Hc2 H2]; simpl; [| | |done].
  - destruct H2 as (x & Hb' & -> & H2). apply (IH (l ++ [x])%list).
    + split; [done| |].
      * subst inodes. destruct plus; [|done]. unfold inos. by rewrite map_app.
      * apply (shifted_trans _ _ _ _ _ _ H1 H2). intros a. unfold weight. destruct plus; [|done].
        unfold inos. rewrite map_app, occurrences_app. simpl. lia.
    + pose proof (length_listing_snoc plus l x) as Hl. pose proof (entry_size_pos plus x).
      rewrite <- (holds_buf _ _ _ _ Hb'), <- (holds_buf _ _ _ _ Hb) in Hl. lia.
    + intros a. rewrite (shifted_refs _ _ _ H2). specialize (Hr1 a).
      pose proof (ind_range (ep_ino (le_param x) = a)). destruct plus; lia.
  - destruct H2 as (-> & -> & H2). exists None, l, b, inodes. split; [done|]. split; [done|].
    split; [done..|]. apply (shifted_trans _ _ _ _ _ _ H1 H2). intros; lia.
  - exists (Some st), l, b, inodes. split; [done|]. split; [by intros ? [= <-]|].
    split; [done..|]. apply (shifted_trans _ _ _ _ _ _ H1 H2). intros; lia.
Qed.

(** ** The whole of [ReadDirInternal] *)

(** The replies sent so far, newest first. *)
Definition is_reply (e : event) : bool :=
  match reply_target (ev_call e) with Some _ => true | None => false end.
Definition reply_log (s : St) : list event := List.filter is_reply (trace s).

#[export] Instance quiet_reply_log : Quiet reply_log.
Proof.
  apply quiet_intro; [done|]. intros c r e w s H. unfold reply_log; simpl.
  unfold is_reply at 1; simpl. by rewrite H.
Qed.

Lemma keeps_reply_log_modify g : (∀ s, trace (g s) = trace s) → Keeps reply_log (modify g).
Proof. intros H s. unfold reply_log, modify. simpl. by rewrite H. Qed.
#[local] Hint Extern 1 (Keeps reply_log (modify _)) => apply keeps_reply_log_modify; reflexivity : keeps.

Lemma reply_log_drops l :
  Keeps reply_log (for_each l (λ a, log_if_error (Unref (IEntry a) 1))).
Proof. induction l; simpl; solve_keeps. Qed.

Lemma keeps_reply_log_loop fuel dir i plus b l : Keeps reply_log (ReadDir_loop fuel dir i plus b l).
Proof. revert b l. induction fuel; intros; simpl; solve_keeps. Qed.

(** A reply with a buffer: on a normal return, libfuse took it. *)
Lemma ReplyBuf_spec buf q s :
  req_ (request s) = Some q →
  wp (ReplyBuf buf) (λ o s', no_crash o ∧ shape s' = shape s ∧ glog s' = glog s ∧
    match o with
    | Ret _ => reply_log s' = Ev (F_reply_buf q buf) 0 :: reply_log s
    | _ => True
    end) s.
Proof.
  intros Hq. unfold wp, ReplyBuf, reply, get_req, gets, mbind, M_bind. simpl. rewrite Hq.
  unfold sys. destruct (os_step _ _) as [[r e] w]. cbn [fst snd]. unfold return_status.
  rewrite ok_ErrnoToStatus_pafs. cbn [ret] in r. destruct (Z.eqb_spec r 0) as [E|E].
  - rewrite bool_decide_eq_true_2 by lia. subst r. done.
  - rewrite bool_decide_eq_false_2 by lia. split_and!; [|done..].
    cbn [no_crash fst fail]. rewrite ok_ErrnoToStatus_pafs. by rewrite bool_decide_eq_false_2 by lia.
Qed.

(** The counts and the reply after a directory was listed. *)
Definition listed_post (plus : bool) (size q : Z) (s : St) (o : Outcome unit) (s' : St) : Prop :=
  no_crash o ∧ cache_wf (pafs s') ∧ rest s' = rest s ∧ glog s' = glog s ∧
  match o with
  | Ret _ => ∃ l, Z.of_nat (List.length (listing plus l)) <= size ∧
      reply_log s' = Ev (F_reply_buf q (listing plus l)) 0 :: reply_log s ∧
      ∀ a, refs (pafs s') a = refs (pafs s) a + if plus then occurrences a (inos l) else 0
  | _ => ∀ a, refs (pafs s') a = refs (pafs s) a
  end.

(** Once the reply was attempted, the kernel's references go unless it was
    accepted ([kept]), and the vector's always. *)
Lemma ReadDir_finish_spec plus l (kept : bool) (fin : M unit) s :
  cache_wf (pafs s) → (∀ a, weight plus l a <= refs (pafs s) a) →
  fin = (if kept then mret tt
         else for_each (if plus then inos l else []) (λ a, log_if_error (Unref (IEntry a) 1))) →
  wp (fin;; for_each (if plus then inos l else []) shared_ptr_dtor)
    (λ o s', o = Ret tt ∧
       shifted (λ a, (if plus && kept then occurrences a (inos l) else 0) - weight plus l a) s s') s.
Proof.
  intros Hwf Hw ->. set (v := if plus then inos l else []).
  assert (∀ a, occurrences a v * 2 = weight plus l a) as Hv
    by (intros a; unfold v, weight; destruct plus; simpl; lia).
  rewrite wp_bind. apply (wp_mono _ (λ o s1, o = Ret tt ∧
    shifted (λ a, if kept then 0 else - occurrences a v) s s1)).
  - destruct kept; [split; [done|by apply shifted_quiet]|]. apply drops_shifted; [done|].
    intros a. specialize (Hw a). specialize (Hv a). pose proof (occurrences_nonneg a v). lia.
  - intros o s1 (-> & H1). simpl. eapply wp_mono; [apply (drops_shifted v s1); [apply H1|]|].
    { intros a. rewrite (shifted_refs _ _ _ H1). specialize (Hw a). specialize (Hv a).
      pose proof (occurrences_nonneg a v). destruct kept; lia. }
    intros o s2 (-> & H2). split; [done|]. apply (shifted_trans _ _ _ _ _ _ H1 H2).
    intros a. specialize (Hv a). unfold v in *. destruct plus, kept; simpl in *; lia.
Qed.

(** The reply of the builder, or the status the loop ended with. *)
Lemma reply_or_status plus size q l b st s :
  holds plus size l b → req_ (request s) = Some q → (∀ e, st = Some e → ok e = false) →
  wp (match st with
      | Some st => mret (inl st)
      | None => try_ (FuseDirsBuilder_Reply b)
      end : M (StatusOr unit))
    (λ o s1, ∃ r, o = Ret r ∧ caught r ∧ shape s1 = shape s ∧ glog s1 = glog s ∧
      ∀ x, r = inr x → reply_log s1 = Ev (F_reply_buf q (listing plus l)) 0 :: reply_log s) s.
Proof.
  intros Hb Hqs Hst. destruct st as [st|].
  - exists (inl st). split_and!; [done| |done..]. intros e [= <-]. by apply Hst.
  - rewrite wp_try. unfold FuseDirsBuilder_Reply. rewrite wp_bind, wp_check.
    rewrite (holds_size _ _ _ _ Hb), (proj2 (Z.leb_le _ _) (holds_fits _ _ _ _ Hb)). simpl.
    eapply wp_mono; [by apply (ReplyBuf_spec _ q)|].
    intros [[]|e|c] s1 (Hc & Hs & Hg & H); simpl; [| |done].
    + exists (inr tt). rewrite <- (holds_buf _ _ _ _ Hb). by split_and!.
    + exists (inl e). split_and!; try done. by intros ? [= <-].
Qed.

(** The end of the loop and what follows. *)
Lemma ReadDir_reply_spec plus size q l b inodes st s0 s :
  cache_wf (pafs s0) → req_ (request s0) = Some q →
  loop_state plus size l b inodes s0 s → (∀ e, st = Some e → ok e = false) →
  wp (ret ← (match st with
             | Some st => mret (inl st)
             | None => try_ (FuseDirsBuilder_Reply b)
             end : M (StatusOr unit));
      match ret with
      | inl _ => for_each inodes (λ a, log_if_error (Unref (IEntry a) 1))
      | inr _ => mret tt
      end;;
      for_each inodes shared_ptr_dtor;;
      match ret with inl st => fail st | inr _ => mret tt end)
    (λ o s', reply_log s = reply_log s0 → listed_post plus size q s0 o s') s.
Proof.
  intros Hwf0 Hq [Hb -> Hd] Hst.
  assert (req_ (request s) = Some q) as Hqs.
  { by rewrite (f_equal fst (shifted_handed _ _ _ Hd) : request s = request s0). }
  rewrite wp_bind. eapply wp_mono; [by apply (reply_or_status plus size q l)|].
  intros o s1 (r & -> & Hr & Hs & Hg & Hlog). simpl.
  assert (cache_wf (pafs s1)) as Hwf1 by (apply (shape_wf s s1); [done|apply Hd]).
  assert (∀ a, refs (pafs s1) a = refs (pafs s0) a + weight plus l a) as Hrefs.
  { intros a. rewrite (refs_shape s1 s a Hs). apply (shifted_refs _ _ _ Hd). }
  assert (∀ a, weight plus l a <= refs (pafs s1) a) as Hw.
  { intros a. rewrite Hrefs. unfold refs.
    destruct (entries (pafs s0) !! a) as [[n j]|] eqn:E; simpl; [|lia].
    pose proof (alpha_positive _ _ _ Hwf0 (wf_alpha_entry _ a n j Hwf0 E)). simpl in *. lia. }
  assert (rest s1 = rest s0) as Hrest.
  { rewrite <- (shifted_rest _ _ _ Hd). by apply rest_shape. }
  assert (glog s1 = glog s0) as Hg0.
  { rewrite Hg. exact (f_equal snd (shifted_handed _ _ _ Hd)). }
  rewrite wp_assoc, wp_bind.
  set (v := if plus then inos l else []).
  set (kept := match r with inl _ => false | inr _ => true end).
  apply wp_intro. intros o s2 E.
  assert (Keeps reply_log (match r with
      | inl _ => for_each v (λ a, log_if_error (Unref (IEntry a) 1))
      | inr _ => mret tt end;; for_each v shared_ptr_dtor)) as Hk.
  { apply keeps_bind; [destruct r; [apply reply_log_drops|done]|intros; apply reply_log_drops]. }
  specialize (Hk s1). rewrite E in Hk. simpl in Hk.
  apply (wp_elim _ (λ o s2, o = Ret tt ∧ shifted (λ a,
    (if plus && kept then occurrences a (inos l) else 0) - weight plus l a) s1 s2)) in E as (-> & H2);
    [|by apply ReadDir_finish_spec; [..|unfold kept; destruct r]].
  destruct H2 as [Hwf2 Hh2 Hr2 E2]. pose proof (f_equal snd Hh2 : glog s2 = glog s1) as Hg2.
  simpl. destruct r as [st'|[]]; unfold wp; simpl; intros Hl; split_and!; try congruence.
  - by apply Hr.
  - intros a. rewrite E2, Hrefs. unfold kept. rewrite andb_false_r. lia.
  - done.
  - exists l. split_and!.
    + rewrite <- (holds_buf _ _ _ _ Hb). apply (holds_fits _ _ _ _ Hb).
    + rewrite Hk, (Hlog tt eq_refl). congruence.
    + intros a. rewrite E2, Hrefs. unfold kept. rewrite andb_true_r. lia.
Qed.

Lemma ReadDirInternal_spec i size off fi plus q d s :
  cache_wf (pafs s) → valid i s → req_ (request s) = Some q →
  dirs s !! fi_fh fi = Some d → dir_ d ≠ 0 →
  0 <= size → size + 415 < two64 → room (2 * size + 8) s →
  wp (ReadDirInternal i size off fi plus) (listed_post plus size q s) s.
Proof.
  intros Hwf Hv Hq Hd Hnz Hs0 Hs1 Hroom. unfold ReadDirInternal.
  assert (Z.of_nat (readdir_fuel size) = size + 2) as Hfuel by (unfold readdir_fuel; lia).
  revert Hfuel. generalize (readdir_fuel size). intros fuel Hfuel.
  rewrite wp_bind, wp_gets. simpl. rewrite wp_bind, wp_deref, Hd. simpl.
  unfold Directory_deref. rewrite (proj2 (Z.eqb_neq _ _) Hnz).
  rewrite wp_bind, wp_ret. simpl. unfold syscalls.seekdir.
  rewrite <- wp_assoc. rewrite wp_bind. refine (wp_sys_all (C_seekdir _ _) _ s _).
  intros [] e w _. simpl. set (s1 := after_call _ _ _ _ s).
  rewrite wp_bind, wp_ret. simpl. rewrite wp_bind. apply wp_intro. intros o s2 E.
  assert (reply_log s2 = reply_log s) as Hlog.
  { pose proof (keeps_reply_log_loop fuel (dir_ d) i plus
      (FuseDirsBuilder_new plus size) [] s1) as H. rewrite E in H. exact H. }
  assert (loop_state plus size [] (FuseDirsBuilder_new plus size) [] s s1) as HL.
  { split; [by apply holds_nil|by destruct plus|]. split; [done..|]. intros a.
    unfold weight. simpl. by destruct plus; rewrite Z.add_0_r. }
  destruct (wp_elim _ _ _ _ _ (ReadDir_loop_spec fuel (dir_ d) i plus size []
    (FuseDirsBuilder_new plus size) [] s s1 Hwf Hv ltac:(by eexists) Hs1 HL
    ltac:(simpl; lia) ltac:(intros a; specialize (Hroom a); simpl in *; lia)) E)
    as (st & l & b & inodes & -> & Hst & HL2). simpl.
  eapply wp_mono; [by apply (ReadDir_reply_spec plus size q l b inodes st s)|].
  intros o s3 H. by apply H.
Qed.

(** ** Properties *)

(** C9: a lookup that replies adds exactly one reference, to the inode it hands
    to the kernel, and changes no other count; one that fails, at whatever call,
    leaves every count as it was and hands nothing over.  It never crashes. *)
Theorem Lookup_counts parent name q s :
  cache_wf (pafs s) → valid (GetInode parent) s → room 2 s → req_ (request s) = Some q →
  wp (Lookup parent name) (λ o s', cache_wf (pafs s') ∧
    match o with
    | Ret _ => ∃ a, 0 < refs (pafs s') a ∧ glog s' = a :: glog s ∧
                    ∀ x, refs (pafs s') x = refs (pafs s) x + ind (a = x)
    | Fail st => ok st = false ∧ glog s' = glog s ∧ ∀ x, refs (pafs s') x = refs (pafs s) x
    | Crash _ => False
    end) s.
Proof.
  intros Hwf Hv Hr Hq. unfold Lookup. rewrite wp_bind. unfold wp at 1, read_inode, mbind, M_bind, gets.
  destruct Hv as [j Hj]. simpl. rewrite Hj. simpl.
  eapply wp_mono; [apply (reply_with_spec ReplyEntry); [apply sends_ReplyEntry|done|by eexists|
    by apply bounded_room|by eexists]|].
  intros [[]|st|c] s' (Hwf' & _ & H); [| |done].
  - destruct H as (k & a & n & Ha & Hk & Hg). split; [done|]. exists a.
    split; [|split; [done|by apply (refs_insert _ _ k a); eauto]].
    rewrite (refs_Some _ _ _ _ Hwf' Hk). apply (alpha_positive _ _ _ Hwf' Hk).
  - destruct H as (Hok & Ha & Hg). split_and!; [done..|]. by apply refs_alpha.
Qed.

(** C10: [ReadDirPlus] lists the directory into a buffer no larger than the size
    asked for; when libfuse takes the reply, every inode has one more reference
    for each entry of it in the buffer, and when anything fails (a call, an
    entry, the reply itself) every count is what it was.  The loop ends. *)
Theorem ReadDirPlus_counts ino size off fi q d s :
  cache_wf (pafs s) → valid (GetInode ino) s → req_ (request s) = Some q →
  dirs s !! fi_fh fi = Some d → dir_ d ≠ 0 →
  0 <= size → size + 415 < two64 → room (2 * size + 8) s →
  wp (ReadDirPlus ino size off fi) (listed_post true size q s) s.
Proof.
  intros Hwf Hv. unfold ReadDirPlus. rewrite wp_bind. intros.
  unfold wp at 1, read_inode, mbind, M_bind, gets. pose proof Hv as [j Hj]. simpl. rewrite Hj. simpl.
  by apply (ReadDirInternal_spec (GetInode ino) size off fi true q d s).
Qed.

(** C17: [ReadDir] changes no reference count, whether it succeeds or fails, and
    its reply fits the size asked for. *)
Theorem ReadDir_counts ino size off fi q d s :
  cache_wf (pafs s) → valid (GetInode ino) s → req_ (request s) = Some q →
  dirs s !! fi_fh fi = Some d → dir_ d ≠ 0 →
  0 <= size → size + 415 < two64 → room (2 * size + 8) s →
  wp (ReadDir ino size off fi) (λ o s', no_crash o ∧
    (∀ a, refs (pafs s') a = refs (pafs s) a) ∧
    (o = Ret tt → ∃ l, Z.of_nat (List.length (listing false l)) <= size ∧
       reply_log s' = Ev (F_reply_buf q (listing false l)) 0 :: reply_log s)) s.
Proof.
  intros Hwf Hv ??????. unfold ReadDir. rewrite wp_bind.
  unfold wp at 1, read_inode, mbind, M_bind, gets. pose proof Hv as [j Hj]. simpl. rewrite Hj. simpl.
  eapply wp_mono; [by apply (ReadDirInternal_spec (GetInode ino) size off fi false q d s)|].
  intros [[]|st|c] s' (Hc & _ & _ & _ & HL); [| |done].
  - destruct HL as (l & Hl & He & Hr). split_and!; [done| |by eauto]. intros a. rewrite Hr. lia.
  - by split_and!.
Qed.

(** C18: [AddDirEntry] appends the entry exactly when it fits in what is left of
    the size, byte for byte as libfuse formats it; otherwise it reports that and
    leaves the buffer alone.  The buffer never outgrows the size, and the
    [CHECK] on libfuse's answer cannot fail. *)
Theorem AddDirEntry_fits plus size l b e s :
  holds plus size l b → is_Some (req_ (request s)) →
  Z.of_nat (String.length (le_name e)) <= 255 → size + 415 < two64 →
  ∃ b', AddDirEntry b (le_name e) (le_param e) (le_off e) s =
      (Ret (bool_decide (Z.of_nat (List.length (buf_ b)) + entry_size plus e <= size), b'), s) ∧
    (if decide (Z.of_nat (List.length (buf_ b)) + entry_size plus e <= size)
     then holds plus size (l ++ [e])%list b' else b' = b).
Proof.
  intros Hb Hq Hn Hz. rewrite (AddDirEntry_eq plus size l b e s) by done.
  destruct (Z.ltb_spec size (entry_size plus e + Z.of_nat (List.length (buf_ b)))).
  - exists b. rewrite bool_decide_eq_false_2, decide_False by lia. done.
  - eexists. rewrite bool_decide_eq_true_2, decide_True by lia. split; [done|].
    apply holds_snoc; [done|lia].
Qed.

(** C19: the loop of [ReadDirInternal] ends however long the directory is: with
    the fuel [readdir_fuel size] it never runs out, since each entry taken
    fills at least one byte of the buffer. *)
Theorem ReadDir_loop_terminates dir i plus size s :
  cache_wf (pafs s) → valid i s → is_Some (req_ (request s)) →
  0 <= size → size + 415 < two64 → room (2 * size + 8) s →
  ∃ st b inodes s', ReadDir_loop (readdir_fuel size) dir i plus (FuseDirsBuilder_new plus size) [] s =
    (Ret (st, b, inodes), s') ∧ Z.of_nat (List.length (buf_ b)) <= size.
Proof.
  intros Hwf Hv Hq H0 Hz Hr.
  destruct (ReadDir_loop_spec (readdir_fuel size) dir i plus size [] (FuseDirsBuilder_new plus size)
    [] s s Hwf Hv Hq Hz) as (st & l & b & inodes & E & _ & HL).
  - split; [by apply holds_nil|by destruct plus|]. split; [done..|]. intros a.
    unfold weight. simpl. by destruct plus; rewrite Z.add_0_r.
  - unfold readdir_fuel. simpl. lia.
  - intros a. specialize (Hr a). unfold readdir_fuel. lia.
  - destruct (ReadDir_loop _ _ _ _ _ _ s) as [o s'] eqn:Er. simpl in E. subst o.
    exists st, b, inodes, s'. split; [done|].
    pose proof (loop_holds _ _ _ _ _ _ _ HL) as Hb. apply (holds_fits _ _ _ _ Hb).
Qed.

End ReadDir.

(** ** A run: listing the sample directory *)

Module ReadDirRun.

Definition demo_platform : @Platform sim_absl := sim_platform no_failure sample_tree.
#[local] Existing Instance sim_absl.
#[local] Existing Instance sim_libc.
#[local] Existing Instance demo_platform.
Definition laws : PlatformLaws demo_platform := sim_platform_laws no_failure sample_tree.
#[local] Existing Instance laws.

(** A directory stream is open; the request is numbered 77. *)
Definition start : St := set_dirs_st {[32 := Dir 1000]} (sample_state no_failure sample_world).
Definition handle : fuse_file_info :=
  {| fi_flags := 0; fi_fh := 32; fi_noflush := false; fi_parallel_direct_writes := false |}.

Lemma start_wf : cache_wf (pafs start).
Proof. by apply cache_wf_empty. Qed.
Lemma start_room n : n < two64 → room n start.
Proof. intros H a. unfold refs. simpl. by rewrite lookup_empty. Qed.
Lemma root_valid : valid (PageAlignFS.GetInode 1) start.
Proof. by eexists. Qed.

Definition entry_a : listed :=
  {| le_name := "a"; le_off := 1; le_param := {| ep_ino := 16; ep_generation := None;
       ep_attr := mk_stat (mkNode 11 33188 64); ep_attr_timeout := 0; ep_entry_timeout := 0 |} |}.

Lemma Lookup_counts_witness :
  ∃ a, 0 < refs (pafs (PageAlignFS.Lookup 1 "a" start).2) a.
Proof.
  pose proof (Lookup_counts 1 "a" 77 start start_wf root_valid (start_room 2 eq_refl) eq_refl) as H.
  assert (returned (PageAlignFS.Lookup 1 "a" start).1 = true) as E by (vm_compute; reflexivity).
  unfold wp in H. revert H E. destruct (PageAlignFS.Lookup 1 "a" start) as [[[]|st|c] s']; [|done..].
  intros (_ & a & Ha & _) _. by exists a.
Defined.

(** Two of the three entries fit 80 bytes. *)
Lemma ReadDirPlus_counts_witness :
  listed_post true 80 77 start (PageAlignFS.ReadDirPlus 1 80 0 handle start).1
    (PageAlignFS.ReadDirPlus 1 80 0 handle start).2 ∧
  refs (pafs (PageAlignFS.ReadDirPlus 1 80 0 handle start).2) 528 = 1.
Proof.
  split; [|vm_compute; reflexivity].
  exact (ReadDirPlus_counts 1 80 0 handle 77 (Dir 1000) start start_wf root_valid eq_refl eq_refl
    ltac:(done) ltac:(done) eq_refl (start_room (2 * 80 + 8) eq_refl)).
Defined.

Lemma ReadDir_counts_witness :
  returned (PageAlignFS.ReadDir 1 80 0 handle start).1 = true ∧
  ∀ a, refs (pafs (PageAlignFS.ReadDir 1 80 0 handle start).2) a = refs (pafs start) a.
Proof.
  split; [vm_compute; reflexivity|].
  exact (proj1 (proj2 (ReadDir_counts 1 80 0 handle 77 (Dir 1000) start start_wf root_valid eq_refl
    eq_refl ltac:(done) ltac:(done) eq_refl (start_room (2 * 80 + 8) eq_refl)))).
Defined.

Lemma AddDirEntry_fits_witness :
  ∃ b', AddDirEntry (FuseDirsBuilder_new true 100) "a" (le_param entry_a) 1 start = (Ret (true, b'), start).
Proof.
  destruct (AddDirEntry_fits true 100 [] (FuseDirsBuilder_new true 100) entry_a start
    (holds_nil true 100 ltac:(done)) ltac:(by eexists) ltac:(done) eq_refl) as (b' & E & _).
  exists b'. exact E.
Defined.

Lemma ReadDir_loop_terminates_witness :
  ∃ st b inodes s', PageAlignFS.ReadDir_loop (PageAlignFS.readdir_fuel 80) 1000 IRoot true
    (FuseDirsBuilder_new true 80) [] start = (Ret (st, b, inodes), s') ∧
    Z.of_nat (List.length (buf_ b)) <= 80.
Proof.
  exact (ReadDir_loop_terminates 1000 IRoot true 80 start start_wf ltac:(by eexists)
    ltac:(by eexists) ltac:(done) eq_refl (start_room (2 * 80 + 8) eq_refl)).
Defined.

End ReadDirRun.
