(* ===== verification/Protocol.v ===== *)
(** * The protocol with the kernel

    The kernel may only name inodes it holds references to, and may only give
    back references it was given.  [kernel_step] is the transition system of such
    a kernel driving the table of callbacks; its reachable states satisfy the
    invariant that each inode's reference count is the number of lookups the
    kernel was granted minus those it forgot, and no request it may send crashes
    the process. *)

From S2P Require Import Prelude Consts Absl Errno Status Machine Syscalls Raii Fuse Inode Pafs FuseOps Sim Requests Cache Lookup Conserve Handlers ReadDir.

Open Scope string_scope.
Open Scope Z_scope.

Section Effect.
Context {AB : Absl} {LC : Libc} {PL : Platform} {AL : AbslLaws AB} {PWL : PlatformLaws PL}.

(** [m] does not crash and takes [d] references away, those granted apart. *)
Definition Effect {A} (d : Z → Z) (m : M A) (s : St) : Prop :=
  wp m (λ o s', no_crash o ∧ cache_wf (pafs s') ∧
    ∀ a, refs (pafs s') a - granted s' a = refs (pafs s) a - granted s a - d a) s.

Lemma effect_conserves {A} (m : M A) s :
  cache_wf (pafs s) → Conserves m s → Effect (λ _, 0) m s.
Proof.
  intros Hwf H. apply (conserves_wp _ _ _ H). intros o s' _ Hc [Hw Hr]. split_and!; [done|auto|].
  intros a. rewrite Hr by done. lia.
Qed.

Lemma effect_shifted d (m : M unit) s :
  wp m (λ o s', o = Ret tt ∧ shifted (λ a, - d a) s s') s → Effect d m s.
Proof.
  intros H. apply (wp_mono _ _ _ _ H). intros o s' (-> & [W Hh R E]). split_and!; [done..|].
  intros a. rewrite E. unfold granted.
  rewrite (f_equal snd Hh : grant_log (trace s') = grant_log (trace s)). lia.
Qed.

Lemma effect_bind_try {A B} d (m : M A) (k : StatusOr A → M B) s :
  Effect d m s → (∀ r s', caught r → Conserves (k r) s') → Effect d (try_ m ≫= k) s.
Proof.
  intros Hm Hk. unfold Effect in *. rewrite wp_bind, wp_try.
  assert (∀ r s', caught r → cache_wf (pafs s') →
    (∀ a, refs (pafs s') a - granted s' a = refs (pafs s) a - granted s a - d a) →
    wp (k r) (λ o s'', no_crash o ∧ cache_wf (pafs s'') ∧
      ∀ a, refs (pafs s'') a - granted s'' a = refs (pafs s) a - granted s a - d a) s') as Hr.
  { intros r s' Hr Hwf Hd. apply (conserves_wp _ _ _ (Hk r s' Hr)).
    intros o s'' _ Hc [Hw Hb]. split_and!; [done|auto|]. intros a. by rewrite Hb. }
  apply (wp_mono _ _ _ _ Hm).
  intros [a|st|c] s' (Hc & Hwf & Hd); simpl; [| |done]; apply Hr; try done.
  by intros ? [= <-].
Qed.

Lemma effect_on_exit d (m fin : M unit) s :
  Effect d m s → (∀ s', Conserves fin s') → Effect d (on_exit m fin) s.
Proof.
  intros Hm Hf. apply effect_bind_try; [done|]. intros r s' Hr.
  apply conserves_bind; [apply Hf|]. intros [] s'' _ _. destruct r as [st|a].
  - apply conserves_quiet; [by apply safe_fail, Hr|solve_keeps].
  - apply conserves_quiet; [solve_safe|solve_keeps].
Qed.

(** ** The wrappers *)

Lemma safe_ReplyFailure sh st : ok st = false → Safe (at_shape sh) (ReplyFailure st).
Proof. intros H. unfold ReplyFailure. solve_safe. by rewrite H. Qed.

Lemma keeps_glog_ReplyFailure st : Keeps glog (ReplyFailure st).
Proof. solve_keeps. Qed.

Lemma effect_reply_failure d h s : Effect d h s → Effect d (reply_failure h) s.
Proof.
  intros H. apply effect_bind_try; [done|]. intros [st|[]] s' Hr; simpl.
  - apply conserves_quiet; [|unfold ReplyFailureAndLogIfNotOk; solve_keeps].
    apply safe_log_if_error, safe_ReplyFailure. by apply Hr.
  - apply conserves_quiet; [solve_safe|solve_keeps].
Qed.

Lemma effect_reply_always d h s : Effect d h s → Effect d (reply_always h) s.
Proof.
  intros H. apply effect_bind_try; [done|]. intros [st|[]] s' Hr;
    unfold ReplyAlwaysAndLogIfNotOk; apply conserves_quiet; try solve_keeps.
  - apply safe_log_if_error, safe_ReplyFailure. by apply Hr.
  - solve_safe.
Qed.

Lemma effect_reply_none d h s : Effect d h s → Effect d (reply_none h) s.
Proof.
  intros H. unfold reply_none, log_if_error, Effect. rewrite <- wp_assoc.
  apply (effect_bind_try d h (λ _, mret tt;; ReplyNone)); [done|]. intros r s' _.
  apply conserves_quiet; [solve_safe|solve_keeps].
Qed.

Lemma effect_with_request d req body s :
  (∀ s', shape s' = shape s → glog s' = glog s → req_ (request s') = Some req → Effect d body s') →
  Effect d (with_request req body) s.
Proof.
  intros H. unfold with_request, Effect. rewrite wp_bind, wp_check.
  rewrite (proj2 (Z.eqb_neq _ _) (userdata_set req)). simpl.
  rewrite wp_bind. unfold set_req. rewrite wp_modify. simpl.
  refine (effect_on_exit d body _ (set_request_st (FR (Some req)) s) _ _); [by apply H|].
  intros s'. apply conserves_quiet; [solve_safe|solve_keeps].
Qed.

End Effect.

(** ** A well-behaved kernel *)

Section Kernel.
Context {AB : Absl} {LC : Libc} {PL : Platform} {AL : AbslLaws AB} {PWL : PlatformLaws PL}.
Import PageAlignFS.

(** The inodes a request is about; those a forget gives back are in [takes]. *)
Definition names_of (k : kernel_request) : list Z :=
  match k with
  | K_forget _ _ | K_forget_multi _ => []
  | K_lookup parent _ => [parent]
  | K_getattr ino => [ino]
  | K_setattr ino _ _ _ => [ino]
  | K_readlink ino => [ino]
  | K_mknod parent _ _ _ => [parent]
  | K_mkdir parent _ _ => [parent]
  | K_unlink parent _ => [parent]
  | K_rmdir parent _ => [parent]
  | K_symlink _ parent _ => [parent]
  | K_rename parent _ newparent _ _ => [parent; newparent]
  | K_link ino newparent _ => [ino; newparent]
  | K_open ino _ => [ino]
  | K_read ino _ _ _ => [ino]
  | K_flush ino _ => [ino]
  | K_release ino _ => [ino]
  | K_fsync ino _ _ => [ino]
  | K_opendir ino _ => [ino]
  | K_readdir ino _ _ _ => [ino]
  | K_releasedir ino _ => [ino]
  | K_fsyncdir ino _ _ => [ino]
  | K_statfs ino => [ino]
  | K_setxattr ino _ _ _ => [ino]
  | K_getxattr ino _ _ => [ino]
  | K_listxattr ino _ => [ino]
  | K_removexattr ino _ => [ino]
  | K_access ino _ => [ino]
  | K_create parent _ _ _ => [parent]
  | K_getlk ino _ _ => [ino]
  | K_setlk ino _ _ _ => [ino]
  | K_poll ino _ _ => [ino]
  | K_write_buf ino _ _ _ => [ino]
  | K_flock ino _ _ => [ino]
  | K_fallocate ino _ _ _ _ => [ino]
  | K_readdirplus ino _ _ _ => [ino]
  | K_copy_file_range ino_in _ _ ino_out _ _ _ _ => [ino_in; ino_out]
  | K_lseek ino _ _ _ => [ino]
  end.

(** The references a request gives back. *)
Definition takes (k : kernel_request) (a : Z) : Z :=
  match k with
  | K_forget ino n => if decide (ino = a) then n else 0
  | K_forget_multi l => batch l a
  | _ => 0
  end.

(** The handle of a directory that is open. *)
Definition open_dir (s : St) (fi : option fuse_file_info) : Prop :=
  ∃ i d, fi = Some i ∧ dirs s !! fi_fh i = Some d ∧ dir_ d ≠ 0.

(** The other arguments: libfuse passes a [fuse_file_info] where the operation
    has one, sizes are not negative, and the kernel gives back the handles of
    open directories.  An extended attribute is not probed with size 0: that
    request does abort the process. *)
Definition arguments_ok (s : St) (k : kernel_request) : Prop :=
  match k with
  | K_forget _ n => 0 < n
  | K_forget_multi l => Forall (λ f, 0 < fg_nlookup f) l
  | K_readdir _ size _ fi => open_dir s fi ∧ 0 <= size < 9223372036854775808
  | K_releasedir _ fi | K_fsyncdir _ _ fi => open_dir s fi
  | K_getxattr _ _ size => 0 < size
  | K_listxattr _ size => 0 <= size
  | K_readdirplus _ _ _ _ => False
  | K_setattr _ _ _ fi => is_Some fi
  | K_open _ fi => is_Some fi
  | K_read _ _ _ fi => is_Some fi
  | K_flush _ fi => is_Some fi
  | K_release _ fi => is_Some fi
  | K_fsync _ _ fi => is_Some fi
  | K_opendir _ fi => is_Some fi
  | K_create _ _ _ fi => is_Some fi
  | K_getlk _ fi _ => is_Some fi
  | K_setlk _ fi _ _ => is_Some fi
  | K_poll _ fi _ => is_Some fi
  | K_write_buf _ _ _ fi => is_Some fi
  | K_flock _ fi _ => is_Some fi
  | K_fallocate _ _ _ _ fi => is_Some fi
  | K_copy_file_range _ _ fi_in _ _ fi_out _ _ => is_Some fi_in ∧ is_Some fi_out
  | K_lseek _ _ _ fi => is_Some fi
  | _ => True
  end.

(** How far the counts may rise while a request is served. *)
Definition headroom (k : kernel_request) : Z :=
  match k with K_readdir _ size _ _ => 2 * size + 8 | _ => 2 end.

(** What a kernel that was granted [granted s] and has given [f] back may send. *)
Record allowed (s : St) (f : Z → Z) (k : kernel_request) : Prop := {
  allowed_names : Forall (λ ino, ino = FUSE_ROOT_ID ∨ 0 < granted s ino - f ino) (names_of k);
  allowed_takes : ∀ a, takes k a <= granted s a - f a;
  allowed_room : ∀ a, granted s a - f a + headroom k < two64;
  allowed_arguments : arguments_ok s k
}.

(** A step serves a request the kernel may send, or lets time pass: between two
    requests everything outside the process may change. *)
Inductive kernel_step : St * (Z → Z) → St * (Z → Z) → Prop :=
  | step_request req k m o s s' f :
      serve pafs_ops req k = Some m → allowed s f k → m s = (o, s') →
      kernel_step (s, f) (s', λ a, f a + takes k a)
  | step_world w s f :
      kernel_step (s, f) ({| world := w; errno := errno s; trace := trace s;
        request := request s; pafs := pafs s; dirs := dirs s |}, f).

(** The file system is new: an empty cache, nothing granted. *)
Definition initial (s : St) : Prop :=
  inodes_ (pafs s) = ∅ ∧ entries (pafs s) = ∅ ∧ glog s = [].

(** The invariant. *)
Record accounted (s : St) (f : Z → Z) : Prop := {
  accounted_wf : cache_wf (pafs s);
  accounted_refs : ∀ a, refs (pafs s) a = granted s a - f a
}.

Lemma accounted_initial s : initial s → accounted s (λ _, 0).
Proof.
  intros (Hi & He & Hg). split.
  - by apply cache_wf_empty.
  - intros a. unfold refs, granted. rewrite He, lookup_empty.
    by rewrite (Hg : grant_log (trace s) = []).
Qed.

Lemma allowed_valid s f k ino :
  accounted s f → allowed s f k → ino ∈ names_of k → valid (GetInode ino) s.
Proof.
  intros [Hwf Hr] Ha Hin. pose proof (allowed_names _ _ _ Ha) as H.
  rewrite Forall_forall in H. destruct (H ino Hin) as [->|Hp]; [by eexists|].
  rewrite <- Hr in Hp. destruct (refs_live _ _ Hwf Hp) as (k' & _ & Hne).
  rewrite GetInode_entry by done. by apply valid_refs.
Qed.

Lemma allowed_room_refs s f k : accounted s f → allowed s f k → room (headroom k) s.
Proof. intros [_ Hr] Ha a. rewrite Hr. apply Ha. Qed.


Lemma effect_check_ptr {A} d (a : A) (k : A → M unit) s :
  Effect d (k a) s → Effect d (x ← check_ptr (Some a); k x) s.
Proof. done. Qed.

Lemma conserves_deref {A C} (o : option A) a (k : A → M C) s :
  o = Some a → Conserves (k a) s → Conserves (x ← deref o; k x) s.
Proof. by intros ->. Qed.

Lemma conserves_ReadDir ino size off fi s :
  ready s → valid (GetInode ino) s → open_dir s (Some fi) → 0 <= size < 9223372036854775808 →
  room (2 * size + 8) s → Conserves (ReadDir ino size off fi) s.
Proof.
  intros [Hwf _ [q Hq]] Hv (i & d & [= <-] & Hd & Hnz) Hs Hroom. unfold ReadDir.
  unfold Conserves. rewrite wp_bind. apply wp_intro. intros o s1 E.
  destruct Hv as [j Hj]. unfold read_inode, mbind, M_bind, gets in E. simpl in E. rewrite Hj in E.
  injection E as <- <-. simpl.
  eapply wp_mono; [apply (ReadDirInternal_spec (GetInode ino) size off fi false q d s);
    first [done | by eexists | unfold two64; lia]|].
  intros o s2 (Hc & Hwf2 & Hr & Hg & H). split; [done|]. split; [done|]. intros _ a.
  unfold granted. rewrite (Hg : grant_log (trace s2) = grant_log (trace s)). f_equal.
  destruct o as [[]|st|]; [|done..]. destruct H as (l & _ & _ & H). rewrite H. lia.
Qed.

(** What a handler may rely on when it starts: the cache is that of the state the
    request was sent in. *)
Record context (req : Z) (k : kernel_request) (s s1 : St) : Prop := {
  context_names : Forall (λ ino, valid (GetInode ino) s1) (names_of k);
  context_wf : cache_wf (pafs s1);
  context_room : room (headroom k) s1;
  context_ready : ready s1;
  context_dirs : dirs s1 = dirs s
}.

Lemma allowed_context req k s f s1 :
  accounted s f → allowed s f k → shape s1 = shape s → req_ (request s1) = Some req →
  context req k s s1.
Proof.
  intros HI HA Hs Hq. pose proof (accounted_wf _ _ HI) as Hwf.
  assert (cache_wf (pafs s1)) as Hwf1 by (by apply (shape_wf s s1)).
  assert (room (headroom k) s1) as Hroom.
  { intros a. rewrite (refs_shape s1 s a Hs). by apply (allowed_room_refs s f k). }
  assert (2 <= headroom k) as Hh.
  { pose proof (allowed_arguments _ _ _ HA) as H. destruct k; simpl in *; try done. lia. }
  split; [|done..| |exact (f_equal snd Hs)].
  - apply Forall_forall. intros ino Hin. apply (valid_shape _ s s1); [done|].
    by apply (allowed_valid s f k).
  - split; [auto| |by eexists]. apply bounded_room; [auto|done|]. intros a. specialize (Hroom a). lia.
Qed.

(** The two forgets. *)
Lemma serve_Forget req ino n s f :
  accounted s f → allowed s f (K_forget ino n) →
  Effect (takes (K_forget ino n)) (with_request req (reply_none (Forget ino n))) s.
Proof.
  intros HI HA. pose proof (allowed_arguments _ _ _ HA) as Hargs. simpl in Hargs.
  pose proof (allowed_takes _ _ _ HA ino) as Htakes. simpl in Htakes.
  rewrite decide_True in Htakes by done.
  apply effect_with_request. intros s1 Hs Hg Hq. apply effect_reply_none, effect_shifted.
  eapply wp_mono; [apply Forget_forgets|].
  - by apply (shape_wf s s1), HI.
  - rewrite (refs_shape s1 s ino Hs). rewrite <- (accounted_refs _ _ HI) in Htakes. lia.
  - intros o s' (-> & [W H R E]). split; [done|]. split; [done..|].
    intros b. rewrite E. simpl. case_decide; lia.
Qed.

Lemma serve_ForgetMulti req l s f :
  accounted s f → allowed s f (K_forget_multi l) →
  Effect (takes (K_forget_multi l)) (with_request req (reply_none (ForgetMulti l))) s.
Proof.
  intros HI HA. apply effect_with_request. intros s1 Hs Hg Hq. apply effect_reply_none, effect_shifted.
  apply ForgetMulti_forgets; [by apply (shape_wf s s1), HI|apply (allowed_arguments _ _ _ HA)|].
  intros a. rewrite (refs_shape s1 s a Hs), (accounted_refs _ _ HI). apply (allowed_takes _ _ _ HA).
Qed.

(** Every request a well-behaved kernel sends is served without a crash and
    moves the counts by what it gives back and what is granted. *)
Lemma serve_effect req k m s f :
  accounted s f → allowed s f k → serve pafs_ops req k = Some m → Effect (takes k) m s.
Proof.
  intros HI HA Hm. pose proof (λ s1, allowed_context req k s f s1 HI HA) as Hctx.
  pose proof (allowed_arguments _ _ _ HA) as Hargs.
  destruct k; simpl in Hm; injection Hm as <-; simpl in Hargs.
  all: try match type of Hargs with is_Some ?o => destruct Hargs as [? ->] end.
  all: try match type of Hargs with open_dir _ _ =>
    pose proof Hargs as (? & ? & -> & ? & ?) end.
  2: by apply (serve_Forget req ino nlookup s f).
  32: by apply (serve_ForgetMulti req forgets s f).
  all: try match type of Hargs with
       | is_Some _ ∧ is_Some _ => destruct Hargs as [[? ->] [? ->]]
       | open_dir _ _ ∧ _ => pose proof (proj1 Hargs) as (? & ? & -> & ? & ?)
       | False => done
       end.
  all: change (takes _) with (λ _ : Z, 0).
  all: repeat lazymatch goal with
       | |- Effect _ (mbind _ (check_ptr _)) _ => apply effect_check_ptr
       end.
  all: lazymatch goal with |- Effect _ (with_request _ _) _ => apply effect_with_request end.
  all: intros s1 Hs Hg Hq.
  all: lazymatch goal with
       | |- Effect _ (reply_failure _) _ => apply effect_reply_failure
       | |- Effect _ (reply_always _) _ => apply effect_reply_always
       | |- Effect _ (reply_none _) _ => apply effect_reply_none
       end.
  all: destruct (Hctx s1 Hs Hq) as [Hv Hwf1 Hroom Hready Hdirs]; apply effect_conserves; [done|].
  all: cbn [names_of] in Hv; rewrite ?Forall_cons in Hv; destruct_and? Hv.
  all: try match goal with H : dirs _ !! _ = _ |- _ => rewrite <- Hdirs in H end.
  all: try solve [auto 4 with handlers].
  all: lazymatch goal with
       | |- Conserves (ReadDir _ _ _ _) _ =>
           apply conserves_ReadDir; [done..| |apply Hargs|done]; by do 2 eexists
       | |- Conserves (ReleaseDir _ _) _ => apply conserves_ReleaseDir; [done|right; by eexists]
       | |- Conserves (FSyncDir _ _ _) _ => by eapply conserves_FSyncDir
       | |- _ => refine (conserves_deref _ _ _ _ eq_refl _); by apply conserves_WriteBuf
       end.
Qed.

Lemma step_accounted s f s' f' :
  accounted s f → kernel_step (s, f) (s', f') → accounted s' f'.
Proof.
  intros HI Hstep. inversion Hstep as [req k m o sx sx' fx Hm HA E|w sx fx]; subst.
  - pose proof (serve_effect req k m _ _ HI HA Hm) as He. unfold Effect, wp in He. rewrite E in He.
    destruct He as (_ & Hwf & Hr). split; [done|]. intros a. simpl in Hr.
    specialize (Hr a). rewrite (accounted_refs _ _ HI) in Hr. lia.
  - by destruct HI.
Qed.

Lemma steps_accounted s f s' f' :
  accounted s f → rtc kernel_step (s, f) (s', f') → accounted s' f'.
Proof.
  intros HI Hr. remember (s, f) as x eqn:Hx. remember (s', f') as y eqn:Hy.
  revert s f HI Hx. induction Hr as [x|x [s1 f1] z Hstep Hr IH]; intros s f HI ->.
  - by injection Hy as <- <-.
  - by eapply IH; [|eapply step_accounted|].
Qed.



End Kernel.

(** ** A run: look up [a], then forget it *)

Module ProtocolRun.

Definition demo_platform : @Platform sim_absl := sim_platform no_failure sample_tree.
#[local] Existing Instance sim_absl.
#[local] Existing Instance sim_libc.
#[local] Existing Instance demo_platform.

Definition laws : PlatformLaws demo_platform := sim_platform_laws no_failure sample_tree.
#[local] Existing Instance laws.

Definition start : St := sample_state no_failure sample_world.

Definition run (req : Z) (k : kernel_request) (s : St) : St :=
  match serve pafs_ops req k with Some m => (m s).2 | None => s end.

Definition looked_up : St := run 77 (K_lookup 1 "a") start.
Definition forgot : St := run 78 (K_forget 16 1) looked_up.

Lemma run_step req k s f :
  is_Some (serve pafs_ops req k) → allowed s f k →
  kernel_step (s, f) (run req k s, λ a, f a + takes k a).
Proof.
  intros [m Hm] HA. unfold run. rewrite Hm.
  apply (step_request req k m (m s).1 s (m s).2 f Hm HA). by destruct (m s).
Qed.

Lemma initial_start : initial start.
Proof. done. Qed.

Lemma log_looked_up : grant_log (trace looked_up) = [16].
Proof. by vm_compute. Qed.

Lemma allowed_lookup : allowed start (λ _, 0) (K_lookup 1 "a").
Proof. split; simpl; [by repeat constructor; left|done..]. Qed.

Lemma allowed_forget : allowed looked_up (λ _, 0 + 0) (K_forget 16 1).
Proof.
  split; simpl; [done| | |done]; intros a; unfold granted; rewrite log_looked_up; simpl;
    unfold ind; repeat case_decide; unfold two64; lia.
Qed.

Lemma reach_lookup : rtc kernel_step (start, λ _, 0) (looked_up, λ _, 0 + 0).
Proof.
  apply (rtc_l _ _ (looked_up, λ a, 0 + takes (K_lookup 1 "a") a)); [|apply rtc_refl].
  apply run_step; [by eexists|apply allowed_lookup].
Qed.

Lemma reach_forget :
  rtc kernel_step (start, λ _, 0) (forgot, λ a, 0 + 0 + takes (K_forget 16 1) a).
Proof.
  etrans; [apply reach_lookup|]. apply rtc_once.
  apply run_step; [by eexists|apply allowed_forget].
Qed.



End ProtocolRun.
