(* ===== verification/Errors.v ===== *)
(** * How failures reach the kernel

    Error numbers travel from a system call to the kernel as the payload of a
    status.  The theorems here follow them, on every path: what the kernel is
    told when an operation fails, that a failure is never reported as a success,
    and the paths on which the report is lost, replaced or replaced by an abort. *)

From S2P Require Import Prelude Consts Absl Errno Status Machine Syscalls Raii Fuse Inode Pafs FuseOps Sim Requests Cache Lookup Conserve Handlers ReadDir.

Open Scope string_scope.
Open Scope Z_scope.

Section Errors.
Context {AB : Absl} {LC : Libc} {PL : Platform} {AL : AbslLaws AB} {LL : LibcLaws LC}
  {PWL : PlatformLaws PL}.
Import PageAlignFS.

(** ** Error numbers in statuses *)

(** The number the kernel is told for a system call that failed with [n]. *)
Definition reported (n : Z) (m : string) : Z :=
  if in_table n then n else StatusCodeToErrno (code (absl_ErrnoToStatus n m)).

Lemma failure_errno_reported n m :
  is_int n → n ≠ 0 → failure_errno (ErrnoToStatus n m) = reported n m.
Proof.
  intros Hi Hn. unfold failure_errno, reported. destruct (in_table n) eqn:E.
  - by rewrite (proj2 (GetErrno_ErrnoToStatus_iff n m Hi Hn) E).
  - rewrite GetErrno_ErrnoToStatus by done.
    destruct (ErrnoToErrorName_lost n E Hn) as (e & -> & _). by rewrite code_ErrnoToStatus.
Qed.

(** C16: an error number keeps its value on the way through a name and back
    exactly when the table of errno.cc has its name or libc has none for it;
    otherwise the way back fails with NotFound. *)
Theorem errno_name_roundtrip n :
  is_int n → n ≠ 0 →
  (in_table n = true ∧ ErrorNameToErrno (ErrnoToErrorName n) = inr n) ∨
  (in_table n = false ∧ ∃ e, ErrorNameToErrno (ErrnoToErrorName n) = inl e ∧ code e = kNotFound).
Proof.
  intros Hi Hn. destruct (in_table n) eqn:E.
  - left. split; [done|]. by apply ErrnoToErrorName_roundtrip.
  - right. split; [done|]. by apply ErrnoToErrorName_lost.
Qed.

(** The statuses the program makes for failures. *)
Inductive made : Status → Prop :=
  | made_errno n m : is_int n → n ≠ 0 → made (ErrnoToStatus n m)
  | made_absl n m : n ≠ 0 → made (absl_ErrnoToStatus n m)
  | made_code c m : c ≠ kOk → made (MakeStatus c m).

Lemma code_of_failure st : ok st = false → StatusCodeToErrno (code st) ≠ 0.
Proof. intros H Hz%StatusCodeToErrno_zero. unfold ok in H. by rewrite Hz in H. Qed.

(** C15: no failure is reported to the kernel as a success: the error number
    sent for any status the program makes for a failure is not 0. *)
Theorem failures_are_reported_as_failures st : made st → failure_errno st ≠ 0.
Proof.
  intros [n m Hi Hn|n m Hn|c m Hc].
  - rewrite failure_errno_reported by done. unfold reported. destruct (in_table n); [done|].
    apply code_of_failure. rewrite ok_ErrnoToStatus. by apply bool_decide_eq_false.
  - unfold failure_errno, GetErrnoFromStatus. rewrite GetPayload_ErrnoToStatus.
    apply code_of_failure. rewrite ok_ErrnoToStatus. by apply bool_decide_eq_false.
  - unfold failure_errno. rewrite MakeStatus_no_errno, code_MakeStatus.
    intros Hz%StatusCodeToErrno_zero. done.
Qed.

(** C32: [Prepend] and [Append] are meant to keep the payloads of the status they
    extend; they keep none, so an error number is lost with them. *)
Theorem Prepend_Append_lose_errno st message joiner :
  code (Prepend st message joiner) = code st ∧ code (Append st message joiner) = code st ∧
  ∃ e, GetErrnoFromStatus (Prepend st message joiner) = inl e ∧
       GetErrnoFromStatus (Append st message joiner) = inl e.
Proof.
  unfold Prepend, Append. rewrite !code_MakeStatus. split; [done|]. split; [done|].
  eexists. by rewrite !MakeStatus_no_errno.
Qed.

(** ** Replies that carry only an error number *)

(** The state in which a handler runs for request [req]. *)
Definition serving (req : Z) (s : St) : St := set_request_st (FR (Some req)) s.

Lemma ReplyErrno_log n q s :
  req_ (request s) = Some q →
  ∃ r, reply_log (ReplyErrno n s).2 = Ev (F_reply_err q n) r :: reply_log s ∧
       req_ (request (ReplyErrno n s).2) = None ∧ no_crash (ReplyErrno n s).1.
Proof.
  intros Hq. unfold ReplyErrno, reply, get_req, gets, mbind, M_bind. simpl. rewrite Hq.
  unfold sys. destruct (os_step _ _) as [[r e] w]. exists r. unfold return_status.
  destruct (ok _) eqn:E; by split_and!.
Qed.

(** What [ReplyFailure] leaves: one reply and no pending request. *)
Lemma ReplyFailure_log st q s :
  ok st = false → req_ (request s) = Some q →
  ∃ r, reply_log (ReplyFailure st s).2 = Ev (F_reply_err q (failure_errno st)) r :: reply_log s ∧
       req_ (request (ReplyFailure st s).2) = None ∧ no_crash (ReplyFailure st s).1.
Proof.
  intros Hst Hq. destruct (ReplyErrno_log (failure_errno st) q s Hq) as (r & Hl & _ & Hc).
  exists r. unfold ReplyFailure, check. rewrite Hst. simpl.
  unfold get_req, gets, mbind, M_bind, try_. simpl. rewrite Hq.
  destruct (ReplyErrno _ s) as [[[]|e|?] s'] eqn:E; simpl in *; by split_and!.
Qed.


(** ** Operations that are answered with an error number alone *)

Definition outcome_errno (o : Outcome unit) : Z :=
  match o with Ret _ => 0 | Fail st => failure_errno st | Crash _ => 0 end.

Lemma reply_always_log h q s :
  Keeps reply_log h → Keeps request h → req_ (request s) = Some q → no_crash (h s).1 →
  ∃ r, reply_log (reply_always h s).2 = Ev (F_reply_err q (outcome_errno (h s).1)) r :: reply_log s ∧
       req_ (request (reply_always h s).2) = None ∧ (reply_always h s).1 = Ret tt.
Proof.
  intros Hl Hr Hq Hc. specialize (Hl s). specialize (Hr s).
  unfold reply_always, mbind, M_bind, try_.
  destruct (h s) as [[[]|st|c] s1]; simpl in *; [| |done].
  - destruct (ReplyErrno_log 0 q s1 ltac:(by rewrite Hr)) as (r & Hl1 & Hr1 & Hc1). exists r.
    unfold ReplyAlwaysAndLogIfNotOk, log_if_error, mbind, M_bind, try_.
    destruct (ReplyErrno 0 s1) as [[[]|e|?] s2]; simpl in *; split_and!; try done; congruence.
  - destruct (ReplyFailure_log st q s1 Hc ltac:(by rewrite Hr)) as (r & Hl1 & Hr1 & Hc1). exists r.
    unfold ReplyAlwaysAndLogIfNotOk, log_if_error, mbind, M_bind, try_.
    destruct (ReplyFailure st s1) as [[[]|e|?] s2]; simpl in *; split_and!; try done; congruence.
Qed.

Lemma dtor_idle s : req_ (request s) = None → FuseRequest_dtor s = (Ret tt, s).
Proof. intros H. unfold FuseRequest_dtor, get_req, gets, mbind, M_bind. simpl. by rewrite H. Qed.

Lemma with_request_eq req body s :
  with_request req body s = on_exit body FuseRequest_dtor (serving req s).
Proof.
  unfold with_request, mbind, M_bind, check. by rewrite (proj2 (Z.eqb_neq _ _) (userdata_set req)).
Qed.

(** The operations whose policy is to always reply with an error number, and the
    handler each one runs. *)
Definition status_handler (k : kernel_request) : option (M unit) :=
  match k with
  | K_unlink parent name => Some (Unlink parent name)
  | K_rmdir parent name => Some (Rmdir parent name)
  | K_rename parent name np nn flags => Some (Rename parent name np nn flags)
  | K_flush ino (Some fi) => Some (Flush ino fi)
  | K_release ino (Some fi) => Some (Release ino fi)
  | K_fsync ino d (Some fi) => Some (FSync ino (to_bool d) fi)
  | K_releasedir ino (Some fi) => Some (ReleaseDir ino fi)
  | K_fsyncdir ino d (Some fi) => Some (FSyncDir ino (to_bool d) fi)
  | K_setxattr ino name value flags => Some (SetXAttr ino name value flags)
  | K_removexattr ino name => Some (RemoveXAttr ino name)
  | K_access ino mask => Some (Access ino mask)
  | K_flock ino (Some fi) op => Some (FLock ino fi op)
  | K_fallocate ino mode off len (Some fi) => Some (FAllocate ino mode off len fi)
  | _ => None
  end.

#[local] Hint Extern 1 (Keeps reply_log (modify _)) => apply keeps_reply_log_modify; reflexivity : keeps.

Lemma status_handler_keeps k h :
  status_handler k = Some h → Keeps reply_log h ∧ Keeps request h.
Proof.
  intros H. destruct k; simpl in H; try done; try (destruct fi; [|done]); injection H as <-;
    split; solve_keeps.
Qed.

Lemma status_handler_serve k h req m :
  status_handler k = Some h → serve pafs_ops req k = Some m → m = with_request req (reply_always h).
Proof.
  intros H Hm. destruct k; simpl in H; try done; try (destruct fi; [|done]); injection H as <-;
    simpl in Hm; by injection Hm as <-.
Qed.


(** ** Paths on which the report is lost or replaced *)

Lemma read_inode_eq i inode s :
  lookup_inode (pafs s) i = Some inode → read_inode i s = (Ret inode, s).
Proof. intros H. unfold read_inode, mbind, M_bind, gets. simpl. by rewrite H. Qed.

(** C33: a lock request that succeeds is answered with ECOMM: the wrapper of
    [SetLk] replies to failures only, the handler never replies, and so the
    destructor of the request answers in their place. *)
Theorem SetLk_success_is_answered_with_ECOMM req ino fi lock sleep m s :
  serve pafs_ops req (K_setlk ino (Some fi) lock sleep) = Some m →
  (SetLk ino fi lock (to_bool sleep) (serving req s)).1 = Ret tt →
  ∃ r, reply_log (m s).2 = Ev (F_reply_err req ECOMM) r :: reply_log s.
Proof.
  intros Hm Ho. simpl in Hm. injection Hm as <-.
  change (∃ r, reply_log (with_request req (reply_failure (SetLk ino fi lock (to_bool sleep))) s).2 =
    Ev (F_reply_err req ECOMM) r :: reply_log s).
  rewrite with_request_eq. set (h := SetLk ino fi lock (to_bool sleep)) in *.
  assert (Keeps reply_log h) as Hl by (unfold h; solve_keeps).
  assert (Keeps request h) as Hr by (unfold h; solve_keeps).
  specialize (Hl (serving req s)). specialize (Hr (serving req s)).
  unfold on_exit, reply_failure, mbind, M_bind, try_.
  destruct (h (serving req s)) as [[[]|st|c] s1]; [|done..]. simpl in *.
  destruct (ReplyErrno_log ECOMM req s1 ltac:(by rewrite Hr)) as (r & Hl1 & _ & Hc1). exists r.
  unfold FuseRequest_dtor, get_req, gets, log_if_error, mbind, M_bind, try_. simpl. rewrite Hr. simpl.
  destruct (ReplyErrno ECOMM s1) as [[[]|e|?] s2]; simpl in *; try done; by rewrite Hl1, Hl.
Qed.

(** C34: a write that fails is never reported: when the copy into the file
    fails, the only answer libfuse gets is [fuse_reply_none], which sends the
    kernel nothing. *)
Theorem WriteBuf_failure_is_not_reported req ino b off fi m s inode :
  serve pafs_ops req (K_write_buf ino b off (Some fi)) = Some m →
  lookup_inode (pafs s) (GetInode ino) = Some inode →
  (os_step (F_buf_copy (fd_bufvec (fuse_buf_size b) (to_int (fi_fh fi)) off) b 0) (world s)).1.1 < 0 →
  (m s).1 = Ret tt ∧ reply_log (m s).2 = Ev (F_reply_none req) tt :: reply_log s.
Proof.
  intros Hm Hi Hneg. simpl in Hm. injection Hm as <-.
  change ((with_request req (reply_none (fi ← deref (Some fi); WriteBuf ino b off fi)) s).1 = Ret tt ∧
    reply_log (with_request req (reply_none (fi ← deref (Some fi); WriteBuf ino b off fi)) s).2 =
      Ev (F_reply_none req) tt :: reply_log s).
  rewrite with_request_eq.
  assert (∃ st s1, (fi ← deref (Some fi); WriteBuf ino b off fi) (serving req s) = (Fail st, s1) ∧
    request s1 = FR (Some req) ∧ reply_log s1 = reply_log s) as (st & s1 & E & Hq & Hl).
  { unfold WriteBuf, deref, mbind, M_bind. simpl. rewrite (read_inode_eq _ inode) by done.
    unfold FuseBufCopy, mbind, M_bind, sys. cbn [world serving set_request_st].
    destruct (os_step _ (world s)) as [[nb e] w]. cbn [fst snd] in *.
    rewrite (proj2 (Z.ltb_lt nb 0)) by done. eexists _, _. split; [reflexivity|]. done. }
  revert E. generalize (fi ← deref (Some fi); WriteBuf ino b off fi). intros body E.
  unfold on_exit, reply_none, log_if_error, mbind, M_bind, try_. rewrite E.
  unfold ReplyNone, get_req, gets, mbind, M_bind. cbn [fst snd mret M_ret]. rewrite Hq. cbn [req_].
  unfold sys. destruct (os_step (F_reply_none req) (world s1)) as [[[] e] w].
  cbn [fst snd mret M_ret set_req modify]. rewrite dtor_idle by done.
  split; [done|]. by rewrite <- Hl.
Qed.

(** C35: asking for the size of an extended attribute, which a client does with
    size 0, aborts the process whenever the attribute is not empty. *)
Theorem GetXAttr_probe_crashes ino name inode s :
  lookup_inode (pafs s) (GetInode ino) = Some inode →
  0 < (os_step (C_getxattr (proc_self_fd (GetFD inode)) name 0) (world s)).1.1.1 →
  (GetXAttr ino name 0 s).1 = Crash CheckFailed.
Proof.
  intros Hi Hnb. unfold GetXAttr, mbind, M_bind. rewrite (read_inode_eq _ inode) by done.
  unfold syscalls.getxattr, syscalls.getxattr_span, syscalls.value_call, mbind, M_bind, sys.
  destruct (os_step _ (world s)) as [[[nb v] e] w]. cbn [fst snd] in *.
  destruct (Z.eqb_spec nb (-1)); [lia|]. simpl.
  by rewrite (proj2 (Z.leb_gt nb 0)) by done.
Qed.

(** C36: the same question for the list of attributes is answered with that many
    zero bytes, a list of empty names, instead of the size. *)
Theorem ListXAttr_probe_replies_zeros ino inode q s :
  lookup_inode (pafs s) (GetInode ino) = Some inode → req_ (request s) = Some q →
  let nb := (os_step (C_listxattr (proc_self_fd (GetFD inode)) 0) (world s)).1.1.1 in
  0 <= nb →
  ∃ r, reply_log (ListXAttr ino 0 s).2 = Ev (F_reply_buf q (syscalls.zero_bytes nb)) r :: reply_log s.
Proof.
  intros Hi Hq nb Hnb. unfold ListXAttr, mbind, M_bind. rewrite (read_inode_eq _ inode) by done.
  unfold syscalls.listxattr, syscalls.value_call, mbind, M_bind, sys. unfold nb in *. clear nb.
  destruct (os_step _ (world s)) as [[[nb v] e] w]. cbn [fst snd] in *.
  destruct (Z.eqb_spec nb (-1)); [lia|]. cbn [mret M_ret fst snd].
  assert (syscalls.overwrite 0 v = []) as -> by done.
  assert (syscalls.resize [] nb = syscalls.zero_bytes nb) as ->.
  { unfold syscalls.resize. rewrite take_nil. simpl. by rewrite Z.sub_0_r. }
  simpl. unfold ReplyBuf, reply, get_req, gets, mbind, M_bind. simpl. rewrite Hq.
  unfold sys. destruct (os_step (F_reply_buf _ _) _) as [[r e'] w']. exists r.
  unfold return_status. by destruct (ok _).
Qed.

(** C37: attributes are replied with the entry timeout: the option for the
    attribute timeout has no effect on [GetAttr] and [SetAttr]. *)
Theorem ReplyWithAttrs_uses_entry_timeout i q s :
  req_ (request s) = Some q →
  wp (ReplyWithAttrs i) (λ o s', o = Ret tt → ∃ attrs r, reply_log s' =
    Ev (F_reply_attr q attrs (ToDoubleSeconds (kernel_entry_timeout (opts_ (pafs s))))) r :: reply_log s) s.
Proof.
  intros Hq. unfold ReplyWithAttrs.
  assert (Keeps reply_log (read_inode i)) as Hl1 by solve_keeps.
  assert (Keeps mem (read_inode i)) as Hr1 by solve_keeps.
  specialize (Hl1 s). specialize (Hr1 s). rewrite wp_bind. apply wp_intro. intros o s1 E.
  rewrite E in Hl1, Hr1. simpl in Hl1, Hr1. clear E. destruct o as [inode|?|?]; [|done..]. simpl.
  assert (Keeps reply_log (Inode_Stat inode)) as Hl2 by solve_keeps.
  assert (Keeps mem (Inode_Stat inode)) as Hr2 by solve_keeps.
  specialize (Hl2 s1). specialize (Hr2 s1). rewrite wp_bind. apply wp_intro. intros o s2 E.
  rewrite E in Hl2, Hr2. simpl in Hl2, Hr2. clear E. destruct o as [attrs|?|?]; [|done..]. simpl.
  unfold mem in *. injection Hr1 as Hq1 Hp1 _. injection Hr2 as Hq2 Hp2 _.
  rewrite wp_bind, wp_gets. simpl. rewrite Hp2, Hp1.
  unfold wp, ReplyAttr, reply, get_req, gets, mbind, M_bind. cbn [fst snd].
  rewrite Hq2, Hq1, Hq. unfold sys.
  destruct (os_step _ _) as [[r e] w]. intros _. exists attrs, r.
  rewrite <- Hl1, <- Hl2. cbn [fst snd set_req modify]. unfold return_status. by destruct (ok _).
Qed.

End Errors.

(** ** Runs *)

Module ErrorsRun.

#[local] Existing Instance sim_absl.
#[local] Existing Instance sim_libc.

(** Removing a name is not permitted and copying into a file fails; the rest
    succeeds. *)
Definition some_failures (n : nat) (c : call) : option Z :=
  match c with
  | C_unlinkat _ _ _ => Some EACCES
  | F_buf_copy _ _ _ => Some ENOSPC
  | _ => None
  end.

Definition demo_platform : @Platform sim_absl := sim_platform some_failures sample_tree.
#[local] Existing Instance demo_platform.
Definition laws : PlatformLaws demo_platform := sim_platform_laws some_failures sample_tree.
#[local] Existing Instance laws.

Definition start : St := sample_state some_failures sample_world.
Definition handle : fuse_file_info :=
  {| fi_flags := 0; fi_fh := 5; fi_noflush := false; fi_parallel_direct_writes := false |}.
Definition lock : flock_t := {| l_type := 1; l_whence := 0; l_start := 0; l_len := 0; l_pid := 0 |}.

Lemma int_range n : bool_decide (-2147483648 <= n <= 2147483647) = true → is_int n.
Proof. apply bool_decide_eq_true. Qed.

Lemma errno_name_roundtrip_witness :
  ErrorNameToErrno (ErrnoToErrorName ENOENT) = inr ENOENT.
Proof.
  destruct (errno_name_roundtrip ENOENT) as [[_ H]|[H _]]; [by apply int_range|done|exact H|].
  vm_compute in H. discriminate.
Defined.

Lemma failures_are_reported_as_failures_witness :
  failure_errno (ErrnoToStatus EIO "read") ≠ 0.
Proof.
  apply (failures_are_reported_as_failures (ErrnoToStatus EIO "read")).
  apply made_errno; [by apply int_range|done].
Defined.

(** [ENOENT] is lost on the way. *)
Lemma Prepend_Append_lose_errno_witness :
  GetErrnoFromStatus (ErrnoToStatus ENOENT "open") = inr ENOENT ∧
  ∃ e, GetErrnoFromStatus (Prepend (ErrnoToStatus ENOENT "open") "Lookup" ": ") = inl e.
Proof.
  split; [vm_compute; reflexivity|].
  destruct (Prepend_Append_lose_errno (ErrnoToStatus ENOENT "open") "Lookup" ": ") as (_ & _ & e & H & _).
  exists e. exact H.
Defined.



Lemma SetLk_success_is_answered_with_ECOMM_witness :
  ∃ m r, serve pafs_ops 77 (K_setlk 1 (Some handle) lock 0) = Some m ∧
    reply_log (m start).2 = [Ev (F_reply_err 77 ECOMM) r].
Proof.
  destruct (SetLk_success_is_answered_with_ECOMM 77 1 handle lock 0 _ start eq_refl) as (r & H).
  - reflexivity.
  - eexists _, r. split; [reflexivity|exact H].
Defined.

Lemma WriteBuf_failure_is_not_reported_witness :
  ∃ m, serve pafs_ops 77 (K_write_buf 1 (FUSE_BUFVEC_INIT 4) 0 (Some handle)) = Some m ∧
    reply_log (m start).2 = [Ev (F_reply_none 77) tt].
Proof.
  destruct (WriteBuf_failure_is_not_reported 77 1 (FUSE_BUFVEC_INIT 4) 0 handle _ start sample_root
    eq_refl eq_refl) as [_ H].
  - vm_compute. reflexivity.
  - eexists. split; [reflexivity|exact H].
Defined.

Lemma GetXAttr_probe_crashes_witness :
  (PageAlignFS.GetXAttr 1 "user.a" 0 start).1 = Crash CheckFailed.
Proof.
  apply (GetXAttr_probe_crashes 1 "user.a" sample_root start eq_refl). reflexivity.
Defined.

Lemma ListXAttr_probe_replies_zeros_witness :
  ∃ r, reply_log (PageAlignFS.ListXAttr 1 0 start).2 = [Ev (F_reply_buf 77 (syscalls.zero_bytes 3)) r].
Proof.
  exact (ListXAttr_probe_replies_zeros 1 sample_root 77 start eq_refl eq_refl ltac:(done)).
Defined.

Lemma ReplyWithAttrs_uses_entry_timeout_witness :
  ∃ attrs r, reply_log (PageAlignFS.ReplyWithAttrs IRoot start).2 = [Ev (F_reply_attr 77 attrs 1) r].
Proof.
  pose proof (ReplyWithAttrs_uses_entry_timeout IRoot 77 start eq_refl) as H.
  unfold wp in H. apply H. reflexivity.
Defined.

End ErrorsRun.
