(* ===== verification/Owners.v ===== *)
(** * Kernel resources: who releases what, and how often

    Descriptors, directory streams, poll handles and signal masks are owned by
    objects.  The theorems here give the exact calls the program makes for them,
    on success and on failure. *)

From S2P Require Import Prelude Consts Absl Errno Status Machine Syscalls Raii Fuse Inode Pafs FuseOps Sim Cache Lookup Conserve Handlers ReadDir.

Open Scope string_scope.
Open Scope Z_scope.

Section Owners.
Context {AB : Absl} {LC : Libc} {PL : Platform} {AL : AbslLaws AB} {LL : LibcLaws LC}.
Import PageAlignFS.

(** The calls made so far, newest first. *)
Definition calls (s : St) : list call := map ev_call (trace s).

(** ** Destructors *)

Lemma close_calls fd s :
  ∃ o s', syscalls.close fd s = (o, s') ∧ no_crash o ∧ calls s' = C_close (fd_ fd) :: calls s ∧
          mem s' = mem s.
Proof.
  unfold syscalls.close, syscalls.set_errno, syscalls.return_errno, syscalls.get_errno,
    mbind, M_bind, gets, modify, sys; simpl.
  destruct (os_step _ _) as [[r e] w]. unfold return_status. simpl.
  destruct (ok _) eqn:E; eexists _, _; by split_and!.
Qed.

Lemma FileDescriptor_dtor_calls fd s :
  ∃ s', FileDescriptor_dtor fd s = (Ret tt, s') ∧ mem s' = mem s ∧
    calls s' = ((if decide (fd_ fd = -1) then [] else [C_close (fd_ fd)]) ++ calls s)%list.
Proof.
  unfold FileDescriptor_dtor. destruct (Z.eqb_spec (fd_ fd) (-1)) as [E|E].
  - rewrite decide_True by done. by exists s.
  - rewrite decide_False by done.
    destruct (close_calls (FileDescriptor.move fd).1 s) as (o & s' & Ec & Hc & Hl & Hm).
    unfold log_if_error, mbind, M_bind, try_. simpl. simpl in Ec. rewrite Ec.
    destruct o as [[]|st|]; [..|done]; by exists s'.
Qed.

Lemma Directory_dtor_calls d s :
  ∃ s', Directory_dtor d s = (Ret tt, s') ∧ mem s' = mem s ∧
    calls s' = ((if decide (dir_ d = 0) then [] else [C_closedir (dir_ d)]) ++ calls s)%list.
Proof.
  unfold Directory_dtor. destruct (Z.eqb_spec (dir_ d) 0) as [E|E].
  - rewrite decide_True by done. by exists s.
  - rewrite decide_False by done.
    unfold log_if_error, syscalls.closedir, syscalls.set_errno, syscalls.return_errno,
      syscalls.get_errno, mbind, M_bind, try_, gets, modify, sys; simpl.
    destruct (os_step _ _) as [[r e] w]. unfold return_status. simpl. destruct (ok _); eexists; by split_and!.
Qed.

Lemma FusePollHandle_dtor_calls h s :
  ∃ s', FusePollHandle_dtor h s = (Ret tt, s') ∧ mem s' = mem s ∧
    calls s' = ((if decide (handle_ h = 0) then [] else [F_pollhandle_destroy (handle_ h)]) ++ calls s)%list.
Proof.
  unfold FusePollHandle_dtor. destruct (Z.eqb_spec (handle_ h) 0) as [E|E].
  - rewrite decide_True by done. by exists s.
  - rewrite decide_False by done. unfold mbind, M_bind, sys; simpl.
    destruct (os_step _ _) as [[r e] w]. eexists; by split_and!.
Qed.

Lemma calls_bind_dtor (m1 m2 : M unit) l1 l2 s :
  (∀ s, ∃ s', m1 s = (Ret tt, s') ∧ mem s' = mem s ∧ calls s' = (l1 ++ calls s)%list) →
  (∀ s, ∃ s', m2 s = (Ret tt, s') ∧ mem s' = mem s ∧ calls s' = (l2 ++ calls s)%list) →
  ∃ s', (m1;; m2) s = (Ret tt, s') ∧ mem s' = mem s ∧ calls s' = ((l2 ++ l1) ++ calls s)%list.
Proof.
  intros H1 H2. destruct (H1 s) as (s1 & E1 & M1 & C1). destruct (H2 s1) as (s2 & E2 & M2 & C2).
  exists s2. unfold mbind, M_bind. rewrite E1, E2. split; [done|]. split; [congruence|].
  by rewrite C2, C1, app_assoc.
Qed.

(** C21: moving an owner hands its resource on: when the object moved to and the
    object moved from are both destroyed, the descriptor is closed, the stream
    closed and the poll handle destroyed exactly once, and not at all after
    [Release]. *)
Theorem moved_resources_are_released_once fd d h s :
  fd ≠ -1 → d ≠ 0 → h ≠ 0 →
  (let '(this, o) := FileDescriptor.move (FD fd) in
   calls ((FileDescriptor_dtor o;; FileDescriptor_dtor this) s).2 = C_close fd :: calls s) ∧
  (let '(this, o) := Directory_move (Dir d) in
   calls ((Directory_dtor o;; Directory_dtor this) s).2 = C_closedir d :: calls s) ∧
  (let '(this, o) := FusePollHandle_move (PH h) in
   calls ((FusePollHandle_dtor o;; FusePollHandle_dtor this) s).2 = F_pollhandle_destroy h :: calls s) ∧
  calls (FileDescriptor_dtor (FileDescriptor.Release (FD fd)).2 s).2 = calls s ∧
  calls (Directory_dtor (Directory_Release (Dir d)).2 s).2 = calls s.
Proof.
  intros Hfd Hd Hh.
  destruct (calls_bind_dtor _ _ _ _ s (FileDescriptor_dtor_calls (FD (-1))) (FileDescriptor_dtor_calls (FD fd)))
    as (s1 & E1 & _ & C1).
  destruct (calls_bind_dtor _ _ _ _ s (Directory_dtor_calls (Dir 0)) (Directory_dtor_calls (Dir d)))
    as (s2 & E2 & _ & C2).
  destruct (calls_bind_dtor _ _ _ _ s (FusePollHandle_dtor_calls (PH 0)) (FusePollHandle_dtor_calls (PH h)))
    as (s3 & E3 & _ & C3).
  cbn [fd_ dir_ handle_] in *.
  rewrite decide_False in C1 by done. rewrite decide_False in C2 by done. rewrite decide_False in C3 by done.
  unfold FileDescriptor.move, FileDescriptor.assign, FileDescriptor.empty, Directory_move,
    Directory_assign, Directory_null, FusePollHandle_move, FusePollHandle_assign, FusePollHandle_null.
  rewrite E1, E2, E3. by split_and!.
Qed.

(** C22: a scoped signal mask restores, once, the mask that was in force when it
    was created, wherever it was moved in between. *)
Theorem ScopedSignalMask_restores how set m s s1 :
  ScopedSignalMask_Create how set s = (Ret m, s1) →
  let '(this, o) := ScopedSignalMask_move m in
  ∃ old s2, (ScopedSignalMask_dtor o;; ScopedSignalMask_dtor this) s1 = (Ret tt, s2) ∧
    (os_step (C_pthread_sigmask how set) (world s)).1.1.2 = old ∧
    calls s2 = C_pthread_sigmask SIG_SETMASK old :: C_pthread_sigmask how set :: calls s.
Proof.
  unfold ScopedSignalMask_Create, syscalls.pthread_sigmask, mbind, M_bind, sys.
  destruct (os_step (C_pthread_sigmask how set) (world s)) as [[[rc old] e] w]. cbn [fst snd].
  unfold return_status at 1. destruct (ok _); [|done]. intros [= <- <-]. simpl.
  exists old. unfold ScopedSignalMask_dtor, log_if_error, syscalls.pthread_sigmask, mbind, M_bind, try_, sys.
  simpl. destruct (os_step _ _) as [[[rc' old'] e'] w']. unfold return_status. simpl.
  destruct (ok _); eexists; by split_and!.
Qed.

(** ** Inodes *)

(** C25: creating an inode leaks nothing: if the file cannot be opened there is
    nothing to close; if it cannot be examined its descriptor is closed; and a
    new inode owns the descriptor that was opened and no other call was made. *)
Theorem Inode_Create_calls path parent_fd s :
  wp (Inode_Create path parent_fd) (λ o s',
    let op := C_openat parent_fd path (or_flags [O_PATH; O_NOFOLLOW; O_CLOEXEC]) 0 in
    let st fd := C_fstatat fd EmptyString (or_flags [AT_EMPTY_PATH; AT_SYMLINK_NOFOLLOW]) in
    mem s' = mem s ∧
    match o with
    | Ret i => fd_ (inode_fd_ i) ≠ -1 ∧ generation_ i = None ∧ handle_ (poll_handle_ i) = 0 ∧
               calls s' = st (fd_ (inode_fd_ i)) :: op :: calls s
    | Fail _ => calls s' = op :: calls s ∨
                ∃ fd, fd ≠ -1 ∧ calls s' = C_close fd :: st fd :: op :: calls s
    | Crash _ => False
    end) s.
Proof.
  unfold Inode_Create, syscalls.openat. rewrite wp_bind, wp_bind.
  refine (wp_sys_all (C_openat _ _ _ _) _ s _). intros fd e w _. simpl.
  destruct (Z.eqb_spec fd (-1)) as [Hfd|Hfd].
  - unfold syscalls.fail_errno, syscalls.get_errno. rewrite wp_bind, wp_gets. simpl.
    split; [done|]. by left.
  - unfold wp at 1; simpl. rewrite wp_bind, wp_on_error. unfold StatFD, syscalls.fstatat. rewrite wp_bind.
    refine (wp_sys_all (C_fstatat _ _ _) _ _ _). intros [rc buf] e1 w1 _. simpl.
    destruct (Z.eqb_spec rc (-1)) as [Hrc|Hrc]; [|by split_and!].
    unfold syscalls.fail_errno, syscalls.get_errno. rewrite wp_bind, wp_gets. simpl.
    rewrite wp_return_error. unfold wp.
    set (s2 := after_call (C_fstatat fd _ _) _ _ _ _).
    destruct (FileDescriptor_dtor_calls (FD fd) s2) as (s3 & -> & Hm & Hc).
    simpl. split; [exact Hm|]. right. exists fd. split; [done|].
    rewrite Hc, decide_False by done. reflexivity.
Qed.

(** C26: inserting an inode the cache already has closes the duplicate's
    descriptor, exactly once, and keeps the one of the cached inode. *)
Theorem Insert_known_closes_duplicate i a e s :
  inodes_ (pafs s) !! inode_key i = Some a → entries (pafs s) !! a = Some e →
  fd_ (inode_fd_ i) ≠ -1 → handle_ (poll_handle_ i) = 0 →
  ∃ s', Insert i s = (Ret a, s') ∧ calls s' = C_close (fd_ (inode_fd_ i)) :: calls s ∧
        entries (pafs s') !! a = Some (u64_add e.1 1, e.2).
Proof.
  intros Hk He Hfd Hh. unfold Insert, mbind, M_bind, gets. cbn [id fst snd]. rewrite Hk. simpl.
  rewrite He. simpl. unfold Inode_dtor, mbind, M_bind, FusePollHandle_dtor. rewrite Hh. simpl.
  match goal with |- context [FileDescriptor_dtor _ ?s1] =>
    destruct (FileDescriptor_dtor_calls (inode_fd_ i) s1) as (s2 & -> & Hm & Hc) end.
  exists s2. split; [done|]. rewrite decide_False in Hc by done. split; [exact Hc|].
  rewrite (f_equal (λ x, x.1.2) Hm : pafs s2 = _). simpl. by rewrite lookup_insert_eq.
Qed.

(** C27: the generation number is asked for once: a second call makes no system
    call and gives the answer of the first, a failure included. *)
Theorem GetGeneration_cached i s o s1 :
  GetGeneration i s = (o, s1) → no_crash o →
  GetGeneration i s1 = (o, s1).
Proof.
  unfold GetGeneration, mbind, M_bind, gets, try_. intros E Hc.
  assert (∀ inode s, lookup_inode (pafs s) i = Some inode → read_inode i s = (Ret inode, s)) as Hr.
  { intros j s0 Hj. unfold read_inode, mbind, M_bind, gets. simpl. by rewrite Hj. }
  destruct (lookup_inode (pafs s) i) as [inode|] eqn:Hi.
  2: { unfold read_inode, mbind, M_bind, gets in E. simpl in E. rewrite Hi in E. injection E as <- <-. done. }
  rewrite (Hr _ _ Hi) in E. destruct (generation_ inode) as [g|] eqn:Hg.
  - cbn in E. assert (s1 = s) as ->.
    { destruct g; unfold return_error, fail, mret, M_ret in E; by injection E. }
    rewrite (Hr _ _ Hi), Hg. exact E.
  - assert (Keeps mem (GetFileVersionFromPathFD (GetFD inode))) as Hm by solve_keeps.
    specialize (Hm s). destruct (GetFileVersionFromPathFD (GetFD inode) s) as [[v|st|c] s2].
    3: { injection E as <- <-. done. }
    all: assert (lookup_inode (pafs s2) i = Some inode) as Hi2
      by (rewrite (f_equal (λ x, x.1.2) Hm : pafs s2 = pafs s); exact Hi).
    all: cbn in E; injection E as <- <-.
    all: match goal with |- context [set_generation ?g] =>
        assert (lookup_inode (update_inode i (set_generation g) (pafs s2)) i = Some (set_generation g inode)) as Hi3 end;
      [destruct i as [|a]; simpl in *; [by injection Hi2 as ->|];
       rewrite lookup_alter_eq; destruct (entries (pafs s2) !! a) as [[]|]; simpl in *; [by injection Hi2 as ->|done]|].
    all: rewrite (Hr _ (set_pafs_st _ s2) Hi3); reflexivity.
Qed.

(** ** Mounts *)

(** C30: [umount] of a target that cannot be unmounted never returns: its
    by-value parameter still owns the target when the function fails, and the
    destructor of the parameter calls [umount] again, without end. *)
Theorem umount_diverges t flags fuel s :
  t ≠ EmptyString →
  (∀ flags w, (os_step (C_umount2 t flags) w).1.1 = -1) →
  (syscalls.umount fuel (mkMount t) flags s).1 = Crash OutOfFuel.
Proof.
  intros Ht Hf. revert flags s. induction fuel as [|fuel IH]; intros flags s; [done|].
  simpl. unfold mbind at 1, M_bind at 1, sys. simpl. specialize (Hf flags (world s)).
  destruct (os_step (C_umount2 t flags) (world s)) as [[r e] w]. simpl in Hf. subst r. simpl.
  unfold mbind at 1, M_bind at 1, syscalls.get_errno, gets.
  unfold mbind at 1, M_bind at 1. rewrite bool_decide_eq_false_2 by done.
  unfold log_if_error, mbind, M_bind, try_.
  specialize (IH 0 (after_call (C_umount2 t flags) (-1) e w s)).
  destruct (syscalls.umount fuel _ 0 _) as [o s']. simpl in IH. by subst o.
Qed.

(** C31: when [fdopendir] fails, [Directory::Create] leaks the descriptor it was
    given: the wrapper has released it before the call, so it fails without any
    [close].  When it succeeds, the stream takes the descriptor over. *)
Theorem Directory_Create_leaks_on_failure fd s :
  let d := (os_step (C_fdopendir fd) (world s)).1.1 in
  let '(o, s') := Directory_Create (FD fd) s in
  calls s' = C_fdopendir fd :: calls s ∧
  match o with
  | Ret dir => dir_ dir = d ∧ d ≠ 0
  | Fail _ => d = 0
  | Crash _ => False
  end.
Proof.
  unfold Directory_Create, syscalls.fdopendir, on_exit, mbind, M_bind, try_, sys; simpl.
  destruct (os_step _ _) as [[d e] w]. simpl. destruct (Z.eqb_spec d 0) as [->|Hd]; by split.
Qed.

(** ** Plans of calls *)

(** [m] makes the calls of [l], in order, up to the first that fails. *)
Definition follows (l : list call) (s : St) (o : Outcome unit) (s' : St) : Prop :=
  ∃ done rest, l = (done ++ rest)%list ∧ calls s' = (rev done ++ calls s)%list ∧
    match o with Ret _ => rest = [] | Fail _ => done ≠ [] | Crash _ => False end.

Definition Follows (l : list call) (m : M unit) : Prop := ∀ s, wp m (follows l s) s.

Lemma follows_ret : Follows [] (mret tt).
Proof. intros s. by exists [], []. Qed.

Lemma follows_bind l1 l2 m1 m2 :
  Follows l1 m1 → Follows l2 m2 → Follows (l1 ++ l2)%list (m1;; m2).
Proof.
  intros H1 H2 s. rewrite wp_bind. apply (wp_mono _ _ _ _ (H1 s)).
  intros [[]|st|x] s1 (d & r & -> & Hc & Ho); simpl; [subst r| |done].
  - apply (wp_mono _ _ _ _ (H2 s1)). intros o s2 (d2 & r2 & -> & Hc2 & Ho2).
    exists (d ++ d2)%list, r2. rewrite app_nil_r, app_assoc. split; [done|]. split.
    + by rewrite Hc2, Hc, rev_app_distr, app_assoc.
    + destruct o; [done| |done]. intros [_ ?]%app_nil. done.
  - exists d, (r ++ l2)%list. by rewrite app_assoc.
Qed.

Lemma follows_call c rc msg : Follows [c] (syscalls.status_call c rc msg).
Proof.
  intros s. unfold syscalls.status_call. rewrite wp_bind. apply wp_sys_all. intros r e w _. simpl.
  destruct (rc r =? -1); [|by exists [c], []].
  unfold syscalls.return_errno, syscalls.get_errno. rewrite wp_bind, wp_gets. simpl.
  rewrite wp_return_status. by destruct (ok _); exists [c], [].
Qed.

Lemma follows_if (b : bool) c m :
  Follows [c] m → Follows (if b then [c] else []) (if b then m else mret tt).
Proof. intros. destruct b; [done|apply follows_ret]. Qed.

(** The updates [setattr] asks for, in the order mode, owner, size, times. *)
Definition SetAttr_plan (fd : Z) (attr : stat) (to_set : Z) : list call :=
  flat_map (λ '(mask, c), if has_flag to_set mask then [c] else [])
    [ (FUSE_SET_ATTR_MODE, C_fchmod fd (st_mode attr));
      (or_flags [FUSE_SET_ATTR_UID; FUSE_SET_ATTR_GID],
       C_fchownat fd EmptyString
         (if has_flag to_set FUSE_SET_ATTR_UID then st_uid attr else minus_one_u32)
         (if has_flag to_set FUSE_SET_ATTR_GID then st_gid attr else minus_one_u32)
         (or_flags [AT_EMPTY_PATH; AT_SYMLINK_NOFOLLOW]));
      (FUSE_SET_ATTR_SIZE, C_ftruncate fd (st_size attr));
      (or_flags [FUSE_SET_ATTR_ATIME; FUSE_SET_ATTR_MTIME],
       C_futimens fd (SetAttr_atime attr to_set) (SetAttr_mtime attr to_set)) ].



End Owners.

(** ** Runs *)

Module OwnersRun.

#[local] Existing Instance sim_absl.
#[local] Existing Instance sim_libc.

(** The target is busy. *)
Definition busy (n : nat) (c : call) : option Z :=
  match c with
  | C_umount2 _ _ => Some EBUSY
  | _ => None
  end.

Definition demo_platform : @Platform sim_absl := sim_platform busy sample_tree.
#[local] Existing Instance demo_platform.

Definition start : St := sample_state busy sample_world.

(** The cache already has the inode of the file [a]. *)
Definition cached : Inode := mkInode (FD 8) 11 64 None (PH 0).
Definition duplicate : Inode := mkInode (FD 9) 11 64 None (PH 0).
Definition warm : St := set_pafs_st
  {| root_ := sample_root; inodes_ := {[ (64, 11) := 100 ]}; entries := {[ 100 := (2, cached) ]};
     opts_ := opts_ sample_fs |} start.

Lemma moved_resources_are_released_once_witness :
  calls ((FileDescriptor_dtor (FD (-1));; FileDescriptor_dtor (FD 4)) start).2 = [C_close 4].
Proof.
  destruct (moved_resources_are_released_once 4 5 6 start ltac:(done) ltac:(done) ltac:(done))
    as (H & _). exact H.
Defined.

Lemma ScopedSignalMask_restores_witness :
  ∃ m s1 s2, ScopedSignalMask_Create 0 9 start = (Ret m, s1) ∧
    (ScopedSignalMask_dtor ScopedSignalMask_default;; ScopedSignalMask_dtor m) s1 = (Ret tt, s2) ∧
    calls s2 = [C_pthread_sigmask SIG_SETMASK 7; C_pthread_sigmask 0 9].
Proof.
  exists (mkMask true 7), (ScopedSignalMask_Create 0 9 start).2.
  destruct (ScopedSignalMask_restores 0 9 (mkMask true 7) start _ eq_refl) as (old & s2 & H & Ho & Hc).
  exists s2. split; [reflexivity|]. split; [exact H|]. rewrite Hc, <- Ho. reflexivity.
Defined.

Lemma Insert_known_closes_duplicate_witness :
  ∃ s', Insert duplicate warm = (Ret 100, s') ∧ calls s' = [C_close 9] ∧
        entries (pafs s') !! 100 = Some (3, cached).
Proof. exact (Insert_known_closes_duplicate duplicate 100 (2, cached) warm eq_refl eq_refl ltac:(done) eq_refl). Defined.

Lemma GetGeneration_cached_witness :
  GetGeneration (IEntry 100) (GetGeneration (IEntry 100) warm).2 =
  ((GetGeneration (IEntry 100) warm).1, (GetGeneration (IEntry 100) warm).2).
Proof.
  apply (GetGeneration_cached (IEntry 100) warm); [by destruct (GetGeneration (IEntry 100) warm)|].
  vm_compute. exact I.
Defined.

(** Half a millisecond is not a number of milliseconds. *)
Definition half_ms : @Duration sim_absl := 500000.


Lemma umount_diverges_witness :
  (syscalls.umount 1000 (mkMount "/mnt") 0 start).1 = Crash OutOfFuel.
Proof. apply (umount_diverges "/mnt" 0 1000 start); [done|reflexivity]. Defined.

End OwnersRun.
