(* ===== verification/Ledger.v ===== *)
(** * A ledger of kernel resources

    Every descriptor, directory stream and poll handle the program acquires is
    owned by one of its objects, handed to the kernel, or released.  A weight
    for each kind of resource ([fdw], [dirw], [phw]) turns this into an
    equation: [net], what the calls made so far acquired minus what they
    released, is [held], the weight of what the file system object and the
    [Directory] objects own, plus [lost], what no object owns any more, plus what
    the kernel was handed.  With the indicator function of a descriptor as weight
    it counts the times that descriptor is open. *)

From S2P Require Import Prelude Consts Absl Errno Status Machine Syscalls Raii Fuse Inode Pafs FuseOps Main Sim Cache Lookup Conserve Requests ReadDir.

Open Scope string_scope.
Open Scope Z_scope.

Section Ledger.
Context {AB : Absl} {LC : Libc} {PL : Platform} {AL : AbslLaws AB} {PWL : PlatformLaws PL}.

(** The weights: what does not own anything weighs nothing. *)
Variables (fdw dirw phw : Z → Z).
Hypothesis fdw_none : fdw (-1) = 0.
Hypothesis dirw_none : dirw 0 = 0.
Hypothesis phw_none : phw 0 = 0.

(** ** The ledger *)

(** What a call acquired, less what it released. *)
Definition delta (c : call) : ret c → Z :=
  match c as c0 return ret c0 → Z with
  | C_open _ _ _ | C_openat _ _ _ _ | C_dup _ => λ fd, fdw fd
  | C_close fd => λ _, - fdw fd
  | C_fdopendir fd => λ d, if d =? 0 then 0 else dirw d - fdw fd
  | C_closedir d => λ _, - dirw d
  | F_pollhandle_destroy h => λ _, - phw h
  | _ => λ _, 0
  end.

(** A descriptor that [fdopendir] did not take: its owner has already let it go. *)
Definition lost_by (c : call) : ret c → Z :=
  match c as c0 return ret c0 → Z with
  | C_fdopendir fd => λ d, if d =? 0 then fdw fd else 0
  | _ => λ _, 0
  end.

Fixpoint net (tr : list event) : Z :=
  match tr with [] => 0 | Ev c r :: tr => delta c r + net tr end.
Fixpoint lost (tr : list event) : Z :=
  match tr with [] => 0 | Ev c r :: tr => lost_by c r + lost tr end.

Definition fd_weight (fd : FileDescriptor) : Z := fdw (fd_ fd).
Definition ph_weight (h : FusePollHandle) : Z := phw (handle_ h).
Definition dir_weight (d : Directory) : Z := dirw (dir_ d).
Definition inode_weight (i : Inode) : Z := fd_weight (inode_fd_ i) + ph_weight (poll_handle_ i).

Definition fs_weight (p : PageAlignFS) : Z :=
  inode_weight (root_ p) + map_sum (λ e : Z * Inode, inode_weight e.2) (entries p).

Definition held (s : St) : Z := fs_weight (pafs s) + map_sum dir_weight (dirs s).

Definition ledger (s : St) : Z := net (trace s) - held s - lost (trace s).

(** ** Passing resources along

    [Moves c own m]: started with resources of weight [c] in hand, [m] ends with
    those of its result in hand, and with none when it fails. *)
Definition Moves {A} (c : Z) (own : A → Z) (m : M A) : Prop :=
  ∀ s, wp m (λ o s', match o with
                     | Ret a => ledger s' = ledger s - c + own a
                     | Fail _ => ledger s' = ledger s - c
                     | Crash _ => True
                     end) s.

(** Nothing in hand before or after. *)
Definition Even {A} (m : M A) : Prop := Moves 0 (λ _ : A, 0) m.

Lemma moves_weaken {A} c c' (own own' : A → Z) m :
  Moves c own m → c = c' → (∀ a, own a = own' a) → Moves c' own' m.
Proof.
  intros H <- Ho s. apply (wp_mono _ _ _ _ (H s)). intros [a|st|k] s'; [|done..].
  by rewrite Ho.
Qed.

Lemma moves_ret {A} (a : A) (own : A → Z) c : own a = c → Moves c own (mret a).
Proof. intros H s. unfold wp; simpl. lia. Qed.

Lemma moves_bind {A B} c (own1 : A → Z) (own2 : B → Z) (m : M A) (k : A → M B) :
  Moves c own1 m → (∀ a, Moves (own1 a) own2 (k a)) → Moves c own2 (m ≫= k).
Proof.
  intros Hm Hk s. rewrite wp_bind. apply (wp_mono _ _ _ _ (Hm s)).
  intros [a|st|x] s' E; simpl in *; [|done..].
  apply (wp_mono _ _ _ _ (Hk a s')). intros [b|st|x] s'' E'; lia.
Qed.

Lemma moves_fail {A} (own : A → Z) st : Moves 0 own (fail st).
Proof. intros s. unfold wp; simpl. lia. Qed.
Lemma moves_return_error {A} (own : A → Z) st : Moves 0 own (return_error st).
Proof. apply moves_fail. Qed.

Lemma moves_sys c : lost_by c = (λ _, 0) → Moves 0 (delta c) (sys c).
Proof.
  intros H s. apply wp_sys_all. intros r e w _. unfold ledger, after_call. simpl. rewrite H.
  unfold held; simpl. lia.
Qed.

Lemma even_keeps {A} (m : M A) :
  Keeps ledger m → Even m.
Proof. intros H s. specialize (H s). unfold wp. destruct (m s) as [[a|st|x] s']; simpl in *; lia. Qed.

(** A destructor: takes what it is given and does not fail. *)
Definition Fin (c : Z) (m : M unit) : Prop :=
  ∀ s, wp m (λ o s', match o with
                     | Ret _ => ledger s' = ledger s - c
                     | Fail _ => False
                     | Crash _ => True
                     end) s.

Lemma fin_moves c m : Fin c m → Moves c (λ _, 0) m.
Proof. intros H s. apply (wp_mono _ _ _ _ (H s)). intros [a|st|x] s' E; [lia|done|done]. Qed.

Lemma fin_bind c1 c2 m1 m2 : Fin c1 m1 → Fin c2 m2 → Fin (c1 + c2) (m1;; m2).
Proof.
  intros H1 H2 s. rewrite wp_bind. apply (wp_mono _ _ _ _ (H1 s)).
  intros [a|st|x] s' E; simpl in *; [|done..].
  apply (wp_mono _ _ _ _ (H2 s')). intros [b|st|x] s'' E'; [lia|done|done].
Qed.

Lemma fin_log_if_error c m : Moves c (λ _, 0) m → Fin c (log_if_error m).
Proof.
  intros H s. rewrite wp_log_if_error. apply (wp_mono _ _ _ _ (H s)).
  intros [a|st|x] s' E; [lia|done|done].
Qed.

Lemma moves_on_exit {A} c f (own : A → Z) (m : M A) fin :
  Moves c own m → Fin f fin → Moves (c + f) own (on_exit m fin).
Proof.
  intros Hm Hf s. rewrite wp_on_exit. apply (wp_mono _ _ _ _ (Hm s)).
  intros [a|st|x] s' E; [| |done]; apply (wp_mono _ _ _ _ (Hf s'));
    intros [b|st'|x] s'' E'; simpl; [lia|done|done|lia|done|done].
Qed.

Lemma moves_on_error {A} c f (own : A → Z) (m : M A) fin :
  Moves c own m → Fin f fin → Moves (c + f) (λ a, own a + f) (on_error m fin).
Proof.
  intros Hm Hf s. rewrite wp_on_error. apply (wp_mono _ _ _ _ (Hm s)).
  intros [a|st|x] s' E; [lia| |done]. apply (wp_mono _ _ _ _ (Hf s')).
  intros [b|st'|x] s'' E'; simpl; [lia|done|done].
Qed.

(** ** Functions with nothing in hand *)

Lemma even_bind {A B} (m : M A) (k : A → M B) : Even m → (∀ a, Even (k a)) → Even (m ≫= k).
Proof. apply moves_bind. Qed.
Lemma even_ret {A} (a : A) : Even (mret a).
Proof. by apply moves_ret. Qed.
Lemma even_fail {A} st : Even (fail st : M A).
Proof. apply moves_fail. Qed.
Lemma even_die {A} x : Even (die x : M A).
Proof. done. Qed.
Lemma even_return_error {A} st : Even (return_error st : M A).
Proof. apply moves_fail. Qed.
Lemma even_return_status st : Even (return_status st).
Proof. intros s. rewrite wp_return_status. destruct (ok st); lia. Qed.
Lemma even_gets {A} (f : St → A) : Even (gets f).
Proof. intros s. apply wp_gets. lia. Qed.
Lemma even_check b : Even (check b).
Proof. destruct b; [apply even_ret|apply even_die]. Qed.
Lemma even_deref {A} (o : option A) : Even (deref o).
Proof. destruct o; [apply even_ret|apply even_die]. Qed.
Lemma even_try {A} (m : M A) : Even m → Even (try_ m).
Proof.
  intros H s. rewrite wp_try. apply (wp_mono _ _ _ _ (H s)). intros [a|st|x] s' E; simpl; lia.
Qed.
Lemma even_log_if_error m : Even m → Even (log_if_error m).
Proof. intros. apply even_bind; [by apply even_try|intros; apply even_ret]. Qed.
Lemma even_on_exit {A} (m : M A) fin : Even m → Even fin → Even (on_exit m fin).
Proof.
  intros. apply even_bind; [by apply even_try|]. intros r.
  apply even_bind; [done|]. intros _. destruct r; [apply even_fail|apply even_ret].
Qed.
Lemma even_on_error {A} (m : M A) fin : Even m → Even fin → Even (on_error m fin).
Proof.
  intros. apply even_bind; [by apply even_try|]. intros r.
  destruct r; [|apply even_ret]. apply even_bind; [done|]. intros _. apply even_fail.
Qed.
Lemma even_modify g : (∀ s, ledger (g s) = ledger s) → Even (modify g).
Proof. intros H s. apply wp_modify. rewrite H. lia. Qed.
Lemma even_sys c : delta c = (λ _, 0) → lost_by c = (λ _, 0) → Even (sys c).
Proof. intros Hd Hl. eapply moves_weaken; [by apply moves_sys|done|]. intros a. by rewrite Hd. Qed.

(** ** Automation: the structure of the code, then the lemmas, then definitions *)

Create HintDb ledger discriminated.
Hint Resolve even_ret even_fail even_die even_return_error even_return_status even_gets
  even_check even_deref : ledger.
Hint Extern 1 (Even (modify (set_errno_st _))) => apply even_modify; reflexivity : ledger.
Hint Extern 1 (Even (modify (set_request_st _))) => apply even_modify; reflexivity : ledger.

Ltac even_step :=
  lazymatch goal with
  | |- Even (mbind _ _) => apply even_bind; [|intros ?]
  | |- Even (try_ _) => apply even_try
  | |- Even (log_if_error _) => apply even_log_if_error
  | |- Even (on_exit _ _) => apply even_on_exit
  | |- Even (on_error _ _) => apply even_on_error
  | |- Even (match ?x with _ => _ end) => destruct x
  | |- Even (let _ := _ in _) => cbv zeta
  | |- Even (sys ?c) => refine (even_sys c _ _); reflexivity
  | |- Even ?m =>
      first [ solve [auto 3 with ledger nocore]
            | let h := head_of m in unfold h; cbv beta zeta ]
  end.
Ltac even := intros; repeat even_step.

(** ** Acquiring and releasing *)

Lemma moves_close fd : Moves (fd_weight fd) (λ _, 0) (syscalls.close fd).
Proof.
  intros s. unfold syscalls.close, FileDescriptor.Release, syscalls.set_errno. cbv beta iota.
  rewrite wp_bind, wp_modify.
  simpl. rewrite wp_bind. refine (wp_sys_all (C_close (fd_ fd)) _ _ _). intros r e w _. simpl.
  unfold syscalls.return_errno, syscalls.get_errno. rewrite wp_bind, wp_gets. simpl.
  rewrite wp_return_status.
  destruct (ok _); unfold ledger, held, fs_weight, after_call, fd_weight; simpl; lia.
Qed.

Lemma fin_FileDescriptor fd : Fin (fd_weight fd) (FileDescriptor_dtor fd).
Proof.
  unfold FileDescriptor_dtor. destruct (Z.eqb_spec (fd_ fd) (-1)) as [E|E].
  - intros s. unfold fd_weight. rewrite E, fdw_none. unfold wp; simpl. lia.
  - apply fin_log_if_error, moves_close.
Qed.

Lemma fin_PollHandle h : Fin (ph_weight h) (FusePollHandle_dtor h).
Proof.
  unfold FusePollHandle_dtor. destruct (Z.eqb_spec (handle_ h) 0) as [E|E]; intros s.
  - unfold ph_weight. rewrite E, phw_none. unfold wp; simpl. lia.
  - rewrite wp_bind. refine (wp_sys_all (F_pollhandle_destroy (handle_ h)) _ _ _). intros r e w _. simpl.
    unfold wp, ledger, held, fs_weight, after_call, ph_weight; simpl. lia.
Qed.

Lemma fin_Directory d : Fin (dir_weight d) (Directory_dtor d).
Proof.
  unfold Directory_dtor. destruct (Z.eqb_spec (dir_ d) 0) as [E|E].
  - intros s. unfold dir_weight. rewrite E, dirw_none. unfold wp; simpl. lia.
  - apply fin_log_if_error. intros s. unfold syscalls.closedir. rewrite wp_bind.
    unfold syscalls.set_errno. rewrite wp_modify. simpl. rewrite wp_bind.
    refine (wp_sys_all (C_closedir (dir_ d)) _ _ _). intros r e w _. simpl.
    unfold syscalls.return_errno, syscalls.get_errno. rewrite wp_bind, wp_gets. simpl.
    rewrite wp_return_status.
    destruct (ok _); unfold ledger, held, fs_weight, after_call, dir_weight; simpl; lia.
Qed.

Lemma fin_Inode i : Fin (inode_weight i) (Inode_dtor i).
Proof.
  unfold Inode_dtor, inode_weight. rewrite Z.add_comm.
  apply fin_bind; [apply fin_PollHandle|apply fin_FileDescriptor].
Qed.

(** The calls that open a descriptor: -1 weighs nothing. *)
Lemma moves_opens c (val : ret c → Z) msg :
  delta c = (λ r, fdw (val r)) → lost_by c = (λ _, 0) →
  Moves 0 fd_weight
    (r ← sys c; if val r =? -1 then syscalls.fail_errno msg else mret (FD (val r))).
Proof.
  intros Hd Hl. apply (moves_bind 0 (delta c)); [by apply moves_sys|]. intros r. rewrite Hd.
  destruct (Z.eqb_spec (val r) (-1)) as [E|E]; [|by apply moves_ret].
  rewrite E, fdw_none. apply (moves_bind 0 (λ _, 0)); [apply even_gets|]. intros; apply moves_return_error.
Qed.

Lemma moves_openat d p f m : Moves 0 fd_weight (syscalls.openat d p f m).
Proof. by apply (moves_opens (C_openat d p f m) (λ r, r)). Qed.
Lemma moves_open p f m : Moves 0 fd_weight (syscalls.open p f m).
Proof. by apply (moves_opens (C_open p f m) (λ r, r)). Qed.
Lemma moves_dup fd : Moves 0 fd_weight (syscalls.dup fd).
Proof. by apply (moves_opens (C_dup fd) (λ r, r)). Qed.

(** [m] uses what the local owns and leaves it alone. *)
Lemma moves_with_local {A B} (w : A → Z) (m : M A) (k : A → M B) (fin : A → M unit) :
  Moves 0 w m → (∀ a, Even (k a)) → (∀ a, Fin (w a) (fin a)) →
  Even (a ← m; on_exit (k a) (fin a)).
Proof.
  intros Hm Hk Hf. apply (moves_bind 0 w); [done|]. intros a.
  rewrite <- (Z.add_0_l (w a)). apply moves_on_exit; [apply Hk|apply Hf].
Qed.

(** ** Inodes *)

Lemma even_GetFileVersionFromPathFD fd : Even (GetFileVersionFromPathFD fd).
Proof.
  apply (moves_with_local fd_weight); [apply moves_open|intros a; even|intros a; apply fin_FileDescriptor].
Qed.

Lemma moves_Inode_Create p fd : Moves 0 inode_weight (Inode_Create p fd).
Proof.
  unfold Inode_Create. apply (moves_bind 0 fd_weight); [apply moves_openat|]. intros f.
  apply (moves_bind _ (λ _, 0 + fd_weight f)).
  - rewrite <- (Z.add_0_l (fd_weight f)) at 1. apply moves_on_error; [|apply fin_FileDescriptor].
    change (Even (StatFD (fd_ f))). even.
  - intros st. apply moves_ret. unfold inode_weight, ph_weight; simpl. rewrite phw_none.
    unfold fd_weight; simpl. lia.
Qed.

Lemma even_modify_pafs g :
  (∀ s, held (set_pafs_st (g (pafs s)) s) = held s) → Even (modify_pafs g).
Proof. intros H. apply even_modify. intros s. unfold ledger. rewrite H. done. Qed.

Lemma held_update_inode i f s :
  (∀ x, inode_weight (f x) = inode_weight x) →
  held (set_pafs_st (update_inode i f (pafs s)) s) = held s.
Proof.
  intros H. unfold held, fs_weight. destruct i as [|a]; simpl; [by rewrite H|].
  rewrite map_sum_alter. destruct (entries (pafs s) !! a) as [e|]; simpl; [rewrite H|]; lia.
Qed.

Lemma even_GetGeneration i : Even (GetGeneration i).
Proof.
  unfold GetGeneration. apply even_bind; [even|]. intros inode. apply even_bind; [|intros g; even].
  destruct (generation_ inode) as [g|]; [even|]. apply even_bind;
    [apply even_try, even_GetFileVersionFromPathFD|]. intros g.
  apply even_bind; [|even]. apply even_modify_pafs. intros s. by apply held_update_inode.
Qed.

Lemma moves_AddPollHandle i h : Moves (ph_weight h) (λ _, 0) (AddPollHandle i h).
Proof.
  intros s. unfold AddPollHandle, read_inode. rewrite !wp_bind, wp_gets. simpl. rewrite wp_deref.
  destruct (lookup_inode (pafs s) i) as [inode|] eqn:Hi; [simpl|done].
  destruct (FusePollHandle_bool h) eqn:Hb; simpl.
  2: apply fin_moves, fin_PollHandle.
  rewrite wp_bind. unfold modify_pafs. rewrite wp_modify. simpl.
  match goal with |- wp (FusePollHandle_dtor ?h') _ ?s1 =>
    apply (wp_mono _ _ _ _ (fin_PollHandle h' s1)) end.
  intros [[]|st|x] s' E; [|done|done]. rewrite E. unfold ledger, held, fs_weight; simpl.
  destruct i as [|a]; simpl in *.
  - injection Hi as <-. unfold inode_weight; simpl. lia.
  - rewrite map_sum_alter. destruct (entries (pafs s) !! a) as [e|]; [|done].
    injection Hi as <-. unfold inode_weight; simpl. lia.
Qed.

Lemma even_NotifyPollEvent i : Even (NotifyPollEvent i).
Proof. even. Qed.

(** A new entry takes the descriptor over; a duplicate is closed. *)
Lemma moves_Insert i : Moves (inode_weight i) (λ _, 0) (Insert i).
Proof.
  intros s. unfold Insert. rewrite wp_bind, wp_gets. simpl. rewrite wp_bind.
  assert (∀ a j s1, ledger s1 - inode_weight j = ledger s - inode_weight i →
    wp (p ← gets pafs; e ← deref (entries p !! a);
        modify_pafs (λ p, set_entries (<[a := (u64_add e.1 1, e.2)]> (entries p)) p);;
        Inode_dtor j;; mret a)
      (λ o s', match o with
               | Ret _ => ledger s' = ledger s - inode_weight i + 0
               | Fail _ => ledger s' = ledger s - inode_weight i
               | Crash _ => True end) s1) as Hrest.
  { intros a j s1 H1. rewrite wp_bind, wp_gets. simpl. rewrite wp_bind, wp_deref.
    destruct (entries (pafs s1) !! a) as [e|] eqn:He; [simpl|done].
    rewrite wp_bind. unfold modify_pafs. rewrite wp_modify. simpl. rewrite wp_bind.
    match goal with |- wp _ _ ?s2 => apply (wp_mono _ _ _ _ (fin_Inode j s2)); 
      assert (ledger s2 = ledger s1) as H2 end.
    { unfold ledger, held, fs_weight; simpl. rewrite (map_sum_update _ _ _ _ _ He). simpl. lia. }
    intros [[]|st|x] s' E; simpl; [|done|done]. unfold wp; simpl. lia. }
  destruct (inodes_ (pafs s) !! inode_key i) as [a|].
  - unfold wp at 1; simpl. apply Hrest. lia.
  - rewrite wp_bind. unfold modify_pafs at 1. rewrite wp_modify. simpl.
    unfold wp at 1; simpl. apply Hrest.
    unfold Inode_moved_from, inode_weight, fd_weight, ph_weight, ledger, held, fs_weight; simpl.
    rewrite fdw_none, phw_none, map_sum_insert.
    2: { apply not_elem_of_dom. pose proof (fresh_not_live (live s)). unfold live in *. set_solver. }
    unfold inode_weight, fd_weight, ph_weight; simpl. lia.
Qed.

Lemma even_Ref i n : Even (Ref i n).
Proof.
  unfold Ref. apply even_bind; [even|]. intros inode s. rewrite wp_bind, wp_gets. simpl.
  destruct (inodes_ (pafs s) !! inode_key inode) as [a|]; [|unfold wp; simpl; lia].
  rewrite wp_bind, wp_deref. destruct (entries (pafs s) !! a) as [e|] eqn:He; [simpl|done].
  unfold modify_pafs. rewrite wp_modify. unfold ledger, held, fs_weight; simpl.
  rewrite (map_sum_update _ _ _ _ _ He). simpl. lia.
Qed.

Lemma even_Unref i n : Even (Unref i n).
Proof.
  unfold Unref. apply even_bind; [even|]. intros inode s. rewrite wp_bind, wp_gets. simpl.
  destruct (inodes_ (pafs s) !! inode_key inode) as [a|]; [|unfold wp; simpl; lia].
  rewrite wp_bind, wp_deref. destruct (entries (pafs s) !! a) as [e|] eqn:He; [simpl|done].
  rewrite wp_bind, wp_check. destruct (n <=? e.1); [simpl|done].
  rewrite wp_bind. unfold modify_pafs at 1. rewrite wp_modify. simpl.
  destruct (u64_sub e.1 n =? 0).
  - rewrite wp_bind. unfold modify_pafs. rewrite wp_modify. simpl.
    match goal with |- wp _ _ ?s2 => apply (wp_mono _ _ _ _ (fin_Inode e.2 s2)) end.
    intros [[]|st|x] s' E; [|done|done]. rewrite E. unfold ledger, held, fs_weight; simpl.
    rewrite (map_sum_delete _ _ _ (u64_sub e.1 n, e.2)) by apply lookup_insert_eq.
    rewrite (map_sum_update _ _ _ _ _ He). simpl. lia.
  - unfold wp; simpl. unfold ledger, held, fs_weight; simpl. rewrite (map_sum_update _ _ _ _ _ He). simpl. lia.
Qed.

Lemma fin_shared_ptr a : Fin 0 (shared_ptr_dtor a).
Proof. apply fin_log_if_error, even_Unref. Qed.

(** ** File system helpers and handlers *)

Import PageAlignFS.

Lemma even_FindOrCreateInode i name : Even (FindOrCreateInode i name).
Proof.
  unfold FindOrCreateInode. apply even_bind; [even|]. intros p.
  apply (moves_bind 0 inode_weight); [apply moves_Inode_Create|]. intros; apply moves_Insert.
Qed.

Lemma even_shared_ptr_dtor a : Even (shared_ptr_dtor a).
Proof. apply fin_moves, fin_shared_ptr. Qed.

Hint Resolve even_FindOrCreateInode even_GetGeneration even_Ref even_Unref even_shared_ptr_dtor
  even_NotifyPollEvent : ledger.

Lemma even_for_each {A} (l : list A) f : (∀ a, Even (f a)) → Even (for_each l f).
Proof. intros. induction l; simpl; even. Qed.

Lemma even_ReadDir_loop fuel d i plus b l : Even (ReadDir_loop fuel d i plus b l).
Proof. revert b l. induction fuel; intros; simpl; even. Qed.
Hint Resolve even_for_each even_ReadDir_loop : ledger.
Hint Extern 1 (∀ _, Even _) => intros; even : ledger.

Lemma even_ReadDirInternal i size off fi plus : Even (ReadDirInternal i size off fi plus).
Proof. even. Qed.

Lemma even_reply_with send i name : (∀ p, Even (send p)) → Even (reply_with send i name).
Proof. even. Qed.
Hint Resolve even_ReadDirInternal even_reply_with : ledger.

Lemma even_ReplyNone : Even ReplyNone.
Proof. even. Qed.
Lemma even_ReplyFailure st : Even (ReplyFailure st).
Proof. even. Qed.

(** Reading through a pointer, with resources in hand. *)
Lemma moves_read_inode {A} c (own : A → Z) i k :
  (∀ inode, Moves c own (k inode)) → Moves c own (read_inode i ≫= k).
Proof.
  intros H s. unfold read_inode. rewrite wp_bind, wp_bind, wp_gets. simpl. rewrite wp_deref.
  destruct (lookup_inode (pafs s) i) as [inode|]; simpl; [apply H|done].
Qed.

Lemma even_SetAttr ino attr to_set fi : Even (SetAttr ino attr to_set fi).
Proof.
  apply moves_read_inode. intros inode. cbv zeta.
  apply (moves_with_local (λ o, match o with Some f => fd_weight f | None => 0 end)).
  - destruct (_ =? 0); [|by apply moves_ret].
    apply (moves_bind 0 fd_weight); [apply moves_open|]. intros f. by apply moves_ret.
  - intros o. even.
  - intros [f|]; [apply fin_FileDescriptor|]. intros s. unfold wp; simpl. lia.
Qed.

Lemma moves_fdopendir fd : Moves (fd_weight fd) dirw (syscalls.fdopendir fd).
Proof.
  intros s. unfold syscalls.fdopendir, FileDescriptor.Release. cbv beta iota.
  rewrite wp_bind. refine (wp_sys_all (C_fdopendir (fd_ fd)) _ _ _). intros d e w _. simpl.
  destruct (Z.eqb_spec d 0) as [->|E].
  - unfold wp, syscalls.fail_errno; simpl. unfold ledger, held, fs_weight, fd_weight; simpl. lia.
  - unfold wp; simpl. unfold ledger, held, fs_weight, fd_weight; simpl.
    destruct (Z.eqb_spec d 0); [done|]. lia.
Qed.

Lemma moves_Directory_Create fd : Moves (fd_weight fd) dir_weight (Directory_Create fd).
Proof.
  unfold Directory_Create, FileDescriptor.move, FileDescriptor.assign. cbv beta iota.
  apply (moves_weaken (fd_weight fd + fd_weight (FD (-1))) _ dir_weight);
    [|unfold fd_weight at 2; simpl; lia|done].
  apply moves_on_exit; [|apply fin_FileDescriptor].
  apply (moves_bind _ dirw); [apply moves_fdopendir|]. intros d. by apply moves_ret.
Qed.

Lemma moves_new_Directory d : Moves (dir_weight d) (λ _, 0) (new_Directory d).
Proof.
  intros s. unfold new_Directory. rewrite wp_bind, wp_gets. simpl. rewrite wp_bind, wp_modify.
  unfold wp; simpl. unfold ledger, held, fs_weight; simpl. rewrite map_sum_insert; [unfold dir_weight; simpl; lia|].
  apply not_elem_of_dom. pose proof (fresh_not_live (live s)). unfold live in *. set_solver.
Qed.

Lemma even_OpenDir ino fi : Even (OpenDir ino fi).
Proof.
  apply moves_read_inode. intros inode.
  apply (moves_bind 0 fd_weight); [apply moves_openat|]. intros fd.
  apply (moves_bind _ dir_weight); [apply moves_Directory_Create|]. intros d.
  apply (moves_bind _ (λ _, 0)); [apply moves_new_Directory|]. intros dir.
  change (Even (ReplyOpen (with_fh fi dir))). even.
Qed.

Lemma even_ReleaseDir ino fi : Even (ReleaseDir ino fi).
Proof.
  apply moves_read_inode. intros inode. destruct (fi_fh fi =? 0); [apply even_ret|].
  intros s. rewrite wp_bind, wp_gets. simpl. rewrite wp_bind, wp_deref.
  destruct (dirs s !! fi_fh fi) as [d|] eqn:Hd; [simpl|done].
  rewrite wp_bind, wp_modify. simpl.
  match goal with |- wp _ _ ?s2 => apply (wp_mono _ _ _ _ (fin_Directory d s2)) end.
  intros [[]|st|x] s' E; [|done|done]. rewrite E. unfold ledger, held, fs_weight; simpl.
  rewrite (map_sum_delete _ _ _ _ Hd). lia.
Qed.

Lemma even_Flush ino fi : Even (Flush ino fi).
Proof.
  apply moves_read_inode. intros inode.
  apply (moves_bind 0 fd_weight); [apply moves_dup|]. intros fd.
  apply (moves_weaken (fd_weight fd + fd_weight (FD (-1))) _ (λ _, 0));
    [|unfold fd_weight at 2; simpl; lia|done].
  apply moves_on_exit; [apply moves_close|apply fin_FileDescriptor].
Qed.

Lemma moves_Release ino fi : Moves (fdw (to_int (fi_fh fi))) (λ _, 0) (Release ino fi).
Proof. apply moves_read_inode. intros inode. apply (moves_close (FD (to_int (fi_fh fi)))). Qed.

Lemma even_null_handle : Even (FusePollHandle_dtor FusePollHandle_null).
Proof. apply (even_ret tt). Qed.
Hint Resolve even_null_handle : ledger.

Lemma moves_Poll ino fi ph : Moves (ph_weight ph) (λ _, 0) (Poll ino fi ph).
Proof.
  apply moves_read_inode. intros _.
  apply (moves_bind _ (λ _, 0)); [apply moves_AddPollHandle|]. intros _.
  match goal with |- Moves _ _ ?m => change (Even m) end. even.
Qed.

Hint Resolve even_SetAttr even_OpenDir even_ReleaseDir even_Flush : ledger.

(** ** Descriptors handed to the kernel *)

(** The file handle the kernel has from a reply it accepted. *)
Definition accepted (e : event) : option Z :=
  match e with
  | Ev c r =>
      match c as c0 return ret c0 → option Z with
      | F_reply_open _ fi => λ r, if r =? 0 then Some (fi_fh fi) else None
      | F_reply_create _ _ fi => λ r, if r =? 0 then Some (fi_fh fi) else None
      | _ => λ _, None
      end r
  end.

(** One reply was sent between the two states, and the request is done with. *)
Definition replied (h : option Z) (s s' : St) : Prop :=
  req_ (request s') = None ∧ ∃ e, reply_log s' = e :: reply_log s ∧ accepted e = h.

Definition unreplied (s s' : St) : Prop :=
  request s' = request s ∧ reply_log s' = reply_log s.

Lemma replied_quiet h s s1 s2 : unreplied s1 s2 → replied h s s1 → replied h s s2.
Proof. intros [Hq Hl] [H1 H2]. unfold replied. by rewrite Hq, Hl. Qed.

Lemma unreplied_trans s s1 s2 : unreplied s1 s2 → unreplied s s1 → unreplied s s2.
Proof. intros [Hq Hl] [H1 H2]. unfold unreplied. by rewrite Hq, Hl. Qed.

Lemma replied_from h s s1 s2 : unreplied s s1 → replied h s1 s2 → replied h s s2.
Proof. intros [Hq Hl] [H1 H2]. unfold replied. by rewrite <- Hl. Qed.

Lemma keeps_unreplied {A} (m : M A) s :
  Keeps request m → Keeps reply_log m → unreplied s (m s).2.
Proof. intros Hq Hl. split; [apply Hq|apply Hl]. Qed.

(** [m] succeeds only with a reply that gives the kernel the file handle [fd], and
    when it fails no reply has given it one. *)
Definition gives_post {A} (fd : Z) (s : St) (o : Outcome A) (s' : St) : Prop :=
  match o with
  | Ret _ => replied (Some fd) s s'
  | Fail _ => unreplied s s' ∨ replied None s s'
  | Crash _ => True
  end.

Definition Gives {A} (fd : Z) (m : M A) : Prop :=
  ∀ s, is_Some (req_ (request s)) → wp m (gives_post fd s) s.

Lemma gives_quiet {A} fd s (o : Outcome A) s1 s2 :
  unreplied s1 s2 → gives_post fd s o s1 → gives_post fd s o s2.
Proof.
  intros H. destruct o as [a|st|x]; simpl; [by apply replied_quiet| |done].
  intros [?|?]; [left; by eapply unreplied_trans|right; by eapply replied_quiet].
Qed.

Lemma gives_from {A} fd s s1 (o : Outcome A) s2 :
  unreplied s s1 → gives_post fd s1 o s2 → gives_post fd s o s2.
Proof.
  intros H. destruct o as [a|st|x]; simpl; [by apply replied_from| |done].
  intros [?|?]; [left; by eapply unreplied_trans|right; by eapply replied_from].
Qed.

Lemma gives_reply fd c rc name :
  (∀ q r, is_reply (Ev (c q) r) = true) →
  (∀ q r, accepted (Ev (c q) r) = if rc q r =? 0 then Some fd else None) →
  Gives fd (reply c rc name).
Proof.
  intros Hr Hh s [q Hq]. unfold reply, get_req. rewrite wp_bind, wp_gets. simpl. rewrite Hq.
  rewrite wp_bind. apply wp_sys_all. intros r e w _. simpl. rewrite wp_bind. unfold set_req.
  rewrite wp_modify. simpl. rewrite wp_return_status, ok_ErrnoToStatus_pafs.
  assert (∀ h, accepted (Ev (c q) r) = h →
    replied h s (set_request_st (FR None) (after_call (c q) r e w s))) as H.
  { intros h Ha. split; [done|]. exists (Ev (c q) r). split; [|done].
    unfold reply_log, after_call; simpl. by rewrite Hr. }
  specialize (Hh q r). destruct (Z.eqb_spec (rc q r) 0) as [E|E].
  - rewrite bool_decide_eq_true_2 by lia. by apply H.
  - rewrite bool_decide_eq_false_2 by lia. right. by apply H.
Qed.

Lemma gives_after {A B} fd (m : M A) (k : A → M B) :
  Keeps request m → Keeps reply_log m → (∀ a, Gives fd (k a)) → Gives fd (m ≫= k).
Proof.
  intros Hq Hl Hk s Hs. pose proof (keeps_unreplied m s Hq Hl) as H. rewrite wp_bind. unfold wp at 1.
  destruct (m s) as [[a|st|x] s1]; simpl in *; [|by left|done].
  rewrite <- (proj1 H) in Hs. apply (wp_mono _ _ _ _ (Hk a s1 Hs)).
  intros o s2. by apply gives_from.
Qed.

(** A destructor that runs after the reply. *)
Lemma gives_then {A} fd c (m : M A) (fin : M unit) :
  Keeps request fin → Keeps reply_log fin → Fin c fin → Gives fd m → Gives fd (on_exit m fin).
Proof.
  intros Hq Hl Hf Hm s Hs. rewrite wp_on_exit. apply (wp_mono _ _ _ _ (Hm s Hs)).
  intros o s1 H. apply (gives_quiet _ _ _ _ _ (keeps_unreplied fin s1 Hq Hl)) in H.
  specialize (Hf s1). unfold wp in *.
  destruct o as [a|st|x]; [| |done]; destruct (fin s1) as [[[]|?|?] s2]; simpl in *; done.
Qed.

Lemma gives_unless {A} fd c (m : M A) (fin : M unit) :
  Keeps request fin → Keeps reply_log fin → Fin c fin → Gives fd m → Gives fd (on_error m fin).
Proof.
  intros Hq Hl Hf Hm s Hs. rewrite wp_on_error. apply (wp_mono _ _ _ _ (Hm s Hs)).
  intros [a|st|x] s1 H; [done| |done].
  apply (gives_quiet _ _ _ _ _ (keeps_unreplied fin s1 Hq Hl)) in H.
  specialize (Hf s1). unfold wp in *. destruct (fin s1) as [[[]|?|?] s2]; simpl in *; done.
Qed.

Lemma gives_fail {A} fd st : Gives fd (fail st : M A).
Proof. intros s Hs. by left. Qed.

#[local] Hint Extern 1 (Keeps reply_log (modify _)) =>
  apply keeps_reply_log_modify; reflexivity : keeps.

Lemma gives_reply_with fd send i name :
  (∀ p, Gives fd (send p)) → Gives fd (reply_with send i name).
Proof.
  intros Hs. apply gives_after; [solve_keeps..|]. intros a.
  apply (gives_then _ 0); [solve_keeps..|apply fin_shared_ptr|].
  apply gives_after; [solve_keeps..|]. intros p. apply gives_after; [solve_keeps..|]. intros inode.
  destruct (negb _); [apply gives_fail|].
  apply gives_after; [solve_keeps..|]. intros param. apply gives_after; [solve_keeps..|]. intros _.
  apply (gives_unless _ 0); [solve_keeps..|apply fin_log_if_error, even_Unref|apply Hs].
Qed.

(** On success the kernel holds the descriptor the reply names; on failure it
    holds none, and nothing is left open. *)
Definition hands_over (s : St) (o : Outcome unit) (s' : St) : Prop :=
  match o with
  | Ret _ => ∃ fd, replied (Some fd) s s' ∧ ledger s' = ledger s + fdw fd
  | Fail _ => (unreplied s s' ∨ replied None s s') ∧ ledger s' = ledger s
  | Crash _ => True
  end.

Lemma open_hands_over (m : M FileDescriptor) (send : FileDescriptor → M unit) s :
  Moves 0 fd_weight m → Keeps request m → Keeps reply_log m →
  (∀ fd, Even (send fd)) → (∀ fd, Gives (fd_ fd) (send fd)) → is_Some (req_ (request s)) →
  wp (fd ← m; on_error (send fd) (FileDescriptor_dtor fd);;
      FileDescriptor_dtor (FileDescriptor.Release fd).2) (hands_over s) s.
Proof.
  intros Hm Hq Hl He Hg Hs. specialize (Hm s). pose proof (keeps_unreplied m s Hq Hl) as Hu.
  rewrite wp_bind. unfold wp at 1. unfold wp in Hm.
  destruct (m s) as [[fd|st|x] s1]; simpl in *; [|split; [by left|lia]|done].
  rewrite wp_bind. rewrite <- (proj1 Hu) in Hs.
  assert (Gives (fd_ fd) (on_error (send fd) (FileDescriptor_dtor fd))) as H1.
  { apply (gives_unless _ (fd_weight fd)); [solve_keeps..|apply fin_FileDescriptor|apply Hg]. }
  specialize (H1 s1 Hs).
  pose proof (moves_on_error 0 (fd_weight fd) (λ _, 0) (send fd) _ (He fd) (fin_FileDescriptor fd) s1) as H2.
  unfold wp in *. destruct (on_error _ _ s1) as [o s2]. apply (gives_from _ s) in H1; [|done].
  destruct o as [[]|st|x]; simpl in *; [|split; [done|lia]|done].
  exists (fd_ fd). split; [done|]. unfold fd_weight in *. lia.
Qed.

Lemma Open_hands_over ino fi s :
  is_Some (req_ (request s)) → wp (Open ino fi) (hands_over s) s.
Proof.
  intros Hs. unfold Open, read_inode. rewrite wp_bind, wp_bind, wp_gets. simpl. rewrite wp_deref.
  destruct (lookup_inode (pafs s) (GetInode ino)) as [inode|]; [simpl|done].
  apply (open_hands_over _ (λ fd, ReplyOpen (opened fi (fd_ fd)))); [apply moves_open|solve_keeps..|even| |done].
  intros fd. by apply gives_reply.
Qed.

Lemma Create_hands_over ino name mode fi s :
  is_Some (req_ (request s)) → wp (Create ino name mode fi) (hands_over s) s.
Proof.
  intros Hs. unfold Create, read_inode. rewrite wp_bind, wp_bind, wp_gets. simpl. rewrite wp_deref.
  destruct (lookup_inode (pafs s) (GetInode ino)) as [inode|]; [simpl|done].
  apply (open_hands_over _ (λ fd, ReplyWithCreate (GetInode ino) name (opened fi (fd_ fd))));
    [apply moves_openat|solve_keeps..|even| |done].
  intros fd. apply gives_reply_with. intros param. by apply gives_reply.
Qed.

(** ** Whole requests *)

Lemma moves_try {A} c (own : A → Z) (m : M A) :
  Moves c own m → Moves c (λ r, match r with inr a => own a | inl _ => 0 end) (try_ m).
Proof.
  intros H s. rewrite wp_try. apply (wp_mono _ _ _ _ (H s)). intros [a|st|x] s' E; simpl; lia.
Qed.

Lemma fin_FuseRequest : Fin 0 FuseRequest_dtor.
Proof.
  intros s. unfold FuseRequest_dtor, get_req. rewrite wp_bind, wp_gets. simpl.
  destruct (req_ (request s)); [|unfold wp; simpl; lia].
  apply fin_log_if_error. change (Even (ReplyErrno ECOMM)). even.
Qed.

Lemma moves_with_request c req body :
  Moves c (λ _, 0) body → Moves c (λ _, 0) (with_request req body).
Proof.
  intros H s. unfold with_request. rewrite wp_bind, wp_check. destruct (negb _); [simpl|done].
  rewrite wp_bind. unfold set_req. rewrite wp_modify. simpl.
  pose proof (moves_on_exit c 0 _ _ _ H fin_FuseRequest (set_request_st (FR (Some req)) s)) as E.
  rewrite Z.add_0_r in E. exact E.
Qed.

Lemma moves_answer c h (k : StatusOr unit → M unit) :
  Moves c (λ _, 0) h → (∀ r, Even (k r)) → Moves c (λ _, 0) (st ← try_ h; k st).
Proof.
  intros H Hk. apply (moves_bind _ (λ _, 0)); [|apply Hk].
  eapply moves_weaken; [by apply moves_try|done|]. by intros [].
Qed.

Lemma moves_reply_failure c h : Moves c (λ _, 0) h → Moves c (λ _, 0) (reply_failure h).
Proof. intros H. apply moves_answer; [done|even]. Qed.
Lemma moves_reply_always c h : Moves c (λ _, 0) h → Moves c (λ _, 0) (reply_always h).
Proof. intros H. apply moves_answer; [done|even]. Qed.
Lemma moves_reply_none c h : Moves c (λ _, 0) h → Moves c (λ _, 0) (reply_none h).
Proof.
  intros H. apply (moves_bind _ (λ _, 0)); [by apply fin_moves, fin_log_if_error|].
  intros _. apply even_ReplyNone.
Qed.
Lemma moves_check_ptr {A} c (p : option A) (k : A → M unit) :
  (∀ a, p = Some a → Moves c (λ _, 0) (k a)) → Moves c (λ _, 0) (a ← check_ptr p; k a).
Proof. intros H. destruct p as [a|]; [|done]. intros s. rewrite wp_bind. by apply H. Qed.

(** The resources the kernel passes in with a request: the descriptor to be
    released, and a poll handle. *)
Definition passed_in (k : kernel_request) : Z :=
  match k with
  | K_release _ (Some fi) => fdw (to_int (fi_fh fi))
  | K_poll _ _ ph => phw ph
  | _ => 0
  end.

Definition opens_file (k : kernel_request) : bool :=
  match k with K_open _ _ | K_create _ _ _ _ => true | _ => false end.

Lemma moves_serve req k m :
  serve pafs_ops req k = Some m → opens_file k = false → Moves (passed_in k) (λ _, 0) m.
Proof.
  intros H Hk. destruct k; simpl in H, Hk |- *; try discriminate Hk; injection H as <-;
    repeat (apply moves_check_ptr; intros ? ->); apply moves_with_request;
    first [apply moves_reply_failure | apply moves_reply_always | apply moves_reply_none];
    first [apply moves_Release | apply (moves_Poll _ _ (PH _)) | idtac];
    match goal with |- Moves _ _ ?m => change (Even m); even end.
Qed.

(** A request that is answered with an error number. *)
Lemma replied_ReplyFailure st s :
  is_Some (req_ (request s)) →
  wp (ReplyFailure st) (λ o s', match o with Crash _ => True | _ => replied None s s' end) s.
Proof.
  intros [q Hq]. unfold ReplyFailure. rewrite wp_bind, wp_check. destruct (negb _); [simpl|done].
  rewrite wp_bind. unfold get_req. rewrite wp_gets. simpl. rewrite Hq. rewrite wp_bind, wp_try.
  unfold ReplyErrno, reply, get_req. rewrite wp_bind, wp_gets. simpl. rewrite Hq.
  rewrite wp_bind. refine (wp_sys_all (F_reply_err q _) _ _ _). intros r e w _. simpl.
  rewrite wp_bind. unfold set_req. rewrite wp_modify. simpl. rewrite wp_return_status.
  destruct (ok _); simpl; rewrite wp_bind, wp_modify; simpl; (split; [done|]);
    exists (Ev (F_reply_err q (failure_errno st)) r); done.
Qed.

Lemma ReplyFailure_no_request st s :
  req_ (request s) = None →
  wp (ReplyFailure st) (λ o s', match o with Crash _ => True | _ => s' = s end) s.
Proof.
  intros Hq. unfold ReplyFailure. rewrite wp_bind, wp_check. destruct (negb _); [simpl|done].
  rewrite wp_bind. unfold get_req. rewrite wp_gets. simpl. by rewrite Hq.
Qed.

Definition handle_weight (h : option Z) : Z := match h with Some fd => fdw fd | None => 0 end.

(** The request has had its reply, and the ledger shows what it handed over. *)
Definition settled (s : St) {A} (o : Outcome A) (s' : St) : Prop :=
  match o with
  | Crash _ => True
  | _ => ∃ h, replied h s s' ∧ ledger s' = ledger s + handle_weight h
  end.

Lemma settled_reply_failure h s :
  is_Some (req_ (request s)) → wp h (hands_over s) s → wp (reply_failure h) (settled s) s.
Proof.
  intros Hs Hh. unfold reply_failure. rewrite wp_bind, wp_try. apply (wp_mono _ _ _ _ Hh).
  intros [[]|st|x] s1 H; simpl; [|clear Hh|done].
  - destruct H as (fd & Hr & Hl). exists (Some fd). by split.
  - rewrite wp_log_if_error. destruct H as [[Hu|Hr] Hl].
    + pose proof (even_ReplyFailure st s1) as He.
      assert (is_Some (req_ (request s1))) as Hs1 by (by rewrite (proj1 Hu)).
      pose proof (replied_ReplyFailure st s1 Hs1) as Hr. unfold wp in *.
      destruct (ReplyFailure st s1) as [[a|st'|x] s2]; simpl in *; [..|done];
        (exists None; split; [by eapply replied_from|simpl; lia]).
    + apply (wp_mono _ _ _ _ (ReplyFailure_no_request st s1 (proj1 Hr))).
      intros [a|st'|x] s2 H; [..|done]; rewrite H; exists None; (split; [done|simpl; lia]).
Qed.

Lemma settled_with_request req h s :
  (∀ s1, is_Some (req_ (request s1)) → wp h (hands_over s1) s1) →
  wp (with_request req (reply_failure h)) (settled s) s.
Proof.
  intros Hh. unfold with_request. rewrite wp_bind, wp_check. destruct (negb _); [simpl|done].
  rewrite wp_bind. unfold set_req. rewrite wp_modify. simpl. rewrite wp_on_exit.
  set (s1 := set_request_st (FR (Some req)) s).
  assert (is_Some (req_ (request s1))) as Hs1 by by eexists.
  apply (wp_mono _ _ _ _ (settled_reply_failure h s1 Hs1 (Hh s1 Hs1))).
  intros [a|st|x] s2 H; [| |done]; destruct H as (hd & [Hq Hr] & Hl);
    unfold FuseRequest_dtor, get_req; rewrite wp_bind, wp_gets; simpl; rewrite Hq;
    by exists hd.
Qed.

(** What a request gives the kernel: the descriptor that an accepted reply to open
    or create names. *)
Definition handed_out (k : kernel_request) (s' : St) : option Z :=
  if opens_file k then match reply_log s' with e :: _ => accepted e | [] => None end else None.

Lemma wp_check_ptr {A} (p : option A) (k : A → M unit) (Q : Outcome unit → St → Prop) s :
  (∀ c s', Q (Crash c) s') → (∀ a, wp (k a) Q s) → wp (a ← check_ptr p; k a) Q s.
Proof. intros Hc H. rewrite wp_bind. destruct p as [a|]; [apply H|apply Hc]. Qed.

Lemma serve_ledger req k m s :
  serve pafs_ops req k = Some m →
  wp m (λ o s', match o with
    | Crash _ => True
    | _ => ledger s' = ledger s - passed_in k + handle_weight (handed_out k s')
    end) s.
Proof.
  intros H. destruct (opens_file k) eqn:Hk; unfold handed_out; rewrite Hk.
  - assert (∀ s1 (o : Outcome unit) s2, settled s1 o s2 →
      match o with
      | Crash _ => True
      | _ => ledger s2 = ledger s1 - 0 +
          handle_weight match reply_log s2 with e :: _ => accepted e | [] => None end
      end) as Hw.
    { intros s1 [a|st|x] s2; [| |done]; intros (hd & (_ & e & -> & <-) & ->); lia. }
    destruct k; try discriminate Hk; simpl in H; injection H as <-; simpl;
      apply wp_check_ptr; try done; intros fi'; (eapply wp_mono; [apply settled_with_request|apply Hw]);
      intros s1 Hs1; [by apply Open_hands_over|by apply Create_hands_over].
  - apply (wp_mono _ _ _ _ (moves_serve req k m H Hk s)). simpl. intros [a|st|x] s' E; lia.
Qed.



(** ** The whole process *)

Lemma map_sum_list {A} (f : A → Z) (m : gmap Z A) :
  map_sum f m = foldr (λ e acc, f e.2 + acc) 0 (map_to_list m).
Proof.
  unfold map_sum. rewrite map_fold_foldr. induction (map_to_list m) as [|[k x] l IH]; simpl; [done|].
  by rewrite IH.
Qed.

Lemma fin_for_each {A} (w : A → Z) (l : list A) f :
  (∀ a, Fin (w a) (f a)) → Fin (foldr (λ a acc, w a + acc) 0 l) (for_each l f).
Proof.
  intros H. induction l as [|a l IH]; simpl; [|by apply fin_bind].
  intros s. unfold wp; simpl. lia.
Qed.

Lemma keeps_pafs_for_each {A} (l : list A) f :
  (∀ a, Keeps pafs (f a)) → Keeps pafs (for_each l f).
Proof. intros. induction l; simpl; solve_keeps. Qed.

#[export] Instance quiet_pafs : Quiet pafs.
Proof. by apply quiet_intro. Qed.
Lemma keeps_pafs_sys c : Keeps pafs (sys c).
Proof. intros s. unfold sys. by destruct (os_step c (world s)) as [[??]?]. Qed.
Hint Extern 1 (Keeps pafs (sys ?c)) => exact (keeps_pafs_sys c) : keeps.
Hint Resolve keeps_pafs_for_each : keeps.
Hint Extern 1 (∀ _, Keeps _ _) => intros; solve_keeps : keeps.

(** [m] leaves no file system object behind and nothing open. *)
Definition Clean {A} (m : M A) : Prop :=
  ∀ s, fs_weight (pafs s) = 0 →
  wp m (λ o s', match o with
                | Crash _ => True
                | _ => fs_weight (pafs s') = 0 ∧ ledger s' = ledger s
                end) s.

Lemma clean_even {A} (m : M A) : Even m → Keeps pafs m → Clean m.
Proof.
  intros He Hk s Hs. specialize (He s). specialize (Hk s). unfold wp in *.
  destruct (m s) as [[a|st|x] s']; simpl in *; [..|done]; rewrite Hk; split; (done || lia).
Qed.

Lemma clean_bind {A B} (m : M A) (k : A → M B) :
  Clean m → (∀ a, Clean (k a)) → Clean (m ≫= k).
Proof.
  intros Hm Hk s Hs. rewrite wp_bind. apply (wp_mono _ _ _ _ (Hm s Hs)).
  intros [a|st|x] s1 H; simpl; [|done..]. destruct H as [H1 H2].
  apply (wp_mono _ _ _ _ (Hk a s1 H1)). intros [b|st|x] s2 H; [..|done];
    destruct H; split; (done || lia).
Qed.

Lemma clean_on_exit {A} (m : M A) fin : Clean m → Clean fin → Clean (on_exit m fin).
Proof.
  intros Hm Hf s Hs. rewrite wp_on_exit. apply (wp_mono _ _ _ _ (Hm s Hs)).
  intros [a|st|x] s1 H; [| |done]; destruct H as [H1 H2];
    apply (wp_mono _ _ _ _ (Hf s1 H1)); intros [b|st'|x] s2 H; simpl; (done || split; intuition lia).
Qed.

(** The object that is about to be destroyed accounts for all that is held. *)
Lemma fin_PageAlignFS s :
  wp PageAlignFS_dtor (λ o s', match o with
    | Ret _ => fs_weight (pafs s') = 0 ∧ ledger s' = ledger s
    | Fail _ => False
    | Crash _ => True
    end) s.
Proof.
  unfold PageAlignFS_dtor. rewrite wp_bind, wp_gets. simpl. rewrite wp_bind.
  unfold modify_pafs. rewrite wp_modify. simpl. set (s1 := set_pafs_st _ s).
  assert (fs_weight (pafs s1) = 0) as H1.
  { unfold fs_weight, inode_weight, fd_weight, ph_weight; simpl. by rewrite fdw_none, phw_none. }
  assert (ledger s1 = ledger s + fs_weight (pafs s)) as H2 by (unfold ledger, held; simpl in *; lia).
  pose proof (fin_bind _ _ _ _
    (fin_for_each (λ e : Z * (Z * Inode), inode_weight e.2.2) (map_to_list (entries (pafs s)))
       (λ e, Inode_dtor e.2.2) (λ e, fin_Inode e.2.2)) (fin_Inode (root_ (pafs s)))) as Hf.
  assert (Keeps pafs (for_each (map_to_list (entries (pafs s))) (λ e, Inode_dtor e.2.2);;
                      Inode_dtor (root_ (pafs s)))) as Hk by solve_keeps.
  specialize (Hf s1). specialize (Hk s1). unfold wp in *.
  destruct ((for_each _ _;; _) s1) as [[[]|?|?] s2]; simpl in *; [|done..].
  rewrite Hk. split; [done|]. unfold fs_weight in H2. rewrite map_sum_list in H2. lia.
Qed.

Lemma moves_CreateFS dir opts : Moves 0 fs_weight (CreateFS dir opts).
Proof.
  unfold CreateFS. apply (moves_bind 0 inode_weight); [apply moves_Inode_Create|]. intros root.
  apply (moves_weaken (0 + inode_weight root) _ (λ p, (fs_weight p - inode_weight root) + inode_weight root));
    [|lia|intros; lia].
  apply moves_on_error; [|apply fin_Inode].
  apply (moves_bind 0 (λ _, 0)); [change (Even (Inode_Stat root)); even|]. intros st.
  destruct (negb _); [apply moves_fail|]. apply moves_ret. unfold fs_weight, map_sum; simpl.
  rewrite map_fold_empty. lia.
Qed.

Lemma clean_file_system {A} dir opts (body : M A) :
  Even body →
  Clean (fs ← CreateFS dir opts; modify_pafs (λ _, fs);; on_exit body PageAlignFS_dtor).
Proof.
  intros Hb s Hs. rewrite wp_bind.
  assert (Keeps pafs (CreateFS dir opts)) as Hk by solve_keeps. specialize (Hk s).
  pose proof (moves_CreateFS dir opts s) as Hc. unfold wp at 1. unfold wp in Hc.
  destruct (CreateFS dir opts s) as [[fs|st|x] s1]; simpl in *; [|rewrite Hk; split; (done || lia)|done].
  rewrite wp_bind. unfold modify_pafs. rewrite wp_modify. simpl. rewrite wp_on_exit.
  assert (ledger (set_pafs_st fs s1) = ledger s) as E
    by (unfold ledger, held in *; simpl; rewrite Hk in Hc; lia).
  apply (wp_mono _ _ _ _ (Hb (set_pafs_st fs s1))).
  intros [a|st|x] s2 H; [| |done]; apply (wp_mono _ _ _ _ (fin_PageAlignFS s2));
    intros [b|st'|x] s3 H3; simpl; (done || split; intuition lia).
Qed.


End Ledger.

(** ** Runs *)

Module LedgerRun.

#[local] Existing Instance sim_absl.
#[local] Existing Instance sim_libc.
Definition demo_platform : @Platform sim_absl := sim_platform no_failure sample_tree.
#[local] Existing Instance demo_platform.
Definition laws : PlatformLaws demo_platform := sim_platform_laws no_failure sample_tree.
#[local] Existing Instance laws.

(** Count the open descriptors. *)
Definition each_fd (fd : Z) : Z := if fd =? -1 then 0 else 1.
Definition no_weight (x : Z) : Z := 0.

Definition idle : St := set_request_st (FR None) (sample_state no_failure sample_world).
Definition start : St := sample_state no_failure sample_world.
Definition handle : fuse_file_info :=
  {| fi_flags := 0; fi_fh := 0; fi_noflush := false; fi_parallel_direct_writes := false |}.



(** The loop serves one lookup. *)
Definition loop (ops : fuse_lowlevel_ops) (se : Z) : M Z :=
  match serve pafs_ops 77 (K_lookup 1 "a") with Some m => m;; mret 0 | None => mret 1 end.
Definition loop_mt (ops : fuse_lowlevel_ops) (se config : Z) : M Z := loop ops se.

Definition before : St := set_pafs_st
  {| root_ := mkInode (FD (-1)) 0 0 None (PH 0); inodes_ := ∅; entries := ∅; opts_ := opts_ sample_fs |} idle.

Lemma even_loop ops se : Even each_fd no_weight no_weight (loop ops se).
Proof.
  unfold loop. destruct (serve pafs_ops 77 (K_lookup 1 "a")) as [m|] eqn:E; [|by apply moves_ret].
  apply (moves_bind _ _ _ _ (λ _, 0)); [|intros; by apply moves_ret].
  exact (moves_serve each_fd no_weight no_weight eq_refl eq_refl eq_refl 77 _ m E eq_refl).
Qed.


End LedgerRun.
