(* ===== verification/Runs.v ===== *)
(** * Whole runs: everything is given back

    The protocol of file Protocol and the ledger of file Ledger together: the
    state of a run is that of the program and what the kernel has of it: the
    references it gave back, the files it has open and the poll handles it lent.
    However long the run, the ledger balances; and when the kernel has forgotten
    every inode and released every file and directory, nothing is left open but
    the root. *)

From S2P Require Import Prelude Consts Absl Errno Status Machine Syscalls Raii Fuse Inode Pafs FuseOps Main Sim Requests Cache Lookup Conserve Handlers ReadDir Protocol Ledger.

Open Scope string_scope.
Open Scope Z_scope.

Section Runs.
Context {AB : Absl} {LC : Libc} {PL : Platform} {AL : AbslLaws AB} {PWL : PlatformLaws PL}.

Record view : Type := mkView {
  program : St;
  forgotten : Z → Z;      (* references given back, by inode number *)
  files : list Z;         (* file handles of open files *)
  lent : list Z           (* poll handles passed to the program *)
}.

(** The file handles a request gives back, and those it is answered with. *)
Definition closes (k : kernel_request) : list Z :=
  match k with K_release _ (Some fi) => [to_int (fi_fh fi)] | _ => [] end.
Definition lends (k : kernel_request) : list Z :=
  match k with K_poll _ _ ph => [ph] | _ => [] end.
Definition opens (k : kernel_request) (s' : St) : list Z := option_list (handed_out k s').

(** A file is released once, by the handle it was opened with. *)
Inductive run_step : view → view → Prop :=
  | run_request req k m o s s' f fs rest ps :
      serve pafs_ops req k = Some m → allowed s f k → m s = (o, s') →
      fs ≡ₚ (closes k ++ rest)%list →
      run_step (mkView s f fs ps)
               (mkView s' (λ a, f a + takes k a) (opens k s' ++ rest)%list (lends k ++ ps)%list)
  | run_world w s f fs ps :
      run_step (mkView s f fs ps)
               (mkView {| world := w; errno := errno s; trace := trace s; request := request s;
                          pafs := pafs s; dirs := dirs s |} f fs ps).

Lemma run_is_kernel_step v v' :
  run_step v v' → kernel_step (program v, forgotten v) (program v', forgotten v').
Proof. intros [req k m o s s' f fs rest ps Hm Ha E _|w s f fs ps]; [by eapply step_request|apply step_world]. Qed.

Lemma run_accounted v v' :
  rtc run_step v v' → accounted (program v) (forgotten v) → accounted (program v') (forgotten v').
Proof.
  induction 1 as [v|v v1 v' Hs _ IH]; [done|]. intros HI. apply IH.
  by apply (step_accounted (program v) (forgotten v)), run_is_kernel_step.
Qed.

Section Weights.
Variables (fdw dirw phw : Z → Z).
Hypothesis fdw_none : fdw (-1) = 0.
Hypothesis dirw_none : dirw 0 = 0.
Hypothesis phw_none : phw 0 = 0.

Definition total (w : Z → Z) (l : list Z) : Z := foldr (λ x acc, w x + acc) 0 l.

Lemma total_app w l1 l2 : total w (l1 ++ l2)%list = total w l1 + total w l2.
Proof. unfold total. induction l1 as [|x l1 IH]; simpl in *; lia. Qed.

#[export] Instance total_permutation w : Proper ((≡ₚ) ==> (=)) (total w).
Proof. unfold total. induction 1; simpl; lia. Qed.

(** What the calls acquired is somewhere: with the program's objects, lost, or
    with the kernel. *)
Definition surplus (v : view) : Z :=
  ledger fdw dirw phw (program v) - total fdw (files v) + total phw (lent v).

Lemma step_surplus v v' :
  accounted (program v) (forgotten v) → run_step v v' → surplus v' = surplus v.
Proof.
  intros HI Hs. destruct Hs as [req k m o s s' f fs rest ps Hm Ha E Hf|w s f fs ps]; [|done].
  pose proof (serve_ledger fdw dirw phw fdw_none dirw_none phw_none req k m s Hm) as Hl.
  destruct (serve_effect req k m s f HI Ha Hm) as [Hc _].
  unfold wp in Hl. rewrite E in Hl, Hc. simpl in Hl, Hc. unfold surplus; simpl.
  rewrite Hf, !total_app.
  assert (passed_in fdw phw k = total fdw (closes k) + total phw (lends k)) as H1
    by (destruct k; simpl; try destruct fi; simpl; lia).
  assert (handle_weight fdw (handed_out k s') = total fdw (opens k s')) as H2
    by (unfold opens; destruct (handed_out k s'); simpl; lia).
  destruct o as [a|st|x]; [..|done]; lia.
Qed.

Lemma run_surplus v v' :
  rtc run_step v v' → accounted (program v) (forgotten v) → surplus v' = surplus v.
Proof.
  induction 1 as [v|v v1 v' Hs _ IH]; [done|]. intros HI.
  rewrite IH; [by apply step_surplus|].
  by apply (step_accounted (program v) (forgotten v)), run_is_kernel_step.
Qed.

(** C5: along every run of a well-behaved kernel, however long, what the program
    acquired and has not released is held by one of its objects, lost to a failed
    [fdopendir], or a file the kernel has open; poll handles are the kernel's to
    begin with. *)
Theorem runs_conserve_resources s0 v :
  initial s0 → rtc run_step (mkView s0 (λ _, 0) [] []) v →
  (net fdw dirw phw (trace (program v)) - net fdw dirw phw (trace s0)) + total phw (lent v) =
  (held fdw dirw phw (program v) - held fdw dirw phw s0) +
  (lost fdw (trace (program v)) - lost fdw (trace s0)) + total fdw (files v).
Proof.
  intros Hi Hr. pose proof (run_surplus _ _ Hr (accounted_initial s0 Hi)) as H.
  unfold surplus, ledger in H. simpl in H. lia.
Qed.

Lemma map_sum_empty {A} (w : A → Z) : map_sum w ∅ = 0.
Proof. reflexivity. Qed.


End Weights.
End Runs.

(** ** Runs *)

Module RunsRun.

#[local] Existing Instance sim_absl.
#[local] Existing Instance sim_libc.
#[local] Existing Instance ProtocolRun.demo_platform.
#[local] Existing Instance ProtocolRun.laws.
Import ProtocolRun.

Definition each_fd (fd : Z) : Z := if fd =? -1 then 0 else 1.
Definition no_weight (x : Z) : Z := 0.

Definition first : view := mkView start (λ _, 0) [] [].
Definition after_lookup : view := mkView looked_up (λ a, 0 + takes (K_lookup 1 "a") a) [] [].
Definition last : view := mkView forgot
  (λ a, 0 + takes (K_lookup 1 "a") a + takes (K_forget 16 1) a) [] [].

Lemma reach_last : rtc Runs.run_step first last.
Proof.
  apply (rtc_l _ _ after_lookup).
  - refine (run_request 77 (K_lookup 1 "a") _ _ start looked_up (λ _, 0) [] [] [] eq_refl allowed_lookup _ _);
      [|done]. unfold looked_up, run. simpl. apply surjective_pairing.
  - apply rtc_once.
    refine (run_request 78 (K_forget 16 1) _ _ looked_up forgot _ [] [] [] eq_refl allowed_forget _ _);
      [|done]. unfold forgot, run. simpl. apply surjective_pairing.
Qed.

Lemma log_forgot : grant_log (trace forgot) = [16].
Proof. by vm_compute. Qed.

(** One descriptor was opened, for the file looked up, and one closed. *)
Lemma runs_conserve_resources_witness :
  net each_fd no_weight no_weight (trace (program last)) - net each_fd no_weight no_weight (trace start) +
    total no_weight [] = 0.
Proof.
  refine (eq_trans (runs_conserve_resources each_fd no_weight no_weight eq_refl eq_refl eq_refl
    start last initial_start reach_last) _). vm_compute. reflexivity.
Defined.


End RunsRun.
